(** * Godview weather: multi-scale layer engine and normalized weather cache

    A shallow embedding of the two programs of the repository,

    - the server-side [WeatherService] (normalizers and the TTL cache in
      front of the upstream weather APIs), and
    - the client-side [WeatherInterface] (zoom classifier, layer lifecycle,
      transition layers and the tile prefetch queue),

    followed by the properties of the specification checked against them.

    Conventions.  A JavaScript number is a [jsnum]: [NaN], the two
    infinities, or a finite value carried as an exact rational (rounding
    to a binary64 is not modelled, and neither is the sign of zero).  A
    JavaScript string is a [string] whose characters stand for code units
    below 256.  Host functions whose result is implementation-defined
    ([Date] parsing, [Number::toString], [toFixed], the coercion of strings
    and objects to numbers) are the fields of [JSHost].  Code that throws
    returns a [completion]; code that also mutates module-level state is a
    computation of the monad [M]. *)

From Stdlib Require Import ZArith QArith Qabs Qround Qpower String Ascii List Bool Lia Lqa.
From stdpp Require Import base option list gmap strings.

Local Open Scope Z_scope.
Local Open Scope string_scope.
Local Open Scope list_scope.

Set Warnings "-register-all".

(* ===================================================================== *)
(** * Part I.  The embedding                                              *)
(* ===================================================================== *)

(** ** JavaScript numbers *)

Inductive jsnum : Type :=
| NaN
| NegInf
| Fin (q : Q)
| PosInf.

Module Num.

(** [a >= b] on numbers: false as soon as one side is NaN. *)
Definition ge (a b : jsnum) : bool :=
  match a, b with
  | NaN, _ | _, NaN => false
  | PosInf, _ => true
  | _, NegInf => true
  | NegInf, _ => false
  | Fin _, PosInf => false
  | Fin x, Fin y => Qle_bool y x
  end.

(** [a > b]. *)
Definition gt (a b : jsnum) : bool :=
  match a, b with
  | NaN, _ | _, NaN => false
  | NegInf, _ => false
  | _, PosInf => false
  | PosInf, _ => true
  | Fin _, NegInf => true
  | Fin x, Fin y => negb (Qle_bool x y)
  end.

Definition sign_pos (q : Q) : bool := negb (Qle_bool q 0).
Definition sign_neg (q : Q) : bool := negb (Qle_bool 0 q).

(** [a * b]; zero times an infinity is NaN. *)
Definition mul (a b : jsnum) : jsnum :=
  match a, b with
  | NaN, _ | _, NaN => NaN
  | Fin x, Fin y => Fin (Qred (x * y))
  | Fin x, PosInf | PosInf, Fin x =>
      if sign_pos x then PosInf else if sign_neg x then NegInf else NaN
  | Fin x, NegInf | NegInf, Fin x =>
      if sign_pos x then NegInf else if sign_neg x then PosInf else NaN
  | PosInf, PosInf | NegInf, NegInf => PosInf
  | PosInf, NegInf | NegInf, PosInf => NegInf
  end.

(** [a + b]. *)
Definition add (a b : jsnum) : jsnum :=
  match a, b with
  | NaN, _ | _, NaN => NaN
  | Fin x, Fin y => Fin (Qred (x + y))
  | PosInf, NegInf | NegInf, PosInf => NaN
  | PosInf, _ | _, PosInf => PosInf
  | NegInf, _ | _, NegInf => NegInf
  end.

Definition neg (a : jsnum) : jsnum :=
  match a with
  | NaN => NaN
  | Fin x => Fin (Qred (- x))
  | PosInf => NegInf
  | NegInf => PosInf
  end.

(** [a - b]. *)
Definition sub (a b : jsnum) : jsnum := add a (neg b).

Definition of_Z (z : Z) : jsnum := Fin (inject_Z z).

Definition is_zero (a : jsnum) : bool :=
  match a with Fin x => Qeq_bool x 0 | _ => false end.

(** [a <= b] and [a < b]. *)
Definition le (a b : jsnum) : bool := ge b a.
Definition lt (a b : jsnum) : bool := gt b a.

(** [Math.abs(a)]. *)
Definition abs (a : jsnum) : jsnum :=
  match a with
  | NaN => NaN
  | Fin x => Fin (Qred (Qabs x))
  | PosInf | NegInf => PosInf
  end.

(** [a / b].  As the sign of zero is not modelled, a zero divisor counts
    as [+0]. *)
Definition div (a b : jsnum) : jsnum :=
  match a, b with
  | NaN, _ | _, NaN => NaN
  | Fin x, Fin y =>
      if Qeq_bool y 0
      then (if sign_pos x then PosInf else if sign_neg x then NegInf else NaN)
      else Fin (Qred (x / y))
  | Fin _, PosInf | Fin _, NegInf => Fin 0
  | PosInf, Fin y => if sign_neg y then NegInf else PosInf
  | NegInf, Fin y => if sign_neg y then PosInf else NegInf
  | PosInf, PosInf | PosInf, NegInf | NegInf, PosInf | NegInf, NegInf => NaN
  end.

(** [Math.floor(a)]. *)
Definition floor (a : jsnum) : jsnum :=
  match a with
  | Fin x => Fin (inject_Z (Qfloor x))
  | _ => a
  end.

(** [Math.round(a)]: the nearest integer, the upper one of two that are
    equally near. *)
Definition round (a : jsnum) : jsnum :=
  match a with
  | Fin x => Fin (inject_Z (Qfloor (x + (1 # 2))))
  | _ => a
  end.

(** An integer, as a number. *)
Definition is_integer (q : Q) : bool := Qeq_bool q (inject_Z (Qfloor q)).

(** *** Rounding to binary64

    Where the outcome of a computation depends on how its operations
    round (the parsing of a decimal numeral, a product that can
    overflow, a floor or a comparison of a computed value), each
    operation of the code is the exact operation followed by the rounding
    of IEEE 754 to binary64, to nearest with ties to even. *)

(** The integer nearest to [x], the even one of two that are equally
    near. *)
Definition nearest_even (x : Q) : Z :=
  let f := Qfloor x in
  match (x - inject_Z f ?= 1 # 2)%Q with
  | Lt => f
  | Gt => f + 1
  | Eq => if Z.even f then f else f + 1
  end.

(** The exponent of the binade of a positive [q], not below that of the
    subnormal numbers: the floor of its binary logarithm, or -1022. *)
Definition exponent64 (q : Q) : Z :=
  Z.max (Z.log2 (Qfloor (q * inject_Z (2 ^ 1074))) - 1074) (-1022).

(** The binary64 number nearest to a positive [q]: [q] is rounded to a
    multiple of the unit in the last place of its binade, which leaves 53
    significant bits; from [2^1024] on the result is [Infinity]. *)
Definition binary64_pos (q : Q) : jsnum :=
  let ulp := (2 ^ (exponent64 q - 52))%Q in
  let v := (inject_Z (nearest_even (q / ulp)) * ulp)%Q in
  if Qle_bool (2 ^ 1024) v then PosInf else Fin (Qred v).

(** The Number value for the rational [q]. *)
Definition binary64 (q : Q) : jsnum :=
  match (q ?= 0)%Q with
  | Eq => Fin 0
  | Gt => binary64_pos q
  | Lt => neg (binary64_pos (- q))
  end.

Definition to64 (a : jsnum) : jsnum :=
  match a with Fin q => binary64 q | _ => a end.

(** [a + b], [a - b], [a * b] and [a / b] as binary64 computes them. *)
Definition add64 (a b : jsnum) : jsnum := to64 (add a b).
Definition sub64 (a b : jsnum) : jsnum := to64 (sub a b).
Definition mul64 (a b : jsnum) : jsnum := to64 (mul a b).
Definition div64 (a b : jsnum) : jsnum := to64 (div a b).

(** [Math.sqrt(a) > b] for a binary64 number [b >= 0], the root being
    rounded to nearest as IEEE 754 requires of it: the rounded root is
    above [b] exactly when the root is above the midpoint between [b] and
    the binary64 number that follows it.  The root of a binary64 number
    is never such a midpoint, which has 54 significant bits, so the
    comparison is made on the squares. *)
Definition sqrt64_gt (a : jsnum) (b : Q) : bool :=
  let midpoint := (b + 2 ^ (exponent64 b - 53))%Q in
  match a with
  | NaN | NegInf => false
  | PosInf => true
  | Fin x => (Qle_bool 0 x && negb (Qle_bool x (midpoint * midpoint)))%bool
  end.

End Num.

(** ** JavaScript values, exceptions and completions *)

Inductive jsval : Type :=
| VUndef
| VNull
| VBool (b : bool)
| VNum (n : jsnum)
| VStr (s : string)
| VArr (elems : list jsval)
| VObj (props : list (string * jsval)).

Inductive exn : Type :=
| TypeError (msg : string)
| Error (msg : string).

Inductive completion (A : Type) : Type :=
| Normal (a : A)
| Throw (e : exn).
Arguments Normal {A} a.
Arguments Throw {A} e.

Class Monad (m : Type -> Type) : Type :=
  { ret : forall {A}, A -> m A;
    bind : forall {A B}, m A -> (A -> m B) -> m B }.

Declare Scope js_scope.
Delimit Scope js_scope with js.

Notation "'let*' x ':=' c1 'in' c2" := (bind c1 (fun x => c2))
  (at level 10, x name, c1 at level 100, c2 at level 200) : js_scope.
Notation "c1 ;;; c2" := (bind c1 (fun _ => c2))
  (at level 100, c2 at level 200, right associativity) : js_scope.

Local Open Scope js_scope.

#[global] Instance completion_Monad : Monad completion :=
  {| ret := fun A a => Normal a;
     bind := fun A B c k =>
       match c with Normal a => k a | Throw e => Throw e end |}.

(** Stateful code that may throw.  The state survives a throw: what was
    mutated before the exception stays mutated. *)
Definition M (S A : Type) : Type := S -> completion A * S.

#[global] Instance M_Monad (S : Type) : Monad (M S) :=
  {| ret := fun A a s => (Normal a, s);
     bind := fun A B c k s =>
       match c s with
       | (Normal a, s') => k a s'
       | (Throw e, s') => (Throw e, s')
       end |}.

Definition throw {S A : Type} (e : exn) : M S A := fun s => (Throw e, s).
Definition gets {S A : Type} (f : S -> A) : M S A := fun s => (Normal (f s), s).
Definition modify {S : Type} (f : S -> S) : M S unit := fun s => (Normal tt, f s).
Definition lift {S A : Type} (c : completion A) : M S A := fun s => (c, s).

(** [try { body } catch (e) { handler }]. *)
Definition try_catch {S A : Type} (body : M S A) (handler : exn -> M S A) : M S A :=
  fun s =>
    match body s with
    | (Normal a, s') => (Normal a, s')
    | (Throw e, s') => handler e s'
    end.

(** [if (c) body]. *)
Definition when {S : Type} (c : bool) (body : M S unit) : M S unit :=
  if c then body else ret tt.

(** [l.forEach(f)]. *)
Fixpoint forEach {S A : Type} (f : A -> M S unit) (l : list A) : M S unit :=
  match l with
  | [] => ret tt
  | x :: l' => f x ;;; forEach f l'
  end.

(** [l.map(f)] for a callback that may throw. *)
Fixpoint mapC {A B : Type} (f : A -> completion B) (l : list A) : completion (list B) :=
  match l with
  | [] => Normal []
  | x :: l' =>
      let* y := f x in
      let* ys := mapC f l' in
      ret (y :: ys)
  end.

(** The part of the host that the programs rely on and that ECMAScript
    leaves to the implementation or that is too large to spell out. *)
Class JSHost : Type :=
  { (** [String(n)] for a number, as in a template literal. *)
    Number_toString : jsnum -> string;
    (** [Number(v)] for a string, and for an array or an object that has
        a primitive value. *)
    ToNumber_nonprimitive : jsval -> jsnum;
    (** [new Date(v).getTime()], for a [v] that has a primitive value. *)
    Date_getTime : jsval -> jsnum;
    (** [n.toFixed(2)]. *)
    toFixed2 : jsnum -> string }.

Module JS.

Fixpoint assoc (k : string) (props : list (string * jsval)) : jsval :=
  match props with
  | [] => VUndef
  | (k', v) :: rest => if String.eqb k k' then v else assoc k rest
  end.

(** [v.k]: reading a property of [undefined] or [null] throws. *)
Definition get (v : jsval) (k : string) : completion jsval :=
  match v with
  | VUndef => Throw (TypeError "Cannot read properties of undefined")
  | VNull => Throw (TypeError "Cannot read properties of null")
  | VObj props => Normal (assoc k props)
  | VArr l =>
      if String.eqb k "length" then Normal (VNum (Num.of_Z (Z.of_nat (length l))))
      else Normal VUndef
  | VStr s =>
      if String.eqb k "length" then Normal (VNum (Num.of_Z (Z.of_nat (String.length s))))
      else Normal VUndef
  | VBool _ | VNum _ => Normal VUndef
  end.

(** [v[i]] for a literal index. *)
Definition index (v : jsval) (i : nat) (numeral : string) : completion jsval :=
  match v with
  | VUndef => Throw (TypeError "Cannot read properties of undefined")
  | VNull => Throw (TypeError "Cannot read properties of null")
  | VArr l => Normal (nth i l VUndef)
  | VStr s =>
      Normal (match String.get i s with Some c => VStr (String c "") | None => VUndef end)
  | VObj props => Normal (assoc numeral props)
  | VBool _ | VNum _ => Normal VUndef
  end.

(** ToBoolean. *)
Definition truthy (v : jsval) : bool :=
  match v with
  | VUndef | VNull => false
  | VBool b => b
  | VNum NaN => false
  | VNum n => negb (Num.is_zero n)
  | VStr s => negb (String.eqb s "")
  | VArr _ | VObj _ => true
  end.

(** [a || b] with a side-effect free right operand. *)
Definition or (a b : jsval) : jsval := if truthy a then a else b.

Definition isArray (v : jsval) : bool :=
  match v with VArr _ => true | _ => false end.

(** [v.map(f)]: only an array has a [map] method among the values of a
    parsed JSON document. *)
Definition map (f : jsval -> completion jsval) (v : jsval) : completion jsval :=
  match v with
  | VArr l => let* l' := mapC f l in ret (VArr l')
  | VUndef => Throw (TypeError "Cannot read properties of undefined")
  | VNull => Throw (TypeError "Cannot read properties of null")
  | _ => Throw (TypeError "map is not a function")
  end.

(** Whether ToPrimitive returns on [v], a value of a parsed JSON
    document.  No property of such a value is callable.  An object is
    converted by the [toString] that it inherits, unless a property of its
    own shadows it: [valueOf], own or inherited, yields no primitive, and
    with its own [toString] not callable the conversion throws a
    TypeError.  An array is converted by [join], which converts its
    elements, [undefined] and [null] apart, in the same way. *)
Fixpoint convertible (v : jsval) : bool :=
  match v with
  | VObj props => negb (existsb (fun p => String.eqb (fst p) "toString") props)
  | VArr l => forallb convertible l
  | _ => true
  end.

Definition not_convertible : exn := TypeError "Cannot convert object to primitive value".

(** ToNumber. *)
Definition toNumber `{JSHost} (v : jsval) : completion jsnum :=
  match v with
  | VUndef => Normal NaN
  | VNull => Normal (Fin 0)
  | VBool b => Normal (if b then Fin 1 else Fin 0)
  | VNum n => Normal n
  | VStr _ => Normal (ToNumber_nonprimitive v)
  | VArr _ | VObj _ =>
      if convertible v then Normal (ToNumber_nonprimitive v) else Throw not_convertible
  end.

(** [a * b], [a > b] on arbitrary values with a numeric right operand. *)
Definition times `{JSHost} (a : jsval) (b : jsnum) : completion jsval :=
  let* n := toNumber a in
  ret (VNum (Num.mul64 n b)).

Definition greater `{JSHost} (a : jsval) (b : jsnum) : completion bool :=
  let* n := toNumber a in
  ret (Num.gt n b).

(** [new Date(v).getTime()]. *)
Definition getTime `{JSHost} (v : jsval) : completion jsval :=
  if convertible v then Normal (VNum (Date_getTime v)) else Throw not_convertible.

(** *** Strings *)

(** White space and line terminators among the code units below 256. *)
Definition is_space (c : ascii) : bool :=
  let n := nat_of_ascii c in
  (Nat.eqb n 9 || Nat.eqb n 10 || Nat.eqb n 11 || Nat.eqb n 12 || Nat.eqb n 13
   || Nat.eqb n 32 || Nat.eqb n 160)%bool.

Fixpoint drop_space (l : list ascii) : list ascii :=
  match l with
  | c :: l' => if is_space c then drop_space l' else l
  | [] => []
  end.

(** [s.trim()]. *)
Definition trim (s : string) : string :=
  string_of_list_ascii
    (rev (drop_space (rev (drop_space (list_ascii_of_string s))))).

(** [s.split(sep)] for a one-character separator. *)
Fixpoint split (sep : ascii) (s : string) : list string :=
  match s with
  | EmptyString => [""]
  | String c s' =>
      if Ascii.eqb c sep then "" :: split sep s'
      else match split sep s' with
           | h :: t => String c h :: t
           | [] => [String c ""]
           end
  end.

(** [l.indexOf(x)]; [None] stands for -1. *)
Fixpoint indexOf (x : string) (l : list string) : option nat :=
  match l with
  | [] => None
  | y :: l' => if String.eqb x y then Some 0%nat else S <$> indexOf x l'
  end.

(** [l[i]], where [l[-1]] is [undefined] like any index out of range. *)
Definition at_index (l : list string) (i : option nat) : option string :=
  match i with Some n => nth_error l n | None => None end.

(** [s.substring(a, b)] for literal [a <= b]. *)
Definition substring (a b : nat) (s : string) : string :=
  String.substring a (b - a) s.

(** A value inside a template literal; [undefined] prints as such. *)
Definition template (o : option string) : string :=
  match o with Some s => s | None => "undefined" end.

(** *** parseFloat *)

Definition digit (c : ascii) : option N :=
  let n := N_of_ascii c in
  if ((48 <=? n) && (n <=? 57))%N then Some (n - 48)%N else None.

(** Longest run of decimal digits: its value on top of [acc], how many
    there were, and the rest of the input. *)
Fixpoint digits (l : list ascii) (acc : N) (count : nat) : N * nat * list ascii :=
  match l with
  | c :: l' =>
      match digit c with
      | Some d => digits l' (10 * acc + d)%N (S count)
      | None => (acc, count, l)
      end
  | [] => (acc, count, [])
  end.

Fixpoint pow10 (n : nat) : positive :=
  match n with O => 1%positive | S n' => (10 * pow10 n')%positive end.

(** The exponent part [e[+-]ddd], read only when at least one digit follows. *)
Definition exponent (l : list ascii) : Z :=
  match l with
  | c :: l' =>
      if (Ascii.eqb c "e" || Ascii.eqb c "E")%bool then
        let '(neg, l'') :=
          match l' with
          | s :: r =>
              if Ascii.eqb s "-" then (true, r)
              else if Ascii.eqb s "+" then (false, r) else (false, l')
          | [] => (false, l')
          end in
        let '(v, n, _) := digits l'' 0%N 0%nat in
        match n with
        | O => 0
        | _ => if neg then - Z.of_N v else Z.of_N v
        end
      else 0
  | [] => 0
  end.

Definition scale10 (q : Q) (e : Z) : Q :=
  match e with
  | Z0 => q
  | Zpos p => q * inject_Z (Zpos (pow10 (Pos.to_nat p)))
  | Zneg p => q / inject_Z (Zpos (pow10 (Pos.to_nat p)))
  end.

Definition is_prefix (p l : list ascii) : bool :=
  String.prefix (string_of_list_ascii p) (string_of_list_ascii l).

(** The unsigned part of a StrDecimalLiteral prefix. *)
Definition unsigned_literal (l : list ascii) : jsnum :=
  if is_prefix (list_ascii_of_string "Infinity") l then PosInf
  else
    let '(ip, ni, r1) := digits l 0%N 0%nat in
    let '(mant, nf, r2) :=
      match r1 with
      | c :: r => if Ascii.eqb c "." then digits r ip 0%nat else (ip, 0%nat, r1)
      | [] => (ip, 0%nat, r1)
      end in
    match (ni + nf)%nat with
    | O => NaN
    | _ => Num.binary64 (scale10 (Z.of_N mant # pow10 nf) (exponent r2))
    end.

(** [parseFloat(s)]: leading white space is skipped and the longest prefix
    that is a decimal literal is read; its value is rounded to binary64. *)
Definition parseFloat (s : string) : jsnum :=
  match drop_space (list_ascii_of_string s) with
  | c :: l' =>
      if Ascii.eqb c "-" then Num.neg (unsigned_literal l')
      else if Ascii.eqb c "+" then unsigned_literal l'
      else unsigned_literal (c :: l')
  | [] => NaN
  end.

End JS.

(* ===================================================================== *)
(** ** Server side: [WeatherService]                                      *)
(* ===================================================================== *)

Module WeatherService.

(** What one [axios.get] call meets upstream. *)
Inductive Response : Type :=
| NetworkError
| HttpResponse (status : Z) (data : jsval).

(** An entry of the node-cache store: the value and the instant (epoch
    milliseconds) after which it is expired. *)
Record Entry : Type := { value : jsval; expires : Z }.

(** The service: its API key, the module-level [weatherCache], and the
    upstream URLs requested so far, oldest first. *)
Record State : Type :=
  { openWeatherMapKey : string;
    weatherCache : gmap string Entry;
    requests : list string }.

Definition set_cache (f : gmap string Entry -> gmap string Entry) (st : State) : State :=
  {| openWeatherMapKey := openWeatherMapKey st;
     weatherCache := f (weatherCache st);
     requests := requests st |}.

Definition add_request (url : string) (st : State) : State :=
  {| openWeatherMapKey := openWeatherMapKey st;
     weatherCache := weatherCache st;
     requests := requests st ++ [url] |}.

(** [new NodeCache({ stdTTL: 1800 })], in seconds. *)
Definition stdTTL : Z := 1800.

(** [weatherCache.get(key)] at instant [now]: an expired entry is dropped
    and reads as [undefined]. *)
Definition cache_get (key : string) (now : Z) : M State jsval :=
  fun st =>
    match weatherCache st !! key with
    | Some e =>
        if (expires e <? now)%Z then (Normal VUndef, set_cache (delete key) st)
        else (Normal (value e), st)
    | None => (Normal VUndef, st)
    end.

(** [weatherCache.set(key, v)] at instant [now], with the standard TTL. *)
Definition cache_set (key : string) (v : jsval) (now : Z) : M State unit :=
  modify (set_cache (<[key := {| value := v; expires := now + stdTTL * 1000 |}]>)).

(** [weatherCache.set(key, v, ttl)] at instant [now], for [ttl] seconds. *)
Definition cache_set_ttl (key : string) (v : jsval) (ttl : Z) (now : Z) : M State unit :=
  modify (set_cache (<[key := {| value := v; expires := now + ttl * 1000 |}]>)).

(** [await axios.get(url)], yielding [response.data]: the call is made,
    and it throws on a network error and on a status outside 2xx. *)
Definition axios_get (url : string) (resp : Response) : M State jsval :=
  modify (add_request url) ;;;
  match resp with
  | NetworkError => throw (Error "Network Error")
  | HttpResponse status data =>
      if ((200 <=? status)%Z && (status <? 300)%Z)%bool then ret data
      else throw (Error "Request failed with status code")
  end.

Section Host.
Context `{JSHost}.

(** [normalizeOpenWeatherData(data)]. *)
Definition normalizeOpenWeatherData (data : jsval) : completion jsval :=
  let* name := JS.get data "name" in
  let* sys := JS.get data "sys" in
  let* country := JS.get sys "country" in
  let* coord := JS.get data "coord" in
  let* lat := JS.get coord "lat" in
  let* lon := JS.get coord "lon" in
  let* weather := JS.get data "weather" in
  let* weather0 := JS.index weather 0 "0" in
  let* main := JS.get weather0 "main" in
  let* description := JS.get weather0 "description" in
  let* icon := JS.get weather0 "icon" in
  let* dmain := JS.get data "main" in
  let* temp := JS.get dmain "temp" in
  let* feels_like := JS.get dmain "feels_like" in
  let* humidity := JS.get dmain "humidity" in
  let* pressure := JS.get dmain "pressure" in
  let* wind := JS.get data "wind" in
  let* speed := JS.get wind "speed" in
  let* deg := JS.get wind "deg" in
  let* clouds := JS.get data "clouds" in
  let* all := JS.get clouds "all" in
  let* visibility := JS.get data "visibility" in
  let* dt := JS.get data "dt" in
  let* timestamp := JS.times dt (Fin 1000) in
  let* sunrise := JS.get sys "sunrise" in
  let* sunrise := JS.times sunrise (Fin 1000) in
  let* sunset := JS.get sys "sunset" in
  let* sunset := JS.times sunset (Fin 1000) in
  ret (VObj
    [ ("type", VStr "current_weather");
      ("location", VObj
         [ ("name", name); ("country", country); ("lat", lat); ("lon", lon) ]);
      ("weather", VObj
         [ ("main", main); ("description", description); ("icon", icon);
           ("temperature", temp); ("feels_like", feels_like);
           ("humidity", humidity); ("pressure", pressure);
           ("wind_speed", speed); ("wind_direction", deg);
           ("clouds", all); ("visibility", visibility) ]);
      ("timestamp", timestamp);
      ("sunrise", sunrise);
      ("sunset", sunset) ]).

(** [getFakeWeatherData(lat, lon)] with [Date.now()] reading [now]. *)
Definition getFakeWeatherData (lat lon : jsnum) (now : Z) : jsval :=
  VObj
    [ ("type", VStr "current_weather");
      ("location", VObj
         [ ("name", VStr "Test Location"); ("country", VStr "Test Country");
           ("lat", VNum lat); ("lon", VNum lon) ]);
      ("weather", VObj
         [ ("main", VStr "Clear"); ("description", VStr "clear sky");
           ("icon", VStr "01d");
           ("temperature", VNum (Fin 25)); ("feels_like", VNum (Fin 26));
           ("humidity", VNum (Fin 60)); ("pressure", VNum (Fin 1015));
           ("wind_speed", VNum (Fin 5)); ("wind_direction", VNum (Fin 90));
           ("clouds", VNum (Fin 20)); ("visibility", VNum (Fin 10000));
           ("rain", VObj [ ("1h", VNum (Fin 0)) ]) ]);
      ("timestamp", VNum (Num.of_Z now));
      ("sunrise", VNum (Num.of_Z (now - 21600000)));
      ("sunset", VNum (Num.of_Z (now + 21600000))) ].

(** The fingerprint of a current-weather request. *)
Definition current_cacheKey (lat lon : jsnum) : string :=
  "current_weather_" ++ Number_toString lat ++ "_" ++ Number_toString lon.

Definition current_url (key : string) (lat lon : jsnum) : string :=
  "https://api.openweathermap.org/data/2.5/weather?lat=" ++ Number_toString lat
  ++ "&lon=" ++ Number_toString lon ++ "&appid=" ++ key ++ "&units=metric".

(** [async getCurrentWeather(lat, lon)], called at instant [now]; [resp]
    is what the upstream answers if it is asked. *)
Definition getCurrentWeather (lat lon : jsnum) (now : Z) (resp : Response)
  : M State jsval :=
  let cacheKey := current_cacheKey lat lon in
  let* cachedData := cache_get cacheKey now in
  if JS.truthy cachedData then ret cachedData
  else
    try_catch
      (let* key := gets openWeatherMapKey in
       let* data := axios_get (current_url key lat lon) resp in
       let* normalizedData := lift (normalizeOpenWeatherData data) in
       cache_set cacheKey normalizedData now ;;;
       ret normalizedData)
      (fun error => ret (getFakeWeatherData lat lon now)).

(** One point of a storm track; [forecast] points also carry a category. *)
Definition track_point (with_category : bool) (point : jsval) : completion jsval :=
  let* lat := JS.get point "lat" in
  let* lon := JS.get point "lon" in
  let* time := JS.get point "time" in
  let* timestamp := JS.getTime time in
  let* windSpeed := JS.get point "windSpeed" in
  if with_category then
    let* category := JS.get point "category" in
    ret (VObj [ ("lat", lat); ("lon", lon);
                ("timestamp", timestamp);
                ("wind_speed", windSpeed); ("category", category) ])
  else
    ret (VObj [ ("lat", lat); ("lon", lon);
                ("timestamp", timestamp);
                ("wind_speed", windSpeed) ]).

Definition normalize_storm (now : Z) (storm : jsval) : completion jsval :=
  let* id := JS.get storm "id" in
  let* name := JS.get storm "name" in
  let* classification := JS.get storm "classification" in
  let* lat := JS.get storm "lat" in
  let* lon := JS.get storm "lon" in
  let* movement := JS.get storm "movement" in
  let* direction := JS.get movement "direction" in
  let* speed := JS.get movement "speed" in
  let* pressure := JS.get storm "pressure" in
  let* windSpeed := JS.get storm "windSpeed" in
  let* track := JS.get storm "track" in
  let* path := JS.map (track_point false) track in
  let* forecast := JS.get storm "forecast" in
  let* forecast' := JS.map (track_point true) forecast in
  ret (VObj
    [ ("type", VStr "hurricane");
      ("id", JS.or id (VStr ("hurricane-" ++ Number_toString (Num.of_Z now))));
      ("name", name);
      ("category", JS.or classification (VStr "Unknown"));
      ("location", VObj [ ("lat", lat); ("lon", lon) ]);
      ("movement", VObj [ ("direction", direction); ("speed", speed) ]);
      ("pressure", pressure);
      ("wind_speed", windSpeed);
      ("path", path);
      ("forecast", forecast') ]).

(** [normalizeHurricaneData(data)]. *)
Definition normalizeHurricaneData (now : Z) (data : jsval) : completion jsval :=
  let* activeStorms := JS.get data "activeStorms" in
  if (negb (JS.truthy activeStorms) || negb (JS.isArray activeStorms))%bool
  then ret (VArr [])
  else JS.map (normalize_storm now) activeStorms.

Definition normalize_source (source : jsval) : completion jsval :=
  let* id := JS.get source "id" in
  let* url := JS.get source "url" in
  ret (VObj [ ("id", id); ("url", url) ]).

Definition normalize_event (event : jsval) : completion jsval :=
  let* g := JS.get event "geometry" in
  let* geometry :=
    (if JS.truthy g then
       let* len := JS.get g "length" in
       bind (JS.greater len (Fin 0))
         (fun nonempty : bool => if nonempty then JS.index g 0 "0" else ret VNull)
     else ret VNull) in
  let* id := JS.get event "id" in
  let* title := JS.get event "title" in
  let* description := JS.get event "description" in
  let* categories := JS.get event "categories" in
  let* category0 := JS.index categories 0 "0" in
  let* category := JS.get category0 "title" in
  let* location :=
    (if JS.truthy geometry then
       let* coordinates := JS.get geometry "coordinates" in
       let* lat := JS.index coordinates 1 "1" in
       let* lon := JS.index coordinates 0 "0" in
       ret (VObj [ ("lat", lat); ("lon", lon) ])
     else ret VNull) in
  let* timestamp :=
    (if JS.truthy geometry then
       let* date := JS.get geometry "date" in
       JS.getTime date
     else ret VNull) in
  let* sources := JS.get event "sources" in
  let* sources' := JS.map normalize_source sources in
  ret (VObj
    [ ("type", VStr "natural_disaster");
      ("id", id);
      ("title", title);
      ("description", JS.or description (VStr ""));
      ("category", category);
      ("location", location);
      ("timestamp", timestamp);
      ("sources", sources') ]).

(** [normalizeDisasterData(data)]. *)
Definition normalizeDisasterData (data : jsval) : completion jsval :=
  let* events := JS.get data "events" in
  if (negb (JS.truthy events) || negb (JS.isArray events))%bool
  then ret (VArr [])
  else JS.map normalize_event events.

Definition opt_str (o : option string) : jsval :=
  match o with Some s => VStr s | None => VUndef end.

(** The columns of a wildfire feed, located by name in its header. *)
Record Columns : Type :=
  { latIndex : option nat;
    lonIndex : option nat;
    dateIndex : option nat;
    timeIndex : option nat;
    brightnessIndex : option nat;
    confidenceIndex : option nat }.

Definition columns (headers : list string) : Columns :=
  {| latIndex := JS.indexOf "latitude" headers;
     lonIndex := JS.indexOf "longitude" headers;
     dateIndex := JS.indexOf "acq_date" headers;
     timeIndex := JS.indexOf "acq_time" headers;
     brightnessIndex := JS.indexOf "bright_ti4" headers;
     confidenceIndex := JS.indexOf "confidence" headers |}.

(** The string handed to [new Date] for one detection. *)
Definition acquisition (date : option string) (time : string) : string :=
  JS.template date ++ " " ++ JS.substring 0 2 time ++ ":" ++ JS.substring 2 4 time.

(** The callback of [map] in [normalizeWildfireData]; [suffix] is what
    [Math.random().toString(36)] gave for this row. *)
Definition wildfire_row (now : Z) (cols : Columns) (suffix : string) (line : string)
  : completion jsval :=
  let values := JS.split "," line in
  let* time :=
    match JS.at_index values (timeIndex cols) with
    | Some t => Normal t
    | None => Throw (TypeError "Cannot read properties of undefined")
    end in
  ret (VObj
    [ ("type", VStr "wildfire");
      ("id", VStr ("fire-" ++ Number_toString (Num.of_Z now) ++ "-"
                   ++ JS.substring 2 9 suffix));
      ("location", VObj
         [ ("lat", VNum (JS.parseFloat (JS.template (JS.at_index values (latIndex cols)))));
           ("lon", VNum (JS.parseFloat (JS.template (JS.at_index values (lonIndex cols))))) ]);
      ("date", opt_str (JS.at_index values (dateIndex cols)));
      ("time", VStr time);
      ("brightness",
        VNum (JS.parseFloat (JS.template (JS.at_index values (brightnessIndex cols)))));
      ("confidence", opt_str (JS.at_index values (confidenceIndex cols)));
      ("timestamp",
        VNum (Date_getTime
                (VStr (acquisition (JS.at_index values (dateIndex cols)) time)))) ]).

(** [l.map(f)] where the callback also gets the row number. *)
Fixpoint mapCi {A B : Type} (f : nat -> A -> completion B) (i : nat) (l : list A)
  : completion (list B) :=
  match l with
  | [] => Normal []
  | x :: l' =>
      let* y := f i x in
      let* ys := mapCi f (S i) l' in
      ret (y :: ys)
  end.

(** The data rows kept by the normalizer. *)
Definition detection_rows (lines : list string) : list string :=
  List.filter (fun line => negb (String.eqb (JS.trim line) "")) (tail lines).

(** [normalizeWildfireData(csvData)]; [random36 i] is the rendering in
    base 36 of the number drawn for the row [i] that is kept. *)
Definition normalizeWildfireData (now : Z) (random36 : nat -> string)
  (csvData : string) : completion (list jsval) :=
  let lines := JS.split "010" csvData in
  let headers := JS.split "," (hd "" lines) in
  let cols := columns headers in
  mapCi (fun i line => wildfire_row now cols (random36 i) line) 0 (detection_rows lines).

(** One entry of [data.list] in [normalizeForecastData]. *)
Definition forecast_item (item : jsval) : completion jsval :=
  let* dt := JS.get item "dt" in
  let* timestamp := JS.times dt (Fin 1000) in
  let* main := JS.get item "main" in
  let* temp := JS.get main "temp" in
  let* feels_like := JS.get main "feels_like" in
  let* humidity := JS.get main "humidity" in
  let* pressure := JS.get main "pressure" in
  let* weather := JS.get item "weather" in
  let* weather0 := JS.index weather 0 "0" in
  let* wmain := JS.get weather0 "main" in
  let* description := JS.get weather0 "description" in
  let* icon := JS.get weather0 "icon" in
  let* wind := JS.get item "wind" in
  let* speed := JS.get wind "speed" in
  let* deg := JS.get wind "deg" in
  let* clouds := JS.get item "clouds" in
  let* all := JS.get clouds "all" in
  let* pop := JS.get item "pop" in
  ret (VObj
    [ ("timestamp", timestamp);
      ("temperature", temp); ("feels_like", feels_like);
      ("humidity", humidity); ("pressure", pressure);
      ("weather", VObj
         [ ("main", wmain); ("description", description); ("icon", icon) ]);
      ("wind_speed", speed); ("wind_direction", deg);
      ("clouds", all); ("pop", pop) ]).

(** [normalizeForecastData(data)]. *)
Definition normalizeForecastData (data : jsval) : completion jsval :=
  let* city := JS.get data "city" in
  let* name := JS.get city "name" in
  let* country := JS.get city "country" in
  let* coord := JS.get city "coord" in
  let* lat := JS.get coord "lat" in
  let* lon := JS.get coord "lon" in
  let* list := JS.get data "list" in
  let* forecast := JS.map forecast_item list in
  ret (VObj
    [ ("type", VStr "forecast");
      ("location", VObj
         [ ("name", name); ("country", country); ("lat", lat); ("lon", lon) ]);
      ("forecast", forecast) ]).

(** *** The fetchers without a fallback

    Each one is called at the instant [now]; if the upstream is asked, its
    answer [resp] is there at the instant [arrival], which is when the
    normalizer runs and the result is stored.  The headers of a request
    are not recorded. *)

Definition forecast_cacheKey (lat lon : jsnum) : string :=
  "forecast_" ++ Number_toString lat ++ "_" ++ Number_toString lon.

Definition forecast_url (key : string) (lat lon : jsnum) : string :=
  "https://api.openweathermap.org/data/2.5/forecast?lat=" ++ Number_toString lat
  ++ "&lon=" ++ Number_toString lon ++ "&appid=" ++ key ++ "&units=metric".

(** [async getWeatherForecast(lat, lon)]. *)
Definition getWeatherForecast (lat lon : jsnum) (now arrival : Z) (resp : Response)
  : M State jsval :=
  let cacheKey := forecast_cacheKey lat lon in
  let* cachedData := cache_get cacheKey now in
  if JS.truthy cachedData then ret cachedData
  else
    try_catch
      (let* key := gets openWeatherMapKey in
       let* data := axios_get (forecast_url key lat lon) resp in
       let* normalizedData := lift (normalizeForecastData data) in
       cache_set cacheKey normalizedData arrival ;;;
       ret normalizedData)
      (fun error => throw (Error "Failed to fetch weather forecast data")).

(** [async getHurricaneData()]. *)
Definition getHurricaneData (now arrival : Z) (resp : Response) : M State jsval :=
  let cacheKey := "hurricane_data" in
  let* cachedData := cache_get cacheKey now in
  if JS.truthy cachedData then ret cachedData
  else
    try_catch
      (let* data := axios_get "https://www.nhc.noaa.gov/CurrentStorms.json" resp in
       let* normalizedData := lift (normalizeHurricaneData arrival data) in
       cache_set cacheKey normalizedData arrival ;;;
       ret normalizedData)
      (fun error => throw (Error "Failed to fetch hurricane data")).

(** [csvData.split('\n')] is there for a string only. *)
Definition csv_text (data : jsval) : completion string :=
  match data with
  | VStr s => Normal s
  | VUndef => Throw (TypeError "Cannot read properties of undefined")
  | VNull => Throw (TypeError "Cannot read properties of null")
  | _ => Throw (TypeError "csvData.split is not a function")
  end.

Definition wildfire_cacheKey (days : jsnum) : string :=
  "wildfire_data_" ++ Number_toString days.

(** [nasaFirmsApiKey] is the field that the constructor reads from the
    environment; it is [undefined] when the variable is not set. *)
Definition wildfire_url (nasaFirmsApiKey : option string) (days : jsnum) : string :=
  "https://firms.modaps.eosdis.nasa.gov/api/country/csv/"
  ++ JS.template nasaFirmsApiKey ++ "/VIIRS_SNPP_NRT/USA/" ++ Number_toString days.

(** [async getWildfireData(days = 1)]. *)
Definition getWildfireData (nasaFirmsApiKey : option string)
  (random36 : nat -> string) (days : option jsnum) (now arrival : Z)
  (resp : Response) : M State jsval :=
  let days := match days with Some d => d | None => Fin 1 end in
  let cacheKey := wildfire_cacheKey days in
  let* cachedData := cache_get cacheKey now in
  if JS.truthy cachedData then ret cachedData
  else
    try_catch
      (let* data := axios_get (wildfire_url nasaFirmsApiKey days) resp in
       let* csvData := lift (csv_text data) in
       let* rows := lift (normalizeWildfireData arrival random36 csvData) in
       let normalizedData := VArr rows in
       cache_set cacheKey normalizedData arrival ;;;
       ret normalizedData)
      (fun error => throw (Error "Failed to fetch wildfire data")).

(** [async getNaturalDisasterData()]. *)
Definition getNaturalDisasterData (now arrival : Z) (resp : Response) : M State jsval :=
  let cacheKey := "natural_disaster_data" in
  let* cachedData := cache_get cacheKey now in
  if JS.truthy cachedData then ret cachedData
  else
    try_catch
      (let* data := axios_get "https://eonet.gsfc.nasa.gov/api/v3/events" resp in
       let* normalizedData := lift (normalizeDisasterData data) in
       cache_set cacheKey normalizedData arrival ;;;
       ret normalizedData)
      (fun error => throw (Error "Failed to fetch natural disaster data")).

End Host.

(** *** Tile metadata *)

(** [params.bounds]: the four sides are numbers; a side that is missing
    reads as [NaN]. *)
Record TileBounds : Type :=
  { north : jsnum; south : jsnum; east : jsnum; west : jsnum }.

(** What the tile code takes from the host: the text of a [bounds] object
    and the functions of [Math] that are not rational. *)
Class TileHost : Type :=
  { (** [JSON.stringify(bounds)]. *)
    JSON_stringify : TileBounds -> string;
    Math_PI : jsnum;
    Math_log : jsnum -> jsnum;
    Math_tan : jsnum -> jsnum;
    Math_cos : jsnum -> jsnum;
    (** [Math.pow(2, z)] for a finite [z] that is not an integer. *)
    Math_pow2 : Q -> jsnum }.

(** [Math.pow(2, zoom)]. *)
Definition pow2 `{TileHost} (zoom : jsnum) : jsnum :=
  match zoom with
  | NaN => NaN
  | PosInf => PosInf
  | NegInf => Fin 0
  | Fin q =>
      if Num.is_integer q then Num.binary64 (2 ^ Qfloor q)%Q
      else Math_pow2 q
  end.

Record TileCoverage : Type :=
  { minX : jsnum; maxX : jsnum; minY : jsnum; maxY : jsnum;
    coverage_zoom : jsnum; tileCount : jsnum }.

(** The row of tiles at the latitude [lat], in degrees, out of [n]:
    [Math.floor((1 - Math.log(Math.tan(l) + 1 / Math.cos(l)) / Math.PI)
    / 2 * n)] for [l = lat * Math.PI / 180]. *)
Definition tile_row `{TileHost} (lat n : jsnum) : jsnum :=
  let l := Num.div64 (Num.mul64 lat Math_PI) (Fin 180) in
  Num.floor
    (Num.mul64
       (Num.div64
          (Num.sub64 (Fin 1)
             (Num.div64
                (Math_log (Num.add64 (Math_tan l) (Num.div64 (Fin 1) (Math_cos l))))
                Math_PI))
          (Fin 2))
       n).

(** The column of tiles at the longitude [lng] out of [n]:
    [Math.floor((lng + 180) / 360 * n)]. *)
Definition tile_column (lng n : jsnum) : jsnum :=
  Num.floor (Num.mul64 (Num.div64 (Num.add64 lng (Fin 180)) (Fin 360)) n).

(** [calculateTileCoverage(bounds, zoom)]. *)
Definition calculateTileCoverage `{TileHost} (bounds : TileBounds) (zoom : jsnum)
  : TileCoverage :=
  let n := pow2 zoom in
  let minX := tile_column (west bounds) n in
  let maxX := tile_column (east bounds) n in
  let minY := tile_row (north bounds) n in
  let maxY := tile_row (south bounds) n in
  {| minX := minX; maxX := maxX; minY := minY; maxY := maxY;
     coverage_zoom := zoom;
     tileCount :=
       Num.mul64 (Num.add64 (Num.sub64 maxX minX) (Fin 1))
                 (Num.add64 (Num.sub64 maxY minY) (Fin 1)) |}.

Definition coverage_value (c : TileCoverage) : jsval :=
  VObj [ ("minX", VNum (minX c)); ("maxX", VNum (maxX c));
         ("minY", VNum (minY c)); ("maxY", VNum (maxY c));
         ("zoom", VNum (coverage_zoom c)); ("tileCount", VNum (tileCount c)) ].

(** The property names that every object literal inherits from
    [Object.prototype]. *)
Definition Object_prototype : list string :=
  [ "constructor"; "__defineGetter__"; "__defineSetter__"; "hasOwnProperty";
    "__lookupGetter__"; "__lookupSetter__"; "isPrototypeOf";
    "propertyIsEnumerable"; "toString"; "valueOf"; "__proto__";
    "toLocaleString" ].

Definition inherited (k : string) : bool := existsb (String.eqb k) Object_prototype.

(** What a chain of property reads on an object literal arrives at: an
    entry of the literal, a built-in function or object reached through
    the prototype, or [undefined] or [null]. *)
Inductive Property (A : Type) : Type :=
| Own (a : A)
| Builtin (name : string)
| Nullish.
Arguments Own {A} a.
Arguments Builtin {A} name.
Arguments Nullish {A}.

Definition defined {A : Type} (p : Property A) : bool :=
  match p with Nullish => false | _ => true end.

(** [o[k]] for an object literal with the entries [own]. *)
Definition literal_get {A : Type} (own : string -> option A) (k : string) : Property A :=
  match own k with
  | Some a => Own a
  | None => if inherited k then Builtin k else Nullish
  end.

(** [b[k]] for the built-in [b] that [Object.prototype] holds under [name].
    Every built-in inherits the properties of [Object.prototype] in its
    turn, but the prototype of [Object.prototype] itself is [null].  The
    properties of its own that a built-in function has ([length], [name],
    ...) are left out: none of their names is an entry of [resolutions] or
    inherited by it, so that a request with such a zoom category is
    refused whatever they hold. *)
Definition builtin_get {A : Type} (name k : string) : Property A :=
  if inherited k
  then (if (String.eqb name "__proto__" && String.eqb k "__proto__")%bool
        then Nullish else Builtin k)
  else Nullish.

Record Resolution : Type :=
  { tileSize : Z; maxZoom : Z; minZoom : Z; resolution : string }.

(** The entries of [resolutions]. *)
Definition resolutions (zoomCategory : string) : option Resolution :=
  if String.eqb zoomCategory "GLOBAL" then
    Some {| tileSize := 256; maxZoom := 3; minZoom := 0; resolution := "low" |}
  else if String.eqb zoomCategory "REGIONAL" then
    Some {| tileSize := 256; maxZoom := 8; minZoom := 3; resolution := "medium" |}
  else if String.eqb zoomCategory "LOCAL" then
    Some {| tileSize := 256; maxZoom := 22; minZoom := 8; resolution := "high" |}
  else None.

Record LayerConfig : Type := { url : string; attribution : string }.

(** The copyright sign, one code unit, and the name of the provider. *)
Definition attribution_text : string :=
  String (ascii_of_nat 169) " OpenWeatherMap".

(** The entries of [layerConfigs[layerType]] for a layer type whose tiles
    are called [product] in the global view and [code] in the two others. *)
Definition zoom_configs (key product code : string) (zoomCategory : string)
  : option LayerConfig :=
  if String.eqb zoomCategory "GLOBAL" then
    Some {| url := "https://tile.openweathermap.org/map/" ++ product
                   ++ "/{z}/{x}/{y}.png?appid=" ++ key;
            attribution := attribution_text |}
  else if String.eqb zoomCategory "REGIONAL" then
    Some {| url := "https://maps.openweathermap.org/maps/2.0/weather/" ++ code
                   ++ "/{z}/{x}/{y}?appid=" ++ key ++ "&fill_bound=true";
            attribution := attribution_text |}
  else if String.eqb zoomCategory "LOCAL" then
    Some {| url := "https://maps.openweathermap.org/maps/2.0/weather/" ++ code
                   ++ "/{z}/{x}/{y}?appid=" ++ key ++ "&fill_bound=true&opacity=0.9";
            attribution := attribution_text |}
  else None.

(** The entries of [layerConfigs], with the API key of the service. *)
Definition layerConfigs (key : string) (layerType : string)
  : option (string -> option LayerConfig) :=
  if String.eqb layerType "temperature" then Some (zoom_configs key "temp_new" "TA2")
  else if String.eqb layerType "precipitation" then
    Some (zoom_configs key "precipitation_new" "PAC0")
  else if String.eqb layerType "wind" then Some (zoom_configs key "wind_new" "WND")
  else if String.eqb layerType "cloud" then Some (zoom_configs key "clouds_new" "CL")
  else None.

(** [layerConfigs[layerType]?.[zoomCategory]]. *)
Definition config_of (key layerType zoomCategory : string) : Property LayerConfig :=
  match literal_get (layerConfigs key) layerType with
  | Own configs => literal_get configs zoomCategory
  | Builtin name => builtin_get name zoomCategory
  | Nullish => Nullish
  end.

(** A field of a record reached by a chain of reads: a built-in has no
    property of the names read here. *)
Definition field {A : Type} (f : A -> jsval) (p : Property A) : jsval :=
  match p with Own a => f a | _ => VUndef end.

Definition number_field {A : Type} (f : A -> Z) (p : Property A) : jsnum :=
  match p with Own a => Num.of_Z (f a) | _ => NaN end.

(** A parameter that is a string or is missing, as a condition. *)
Definition given (o : option string) : bool :=
  match o with Some s => negb (String.eqb s "") | None => false end.

Section Tiles.
Context `{TileHost}.

Definition tiles_cacheKey (layerType zoomCategory : string) (bounds : option TileBounds)
  : string :=
  "tiles_" ++ layerType ++ "_" ++ zoomCategory ++ "_"
  ++ match bounds with Some b => JSON_stringify b | None => "global" end.

(** [async getWeatherTileMetadata(params)] for [params] that hold a layer
    type and a zoom category that are strings or are missing, called at
    the instant [now]. *)
Definition getWeatherTileMetadata (layerType zoomCategory : option string)
  (bounds : option TileBounds) (now : Z) : M State jsval :=
  if (negb (given layerType) || negb (given zoomCategory))%bool
  then throw (Error "Layer type and zoom category are required")
  else
    let layerType := JS.template layerType in
    let zoomCategory := JS.template zoomCategory in
    let cacheKey := tiles_cacheKey layerType zoomCategory bounds in
    let* cachedData := cache_get cacheKey now in
    if JS.truthy cachedData then ret cachedData
    else
      try_catch
        (let* key := gets openWeatherMapKey in
         let config := config_of key layerType zoomCategory in
         let res := literal_get resolutions zoomCategory in
         if (negb (defined config) || negb (defined res))%bool
         then throw (Error ("Invalid layer type " ++ layerType ++ " or zoom category "
                            ++ zoomCategory))
         else
           let tileCoverage :=
             match bounds with
             | Some b =>
                 let midZoom :=
                   Num.floor
                     (Num.div (Num.add (number_field minZoom res)
                                       (number_field maxZoom res))
                              (Fin 2)) in
                 coverage_value (calculateTileCoverage b midZoom)
             | None => VNull
             end in
           let metadata :=
             VObj
               [ ("url", field (fun c => VStr (url c)) config);
                 ("tileSize", field (fun r => VNum (Num.of_Z (tileSize r))) res);
                 ("minZoom", field (fun r => VNum (Num.of_Z (minZoom r))) res);
                 ("maxZoom", field (fun r => VNum (Num.of_Z (maxZoom r))) res);
                 ("resolution", field (fun r => VStr (resolution r)) res);
                 ("attribution", field (fun c => VStr (attribution c)) config);
                 ("tileCoverage", tileCoverage);
                 ("timestamp", VNum (Num.of_Z now)) ] in
           cache_set_ttl cacheKey metadata 600 now ;;;
           ret metadata)
        (fun error =>
           throw (Error ("Failed to generate tile metadata for " ++ layerType))).

End Tiles.

End WeatherService.

(* ===================================================================== *)
(** ** Client side: [WeatherInterface]                                    *)
(* ===================================================================== *)

Module WeatherInterface.

(** *** Zoom categories *)

Inductive ZoomCategory : Type := GLOBAL | REGIONAL | LOCAL.

#[global] Instance ZoomCategory_eq_dec : EqDecision ZoomCategory.
Proof. solve_decision. Defined.

Definition category_name (c : ZoomCategory) : string :=
  match c with GLOBAL => "GLOBAL" | REGIONAL => "REGIONAL" | LOCAL => "LOCAL" end.


Record ZoomBand : Type := { band_min : Q; band_max : Q }.

(** [static zoomLevels]. *)
Definition zoomLevels (c : ZoomCategory) : ZoomBand :=
  match c with
  | GLOBAL => {| band_min := 0; band_max := 3 |}
  | REGIONAL => {| band_min := 3; band_max := 8 |}
  | LOCAL => {| band_min := 8; band_max := 22 |}
  end.

(** [static getZoomCategory(zoom)]. *)
Definition getZoomCategory (zoom : jsnum) : ZoomCategory :=
  if Num.ge zoom (Fin (band_min (zoomLevels LOCAL))) then LOCAL
  else if Num.ge zoom (Fin (band_min (zoomLevels REGIONAL))) then REGIONAL
  else GLOBAL.

(** *** The map renderer

    The renderer is an external collaborator.  It is modelled by the part
    of its state that the interface reads back: the sources and the layers
    by id, each layer with its source, its [visibility] layout property and
    its [raster-opacity] when it has one, and the camera.  [addSource] and
    [addLayer] throw exactly for the ids in [map_rejected]; a layer added
    under an id already in use is refused without a throw. *)

Inductive Visibility : Type := visible | none.

#[global] Instance Visibility_eq_dec : EqDecision Visibility.
Proof. solve_decision. Defined.

(** A paint value: a constant, or [['interpolate', ['linear'], ['zoom'],
    x0, y0, x1, y1, ...]]. *)
Inductive Expr : Type :=
| Const (v : Q)
| InterpolateLinearZoom (stops : list (Q * Q)).

Record LngLat : Type := { lng : jsnum; lat : jsnum }.
Record LngLatBounds : Type := { sw : LngLat; ne : LngLat }.

Record MapLayer : Type :=
  { layer_source : string;
    layer_visibility : Visibility;
    raster_opacity : option Expr }.

Record MapState : Type :=
  { map_layers : gmap string MapLayer;
    map_sources : gset string;
    map_rejected : gset string;
    map_zoom : jsnum;
    map_bounds : LngLatBounds;
    map_center : LngLat }.

Definition with_layers (f : gmap string MapLayer -> gmap string MapLayer)
  (m : MapState) : MapState :=
  {| map_layers := f (map_layers m); map_sources := map_sources m;
     map_rejected := map_rejected m; map_zoom := map_zoom m;
     map_bounds := map_bounds m; map_center := map_center m |}.

Definition with_sources (f : gset string -> gset string) (m : MapState) : MapState :=
  {| map_layers := map_layers m; map_sources := f (map_sources m);
     map_rejected := map_rejected m; map_zoom := map_zoom m;
     map_bounds := map_bounds m; map_center := map_center m |}.

Definition set_layer_visibility (v : Visibility) (l : MapLayer) : MapLayer :=
  {| layer_source := layer_source l; layer_visibility := v;
     raster_opacity := raster_opacity l |}.

(** *** The state of the interface *)

(** An entry of [weatherLayers]. *)
Record LayerRecord : Type :=
  { visibility : Visibility;
    type : option string;
    zoomCategory : option ZoomCategory;
    fallback : bool;
    layers : list string }.

Definition set_visibility (v : Visibility) (r : LayerRecord) : LayerRecord :=
  {| visibility := v; type := type r; zoomCategory := zoomCategory r;
     fallback := fallback r; layers := layers r |}.

Record Viewport : Type :=
  { bounds : option LngLatBounds; center : option LngLat; zoom : jsnum }.

Record ExtendedBounds : Type :=
  { west : jsnum; south : jsnum; east : jsnum; north : jsnum }.

(** An item of [prefetchQueue].  The queue is a plain array; [None] stands
    for an item without usable bounds. *)
Record PrefetchTask : Type :=
  { task_layerId : string;
    task_bounds : option ExtendedBounds;
    task_zoomCategory : ZoomCategory }.

Record TileCacheEntry : Type := { timestamp : Z; loaded : bool }.

(** The callbacks that the interface hands to [setTimeout]. *)
Inductive Event : Type :=
| ProcessPrefetchQueue
| PrefetchLoaded (layerId cacheKey : string) (zoomCategory : ZoomCategory)
| RestoreVisibility (layerId : string) (currentVisibility : Visibility).

Record Timer : Type := { due : Z; event : Event }.

(** How a prefetch task settled. *)
Inductive Outcome : Type := Succeeded | Failed (e : exn).

(** What the consumer of the prefetch queue did, with the instant. *)
Inductive Step : Type :=
| Took (at_ms : Z) (task : PrefetchTask)
| Settled (at_ms : Z) (o : Outcome)
| Idle (at_ms : Z).

(** The static fields of the class, the renderer, the clock and the
    pending timers.  [history] is a ghost log of the consumer's steps and
    [fetches] lists the requests issued with [fetch]; the program reads
    neither. *)
Record State : Type :=
  { weatherLayers : gmap string LayerRecord;
    activeWeatherLayers : list (string * bool);
    currentZoomLevel : jsnum;
    tileCache : gmap string (gmap string TileCacheEntry);
    currentViewport : Viewport;
    prefetchQueue : list PrefetchTask;
    prefetchInProgress : bool;
    map : MapState;
    clock : Z;
    timers : list Timer;
    fetches : list string;
    console : list string;
    history : list Step }.

Definition with_weatherLayers (f : gmap string LayerRecord -> gmap string LayerRecord)
  (st : State) : State :=
  {| weatherLayers := f (weatherLayers st);
     activeWeatherLayers := activeWeatherLayers st;
     currentZoomLevel := currentZoomLevel st; tileCache := tileCache st;
     currentViewport := currentViewport st; prefetchQueue := prefetchQueue st;
     prefetchInProgress := prefetchInProgress st; map := map st;
     clock := clock st; timers := timers st; fetches := fetches st;
     console := console st; history := history st |}.

Definition with_active (f : list (string * bool) -> list (string * bool))
  (st : State) : State :=
  {| weatherLayers := weatherLayers st;
     activeWeatherLayers := f (activeWeatherLayers st);
     currentZoomLevel := currentZoomLevel st; tileCache := tileCache st;
     currentViewport := currentViewport st; prefetchQueue := prefetchQueue st;
     prefetchInProgress := prefetchInProgress st; map := map st;
     clock := clock st; timers := timers st; fetches := fetches st;
     console := console st; history := history st |}.

Definition with_tileCache
  (f : gmap string (gmap string TileCacheEntry) -> gmap string (gmap string TileCacheEntry))
  (st : State) : State :=
  {| weatherLayers := weatherLayers st;
     activeWeatherLayers := activeWeatherLayers st;
     currentZoomLevel := currentZoomLevel st; tileCache := f (tileCache st);
     currentViewport := currentViewport st; prefetchQueue := prefetchQueue st;
     prefetchInProgress := prefetchInProgress st; map := map st;
     clock := clock st; timers := timers st; fetches := fetches st;
     console := console st; history := history st |}.

Definition with_queue (f : list PrefetchTask -> list PrefetchTask) (st : State) : State :=
  {| weatherLayers := weatherLayers st;
     activeWeatherLayers := activeWeatherLayers st;
     currentZoomLevel := currentZoomLevel st; tileCache := tileCache st;
     currentViewport := currentViewport st; prefetchQueue := f (prefetchQueue st);
     prefetchInProgress := prefetchInProgress st; map := map st;
     clock := clock st; timers := timers st; fetches := fetches st;
     console := console st; history := history st |}.

Definition with_inProgress (b : bool) (st : State) : State :=
  {| weatherLayers := weatherLayers st;
     activeWeatherLayers := activeWeatherLayers st;
     currentZoomLevel := currentZoomLevel st; tileCache := tileCache st;
     currentViewport := currentViewport st; prefetchQueue := prefetchQueue st;
     prefetchInProgress := b; map := map st;
     clock := clock st; timers := timers st; fetches := fetches st;
     console := console st; history := history st |}.

Definition with_map (f : MapState -> MapState) (st : State) : State :=
  {| weatherLayers := weatherLayers st;
     activeWeatherLayers := activeWeatherLayers st;
     currentZoomLevel := currentZoomLevel st; tileCache := tileCache st;
     currentViewport := currentViewport st; prefetchQueue := prefetchQueue st;
     prefetchInProgress := prefetchInProgress st; map := f (map st);
     clock := clock st; timers := timers st; fetches := fetches st;
     console := console st; history := history st |}.

Definition with_clock (t : Z) (st : State) : State :=
  {| weatherLayers := weatherLayers st;
     activeWeatherLayers := activeWeatherLayers st;
     currentZoomLevel := currentZoomLevel st; tileCache := tileCache st;
     currentViewport := currentViewport st; prefetchQueue := prefetchQueue st;
     prefetchInProgress := prefetchInProgress st; map := map st;
     clock := t; timers := timers st; fetches := fetches st;
     console := console st; history := history st |}.

Definition with_timers (f : list Timer -> list Timer) (st : State) : State :=
  {| weatherLayers := weatherLayers st;
     activeWeatherLayers := activeWeatherLayers st;
     currentZoomLevel := currentZoomLevel st; tileCache := tileCache st;
     currentViewport := currentViewport st; prefetchQueue := prefetchQueue st;
     prefetchInProgress := prefetchInProgress st; map := map st;
     clock := clock st; timers := f (timers st); fetches := fetches st;
     console := console st; history := history st |}.

Definition with_fetches (f : list string -> list string) (st : State) : State :=
  {| weatherLayers := weatherLayers st;
     activeWeatherLayers := activeWeatherLayers st;
     currentZoomLevel := currentZoomLevel st; tileCache := tileCache st;
     currentViewport := currentViewport st; prefetchQueue := prefetchQueue st;
     prefetchInProgress := prefetchInProgress st; map := map st;
     clock := clock st; timers := timers st; fetches := f (fetches st);
     console := console st; history := history st |}.

Definition with_console (f : list string -> list string) (st : State) : State :=
  {| weatherLayers := weatherLayers st;
     activeWeatherLayers := activeWeatherLayers st;
     currentZoomLevel := currentZoomLevel st; tileCache := tileCache st;
     currentViewport := currentViewport st; prefetchQueue := prefetchQueue st;
     prefetchInProgress := prefetchInProgress st; map := map st;
     clock := clock st; timers := timers st; fetches := fetches st;
     console := f (console st); history := history st |}.

Definition with_history (f : list Step -> list Step) (st : State) : State :=
  {| weatherLayers := weatherLayers st;
     activeWeatherLayers := activeWeatherLayers st;
     currentZoomLevel := currentZoomLevel st; tileCache := tileCache st;
     currentViewport := currentViewport st; prefetchQueue := prefetchQueue st;
     prefetchInProgress := prefetchInProgress st; map := map st;
     clock := clock st; timers := timers st; fetches := fetches st;
     console := console st; history := f (history st) |}.

(** *** Primitive operations *)

(** [map.getLayer(id)] and [map.getSource(id)], used as conditions. *)
Definition getLayer (id : string) : M State bool :=
  gets (fun st => bool_decide (is_Some (map_layers (map st) !! id))).

Definition getSource (id : string) : M State bool :=
  gets (fun st => bool_decide (id ∈ map_sources (map st))).

Definition removeLayer (id : string) : M State unit :=
  modify (with_map (with_layers (delete id))).

Definition removeSource (id : string) : M State unit :=
  modify (with_map (with_sources (fun s => s ∖ {[id]}))).

Definition addSource (id : string) : M State unit :=
  let* rejected := gets (fun st => bool_decide (id ∈ map_rejected (map st))) in
  if rejected then throw (Error "the renderer refused the source")
  else modify (with_map (with_sources (fun s => {[id]} ∪ s))).

Definition addLayer (id source : string) (opacity : option Expr) : M State unit :=
  let* rejected := gets (fun st => bool_decide (id ∈ map_rejected (map st))) in
  if rejected then throw (Error "the renderer refused the layer")
  else
    let* present := getLayer id in
    if present then ret tt
    else modify (with_map (with_layers
           (<[id := {| layer_source := source; layer_visibility := visible;
                       raster_opacity := opacity |}]>))).

(** [map.setLayoutProperty(id, 'visibility', v)]. *)
Definition setLayoutVisibility (id : string) (v : Visibility) : M State unit :=
  modify (with_map (with_layers (alter (set_layer_visibility v) id))).

(** [if (map.getLayer(id)) map.setLayoutProperty(id, 'visibility', v)]. *)
Definition setVisibleIfPresent (v : Visibility) (id : string) : M State unit :=
  let* present := getLayer id in
  when present (setLayoutVisibility id v).

(** [if (map.getLayer(id)) map.removeLayer(id);
     if (map.getSource(id)) map.removeSource(id)]. *)
Definition removeLayerAndSource (id : string) : M State unit :=
  let* l := getLayer id in
  when l (removeLayer id) ;;;
  let* s := getSource id in
  when s (removeSource id).

(** [if (map.getSource(id)) map.removeSource(id)]. *)
Definition removeSourceIfPresent (id : string) : M State unit :=
  let* s := getSource id in
  when s (removeSource id).

(** [if (map.getLayer(id)) map.removeLayer(id)]. *)
Definition removeLayerIfPresent (id : string) : M State unit :=
  let* present := getLayer id in
  when present (removeLayer id).

Definition console_log (msg : string) : M State unit :=
  modify (with_console (fun c => c ++ [msg])).

(** [setTimeout(callback, delay)]. *)
Definition setTimeout (ev : Event) (delay : Z) : M State unit :=
  modify (fun st =>
    with_timers (fun ts => ts ++ [{| due := clock st + delay; event := ev |}]) st).

Definition record (s : Z -> Step) : M State unit :=
  modify (fun st => with_history (fun h => h ++ [s (clock st)]) st).

(** [activeWeatherLayers[k] = b]: a new key goes last, as [Object.keys]
    enumerates the keys, none of which is an integer, in insertion order. *)
Fixpoint assoc_set (k : string) (b : bool) (l : list (string * bool))
  : list (string * bool) :=
  match l with
  | [] => [(k, b)]
  | (k', b') :: rest =>
      if String.eqb k k' then (k, b) :: rest else (k', b') :: assoc_set k b rest
  end.

Fixpoint assoc_get (k : string) (l : list (string * bool)) : bool :=
  match l with
  | [] => false
  | (k', b) :: rest => if String.eqb k k' then b else assoc_get k rest
  end.

(** The truth value of [this.activeWeatherLayers[layerId]]. *)
Definition is_active (layerId : string) (st : State) : bool :=
  assoc_get layerId (activeWeatherLayers st).

Definition set_active (layerId : string) (b : bool) : M State unit :=
  modify (with_active (assoc_set layerId b)).

Definition set_record (layerId : string) (r : LayerRecord) : M State unit :=
  modify (with_weatherLayers (<[layerId := r]>)).

(** [this.weatherLayers[layerId].visibility = v]. *)
Definition set_record_visibility (layerId : string) (v : Visibility) : M State unit :=
  modify (with_weatherLayers (alter (set_visibility v) layerId)).

(** [this.weatherLayers[layerId]?.layers?.forEach(...)] of the builders. *)
Definition cleanup (layerId : string) : M State unit :=
  let* r := gets (fun st => weatherLayers st !! layerId) in
  match r with
  | Some r => forEach removeLayerAndSource (layers r)
  | None => ret tt
  end.

Definition tile_layers : list string :=
  ["temperature"; "precipitation"; "wind"; "cloud"].

(** [['temperature', 'precipitation', 'wind', 'cloud'].includes(layerId)]. *)
Definition is_tile_layer (layerId : string) : bool :=
  existsb (String.eqb layerId) tile_layers.

Definition is_forecast_layer (layerId : string) : bool :=
  existsb (String.eqb layerId) ["forecastTemp"; "forecastPrecip"; "forecastWind"].

(** *** The prefetch queue *)

(** The promise returned by [prefetchTiles], as its executor leaves it. *)
Inductive Promise : Type :=
| Resolved
| Rejected (e : exn)
| Pending.

Section Prefetch.
Context `{JSHost}.

(** The key of a tile cache entry. *)
Definition tile_cacheKey (b : ExtendedBounds) (zoomCategory : ZoomCategory) : string :=
  toFixed2 (west b) ++ "," ++ toFixed2 (south b) ++ "," ++ toFixed2 (east b)
  ++ "," ++ toFixed2 (north b) ++ "_" ++ category_name zoomCategory.

(** The executor of the promise of [prefetchTiles(layerId, bounds,
    zoomCategory)].  It resolves at once for a layer without tiles and for
    a cached area; otherwise it starts the 200 ms timer that will fill the
    cache and resolve. *)
Definition prefetchTiles_executor (layerId : string) (bounds : option ExtendedBounds)
  (zoomCategory : ZoomCategory) : M State Promise :=
  if negb (is_tile_layer layerId) then ret Resolved
  else
    console_log ("Prefetching " ++ layerId ++ " tiles") ;;;
    match bounds with
    | None => throw (TypeError "Cannot read properties of undefined (reading 'west')")
    | Some b =>
        let cacheKey := tile_cacheKey b zoomCategory in
        let* cache := gets (fun st => tileCache st !! layerId) in
        match cache with
        | None => throw (TypeError "Cannot read properties of undefined")
        | Some entries =>
            match entries !! cacheKey with
            | Some _ =>
                console_log ("Using cached tiles for " ++ layerId) ;;;
                ret Resolved
            | None =>
                setTimeout (PrefetchLoaded layerId cacheKey zoomCategory) 200 ;;;
                ret Pending
            end
        end
    end.

(** [prefetchTiles]: an exception in the executor rejects the promise. *)
Definition prefetchTiles (layerId : string) (bounds : option ExtendedBounds)
  (zoomCategory : ZoomCategory) : M State Promise :=
  try_catch (prefetchTiles_executor layerId bounds zoomCategory)
            (fun e => ret (Rejected e)).

(** The two callbacks that [processPrefetchQueue] attaches to the promise. *)
Definition on_prefetch_resolved : M State unit :=
  record (fun t => Settled t Succeeded) ;;;
  setTimeout ProcessPrefetchQueue 100.

Definition on_prefetch_rejected (error : exn) : M State unit :=
  record (fun t => Settled t (Failed error)) ;;;
  console_log "Error prefetching tiles:" ;;;
  setTimeout ProcessPrefetchQueue 100.

(** [static processPrefetchQueue()]. *)
Definition processPrefetchQueue : M State unit :=
  let* queue := gets prefetchQueue in
  match queue with
  | [] =>
      record Idle ;;;
      modify (with_inProgress false)
  | item :: rest =>
      modify (with_inProgress true) ;;;
      modify (with_queue (fun _ => rest)) ;;;
      record (fun t => Took t item) ;;;
      let* promise :=
        prefetchTiles (task_layerId item) (task_bounds item) (task_zoomCategory item) in
      match promise with
      | Resolved => on_prefetch_resolved
      | Rejected error => on_prefetch_rejected error
      | Pending => ret tt
      end
  end.

(** The callback of the 200 ms timer of [prefetchTiles]: the entry is
    written, then the promise resolves. *)
Definition prefetch_loaded (layerId cacheKey : string) : M State unit :=
  let* cache := gets (fun st => tileCache st !! layerId) in
  match cache with
  | None => throw (TypeError "Cannot set properties of undefined")
  | Some entries =>
      let* now := gets clock in
      modify (with_tileCache
        (<[layerId := <[cacheKey := {| timestamp := now; loaded := true |}]> entries]>)) ;;;
      console_log ("Prefetched " ++ layerId ++ " tiles") ;;;
      on_prefetch_resolved
  end.

(** The bounds [queueTilePrefetch] asks for: the viewport and a fifth of
    its width and height more on each side. *)
Definition extendedBounds (b : LngLatBounds) : ExtendedBounds :=
  let width := Num.sub (lng (ne b)) (lng (sw b)) in
  let height := Num.sub (lat (ne b)) (lat (sw b)) in
  {| west := Num.sub (lng (sw b)) (Num.mul width (Fin (1 # 5)));
     south := Num.sub (lat (sw b)) (Num.mul height (Fin (1 # 5)));
     east := Num.add (lng (ne b)) (Num.mul width (Fin (1 # 5)));
     north := Num.add (lat (ne b)) (Num.mul height (Fin (1 # 5))) |}.

(** [static queueTilePrefetch()]. *)
Definition queueTilePrefetch : M State unit :=
  modify (with_queue (fun _ => [])) ;;;
  let* viewport := gets currentViewport in
  let zoomCategory := getZoomCategory (zoom viewport) in
  match bounds viewport with
  | None => throw (TypeError "Cannot read properties of null (reading '_sw')")
  | Some b =>
      let* active := gets activeWeatherLayers in
      forEach
        (fun layerId =>
           let* on := gets (is_active layerId) in
           when on
             (modify (with_queue (fun q =>
                q ++ [{| task_layerId := layerId;
                         task_bounds := Some (extendedBounds b);
                         task_zoomCategory := zoomCategory |}]))))
        (List.map fst active) ;;;
      let* inProgress := gets prefetchInProgress in
      when (negb inProgress) processPrefetchQueue
  end.

End Prefetch.

(** *** Building layers *)

Definition ensureSource (sourceId : string) : M State unit :=
  let* present := getSource sourceId in
  when (negb present) (addSource sourceId).

(** [this.getZoomCategory(this.currentZoomLevel || map.getZoom())]. *)
Definition current_category : M State ZoomCategory :=
  gets (fun st =>
    match JS.or (VNum (currentZoomLevel st)) (VNum (map_zoom (map st))) with
    | VNum z => getZoomCategory z
    | _ => GLOBAL
    end).

Definition or_current (zoomCategory : option ZoomCategory) : M State ZoomCategory :=
  match zoomCategory with
  | Some c => ret c
  | None => current_category
  end.

(** The builders fill the array [layerIds] they are given; here they
    return it. *)
Definition addMajorClimateZones (layerIds : list string) : M State (list string) :=
  ensureSource "climate-zones-source" ;;;
  addLayer "climate-zones-lines" "climate-zones-source" None ;;;
  addLayer "climate-zones-labels" "climate-zones-source" None ;;;
  ret (layerIds ++ ["climate-zones-lines"; "climate-zones-labels"]).

Definition createGlobalTemperatureLayer (layerIds : list string) : M State (list string) :=
  ensureSource "temperature-global-tiles" ;;;
  addLayer "temperature-global-layer" "temperature-global-tiles" (Some (Const (6 # 10))) ;;;
  addMajorClimateZones (layerIds ++ ["temperature-global-layer"]).

Definition createRegionalTemperatureLayer (layerIds : list string) : M State (list string) :=
  ensureSource "temperature-regional-tiles" ;;;
  addLayer "temperature-regional-layer" "temperature-regional-tiles" (Some (Const (7 # 10))) ;;;
  console_log "Regional temperature contours would be added here" ;;;
  ret (layerIds ++ ["temperature-regional-layer"]).

Definition addLocalTemperaturePoints (layerIds : list string) : M State (list string) :=
  let* present := getSource "temperature-points-source" in
  when (negb present) (addSource "temperature-points-source") ;;;
  addLayer "temperature-points-heat" "temperature-points-source" None ;;;
  addLayer "temperature-points-values" "temperature-points-source" None ;;;
  ret (layerIds ++ ["temperature-points-heat"; "temperature-points-values"]).

Definition createLocalTemperatureLayer (layerIds : list string) : M State (list string) :=
  let* present := getSource "temperature-local-tiles" in
  when (negb present)
    (try_catch (addSource "temperature-local-tiles")
       (fun e =>
          console_log "Failed to add local temperature tiles, falling back:" ;;;
          addSource "temperature-local-tiles")) ;;;
  addLayer "temperature-local-layer" "temperature-local-tiles" (Some (Const (8 # 10))) ;;;
  console_log "Local temperature contours would be added here" ;;;
  let* z := gets (fun st => map_zoom (map st)) in
  if Num.ge z (Fin 10)
  then addLocalTemperaturePoints (layerIds ++ ["temperature-local-layer"])
  else ret (layerIds ++ ["temperature-local-layer"]).

(** [static createFallbackTemperatureLayer(data)]. *)
Definition createFallbackTemperatureLayer : M State unit :=
  try_catch
    (cleanup "temperature" ;;;
     ensureSource "temperature-fallback-source" ;;;
     addLayer "temperature-fallback-layer" "temperature-fallback-source" None ;;;
     addLayer "temperature-fallback-text" "temperature-fallback-source" None ;;;
     set_record "temperature"
       {| visibility := visible; type := Some "temperature"; zoomCategory := None;
          fallback := true;
          layers := ["temperature-fallback-layer"; "temperature-fallback-text"] |})
    (fun e => console_log "Error creating fallback temperature layer:").

(** [static createTemperatureLayer(zoomCategory)]. *)
Definition createTemperatureLayer (zoomCategory : option ZoomCategory) : M State unit :=
  let* zoomCategory := or_current zoomCategory in
  try_catch
    (cleanup "temperature" ;;;
     let* layerIds :=
       match zoomCategory with
       | GLOBAL => createGlobalTemperatureLayer []
       | REGIONAL => createRegionalTemperatureLayer []
       | LOCAL => createLocalTemperatureLayer []
       end in
     set_record "temperature"
       {| visibility := visible; type := Some "temperature";
          zoomCategory := Some zoomCategory; fallback := false;
          layers := layerIds |})
    (fun e =>
       console_log "Error creating temperature layer:" ;;;
       createFallbackTemperatureLayer).

(** [static createPrecipitationLayer()].  The class declares this method
    twice; the later declaration, without a zoom category, is the one in
    effect. *)
Definition createPrecipitationLayer : M State unit :=
  try_catch
    (cleanup "precipitation" ;;;
     ensureSource "precipitation-tiles" ;;;
     addLayer "precipitation-layer" "precipitation-tiles" (Some (Const (7 # 10))) ;;;
     set_record "precipitation"
       {| visibility := visible; type := Some "precipitation"; zoomCategory := None;
          fallback := false; layers := ["precipitation-layer"] |})
    (fun e => console_log "Error creating precipitation layer:").

(** The source of the wind and cloud layers: a second attempt is made when
    the first one throws, and its exception is thrown on. *)
Definition addSourceTwice (sourceId : string) : M State unit :=
  let* present := getSource sourceId in
  when (negb present)
    (try_catch (addSource sourceId)
       (fun e =>
          console_log "Failed to add tile source:" ;;;
          try_catch (addSource sourceId)
            (fun err =>
               console_log "Failed to add alternative tile source:" ;;;
               throw err))).

(** [static createWindLayer(zoomCategory)]. *)
Definition createWindLayer (zoomCategory : option ZoomCategory) : M State unit :=
  try_catch
    (cleanup "wind" ;;;
     addSourceTwice "wind-tiles" ;;;
     addLayer "wind-layer" "wind-tiles" (Some (Const (8 # 10))) ;;;
     set_record "wind"
       {| visibility := visible; type := Some "wind"; zoomCategory := None;
          fallback := false; layers := ["wind-layer"] |})
    (fun e => console_log "Error creating wind layer:").

(** [static createCloudLayer(zoomCategory)]. *)
Definition createCloudLayer (zoomCategory : option ZoomCategory) : M State unit :=
  try_catch
    (cleanup "cloud" ;;;
     addSourceTwice "cloud-tiles" ;;;
     addLayer "cloud-layer" "cloud-tiles" (Some (Const (8 # 10))) ;;;
     set_record "cloud"
       {| visibility := visible; type := Some "cloud"; zoomCategory := None;
          fallback := false; layers := ["cloud-layer"] |})
    (fun e => console_log "Error creating cloud layer:").

(** [static initCityLabels()]; the camera flight it ends with is left to
    the renderer. *)
Definition initCityLabels : M State unit :=
  try_catch
    (let* location := gets (fun st => weatherLayers st !! "temperature-location") in
     match location with
     | Some r =>
         forEach removeLayerIfPresent (layers r) ;;;
         removeSourceIfPresent "temperature-location-source"
     | None => ret tt
     end ;;;
     forEach removeLayerIfPresent
       ["city-labels"; "city-points"; "city-temp-labels"; "city-name-labels"] ;;;
     removeSourceIfPresent "city-labels-source" ;;;
     addSource "city-labels-source" ;;;
     addLayer "city-labels" "city-labels-source" None ;;;
     set_record "cities"
       {| visibility := visible; type := None; zoomCategory := None;
          fallback := false; layers := ["city-labels"] |} ;;;
     set_active "cities" true)
    (fun e => console_log "Error initializing city labels:").

(** [static updateCityLabelsVisibility()]: it only resets the filter and
    the text size of the labels, which are not part of [MapState]. *)
Definition updateCityLabelsVisibility : M State unit := ret tt.

(** The sublayers of a record are all given the visibility [v], and the
    record too. *)
Definition show_or_hide_record (layerId : string) (v : Visibility) (r : LayerRecord)
  : M State unit :=
  forEach (setVisibleIfPresent v) (layers r) ;;;
  set_record_visibility layerId v.

Section Lifecycle.
Context `{JSHost}.

(** The builder of the forecast layers is not part of the sources at hand. *)
Variable createForecastLayer : string -> option ZoomCategory -> M State unit.

(** [static fetchLayerData(layerId, zoomCategory)]. *)
Definition fetchLayerData (layerId : string) (zoomCategory : option ZoomCategory)
  : M State unit :=
  if String.eqb layerId "" then ret tt
  else
    set_active layerId true ;;;
    let* zoomCategory := or_current zoomCategory in
    (if String.eqb layerId "temperature" then createTemperatureLayer (Some zoomCategory)
     else if String.eqb layerId "precipitation" then createPrecipitationLayer
     else if String.eqb layerId "wind" then createWindLayer (Some zoomCategory)
     else if String.eqb layerId "cloud" then createCloudLayer (Some zoomCategory)
     else if String.eqb layerId "cities" then
       let* cities := gets (fun st => weatherLayers st !! "cities") in
       match cities with
       | Some r => show_or_hide_record "cities" visible r
       | None => initCityLabels
       end
     else if String.eqb layerId "hurricane" then
       modify (with_fetches (fun l => l ++ ["/api/weather/hurricane"]))
     else if String.eqb layerId "wildfire" then
       modify (with_fetches (fun l => l ++ ["/api/weather/wildfire"]))
     else if String.eqb layerId "disaster" then
       modify (with_fetches (fun l => l ++ ["/api/weather/disasters"]))
     else if is_forecast_layer layerId then
       createForecastLayer layerId (Some zoomCategory)
     else console_log ("Unknown layer type: " ++ layerId)) ;;;
    let* b := gets (fun st => bounds (currentViewport st)) in
    when (bool_decide (is_Some b)) queueTilePrefetch.

(** [static showLayer(layerId)]. *)
Definition showLayer (layerId : string) : M State unit :=
  if String.eqb layerId "" then ret tt
  else
    let* r := gets (fun st => weatherLayers st !! layerId) in
    match r with
    | Some r =>
        if (0 <? length (layers r))%nat
        then show_or_hide_record layerId visible r
        else
          let* z := gets (fun st => map_zoom (map st)) in
          fetchLayerData layerId (Some (getZoomCategory z))
    | None =>
        let* z := gets (fun st => map_zoom (map st)) in
        fetchLayerData layerId (Some (getZoomCategory z))
    end ;;;
    set_active layerId true ;;;
    when (String.eqb layerId "temperature")
      (set_active "cities" true ;;;
       let* cities := gets (fun st => weatherLayers st !! "cities") in
       match cities with
       | Some r => show_or_hide_record "cities" visible r
       | None => initCityLabels
       end ;;;
       updateCityLabelsVisibility) ;;;
    let* b := gets (fun st => bounds (currentViewport st)) in
    when (bool_decide (is_Some b) && is_tile_layer layerId) queueTilePrefetch.

(** The transition sublayers of [layerId], by the prefix of their id. *)
Definition is_transition_of (layerId id : string) : bool :=
  (String.prefix (layerId ++ "-transition-GLOBAL-REGIONAL") id
   || String.prefix (layerId ++ "-transition-REGIONAL-LOCAL") id)%bool.

(** [static hideLayer(layerId)]. *)
Definition hideLayer (layerId : string) : M State unit :=
  if String.eqb layerId "" then ret tt
  else
    let* r := gets (fun st => weatherLayers st !! layerId) in
    match r with
    | Some r => show_or_hide_record layerId none r
    | None => ret tt
    end ;;;
    let* transitions := gets (fun st => weatherLayers st !! "transitions") in
    match transitions with
    | Some t =>
        forEach
          (fun id => when (is_transition_of layerId id) (setVisibleIfPresent none id))
          (layers t)
    | None => ret tt
    end ;;;
    set_active layerId false ;;;
    when (String.eqb layerId "temperature")
      (set_active "cities" false ;;;
       let* cities := gets (fun st => weatherLayers st !! "cities") in
       match cities with
       | Some r => show_or_hide_record "cities" none r
       | None => ret tt
       end).

(** [static toggleLayer(layerId)]. *)
Definition toggleLayer (layerId : string) : M State unit :=
  try_catch
    (let* was := gets (is_active layerId) in
     set_active layerId (negb was) ;;;
     when (String.eqb layerId "temperature")
       (let* temperature := gets (is_active "temperature") in
        set_active "cities" temperature ;;;
        let* on := gets (is_active layerId) in
        if on then showLayer "cities" else hideLayer "cities") ;;;
     if String.eqb layerId "cities" then
       console_log "City labels are managed with temperature layer"
     else
       let* on := gets (is_active layerId) in
       (if on then showLayer layerId else hideLayer layerId) ;;;
       console_log "Active weather layers:")
    (fun e => console_log ("Error toggling layer " ++ layerId)).

(** [static refreshLayer(layerId, zoomCategory)], up to the timer it
    starts. *)
Definition refreshLayer (layerId : string) (zoomCategory : option ZoomCategory)
  : M State unit :=
  let* on := gets (is_active layerId) in
  if negb on then console_log ("Layer " ++ layerId ++ " is not active, skipping refresh")
  else
    let* r := gets (fun st => weatherLayers st !! layerId) in
    let currentVisibility :=
      match r with Some r => visibility r | None => visible end in
    fetchLayerData layerId zoomCategory ;;;
    setTimeout (RestoreVisibility layerId currentVisibility) 100.

(** The callback of the timer of [refreshLayer]. *)
Definition restore_visibility (layerId : string) (currentVisibility : Visibility)
  : M State unit :=
  let* r := gets (fun st => weatherLayers st !! layerId) in
  match r with
  | Some r =>
      set_record_visibility layerId currentVisibility ;;;
      forEach (setVisibleIfPresent currentVisibility) (layers r)
  | None => ret tt
  end.

(** *** The event loop *)

(** Running a timer callback. *)
Definition fire (ev : Event) : M State unit :=
  match ev with
  | ProcessPrefetchQueue => processPrefetchQueue
  | PrefetchLoaded layerId cacheKey _ => prefetch_loaded layerId cacheKey
  | RestoreVisibility layerId v => restore_visibility layerId v
  end.

(** The timer that fires next: the earliest one, the oldest of them. *)
Fixpoint next_timer (ts : list Timer) : option (Timer * list Timer) :=
  match ts with
  | [] => None
  | t :: ts' =>
      match next_timer ts' with
      | Some (t', rest) =>
          if (due t' <? due t)%Z then Some (t', t :: rest) else Some (t, ts')
      | None => Some (t, [])
      end
  end.

(** One turn of the event loop: the clock moves to the timer that fires
    and its callback runs. *)
Definition turn (st : State) : option (completion unit * State) :=
  match next_timer (timers st) with
  | None => None
  | Some (t, rest) =>
      Some (fire (event t)
              (with_clock (Z.max (clock st) (due t)) (with_timers (fun _ => rest) st)))
  end.

(** The event loop left alone for at most [fuel] turns: the exceptions
    that callbacks let out, which the host reports, and the state reached. *)
Fixpoint run (fuel : nat) (st : State) : list exn * State :=
  match fuel with
  | O => ([], st)
  | S fuel' =>
      match turn st with
      | Some (c, st') =>
          let (escaped, st'') := run fuel' st' in
          (match c with Normal _ => escaped | Throw e => e :: escaped end, st'')
      | None => ([], st)
      end
  end.

End Lifecycle.

(** *** Transition layers *)










(** *** Colours and captions *)

(** [static getTemperatureColor(temperature)]. *)
Definition getTemperatureColor (temperature : jsnum) : string :=
  if Num.le temperature (Fin (-20)) then "#0022FF"
  else if Num.le temperature (Fin (-10)) then "#0044FF"
  else if Num.le temperature (Fin 0) then "#0066FF"
  else if Num.le temperature (Fin 5) then "#00AAFF"
  else if Num.le temperature (Fin 10) then "#00FFFF"
  else if Num.le temperature (Fin 15) then "#00FFAA"
  else if Num.le temperature (Fin 20) then "#AAFF00"
  else if Num.le temperature (Fin 25) then "#FFFF00"
  else if Num.le temperature (Fin 30) then "#FFAA00"
  else if Num.le temperature (Fin 35) then "#FF6600"
  else "#FF0000".


(** [static celsiusToFahrenheit(celsius)]. *)
Definition celsiusToFahrenheit (celsius : jsnum) : jsnum :=
  Num.round (Num.add64 (Num.div64 (Num.mul64 celsius (Fin 9)) (Fin 5)) (Fin 32)).

(** [static getFormattedTemperature(celsius)]. *)
Definition getFormattedTemperature `{JSHost} (celsius : jsnum) : string :=
  Number_toString (celsiusToFahrenheit celsius).

(** *** Tile sources *)

(** The OpenWeatherMap key written into the interface. *)
Definition apiKey : string := "6c14f64dcf8546cad54c8a33c52bd577".

(** The three URLs of [baseUrls[layerId]] for a layer whose tiles are
    called [product] in the global view and [code] in the two others. *)
Definition zoom_urls (product code : string) (c : ZoomCategory) : string :=
  match c with
  | GLOBAL =>
      "https://tile.openweathermap.org/map/" ++ product
      ++ "/{z}/{x}/{y}.png?appid=" ++ apiKey
  | REGIONAL =>
      "https://maps.openweathermap.org/maps/2.0/weather/" ++ code
      ++ "/{z}/{x}/{y}?appid=" ++ apiKey ++ "&fill_bound=true"
  | LOCAL =>
      "https://maps.openweathermap.org/maps/2.0/weather/" ++ code
      ++ "/{z}/{x}/{y}?appid=" ++ apiKey ++ "&fill_bound=true&opacity=0.9"
  end.

(** The entries of [baseUrls]. *)
Definition baseUrls (layerId : string) : option (ZoomCategory -> string) :=
  if String.eqb layerId "temperature" then Some (zoom_urls "temp_new" "TA2")
  else if String.eqb layerId "precipitation" then Some (zoom_urls "precipitation_new" "PAC0")
  else if String.eqb layerId "wind" then Some (zoom_urls "wind_new" "WND")
  else if String.eqb layerId "cloud" then Some (zoom_urls "clouds_new" "CL")
  else None.

(** [baseUrls[layerId]?.[zoomCategory] || baseUrls[layerId]?.GLOBAL] for a
    zoom category that is one of the three or is missing.  A layer id that
    names a property of [Object.prototype] reaches a built-in, which has
    no property of the name of a category: the result is [undefined] as
    for any other id that is not an entry. *)
Definition source_url (layerId : string) (zoomCategory : option ZoomCategory)
  : option string :=
  match
    (match baseUrls layerId, zoomCategory with
     | Some urls, Some c => Some (urls c)
     | _, _ => None
     end)
  with
  | Some u => Some u
  | None =>
      match baseUrls layerId with
      | Some urls => Some (urls GLOBAL)
      | None => None
      end
  end.

(** [static getSourceUrlForLayer(layerId, zoomCategory)]. *)
Definition getSourceUrlForLayer (layerId : string) (zoomCategory : option ZoomCategory)
  : option string :=
  source_url layerId zoomCategory.

(** *** Tile metadata

    [getTileMetadata] keeps what the server sent in [tileCache], beside
    the marks of [prefetchTiles].  It is modelled on the part of the
    interface that it touches, for a layer id that is not a property name
    of [Object.prototype]. *)

Inductive CacheValue : Type :=
| Mark (e : TileCacheEntry)
| Metadata (v : jsval).

Definition cache_value (c : CacheValue) : jsval :=
  match c with
  | Mark e =>
      VObj [ ("timestamp", VNum (Num.of_Z (timestamp e))); ("loaded", VBool (loaded e)) ]
  | Metadata v => v
  end.

(** The tile cache, the requests sent to [/api/weather/tiles] (the three
    fields of each body) and the console. *)
Record TileStore : Type :=
  { store : gmap string (gmap string CacheValue);
    requested : list (string * ZoomCategory * option string);
    messages : list string }.

(** What [fetch] and [response.json()] come to; [status] stands for
    [response.status] and [response.statusText]. *)
Inductive FetchResult : Type :=
| FetchError (e : exn)
| FetchResponse (ok : bool) (status : string) (body : completion jsval).

Definition store_log (msg : string) : M TileStore unit :=
  modify (fun s => {| store := store s; requested := requested s;
                      messages := messages s ++ [msg] |}).

Definition store_fetch (layerId : string) (zoomCategory : ZoomCategory)
  (bounds : option string) : M TileStore unit :=
  modify (fun s => {| store := store s;
                      requested := requested s ++ [(layerId, zoomCategory, bounds)];
                      messages := messages s |}).

(** [if (!this.tileCache[layerId]) this.tileCache[layerId] = {};
     this.tileCache[layerId][cacheKey] = metadata]. *)
Definition store_set (layerId cacheKey : string) (v : jsval) : M TileStore unit :=
  modify (fun s =>
    let entries := default ∅ (store s !! layerId) in
    {| store := <[layerId := <[cacheKey := Metadata v]> entries]> (store s);
       requested := requested s; messages := messages s |}).

Definition metadata_cacheKey (layerId : string) (zoomCategory : ZoomCategory)
  (bounds : option string) : string :=
  "tiles_" ++ layerId ++ "_" ++ category_name zoomCategory ++ "_"
  ++ match bounds with Some json => json | None => "global" end.

(** The metadata that [getTileMetadata] makes up when the server cannot be
    asked; [Date.now()] reads [now]. *)
Definition fallback_metadata (layerId : string) (zoomCategory : ZoomCategory) (now : Z)
  : jsval :=
  VObj
    [ ("url", match source_url layerId (Some zoomCategory) with
              | Some u => VStr u
              | None => VUndef
              end);
      ("tileSize", VNum (Fin 256));
      ("minZoom", VNum (match zoomCategory with
                        | GLOBAL => Fin 0 | REGIONAL => Fin 3 | LOCAL => Fin 8
                        end));
      ("maxZoom", VNum (match zoomCategory with
                        | GLOBAL => Fin 3 | REGIONAL => Fin 8 | LOCAL => Fin 22
                        end));
      ("resolution", VStr (match zoomCategory with
                           | GLOBAL => "low" | REGIONAL => "medium" | LOCAL => "high"
                           end));
      ("attribution", VStr WeatherService.attribution_text);
      ("tileCoverage", VNull);
      ("timestamp", VNum (Num.of_Z now)) ].

(** The request to the server and what is done with its answer. *)
Definition fetch_metadata (layerId : string) (zoomCategory : ZoomCategory)
  (bounds : option string) (cacheKey : string) (resp : FetchResult)
  : M TileStore jsval :=
  store_fetch layerId zoomCategory bounds ;;;
  match resp with
  | FetchError e => throw e
  | FetchResponse ok status body =>
      if negb ok then throw (Error ("Server responded with " ++ status))
      else
        let* metadata := lift body in
        store_set layerId cacheKey metadata ;;;
        store_log ("Tile metadata received for " ++ layerId) ;;;
        ret metadata
  end.

(** [static async getTileMetadata(layerId, zoomCategory, bounds = null)];
    [bounds], when given, is the text that [JSON.stringify] makes of it,
    and [now] is the instant at which the fallback, if any, is made up. *)
Definition getTileMetadata (layerId : string) (zoomCategory : ZoomCategory)
  (bounds : option string) (now : Z) (resp : FetchResult) : M TileStore jsval :=
  try_catch
    (store_log ("Fetching tile metadata for " ++ layerId) ;;;
     let cacheKey := metadata_cacheKey layerId zoomCategory bounds in
     let* cached :=
       gets (fun s => store s !! layerId ≫= (fun entries => entries !! cacheKey)) in
     match cached with
     | Some c =>
         if JS.truthy (cache_value c)
         then (store_log ("Using cached tile metadata for " ++ layerId) ;;;
               ret (cache_value c))
         else fetch_metadata layerId zoomCategory bounds cacheKey resp
     | None => fetch_metadata layerId zoomCategory bounds cacheKey resp
     end)
    (fun error =>
       store_log ("Error fetching tile metadata for " ++ layerId) ;;;
       store_log ("Using fallback tile metadata for " ++ layerId) ;;;
       ret (fallback_metadata layerId zoomCategory now)).

(** *** The viewport *)

Definition with_viewport (f : Viewport -> Viewport) (st : State) : State :=
  {| weatherLayers := weatherLayers st;
     activeWeatherLayers := activeWeatherLayers st;
     currentZoomLevel := currentZoomLevel st; tileCache := tileCache st;
     currentViewport := f (currentViewport st); prefetchQueue := prefetchQueue st;
     prefetchInProgress := prefetchInProgress st; map := map st;
     clock := clock st; timers := timers st; fetches := fetches st;
     console := console st; history := history st |}.

(** The literal [0.2], as a binary64 number. *)
Definition fifth : Q := 3602879701896397 # 18014398509481984.

(** [static shouldPrefetchNewTiles(previousViewport)].  The operations on
    numbers are those of binary64: the differences and the sum are
    rounded, [Math.pow(d, 2)] is the rounded product of [d] with itself,
    and [Math.sqrt] is the rounded root. *)
Definition shouldPrefetchNewTiles (previousViewport : Viewport) : M State bool :=
  match bounds previousViewport with
  | None => ret true
  | Some _ =>
      let* current := gets currentViewport in
      if Num.gt (Num.abs (Num.sub64 (zoom current) (zoom previousViewport))) (Fin (1 # 2))
      then ret true
      else
        match center previousViewport, center current with
        | Some prevCenter, Some currCenter =>
            let dx := Num.sub64 (lng prevCenter) (lng currCenter) in
            let dy := Num.sub64 (lat prevCenter) (lat currCenter) in
            ret (Num.sqrt64_gt (Num.add64 (Num.mul64 dx dx) (Num.mul64 dy dy)) fifth)
        | _, _ => throw (TypeError "Cannot read properties of null (reading 'lng')")
        end
  end.

Section Viewport.
Context `{JSHost}.

(** [static updateViewport()].  The debug overlay that it refreshes at the
    end is a part of the page, not of the state. *)
Definition updateViewport : M State unit :=
  let* previousViewport := gets currentViewport in
  modify (fun st =>
    with_viewport
      (fun _ => {| bounds := Some (map_bounds (map st));
                   center := Some (map_center (map st));
                   zoom := map_zoom (map st) |})
      st) ;;;
  let* should := shouldPrefetchNewTiles previousViewport in
  when should queueTilePrefetch.

(** [static initTileManager()]; the two listeners that it registers with
    the renderer are not part of the state. *)
Definition initTileManager : M State unit :=
  console_log "Initializing weather tile manager" ;;;
  updateViewport ;;;
  console_log "Weather tile manager initialized".

End Viewport.

End WeatherInterface.

(* ===================================================================== *)
(** * Part II.  Properties                                                *)
(* ===================================================================== *)

(** ** The zoom category classifier *)

Section Classifier.
Import WeatherInterface.

(** How local a category is. *)
Definition localness (c : ZoomCategory) : nat :=
  match c with GLOBAL => 0 | REGIONAL => 1 | LOCAL => 2 end.

(** The band of [zoomLevels] that a zoom value lies in: half-open
    [[min, max)], the last one closed at the maximal zoom 22. *)
Definition in_band (c : ZoomCategory) (z : Q) : Prop :=
  (band_min (zoomLevels c) <= z)%Q /\
  ((z < band_max (zoomLevels c))%Q \/
   (c = LOCAL /\ (z <= band_max (zoomLevels LOCAL))%Q)).

Lemma ge_Fin_true (z b : Q) : Num.ge (Fin z) (Fin b) = true <-> (b <= z)%Q.
Proof. simpl. apply Qle_bool_iff. Qed.

Lemma ge_Fin_false (z b : Q) : Num.ge (Fin z) (Fin b) = false <-> (z < b)%Q.
Proof.
  simpl. split; intros H.
  - apply Qnot_le_lt. intros Hle. apply Qle_bool_iff in Hle. congruence.
  - destruct (Qle_bool b z) eqn:E; [|reflexivity].
    apply Qle_bool_iff in E. exfalso. exact (Qlt_not_le _ _ H E).
Qed.

Lemma getZoomCategory_LOCAL (z : Q) :
  getZoomCategory (Fin z) = LOCAL <-> (8 <= z)%Q.
Proof.
  unfold getZoomCategory. cbn [zoomLevels band_min].
  destruct (Num.ge (Fin z) (Fin 8)) eqn:E8.
  - apply ge_Fin_true in E8. tauto.
  - apply ge_Fin_false in E8.
    split; [destruct (Num.ge (Fin z) (Fin 3)); discriminate|].
    intros H. exfalso. exact (Qlt_not_le _ _ E8 H).
Qed.

Lemma getZoomCategory_REGIONAL (z : Q) :
  getZoomCategory (Fin z) = REGIONAL <-> (3 <= z)%Q /\ (z < 8)%Q.
Proof.
  unfold getZoomCategory. cbn [zoomLevels band_min].
  destruct (Num.ge (Fin z) (Fin 8)) eqn:E8.
  - apply ge_Fin_true in E8. split; [discriminate|].
    intros [_ H]. exfalso. exact (Qlt_not_le _ _ H E8).
  - apply ge_Fin_false in E8.
    destruct (Num.ge (Fin z) (Fin 3)) eqn:E3.
    + apply ge_Fin_true in E3. tauto.
    + apply ge_Fin_false in E3. split; [discriminate|].
      intros [H _]. exfalso. exact (Qlt_not_le _ _ E3 H).
Qed.

Lemma getZoomCategory_GLOBAL (z : Q) :
  getZoomCategory (Fin z) = GLOBAL <-> (z < 3)%Q.
Proof.
  unfold getZoomCategory. cbn [zoomLevels band_min].
  destruct (Num.ge (Fin z) (Fin 8)) eqn:E8.
  - apply ge_Fin_true in E8. split; [discriminate|].
    intros H. exfalso. apply (Qlt_not_le _ _ H).
    apply Qle_trans with 8%Q; [discriminate | exact E8].
  - destruct (Num.ge (Fin z) (Fin 3)) eqn:E3.
    + apply ge_Fin_true in E3. split; [discriminate|].
      intros H. exfalso. exact (Qlt_not_le _ _ H E3).
    + apply ge_Fin_false in E3. tauto.
Qed.

Lemma getZoomCategory_mono (z z' : Q) :
  (z <= z')%Q ->
  (localness (getZoomCategory (Fin z)) <= localness (getZoomCategory (Fin z')))%nat.
Proof.
  intros Hle.
  destruct (getZoomCategory (Fin z)) eqn:E; simpl; [lia | |].
  - apply getZoomCategory_REGIONAL in E. destruct E as [E _].
    destruct (getZoomCategory (Fin z')) eqn:E'; simpl; try lia.
    apply getZoomCategory_GLOBAL in E'. exfalso.
    apply (Qlt_not_le _ _ E'). apply Qle_trans with z; assumption.
  - apply getZoomCategory_LOCAL in E.
    assert (E' : getZoomCategory (Fin z') = LOCAL).
    { apply getZoomCategory_LOCAL. apply Qle_trans with z; assumption. }
    rewrite E'. simpl. lia.
Qed.

Lemma in_band_iff (c : ZoomCategory) (z : Q) :
  (0 <= z)%Q -> (z <= 22)%Q -> in_band c z <-> getZoomCategory (Fin z) = c.
Proof.
  intros H0 H22. unfold in_band.
  destruct c; cbn [zoomLevels band_min band_max].
  - rewrite getZoomCategory_GLOBAL. split.
    + intros [_ [H | [H _]]]; [exact H | discriminate].
    + intros H. split; [exact H0 | left; exact H].
  - rewrite getZoomCategory_REGIONAL. split.
    + intros [H3 [H | [H _]]]; [split; assumption | discriminate].
    + intros [H3 H8]. split; [exact H3 | left; exact H8].
  - rewrite getZoomCategory_LOCAL. split.
    + intros [H _]. exact H.
    + intros H. split; [exact H | right; split; [reflexivity | exact H22]].
Qed.

(** C1.  The classifier returns LOCAL from zoom 8 on, REGIONAL on [3, 8)
    and GLOBAL below 3; it never yields a less local category for a higher
    zoom; on [0, 22] the band of the table containing the zoom is exactly the
    band returned, so the three bands leave no gap and do not overlap; and
    it classifies 2, 3, 7.9, 8 and 15 as GLOBAL, REGIONAL, REGIONAL, LOCAL
    and LOCAL.  Totality is that of the function: every number, NaN and the
    infinities included, gets a category. *)
Theorem getZoomCategory_spec :
  forall z : Q,
    ((8 <= z)%Q -> getZoomCategory (Fin z) = LOCAL) /\
    ((3 <= z)%Q /\ (z < 8)%Q -> getZoomCategory (Fin z) = REGIONAL) /\
    ((z < 3)%Q -> getZoomCategory (Fin z) = GLOBAL) /\
    (forall z' : Q, (z <= z')%Q ->
       (localness (getZoomCategory (Fin z))
        <= localness (getZoomCategory (Fin z')))%nat) /\
    ((0 <= z)%Q /\ (z <= 22)%Q ->
       forall c, in_band c z <-> getZoomCategory (Fin z) = c) /\
    (forall n : jsnum, exists c, getZoomCategory n = c) /\
    getZoomCategory (Fin 2) = GLOBAL /\
    getZoomCategory (Fin 3) = REGIONAL /\
    getZoomCategory (Fin (79 # 10)) = REGIONAL /\
    getZoomCategory (Fin 8) = LOCAL /\
    getZoomCategory (Fin 15) = LOCAL.
Proof.
  intros z.
  split; [apply getZoomCategory_LOCAL|].
  split; [apply getZoomCategory_REGIONAL|].
  split; [apply getZoomCategory_GLOBAL|].
  split; [apply getZoomCategory_mono|].
  split; [intros [Hlo Hhi] c; apply in_band_iff; assumption|].
  split; [intros n; eexists; reflexivity|].
  repeat split.
Qed.

Lemma getZoomCategory_spec_witness :
  (3 <= 5)%Q /\ (5 < 8)%Q /\ getZoomCategory (Fin 5) = REGIONAL.
Proof.
  assert (H3 : (3 <= 5)%Q) by discriminate.
  assert (H8 : (5 < 8)%Q) by reflexivity.
  split; [exact H3 | split; [exact H8 |]].
  exact (proj1 (proj2 (getZoomCategory_spec 5)) (conj H3 H8)).
Defined.

End Classifier.

(** ** A host and inputs for the examples *)

(** Decimal digits of a natural number, most significant first. *)
Fixpoint decimal_digits (fuel : nat) (n : N) (acc : string) : string :=
  match fuel with
  | O => acc
  | S fuel' =>
      let d := String (ascii_of_N (48 + n mod 10)) acc in
      if (n <? 10)%N then d else decimal_digits fuel' (n / 10)%N d
  end.

Definition decimal (z : Z) : string :=
  let n := Z.to_N (Z.abs z) in
  let digits := decimal_digits (S (N.to_nat (N.log2 n))) n "" in
  if (z <? 0)%Z then String "-" digits else digits.

Definition two_digits (n : Z) : string :=
  ((if (n <? 10)%Z then "0" else "") ++ decimal n)%string.

(** A host that prints integers in decimal, numbers below 10^21 with two
    decimals, the nearer one and of two the one away from zero, and reads
    the one date of the wildfire scenario as a time of day in UTC. *)
Definition sample_host : JSHost :=
  {| Number_toString := fun n =>
       match n with
       | NaN => "NaN"
       | PosInf => "Infinity"
       | NegInf => "-Infinity"
       | Fin q => decimal (Qfloor q)
       end;
     ToNumber_nonprimitive := fun _ => NaN;
     Date_getTime := fun v =>
       match v with
       | VStr s => if String.eqb s "2024-01-01 13:45" then Fin 1704116700000 else NaN
       | _ => NaN
       end;
     toFixed2 := fun n =>
       match n with
       | NaN => "NaN"
       | PosInf => "Infinity"
       | NegInf => "-Infinity"
       | Fin q =>
           let n := Qfloor (Qabs q * 100 + (1 # 2)) in
           (match (q ?= 0)%Q with Lt => "-" | _ => "" end
            ++ decimal (n / 100) ++ "." ++ two_digits (n mod 100))%string
       end |}.

(** A service that has not been used yet. *)
Definition fresh_service : WeatherService.State :=
  {| WeatherService.openWeatherMapKey := "k";
     WeatherService.weatherCache := ∅;
     WeatherService.requests := [] |}.

(** A well-formed answer of the current-weather endpoint. *)
Definition sample_body : jsval :=
  VObj
    [ ("name", VStr "Aden");
      ("sys", VObj [ ("country", VStr "YE");
                     ("sunrise", VNum (Fin 1700000000));
                     ("sunset", VNum (Fin 1700040000)) ]);
      ("coord", VObj [ ("lat", VNum (Fin 10)); ("lon", VNum (Fin 20)) ]);
      ("weather", VArr [ VObj [ ("main", VStr "Clear");
                                ("description", VStr "clear sky");
                                ("icon", VStr "01d") ] ]);
      ("main", VObj [ ("temp", VNum (Fin 31)); ("feels_like", VNum (Fin 33));
                      ("humidity", VNum (Fin 40)); ("pressure", VNum (Fin 1010)) ]);
      ("wind", VObj [ ("speed", VNum (Fin 3)); ("deg", VNum (Fin 180)) ]);
      ("clouds", VObj [ ("all", VNum (Fin 0)) ]);
      ("visibility", VNum (Fin 10000));
      ("dt", VNum (Fin 1700020000)) ].

Definition sample_normalized : jsval :=
  match WeatherService.normalizeOpenWeatherData (H := sample_host) sample_body with
  | Normal v => v
  | Throw _ => VUndef
  end.

(** The camera over western Europe at zoom 2. *)
Definition sample_bounds : WeatherInterface.LngLatBounds :=
  {| WeatherInterface.sw :=
       {| WeatherInterface.lng := Fin (-10); WeatherInterface.lat := Fin 40 |};
     WeatherInterface.ne :=
       {| WeatherInterface.lng := Fin 10; WeatherInterface.lat := Fin 50 |} |}.

Definition sample_map : WeatherInterface.MapState :=
  {| WeatherInterface.map_layers := ∅;
     WeatherInterface.map_sources := ∅;
     WeatherInterface.map_rejected := ∅;
     WeatherInterface.map_zoom := Fin 2;
     WeatherInterface.map_bounds := sample_bounds;
     WeatherInterface.map_center :=
       {| WeatherInterface.lng := Fin 0; WeatherInterface.lat := Fin 45 |} |}.

(** A state to run the examples from: no layer created, the flags of
    [temperature] and [cities] down as [initWeatherControls] leaves them,
    the viewport known.  (The state that [initWeatherControls] leaves has
    the entry and the sublayer of the city labels in addition.) *)
Definition initial_state : WeatherInterface.State :=
  {| WeatherInterface.weatherLayers := ∅;
     WeatherInterface.activeWeatherLayers := [("temperature", false); ("cities", false)];
     WeatherInterface.currentZoomLevel := Fin 2;
     WeatherInterface.tileCache :=
       <["temperature" := ∅]> (<["precipitation" := ∅]>
         (<["wind" := ∅]> (<["cloud" := ∅]> ∅)));
     WeatherInterface.currentViewport :=
       {| WeatherInterface.bounds := Some sample_bounds;
          WeatherInterface.center :=
            Some {| WeatherInterface.lng := Fin 0; WeatherInterface.lat := Fin 45 |};
          WeatherInterface.zoom := Fin 2 |};
     WeatherInterface.prefetchQueue := [];
     WeatherInterface.prefetchInProgress := false;
     WeatherInterface.map := sample_map;
     WeatherInterface.clock := 0;
     WeatherInterface.timers := [];
     WeatherInterface.fetches := [];
     WeatherInterface.console := [];
     WeatherInterface.history := [] |}.




(** A stand-in for the builder of the forecast layers. *)
Definition no_forecast (layerId : string)
  (zoomCategory : option WeatherInterface.ZoomCategory)
  : M WeatherInterface.State unit :=
  ret tt.

(** The interface after the temperature layer has been switched on. *)
Definition shown_state : WeatherInterface.State :=
  snd (WeatherInterface.showLayer (H := sample_host) no_forecast "temperature"
         initial_state).

(** The same with the entry of the temperature layer marked hidden while
    its flag is still up. *)
Definition hidden_state : WeatherInterface.State :=
  WeatherInterface.with_weatherLayers
    (alter (WeatherInterface.set_visibility WeatherInterface.none) "temperature")
    shown_state.

(** The entry of the temperature layer in [hidden_state]. *)
Definition hidden_record : WeatherInterface.LayerRecord :=
  {| WeatherInterface.visibility := WeatherInterface.none;
     WeatherInterface.type := Some "temperature";
     WeatherInterface.zoomCategory := Some WeatherInterface.GLOBAL;
     WeatherInterface.fallback := false;
     WeatherInterface.layers :=
       ["temperature-global-layer"; "climate-zones-lines"; "climate-zones-labels"] |}.

(** ** The monad of stateful code *)

Lemma bind_M {S A B : Type} (c : M S A) (k : A -> M S B) (s : S) :
  bind c k s =
  match c s with
  | (Normal a, s') => k a s'
  | (Throw e, s') => (Throw e, s')
  end.
Proof. reflexivity. Qed.

Lemma bind_gets {S A B : Type} (f : S -> A) (k : A -> M S B) (s : S) :
  bind (gets f) k s = k (f s) s.
Proof. reflexivity. Qed.

(** Running a sequence whose first part completes. *)
Lemma bind_Normal {S A B : Type} (c : M S A) (k : A -> M S B) (s s' : S) (a : A) :
  c s = (Normal a, s') -> bind c k s = k a s'.
Proof. intros Hc. rewrite bind_M, Hc. reflexivity. Qed.

(** A [try] whose handler returns a value completes normally. *)
Lemma try_catch_ret {S A : Type} (body : M S A) (f : exn -> A) (s : S) :
  exists v s', try_catch body (fun e => ret (f e)) s = (Normal v, s').
Proof.
  unfold try_catch. destruct (body s) as [[a|e] s']; eexists _, _; reflexivity.
Qed.

(** ** The current-weather fetch and its cache *)

Section CurrentWeather.
Import WeatherService.
Context `{JSHost}.

(** The fingerprint has no entry that [get] would return as a truthy
    value at instant [now]: none at all, an expired one, or a falsy one. *)
Definition cache_miss (key : string) (now : Z) (st : State) : Prop :=
  match weatherCache st !! key with
  | Some e => expires e < now \/ JS.truthy (value e) = false
  | None => True
  end.

(** The three ways in which the upstream call of the fetch fails: no
    answer, a status outside 2xx, a body that the normalizer cannot read. *)
Definition upstream_failure (resp : Response) : Prop :=
  match resp with
  | NetworkError => True
  | HttpResponse status data =>
      ~ (200 <= status < 300) \/
      exists e, normalizeOpenWeatherData data = Throw e
  end.

(** The cache after a lookup that missed: an expired entry is gone. *)
Definition after_miss (key : string) (now : Z) (st : State) : State :=
  snd (cache_get key now st).

Lemma cache_get_miss key now st :
  cache_miss key now st ->
  exists v, cache_get key now st = (Normal v, after_miss key now st)
            /\ JS.truthy v = false.
Proof.
  unfold cache_miss, after_miss, cache_get.
  destruct (weatherCache st !! key) as [e|] eqn:E.
  - destruct (expires e <? now)%Z eqn:Hexp.
    + intros _. exists VUndef. split; reflexivity.
    + intros [Hlt | Hfalsy].
      * apply Z.ltb_ge in Hexp. lia.
      * exists (value e). split; [reflexivity | exact Hfalsy].
  - intros _. exists VUndef. split; reflexivity.
Qed.

Lemma after_miss_requests key now st :
  requests (after_miss key now st) = requests st.
Proof.
  unfold after_miss, cache_get.
  destruct (weatherCache st !! key) as [e|]; [|reflexivity].
  destruct (expires e <? now)%Z; reflexivity.
Qed.

Lemma after_miss_key key now st :
  openWeatherMapKey (after_miss key now st) = openWeatherMapKey st.
Proof.
  unfold after_miss, cache_get.
  destruct (weatherCache st !! key) as [e|]; [|reflexivity].
  destruct (expires e <? now)%Z; reflexivity.
Qed.

Lemma status_ok_dec (status : Z) :
  ((200 <=? status)%Z && (status <? 300)%Z)%bool = true <-> 200 <= status < 300.
Proof. rewrite andb_true_iff, Z.leb_le, Z.ltb_lt. tauto. Qed.

(** A payload built by the normalizer is an object with its [type] tag. *)
Lemma normalizeOpenWeatherData_object data nd :
  normalizeOpenWeatherData data = Normal nd ->
  JS.truthy nd = true /\ JS.get nd "type" = Normal (VStr "current_weather").
Proof.
  unfold normalizeOpenWeatherData. cbn [bind ret completion_Monad].
  repeat match goal with
         | |- context [match ?c with Normal _ => _ | Throw _ => _ end] =>
             destruct c; [|discriminate]
         end.
  intros [= <-]. split; reflexivity.
Qed.

(** The fetch never throws, whatever the cache holds and whatever the
    upstream does. *)
Lemma getCurrentWeather_total lat lon now resp st :
  exists v st', getCurrentWeather lat lon now resp st = (Normal v, st').
Proof.
  unfold getCurrentWeather. rewrite bind_M.
  destruct (cache_get (current_cacheKey lat lon) now st) as [[v|e] st1] eqn:Eget.
  - destruct (JS.truthy v); [eexists _, _; reflexivity|].
    apply try_catch_ret.
  - exfalso. unfold cache_get in Eget.
    destruct (weatherCache st !! current_cacheKey lat lon) as [en|];
      [destruct (expires en <? now)%Z|]; discriminate.
Qed.

(** What a fetch does once the cache has missed and the upstream call has
    failed: the call was made, nothing is stored, the placeholder comes
    back. *)
Lemma getCurrentWeather_failure lat lon now resp st :
  cache_miss (current_cacheKey lat lon) now st ->
  upstream_failure resp ->
  getCurrentWeather lat lon now resp st =
    (Normal (getFakeWeatherData lat lon now),
     add_request (current_url (openWeatherMapKey st) lat lon)
       (after_miss (current_cacheKey lat lon) now st)).
Proof.
  intros Hmiss Hfail.
  destruct (cache_get_miss _ _ _ Hmiss) as (v & Hget & Hv).
  unfold getCurrentWeather. cbn [bind M_Monad]. rewrite Hget, Hv.
  unfold try_catch, gets, axios_get, modify, lift, throw. cbn [bind ret M_Monad].
  rewrite after_miss_key.
  destruct resp as [|status data]; [reflexivity|].
  destruct Hfail as [Hstatus | [e He]].
  - destruct ((200 <=? status)%Z && (status <? 300)%Z)%bool eqn:Eok.
    + apply status_ok_dec in Eok. contradiction.
    + reflexivity.
  - destruct ((200 <=? status)%Z && (status <? 300)%Z)%bool; [|reflexivity].
    cbn [ret M_Monad]. rewrite He. reflexivity.
Qed.

(** C2.  When the cache misses and the upstream call fails (no answer, a
    status outside 2xx, or a body the normalizer cannot read), the fetch
    does not throw: it returns the placeholder payload, whose [type] is
    ['current_weather'] and whose [location] carries the requested
    latitude and longitude. *)
Theorem getCurrentWeather_fallback :
  forall (lat lon : jsnum) (now : Z) (resp : Response) (st : State),
    cache_miss (current_cacheKey lat lon) now st ->
    upstream_failure resp ->
    exists (payload location : jsval) (st' : State),
      getCurrentWeather lat lon now resp st = (Normal payload, st') /\
      payload = getFakeWeatherData lat lon now /\
      JS.get payload "type" = Normal (VStr "current_weather") /\
      JS.get payload "location" = Normal location /\
      JS.get location "lat" = Normal (VNum lat) /\
      JS.get location "lon" = Normal (VNum lon).
Proof.
  intros lat lon now resp st Hmiss Hfail.
  eexists _, _, _. split; [apply getCurrentWeather_failure; assumption|].
  repeat split.
Qed.

(** What a fetch does once the cache has missed and the upstream call has
    succeeded. *)
Lemma getCurrentWeather_success lat lon now status data nd st :
  cache_miss (current_cacheKey lat lon) now st ->
  200 <= status < 300 ->
  normalizeOpenWeatherData data = Normal nd ->
  getCurrentWeather lat lon now (HttpResponse status data) st =
    (Normal nd,
     set_cache (<[current_cacheKey lat lon :=
                    {| value := nd; expires := now + stdTTL * 1000 |}]>)
       (add_request (current_url (openWeatherMapKey st) lat lon)
          (after_miss (current_cacheKey lat lon) now st))).
Proof.
  intros Hmiss Hstatus Hnorm.
  destruct (cache_get_miss _ _ _ Hmiss) as (v & Hget & Hv).
  unfold getCurrentWeather. cbn [bind M_Monad]. rewrite Hget, Hv.
  unfold try_catch, gets, axios_get, modify, lift, throw, cache_set.
  cbn [bind ret M_Monad]. rewrite after_miss_key.
  apply status_ok_dec in Hstatus. rewrite Hstatus.
  cbn [ret M_Monad]. rewrite Hnorm. reflexivity.
Qed.

(** A fetch that finds an unexpired truthy entry returns it and leaves
    the service as it was: no upstream call. *)
Lemma getCurrentWeather_hit lat lon now resp st e :
  weatherCache st !! current_cacheKey lat lon = Some e ->
  now <= expires e ->
  JS.truthy (value e) = true ->
  getCurrentWeather lat lon now resp st = (Normal (value e), st).
Proof.
  intros Hlook Hfresh Htruthy.
  unfold getCurrentWeather, cache_get. cbn [bind M_Monad]. rewrite Hlook.
  assert (Hexp : (expires e <? now)%Z = false) by (apply Z.ltb_ge; exact Hfresh).
  rewrite Hexp, Htruthy. reflexivity.
Qed.

(** C3.  Two successive fetches for the same coordinates, the first one
    missing the cache and served by the upstream, the second one made
    before the entry expires: the first stores the normalized payload
    under the fingerprint, the second returns that payload without
    contacting the upstream, so that exactly one upstream call is made. *)
Theorem getCurrentWeather_cached :
  forall (lat lon : jsnum) (now1 now2 status : Z) (data nd : jsval)
         (resp2 : Response) (st : State),
    cache_miss (current_cacheKey lat lon) now1 st ->
    200 <= status < 300 ->
    normalizeOpenWeatherData data = Normal nd ->
    now2 <= now1 + stdTTL * 1000 ->
    exists st1 st2 : State,
      getCurrentWeather lat lon now1 (HttpResponse status data) st = (Normal nd, st1) /\
      weatherCache st1 !! current_cacheKey lat lon
        = Some {| value := nd; expires := now1 + stdTTL * 1000 |} /\
      getCurrentWeather lat lon now2 resp2 st1 = (Normal nd, st2) /\
      requests st1 = requests st ++ [current_url (openWeatherMapKey st) lat lon] /\
      requests st2 = requests st1.
Proof.
  intros lat lon now1 now2 status data nd resp2 st Hmiss Hstatus Hnorm Hwindow.
  eexists _, _.
  split; [apply getCurrentWeather_success; eassumption|].
  assert (Hstored :
    weatherCache
      (set_cache (<[current_cacheKey lat lon :=
                      {| value := nd; expires := now1 + stdTTL * 1000 |}]>)
         (add_request (current_url (openWeatherMapKey st) lat lon)
            (after_miss (current_cacheKey lat lon) now1 st)))
      !! current_cacheKey lat lon
    = Some {| value := nd; expires := now1 + stdTTL * 1000 |}).
  { cbn [set_cache add_request weatherCache]. apply lookup_insert_eq. }
  split; [exact Hstored|].
  split.
  - rewrite (getCurrentWeather_hit lat lon now2 resp2 _ _ Hstored Hwindow
               (proj1 (normalizeOpenWeatherData_object _ _ Hnorm))).
    reflexivity.
  - split; [|reflexivity].
    cbn [set_cache add_request requests]. rewrite after_miss_requests. reflexivity.
Qed.

(** The placeholder is not stored: after a failed fetch the next fetch for
    the same coordinates asks the upstream again. *)
Lemma getCurrentWeather_failure_not_cached lat lon now1 now2 resp1 resp2 st :
  cache_miss (current_cacheKey lat lon) now1 st ->
  upstream_failure resp1 ->
  now1 <= now2 ->
  upstream_failure resp2 ->
  exists st1 st2 v1 v2,
    getCurrentWeather lat lon now1 resp1 st = (Normal v1, st1) /\
    getCurrentWeather lat lon now2 resp2 st1 = (Normal v2, st2) /\
    requests st2 =
      requests st ++ [current_url (openWeatherMapKey st) lat lon;
                      current_url (openWeatherMapKey st) lat lon].
Proof.
  intros Hmiss Hfail1 Hle Hfail2.
  eexists _, _, _, _.
  split; [apply getCurrentWeather_failure; assumption|].
  assert (Hmiss2 : cache_miss (current_cacheKey lat lon) now2
            (add_request (current_url (openWeatherMapKey st) lat lon)
               (after_miss (current_cacheKey lat lon) now1 st))).
  { unfold cache_miss, after_miss, cache_get in *.
    cbn [add_request weatherCache].
    destruct (weatherCache st !! current_cacheKey lat lon) as [e|] eqn:E.
    - destruct (expires e <? now1)%Z eqn:Hexp; cbn [snd].
      + cbn [set_cache weatherCache]. rewrite lookup_delete_eq. exact I.
      + rewrite E. destruct Hmiss as [Hlt | Hfalsy]; [left; lia | right; exact Hfalsy].
    - cbn [snd]. rewrite E. exact I. }
  split; [apply getCurrentWeather_failure; assumption|].
  cbn [add_request requests openWeatherMapKey].
  rewrite ?after_miss_requests, ?after_miss_key.
  cbn [add_request requests openWeatherMapKey].
  rewrite ?after_miss_requests, ?after_miss_key, <- app_assoc. reflexivity.
Qed.

End CurrentWeather.

Section CurrentWeatherExamples.
Import WeatherService.

Lemma getCurrentWeather_fallback_witness :
  exists (payload location : jsval) (st' : State),
    getCurrentWeather (H := sample_host) (Fin 10) (Fin 20) 1000 NetworkError fresh_service
      = (Normal payload, st') /\
    payload = getFakeWeatherData (Fin 10) (Fin 20) 1000 /\
    JS.get payload "type" = Normal (VStr "current_weather") /\
    JS.get payload "location" = Normal location /\
    JS.get location "lat" = Normal (VNum (Fin 10)) /\
    JS.get location "lon" = Normal (VNum (Fin 20)).
Proof.
  apply (getCurrentWeather_fallback (H := sample_host)
           (Fin 10) (Fin 20) 1000 NetworkError fresh_service).
  - unfold cache_miss, fresh_service. cbn [weatherCache].
    rewrite lookup_empty. exact I.
  - exact I.
Defined.

Lemma getCurrentWeather_cached_witness :
  exists st1 st2 : State,
    getCurrentWeather (H := sample_host) (Fin 10) (Fin 20) 1000
      (HttpResponse 200 sample_body) fresh_service = (Normal sample_normalized, st1) /\
    weatherCache st1 !! current_cacheKey (H := sample_host) (Fin 10) (Fin 20)
      = Some {| value := sample_normalized; expires := 1000 + stdTTL * 1000 |} /\
    getCurrentWeather (H := sample_host) (Fin 10) (Fin 20) 5000 NetworkError st1
      = (Normal sample_normalized, st2) /\
    requests st1 =
      requests fresh_service
      ++ [current_url (H := sample_host) (openWeatherMapKey fresh_service) (Fin 10) (Fin 20)] /\
    requests st2 = requests st1.
Proof.
  apply (getCurrentWeather_cached (H := sample_host)
           (Fin 10) (Fin 20) 1000 5000 200 sample_body sample_normalized
           NetworkError fresh_service).
  - unfold cache_miss, fresh_service. cbn [weatherCache].
    rewrite lookup_empty. exact I.
  - lia.
  - reflexivity.
  - unfold stdTTL. lia.
Defined.

End CurrentWeatherExamples.

(** ** The normalizers *)

Section Normalizers.
Import WeatherService.
Context `{JSHost}.

Lemma normalizeHurricaneData_no_array now data v :
  JS.get data "activeStorms" = Normal v ->
  JS.isArray v = false ->
  normalizeHurricaneData now data = Normal (VArr []).
Proof.
  intros Hget Harr. unfold normalizeHurricaneData.
  cbn [bind ret completion_Monad]. rewrite Hget, Harr.
  rewrite orb_true_r. reflexivity.
Qed.

Lemma normalizeDisasterData_no_array data v :
  JS.get data "events" = Normal v ->
  JS.isArray v = false ->
  normalizeDisasterData data = Normal (VArr []).
Proof.
  intros Hget Harr. unfold normalizeDisasterData.
  cbn [bind ret completion_Monad]. rewrite Hget, Harr.
  rewrite orb_true_r. reflexivity.
Qed.

(** C10.  A payload that has properties, which is any value but [null]
    and [undefined], in which the property that should hold the top-level
    array ([activeStorms] for the hurricane feed, [events] for the disaster
    feed) reads as something that is not an array, [undefined] for an
    absent property included, makes the normalizer return the empty array;
    the payloads [null] and [undefined], which lack the array too, make
    both normalizers throw a TypeError, the property being read before the
    guard; and with the array present, a malformed element can still make
    either normalizer throw. *)
Theorem normalizers_missing_array :
  forall (now : Z) (data : jsval),
    (data <> VNull -> data <> VUndef ->
       exists storms events,
         JS.get data "activeStorms" = Normal storms /\
         JS.get data "events" = Normal events /\
         (JS.isArray storms = false ->
            normalizeHurricaneData now data = Normal (VArr [])) /\
         (JS.isArray events = false ->
            normalizeDisasterData data = Normal (VArr []))) /\
    (data = VNull \/ data = VUndef ->
       (exists msg, normalizeHurricaneData now data = Throw (TypeError msg)) /\
       (exists msg, normalizeDisasterData data = Throw (TypeError msg))) /\
    (forall props, JS.assoc "activeStorms" props = VUndef ->
                   normalizeHurricaneData now (VObj props) = Normal (VArr [])) /\
    (forall props, JS.assoc "events" props = VUndef ->
                   normalizeDisasterData (VObj props) = Normal (VArr [])) /\
    (exists e, normalizeHurricaneData now
                 (VObj [("activeStorms", VArr [VObj []])]) = Throw e) /\
    (exists e, normalizeDisasterData
                 (VObj [("events", VArr [VObj []])]) = Throw e).
Proof.
  intros now data.
  split.
  { intros Hnull Hundef.
    assert (Hget : forall k, exists v, JS.get data k = Normal v).
    { intros k. destruct data; try congruence; cbn [JS.get];
        try (eexists; reflexivity); destruct (String.eqb k "length"); eexists; reflexivity. }
    destruct (Hget "activeStorms") as [storms Hs]. destruct (Hget "events") as [events He].
    exists storms, events. split; [exact Hs|]. split; [exact He|]. split.
    - apply normalizeHurricaneData_no_array. exact Hs.
    - apply normalizeDisasterData_no_array. exact He. }
  split.
  { intros [-> | ->]; split; eexists; reflexivity. }
  split.
  { intros props Habsent.
    apply normalizeHurricaneData_no_array with VUndef; [|reflexivity].
    cbn [JS.get]. rewrite Habsent. reflexivity. }
  split.
  { intros props Habsent.
    apply normalizeDisasterData_no_array with VUndef; [|reflexivity].
    cbn [JS.get]. rewrite Habsent. reflexivity. }
  split; eexists; reflexivity.
Qed.

(** The rows of a wildfire feed that have a field in the column of the
    acquisition time. *)
Definition has_time (cols : Columns) (line : string) : Prop :=
  is_Some (JS.at_index (JS.split "," line) (timeIndex cols)).

Lemma mapCi_normal {A B : Type} (f : nat -> A -> completion B) (l : list A) :
  forall i,
    Forall (fun x => forall k, exists y, f k x = Normal y) l ->
    exists ys,
      mapCi f i l = Normal ys /\
      length ys = length l /\
      forall k x, l !! k = Some x ->
                  exists y, ys !! k = Some y /\ f (i + k)%nat x = Normal y.
Proof.
  induction l as [|x l IH]; intros i Hall.
  - exists []. repeat split. intros k x Hk. discriminate.
  - inversion Hall as [|? ? Hx Hl]; subst.
    destruct (Hx i) as [y Hy]. destruct (IH (S i) Hl) as (ys & Hys & Hlen & Hnth).
    exists (y :: ys). cbn [mapCi bind ret completion_Monad]. rewrite Hy, Hys.
    split; [reflexivity|]. split; [cbn; congruence|].
    intros [|k] x' Hk; cbn in Hk.
    + injection Hk as <-. exists y. rewrite Nat.add_0_r. split; [reflexivity | exact Hy].
    + destruct (Hnth k x' Hk) as (y' & Hy' & Hf). exists y'.
      split; [exact Hy'|]. rewrite Nat.add_succ_r. exact Hf.
Qed.

Lemma mapCi_throw {A B : Type} (f : nat -> A -> completion B) (l : list A) :
  forall i,
    Exists (fun x => forall k, exists e, f k x = Throw e) l ->
    Forall (fun x => forall k k', (exists y, f k x = Normal y) ->
                                  exists y', f k' x = Normal y') l ->
    exists e, mapCi f i l = Throw e.
Proof.
  induction l as [|x l IH]; intros i Hex Hun.
  - inversion Hex.
  - cbn [mapCi bind ret completion_Monad].
    destruct (f i x) as [y|e] eqn:Hfx; [|eexists; reflexivity].
    inversion Hun as [|? ? Hx Hl]; subst.
    inversion Hex as [? ? Hhere | ? ? Hthere]; subst.
    + destruct (Hhere i) as [e He]. congruence.
    + destruct (IH (S i) Hthere Hl) as [e He]. rewrite He. eexists; reflexivity.
Qed.

Lemma wildfire_row_time now cols suffix line :
  (exists rec, wildfire_row now cols suffix line = Normal rec) <-> has_time cols line.
Proof.
  unfold wildfire_row, has_time. cbn [bind ret completion_Monad].
  destruct (JS.at_index (JS.split "," line) (timeIndex cols)) as [t|].
  - split; [intros _; eexists; reflexivity | intros _; eexists; reflexivity].
  - split; [intros [rec Hrec]; discriminate | intros [t Ht]; discriminate].
Qed.

(** The fields of the record that a detection row becomes. *)
Lemma wildfire_row_fields now cols suffix line rec :
  wildfire_row now cols suffix line = Normal rec ->
  let values := JS.split "," line in
  exists (time : string) (location : jsval),
    JS.at_index values (timeIndex cols) = Some time /\
    JS.get rec "type" = Normal (VStr "wildfire") /\
    JS.get rec "location" = Normal location /\
    JS.get location "lat"
      = Normal (VNum (JS.parseFloat (JS.template (JS.at_index values (latIndex cols))))) /\
    JS.get location "lon"
      = Normal (VNum (JS.parseFloat (JS.template (JS.at_index values (lonIndex cols))))) /\
    JS.get rec "brightness"
      = Normal (VNum (JS.parseFloat
                        (JS.template (JS.at_index values (brightnessIndex cols))))) /\
    JS.get rec "timestamp"
      = Normal (VNum (Date_getTime
                        (VStr (JS.template (JS.at_index values (dateIndex cols))
                               ++ " " ++ JS.substring 0 2 time
                               ++ ":" ++ JS.substring 2 4 time)))).
Proof.
  unfold wildfire_row. cbn [bind ret completion_Monad].
  destruct (JS.at_index (JS.split "," line) (timeIndex cols)) as [t|] eqn:Et;
    [|discriminate].
  intros [= <-]. cbn zeta. exists t. eexists.
  split; [reflexivity|]. repeat split.
Qed.

(** The feed of the scenario: the header, one detection, and the line
    break that ends it. *)
Definition scenario_csv : string :=
  "latitude,longitude,acq_date,acq_time,bright_ti4,confidence"
  ++ String "010" "10.5,20.5,2024-01-01,1345,320.1,85"
  ++ String "010" "".

(** C9.  The wildfire normalizer keeps the lines after the header that are
    not empty once trimmed and, provided each of them has a field in the
    column of the acquisition time, turns the i-th of them into the i-th
    record: latitude, longitude and brightness are [parseFloat] of the
    fields in the columns named [latitude], [longitude] and [bright_ti4],
    and the timestamp is the date made from the acquisition date, a space,
    the first two characters of the acquisition time, a colon and its next
    two characters.  A kept line without acquisition time makes the
    normalizer throw, and no record is returned then.  [parseFloat] rounds
    to binary64: the row of the scenario gives 10.5, 20.5, the number
    nearest to 320.1 and the epoch of ["2024-01-01 13:45"]; a numeral
    beyond the range, as [1e400], is read as [Infinity], and one below it,
    as [1e-400], as 0. *)
Theorem normalizeWildfireData_spec :
  forall (now : Z) (random36 : nat -> string) (csvData : string),
    let lines := JS.split "010" csvData in
    let cols := columns (JS.split "," (hd "" lines)) in
    let rows := List.filter (fun line => negb (String.eqb (JS.trim line) "")) (tail lines) in
    (Forall (has_time cols) rows ->
     exists records,
       normalizeWildfireData now random36 csvData = Normal records /\
       length records = length rows /\
       forall i line, rows !! i = Some line ->
         let values := JS.split "," line in
         exists (rec location : jsval) (time : string),
           records !! i = Some rec /\
           JS.at_index values (timeIndex cols) = Some time /\
           JS.get rec "location" = Normal location /\
           JS.get location "lat"
             = Normal (VNum (JS.parseFloat
                               (JS.template (JS.at_index values (latIndex cols))))) /\
           JS.get location "lon"
             = Normal (VNum (JS.parseFloat
                               (JS.template (JS.at_index values (lonIndex cols))))) /\
           JS.get rec "brightness"
             = Normal (VNum (JS.parseFloat
                               (JS.template (JS.at_index values (brightnessIndex cols))))) /\
           JS.get rec "timestamp"
             = Normal (VNum (Date_getTime
                               (VStr (JS.template (JS.at_index values (dateIndex cols))
                                      ++ " " ++ JS.substring 0 2 time
                                      ++ ":" ++ JS.substring 2 4 time))))) /\
    (Exists (fun line => ~ has_time cols line) rows ->
     exists e, normalizeWildfireData now random36 csvData = Throw e) /\
    (exists rec location,
       normalizeWildfireData now random36 scenario_csv = Normal [rec] /\
       JS.get rec "location" = Normal location /\
       JS.get location "lat" = Normal (VNum (Fin (21 # 2))) /\
       JS.get location "lon" = Normal (VNum (Fin (41 # 2))) /\
       JS.get rec "brightness" = Normal (VNum (Num.binary64 (3201 # 10))) /\
       JS.get rec "timestamp"
         = Normal (VNum (Date_getTime (VStr "2024-01-01 13:45")))) /\
    JS.parseFloat "1e400" = PosInf /\ JS.parseFloat "1e-400" = Fin 0.
Proof.
  intros now random36 csvData lines cols rows.
  split; [|split].
  - intros Htime.
    destruct (mapCi_normal
                (fun i line => wildfire_row now cols (random36 i) line) rows 0%nat)
      as (records & Hrecords & Hlen & Hnth).
    { eapply Forall_impl; [exact Htime|]. intros line Hline k.
      apply wildfire_row_time. exact Hline. }
    exists records. split; [exact Hrecords|]. split; [exact Hlen|].
    intros i line Hi values.
    destruct (Hnth i line Hi) as (rec & Hrec & Hrow).
    destruct (wildfire_row_fields _ _ _ _ _ Hrow)
      as (time & location & Ht & _ & Hloc & Hlat & Hlon & Hbright & Hstamp).
    exists rec, location, time. repeat split; assumption.
  - intros Hbad.
    apply (mapCi_throw (fun i line => wildfire_row now cols (random36 i) line) rows 0%nat).
    + eapply Exists_impl; [exact Hbad|]. intros line Hline k. cbn beta.
      destruct (wildfire_row now cols (random36 k) line) as [rec|e] eqn:E;
        [|eexists; reflexivity].
      exfalso. apply Hline. apply (wildfire_row_time now cols (random36 k)).
      eexists; exact E.
    + apply Forall_forall. intros line _ k k' Hk. cbn beta in *.
      apply wildfire_row_time. apply wildfire_row_time in Hk. exact Hk.
  - split; [|split; vm_compute; reflexivity].
    eexists _, _. split; [vm_compute; reflexivity|].
    repeat split; vm_compute; reflexivity.
Qed.

End Normalizers.

Section NormalizerExamples.
Import WeatherService.

Lemma normalizers_missing_array_witness :
  normalizeHurricaneData (H := sample_host) 1000 (VObj [("season", VStr "2024")])
    = Normal (VArr []) /\
  normalizeDisasterData (H := sample_host) (VObj [("events", VStr "none")])
    = Normal (VArr []).
Proof.
  split.
  - destruct (proj1 (normalizers_missing_array (H := sample_host) 1000
                       (VObj [("season", VStr "2024")])))
      as (storms & events & Hstorms & _ & Hrun & _); [discriminate | discriminate |].
    apply Hrun. injection Hstorms as <-. reflexivity.
  - destruct (proj1 (normalizers_missing_array (H := sample_host) 1000
                       (VObj [("events", VStr "none")])))
      as (storms & events & _ & Hevents & _ & Hrun); [discriminate | discriminate |].
    apply Hrun. injection Hevents as <-. reflexivity.
Defined.

(** The claim as it is worded fails on the payload [null], the body of an
    answer that holds the JSON text [null]: it lacks the array, and both
    normalizers throw on it. *)
Lemma normalizers_missing_array_counterexample :
  JS.isArray VNull = false /\
  (exists msg, normalizeHurricaneData (H := sample_host) 1000 VNull
               = Throw (TypeError msg)) /\
  (exists msg, normalizeDisasterData (H := sample_host) VNull
               = Throw (TypeError msg)).
Proof. split; [reflexivity|]. split; eexists; reflexivity. Qed.

(** A feed with the header of the scenario, its detection, and a second
    detection cut short after the longitude. *)
Definition truncated_csv : string :=
  "latitude,longitude,acq_date,acq_time,bright_ti4,confidence"
  ++ String "010" "10.5,20.5,2024-01-01,1345,320.1,85"
  ++ String "010" "11.5,21.5".

(** The claim as it is worded fails on a feed whose header names the six
    columns: one row without acquisition time makes the normalizer throw,
    and the detection before it is lost with it. *)
Lemma normalizeWildfireData_counterexample :
  JS.split "," (hd "" (JS.split "010" truncated_csv))
    = ["latitude"; "longitude"; "acq_date"; "acq_time"; "bright_ti4"; "confidence"] /\
  (exists msg,
     normalizeWildfireData (H := sample_host) 1000 (fun _ => "0.4fzyo82mvyr")
       truncated_csv
     = Throw (TypeError msg)).
Proof. split; [vm_compute; reflexivity|]. eexists. vm_compute. reflexivity. Qed.

Lemma normalizeWildfireData_spec_witness :
  exists records,
    normalizeWildfireData (H := sample_host) 1000 (fun _ => "0.4fzyo82mvyr") scenario_csv
      = Normal records /\
    length records = 1%nat.
Proof.
  destruct (proj1 (normalizeWildfireData_spec (H := sample_host) 1000
                     (fun _ => "0.4fzyo82mvyr") scenario_csv))
    as (records & Hrecords & Hlen & _).
  - repeat constructor. eexists. vm_compute. reflexivity.
  - exists records. split; [exact Hrecords | exact Hlen].
Defined.

End NormalizerExamples.

(** ** The renderer *)

Section Renderer.
Import WeatherInterface.

Lemma with_map_same f st : f (map st) = map st -> with_map f st = st.
Proof. destruct st; unfold with_map; cbn. intros ->. reflexivity. Qed.

Lemma with_layers_same f m : f (map_layers m) = map_layers m -> with_layers f m = m.
Proof. destruct m; unfold with_layers; cbn. intros ->. reflexivity. Qed.

Lemma with_sources_same f m : f (map_sources m) = map_sources m -> with_sources f m = m.
Proof. destruct m; unfold with_sources; cbn. intros ->. reflexivity. Qed.

(** The guarded removals and the guarded layout update do what the
    unguarded operation does: on an absent id it changes nothing. *)
Lemma removeLayerIfPresent_eq id st :
  removeLayerIfPresent id st = (Normal tt, with_map (with_layers (delete id)) st).
Proof.
  unfold removeLayerIfPresent, getLayer, gets, removeLayer, modify, when.
  cbn [bind ret M_Monad]. case_bool_decide as Hp; [reflexivity|].
  f_equal. symmetry. apply with_map_same, with_layers_same, delete_id.
  apply eq_None_not_Some. exact Hp.
Qed.

Lemma removeSourceIfPresent_eq id st :
  removeSourceIfPresent id st
  = (Normal tt, with_map (with_sources (fun s => s ∖ {[id]})) st).
Proof.
  unfold removeSourceIfPresent, getSource, gets, removeSource, modify, when.
  cbn [bind ret M_Monad]. case_bool_decide as Hp; [reflexivity|].
  f_equal. symmetry. apply with_map_same, with_sources_same.
  apply difference_disjoint_L. set_solver.
Qed.

Lemma setVisibleIfPresent_eq v id st :
  setVisibleIfPresent v id st
  = (Normal tt, with_map (with_layers (alter (set_layer_visibility v) id)) st).
Proof.
  unfold setVisibleIfPresent, getLayer, gets, setLayoutVisibility, modify, when.
  cbn [bind ret M_Monad]. case_bool_decide as Hp; [reflexivity|].
  f_equal. symmetry. apply with_map_same, with_layers_same, alter_id'.
  apply eq_None_not_Some. exact Hp.
Qed.

Lemma addSource_cases id st :
  (exists e, addSource id st = (Throw e, st)) \/
  addSource id st = (Normal tt, with_map (with_sources (fun s => {[id]} ∪ s)) st).
Proof.
  unfold addSource, gets, modify, throw. cbn [bind ret M_Monad].
  case_bool_decide; [left; eexists; reflexivity | right; reflexivity].
Qed.

Lemma addLayer_cases id source opacity st :
  (exists e, addLayer id source opacity st = (Throw e, st)) \/
  (is_Some (map_layers (map st) !! id) /\
   addLayer id source opacity st = (Normal tt, st)) \/
  (map_layers (map st) !! id = None /\
   addLayer id source opacity st
   = (Normal tt,
      with_map (with_layers
        (<[id := {| layer_source := source; layer_visibility := visible;
                    raster_opacity := opacity |}]>)) st)).
Proof.
  unfold addLayer, getLayer, gets, modify, throw. cbn [bind ret M_Monad].
  case_bool_decide; [left; eexists; reflexivity|].
  case_bool_decide as Hp.
  - right. left. split; [exact Hp | reflexivity].
  - right. right. split; [apply eq_None_not_Some; exact Hp | reflexivity].
Qed.


End Renderer.

(** ** Transition layers *)

Section Transition.
Import WeatherInterface.






(** What the renderer does not refuse, it accepts. *)
Lemma addSource_accepted id st :
  id ∉ map_rejected (map st) ->
  addSource id st = (Normal tt, with_map (with_sources (fun s => {[id]} ∪ s)) st).
Proof.
  intros Hok. unfold addSource, gets, modify, throw. cbn [bind ret M_Monad].
  rewrite bool_decide_eq_false_2 by exact Hok. reflexivity.
Qed.



Lemma addLayer_refused id source opacity st :
  id ∈ map_rejected (map st) -> exists e, addLayer id source opacity st = (Throw e, st).
Proof.
  intros Hno. unfold addLayer, gets, throw. cbn [bind ret M_Monad].
  rewrite bool_decide_eq_true_2 by exact Hno. eexists. reflexivity.
Qed.






End Transition.

(** ** The prefetch queue *)

Section PrefetchQueue.
Import WeatherInterface.
Context `{JSHost}.

(** The task that [queueTilePrefetch] pushes for a layer. *)
Definition task_for (st : State) (b : LngLatBounds) (layerId : string) : PrefetchTask :=
  {| task_layerId := layerId;
     task_bounds := Some (extendedBounds b);
     task_zoomCategory := getZoomCategory (zoom (currentViewport st)) |}.

(** The batch of one call: a task for each key of [activeWeatherLayers]
    whose flag is set, in the order of the keys. *)
Definition batch (st : State) (b : LngLatBounds) : list PrefetchTask :=
  List.map (task_for st b)
    (List.filter (fun layerId => is_active layerId st)
       (List.map fst (activeWeatherLayers st))).

(** How the promise of [prefetchTiles] stands when the executor is done,
    as a function of the tile cache. *)
Definition after_prefetch (cache : gmap string (gmap string TileCacheEntry))
  (task : PrefetchTask) : Promise :=
  if negb (is_tile_layer (task_layerId task)) then Resolved
  else
    match task_bounds task with
    | None => Rejected (TypeError "Cannot read properties of undefined (reading 'west')")
    | Some b =>
        match cache !! task_layerId task with
        | None => Rejected (TypeError "Cannot read properties of undefined")
        | Some entries =>
            match entries !! tile_cacheKey b (task_zoomCategory task) with
            | Some _ => Resolved
            | None => Pending
            end
        end
    end.







(** [processPrefetchQueue] on an empty queue. *)
Lemma processPrefetchQueue_nil st :
  prefetchQueue st = [] ->
  processPrefetchQueue st
  = (Normal tt,
     with_inProgress false (with_history (fun h => h ++ [Idle (clock st)]) st)).
Proof.
  intros Hq. unfold processPrefetchQueue, record, gets, modify.
  cbn [bind ret M_Monad]. rewrite Hq. reflexivity.
Qed.

(** [processPrefetchQueue] on a queue with a first task, seen through the
    fields that the consumer uses. *)
Lemma processPrefetchQueue_cons st task rest :
  prefetchQueue st = task :: rest ->
  exists st',
    processPrefetchQueue st = (Normal tt, st') /\
    prefetchQueue st' = rest /\
    prefetchInProgress st' = true /\
    clock st' = clock st /\
    tileCache st' = tileCache st /\
    match after_prefetch (tileCache st) task with
    | Resolved =>
        timers st' = timers st ++ [{| due := clock st + 100; event := ProcessPrefetchQueue |}] /\
        history st' = history st ++ [Took (clock st) task; Settled (clock st) Succeeded]
    | Rejected e =>
        timers st' = timers st ++ [{| due := clock st + 100; event := ProcessPrefetchQueue |}] /\
        history st' = history st ++ [Took (clock st) task; Settled (clock st) (Failed e)]
    | Pending =>
        (exists b entries,
           task_bounds task = Some b /\
           tileCache st !! task_layerId task = Some entries /\
           timers st' =
             timers st
             ++ [{| due := clock st + 200;
                    event := PrefetchLoaded (task_layerId task)
                               (tile_cacheKey b (task_zoomCategory task))
                               (task_zoomCategory task) |}]) /\
        history st' = history st ++ [Took (clock st) task]
    end.
Proof.
  intros Hq.
  unfold processPrefetchQueue, prefetchTiles, prefetchTiles_executor,
    on_prefetch_resolved, on_prefetch_rejected, after_prefetch,
    try_catch, record, setTimeout, console_log, gets, modify, throw.
  cbn [bind ret M_Monad]. rewrite Hq.
  destruct (is_tile_layer (task_layerId task)); cbn [negb bind ret M_Monad].
  2:{ eexists. split; [reflexivity|]. cbn. rewrite <- !app_assoc. repeat split. }
  destruct (task_bounds task) as [b|]; cbn [bind ret M_Monad].
  2:{ eexists. split; [reflexivity|]. cbn. rewrite <- !app_assoc. repeat split. }
  destruct (tileCache st !! task_layerId task) as [entries|] eqn:Ecache;
    cbn [bind ret M_Monad tileCache with_console with_history with_queue with_inProgress];
    rewrite ?Ecache.
  2:{ eexists. split; [reflexivity|]. cbn. rewrite <- !app_assoc. repeat split. }
  destruct (entries !! tile_cacheKey b (task_zoomCategory task)) as [entry|];
    cbn [bind ret M_Monad].
  - eexists. split; [reflexivity|]. cbn. rewrite <- !app_assoc. repeat split.
  - eexists. split; [reflexivity|]. cbn. repeat split.
    exists b, entries. repeat split.
Qed.

(** The callback of the 200 ms timer, when the layer has a tile cache. *)
Lemma prefetch_loaded_ok st layerId cacheKey entries :
  tileCache st !! layerId = Some entries ->
  exists st',
    prefetch_loaded layerId cacheKey st = (Normal tt, st') /\
    prefetchQueue st' = prefetchQueue st /\
    prefetchInProgress st' = prefetchInProgress st /\
    clock st' = clock st /\
    tileCache st' =
      <[layerId := <[cacheKey := {| timestamp := clock st; loaded := true |}]> entries]>
        (tileCache st) /\
    timers st' = timers st ++ [{| due := clock st + 100; event := ProcessPrefetchQueue |}] /\
    history st' = history st ++ [Settled (clock st) Succeeded].
Proof.
  intros Hcache.
  unfold prefetch_loaded, on_prefetch_resolved, record, setTimeout,
    console_log, gets, modify.
  cbn [bind ret M_Monad]. rewrite Hcache. cbn [bind ret M_Monad].
  eexists. split; [reflexivity|]. cbn. repeat split.
Qed.

(** The consumer never throws. *)
Lemma processPrefetchQueue_total st :
  exists st', processPrefetchQueue st = (Normal tt, st').
Proof.
  destruct (prefetchQueue st) as [|task rest] eqn:Hq.
  - rewrite (processPrefetchQueue_nil _ Hq). eexists; reflexivity.
  - destruct (processPrefetchQueue_cons _ _ _ Hq) as (st' & Hrun & _).
    exists st'. exact Hrun.
Qed.





End PrefetchQueue.

Section QueueTilePrefetch.
Import WeatherInterface.
Context `{JSHost}.

Lemma with_queue_same st : with_queue (fun _ => prefetchQueue st) st = st.
Proof. destruct st; reflexivity. Qed.

(** The loop of [queueTilePrefetch] appends a task for each key whose
    flag is set. *)
Lemma forEach_push (b : LngLatBounds) (zoomCategory : ZoomCategory) (ids : list string) :
  forall st,
    forEach
      (fun layerId =>
         let* on := gets (is_active layerId) in
         when on
           (modify (with_queue (fun q =>
              q ++ [{| task_layerId := layerId;
                       task_bounds := Some (extendedBounds b);
                       task_zoomCategory := zoomCategory |}]))))
      ids st
    = (Normal tt,
       with_queue
         (fun _ =>
            prefetchQueue st
            ++ List.map
                 (fun layerId =>
                    {| task_layerId := layerId;
                       task_bounds := Some (extendedBounds b);
                       task_zoomCategory := zoomCategory |})
                 (List.filter (fun layerId => is_active layerId st) ids))
         st).
Proof.
  induction ids as [|layerId ids IH]; intros st.
  - cbn. rewrite app_nil_r, with_queue_same. reflexivity.
  - cbn [forEach]. rewrite bind_M. unfold gets at 1. cbn [bind ret M_Monad].
    cbn [List.filter]. destruct (is_active layerId st) eqn:Eon; cbn [when].
    + unfold modify at 1. rewrite IH. cbn. rewrite <- app_assoc. reflexivity.
    + cbn [ret M_Monad]. apply IH.
Qed.

Lemma queueTilePrefetch_eq st b :
  bounds (currentViewport st) = Some b ->
  queueTilePrefetch st
  = (if prefetchInProgress st then ret tt else processPrefetchQueue)
      (with_queue (fun _ => batch st b) st).
Proof.
  intros Hb. unfold queueTilePrefetch. rewrite bind_M. unfold modify at 1.
  rewrite bind_M. unfold gets at 1. cbn [currentViewport with_queue]. rewrite Hb.
  rewrite bind_M. unfold gets at 1. rewrite bind_M, forEach_push.
  rewrite bind_M. unfold gets at 1. cbn. destruct (prefetchInProgress st); reflexivity.
Qed.



End QueueTilePrefetch.

Section PrefetchExamples.
Import WeatherInterface.




End PrefetchExamples.

(** ** Frames: what the operations of the interface leave alone *)

Section Frames.
Import WeatherInterface.

(** The computation never throws. *)
Definition returns {A : Type} (c : M State A) : Prop :=
  forall st, exists a st', c st = (Normal a, st').

(** The state the computation ends in, thrown or not, is related to the
    one it started in. *)
Definition preserves {A : Type} (R : relation State) (c : M State A) : Prop :=
  forall st, R st (snd (c st)).

Lemma returns_ret {A : Type} (a : A) : returns (ret a : M State A).
Proof. intros st. eexists _, _. reflexivity. Qed.

Lemma returns_bind {A B : Type} (c : M State A) (k : A -> M State B) :
  returns c -> (forall a, returns (k a)) -> returns (bind c k).
Proof.
  intros Hc Hk st. rewrite bind_M. destruct (Hc st) as (a & st' & ->). apply Hk.
Qed.

Lemma returns_try_catch {A : Type} (body : M State A) (handler : exn -> M State A) :
  (forall e, returns (handler e)) -> returns (try_catch body handler).
Proof.
  intros Hh st. unfold try_catch. destruct (body st) as [[a|e] st'].
  - eexists _, _. reflexivity.
  - apply Hh.
Qed.

Lemma returns_when (b : bool) (body : M State unit) :
  returns body -> returns (when b body).
Proof. intros Hb. destruct b; [exact Hb | apply returns_ret]. Qed.

Lemma returns_forEach {A : Type} (f : A -> M State unit) (l : list A) :
  (forall x, returns (f x)) -> returns (forEach f l).
Proof.
  intros Hf. induction l as [|x l IH]; [apply returns_ret|].
  cbn [forEach]. apply returns_bind; [apply Hf | intros _; exact IH].
Qed.

Lemma returns_gets {A : Type} (f : State -> A) : returns (gets f).
Proof. intros st. eexists _, _. reflexivity. Qed.

Lemma returns_modify (f : State -> State) : returns (modify f).
Proof. intros st. eexists _, _. reflexivity. Qed.

Section Combinators.
Context (R : relation State) `{!PreOrder R}.

Lemma preserves_ret {A : Type} (a : A) : preserves R (ret a : M State A).
Proof. intros st. cbn. reflexivity. Qed.

Lemma preserves_bind {A B : Type} (c : M State A) (k : A -> M State B) :
  preserves R c -> (forall a, preserves R (k a)) -> preserves R (bind c k).
Proof.
  intros Hc Hk st. rewrite bind_M. specialize (Hc st).
  destruct (c st) as [[a|e] st']; cbn [snd] in *.
  - transitivity st'; [exact Hc | apply Hk].
  - exact Hc.
Qed.

Lemma preserves_try_catch {A : Type} (body : M State A) (handler : exn -> M State A) :
  preserves R body -> (forall e, preserves R (handler e)) ->
  preserves R (try_catch body handler).
Proof.
  intros Hb Hh st. unfold try_catch. specialize (Hb st).
  destruct (body st) as [[a|e] st']; cbn [snd] in *.
  - exact Hb.
  - transitivity st'; [exact Hb | apply Hh].
Qed.

Lemma preserves_when (b : bool) (body : M State unit) :
  preserves R body -> preserves R (when b body).
Proof. intros Hb. destruct b; [exact Hb | apply preserves_ret]. Qed.

Lemma preserves_forEach {A : Type} (f : A -> M State unit) (l : list A) :
  (forall x, preserves R (f x)) -> preserves R (forEach f l).
Proof.
  intros Hf. induction l as [|x l IH]; [apply preserves_ret|].
  cbn [forEach]. apply preserves_bind; [apply Hf | intros _; exact IH].
Qed.

Lemma preserves_gets {A : Type} (f : State -> A) : preserves R (gets f).
Proof. intros st. cbn. reflexivity. Qed.

Lemma preserves_throw {A : Type} (e : exn) : preserves R (throw e : M State A).
Proof. intros st. cbn. reflexivity. Qed.

Lemma preserves_modify (f : State -> State) :
  (forall st, R st (f st)) -> preserves R (modify f).
Proof. intros Hf st. apply Hf. Qed.

End Combinators.

(** Whenever the computation completes, the state it ends in satisfies
    [P]. *)
Definition ensures {A : Type} (c : M State A) (P : State -> Prop) : Prop :=
  forall st a st', c st = (Normal a, st') -> P st'.

Lemma ensures_bind {A B : Type} (c : M State A) (k : A -> M State B) P :
  (forall a, ensures (k a) P) -> ensures (bind c k) P.
Proof.
  intros Hk st b st'. rewrite bind_M.
  destruct (c st) as [[a|e] s1]; [apply Hk | discriminate].
Qed.

(** An update that establishes [P], followed by code that keeps it. *)
Lemma ensures_modify_then {B : Type} (R : relation State) (f : State -> State)
  (k : unit -> M State B) (P : State -> Prop) :
  (forall st, P (f st)) ->
  (forall st st', R st st' -> P st -> P st') ->
  preserves R (k tt) ->
  ensures (bind (modify f) k) P.
Proof.
  intros Hf Hkeep Hk st b st' Hrun. rewrite bind_M in Hrun. unfold modify in Hrun.
  specialize (Hk (f st)). rewrite Hrun in Hk. cbn [snd] in Hk.
  exact (Hkeep _ _ Hk (Hf st)).
Qed.

(** The same with more code after it. *)
Lemma ensures_modify_then_bind {B C : Type} (R : relation State) `{!PreOrder R}
  (f : State -> State) (k : unit -> M State B) (k' : B -> M State C)
  (P : State -> Prop) :
  (forall st, P (f st)) ->
  (forall st st', R st st' -> P st -> P st') ->
  preserves R (k tt) ->
  (forall b, preserves R (k' b)) ->
  ensures (bind (bind (modify f) k) k') P.
Proof.
  intros Hf Hkeep Hk Hk' st c st' Hrun.
  assert (Hall : preserves R (bind (k tt) k')) by (apply preserves_bind; assumption).
  specialize (Hall (f st)).
  rewrite !bind_M in Hrun. unfold modify in Hrun.
  rewrite bind_M in Hall.
  destruct (k tt (f st)) as [[b|e] s1]; [|discriminate].
  rewrite Hrun in Hall. cbn [snd] in Hall.
  exact (Hkeep _ _ Hall (Hf st)).
Qed.

(** The relations in use: a field is left as it was; the flag of a layer,
    once up, stays up; an entry of [weatherLayers], once there, stays. *)
Definition same {X : Type} (field : State -> X) : relation State :=
  fun st st' => field st' = field st.

Definition stays_active (layerId : string) : relation State :=
  fun st st' => is_active layerId st = true -> is_active layerId st' = true.

Definition flag_kept (layerId : string) : relation State :=
  fun st st' => is_active layerId st' = is_active layerId st.

Definition stays_recorded (layerId : string) : relation State :=
  fun st st' => is_Some (weatherLayers st !! layerId) ->
                is_Some (weatherLayers st' !! layerId).

Lemma assoc_get_set_eq k b l : assoc_get k (assoc_set k b l) = b.
Proof.
  induction l as [|[k' b'] l IH]; cbn; [rewrite String.eqb_refl; reflexivity|].
  destruct (String.eqb k k') eqn:E; cbn; [rewrite String.eqb_refl; reflexivity|].
  rewrite E. exact IH.
Qed.

Lemma assoc_get_set_ne k k' b l :
  k <> k' -> assoc_get k (assoc_set k' b l) = assoc_get k l.
Proof.
  intros Hne. assert (E : String.eqb k k' = false) by (apply String.eqb_neq; exact Hne).
  induction l as [|[k'' b''] l IH]; cbn; [rewrite E; reflexivity|].
  destruct (String.eqb k' k'') eqn:E'; cbn.
  - apply String.eqb_eq in E'. subst k''. rewrite E. reflexivity.
  - destruct (String.eqb k k''); [reflexivity | exact IH].
Qed.

End Frames.

#[global] Instance same_PreOrder {X : Type} (field : WeatherInterface.State -> X) : PreOrder (same field).
Proof.
  split; [intros st; reflexivity|].
  intros a b c Hab Hbc. unfold same in *. congruence.
Qed.

#[global] Instance flag_kept_PreOrder layerId : PreOrder (flag_kept layerId).
Proof.
  split; [intros st; reflexivity|].
  intros a b c Hab Hbc. unfold flag_kept in *. congruence.
Qed.

#[global] Instance stays_active_PreOrder layerId : PreOrder (stays_active layerId).
Proof. split; [intros st; exact id | intros a b c Hab Hbc Ha; auto]. Qed.

#[global] Instance stays_recorded_PreOrder layerId : PreOrder (stays_recorded layerId).
Proof. split; [intros st; exact id | intros a b c Hab Hbc Ha; auto]. Qed.

(** ** The layer lifecycle *)

Create HintDb weather_ops.

#[global] Hint Unfold
  WeatherInterface.getLayer WeatherInterface.getSource WeatherInterface.removeLayer
  WeatherInterface.removeSource WeatherInterface.addSource WeatherInterface.addLayer
  WeatherInterface.setLayoutVisibility WeatherInterface.setVisibleIfPresent
  WeatherInterface.removeLayerAndSource WeatherInterface.removeSourceIfPresent
  WeatherInterface.removeLayerIfPresent WeatherInterface.console_log
  WeatherInterface.setTimeout WeatherInterface.record WeatherInterface.set_active
  WeatherInterface.set_record WeatherInterface.set_record_visibility
  WeatherInterface.cleanup WeatherInterface.ensureSource
  WeatherInterface.current_category WeatherInterface.or_current
  WeatherInterface.addMajorClimateZones WeatherInterface.createGlobalTemperatureLayer
  WeatherInterface.createRegionalTemperatureLayer
  WeatherInterface.addLocalTemperaturePoints
  WeatherInterface.createLocalTemperatureLayer
  WeatherInterface.createFallbackTemperatureLayer
  WeatherInterface.createTemperatureLayer WeatherInterface.createPrecipitationLayer
  WeatherInterface.addSourceTwice WeatherInterface.createWindLayer
  WeatherInterface.createCloudLayer WeatherInterface.initCityLabels
  WeatherInterface.updateCityLabelsVisibility WeatherInterface.show_or_hide_record
  WeatherInterface.prefetchTiles WeatherInterface.prefetchTiles_executor
  WeatherInterface.on_prefetch_resolved WeatherInterface.on_prefetch_rejected
  WeatherInterface.processPrefetchQueue WeatherInterface.prefetch_loaded
  WeatherInterface.queueTilePrefetch WeatherInterface.restore_visibility
  : weather_ops.

(** Going through a computation combinator by combinator; [leaf] closes
    the obligations on [modify]. *)
Ltac frame_rule lem :=
  apply lem;
  try match goal with |- PreOrder _ => typeclasses eauto end.

Ltac frame_with leaf :=
  repeat first
    [ match goal with
      | |- preserves _ (ret _) => frame_rule preserves_ret
      | |- preserves _ (gets _) => frame_rule preserves_gets
      | |- preserves _ (throw _) => frame_rule preserves_throw
      | |- preserves _ (forEach _ _) => frame_rule preserves_forEach; intros ?
      | |- preserves _ (when _ _) => frame_rule preserves_when
      | |- preserves _ (try_catch _ _) => frame_rule preserves_try_catch; [|intros ?]
      | |- preserves _ (bind _ _) => frame_rule preserves_bind; [|intros ?]
      | |- preserves _ (modify _) => frame_rule preserves_modify; intros ?; leaf
      | |- preserves _ (match ?x with _ => _ end) => destruct x
      end
    | solve [auto]
    | progress autounfold with weather_ops ].

Ltac returns_tac :=
  repeat first
    [ match goal with
      | |- returns (ret _) => apply returns_ret
      | |- returns (gets _) => apply returns_gets
      | |- returns (modify _) => apply returns_modify
      | |- returns (forEach _ _) => apply returns_forEach; intros ?
      | |- returns (when _ _) => apply returns_when
      | |- returns (try_catch _ _) => apply returns_try_catch; intros ?
      | |- returns (bind _ _) => apply returns_bind; [|intros ?]
      | |- returns (match ?x with _ => _ end) => destruct x
      end
    | solve [auto]
    | progress autounfold with weather_ops ].

Section Lifecycle.
Import WeatherInterface.
Context `{JSHost}.

Lemma returns_processPrefetchQueue : returns processPrefetchQueue.
Proof.
  intros st. destruct (processPrefetchQueue_total st) as [st' Hst'].
  eexists _, _. exact Hst'.
Qed.

(** [if (this.currentViewport.bounds && c) this.queueTilePrefetch()]. *)
Lemma returns_guarded_prefetch (c : bool) :
  returns (let* b := gets (fun st => bounds (currentViewport st)) in
           when (bool_decide (is_Some b) && c) queueTilePrefetch).
Proof.
  intros st. rewrite bind_M. unfold gets. cbn [fst snd].
  destruct (bounds (currentViewport st)) as [b|] eqn:Eb.
  - rewrite bool_decide_eq_true_2 by (eexists; reflexivity).
    destruct c; cbn [andb when]; [|eexists _, _; reflexivity].
    rewrite (queueTilePrefetch_eq _ _ Eb).
    destruct (prefetchInProgress st); [eexists _, _; reflexivity|].
    apply returns_processPrefetchQueue.
  - rewrite bool_decide_eq_false_2 by (intros [x Hx]; discriminate).
    eexists _, _. reflexivity.
Qed.

Lemma returns_guarded_prefetch' :
  returns (let* b := gets (fun st => bounds (currentViewport st)) in
           when (bool_decide (is_Some b)) queueTilePrefetch).
Proof.
  intros st. destruct (returns_guarded_prefetch true st) as (a & st' & Hrun).
  exists a, st'. rewrite <- Hrun. rewrite !bind_M. unfold gets.
  rewrite andb_true_r. reflexivity.
Qed.

Variable createForecastLayer : string -> option ZoomCategory -> M State unit.
Hypothesis createForecastLayer_returns :
  forall layerId zoomCategory, returns (createForecastLayer layerId zoomCategory).

Lemma returns_createTemperatureLayer zc : returns (createTemperatureLayer zc).
Proof. returns_tac. Qed.

Lemma returns_fetchLayerData layerId zc :
  returns (fetchLayerData createForecastLayer layerId zc).
Proof.
  unfold fetchLayerData.
  destruct (String.eqb layerId ""); [apply returns_ret|].
  apply returns_bind; [returns_tac|intros _].
  apply returns_bind; [returns_tac|intros zoomCategory].
  apply returns_bind; [|intros _; apply returns_guarded_prefetch'].
  repeat match goal with
         | |- returns (if ?b then _ else _) => destruct b
         end; returns_tac.
Qed.

Lemma returns_showLayer layerId : returns (showLayer createForecastLayer layerId).
Proof.
  unfold showLayer. destruct (String.eqb layerId ""); [apply returns_ret|].
  apply returns_bind; [apply returns_gets|intros r].
  apply returns_bind.
  { destruct r as [r|]; [destruct (0 <? length (layers r))%nat|].
    - returns_tac.
    - apply returns_bind; [apply returns_gets|intros z]. apply returns_fetchLayerData.
    - apply returns_bind; [apply returns_gets|intros z]. apply returns_fetchLayerData. }
  intros _. apply returns_bind; [returns_tac|intros _].
  apply returns_bind; [returns_tac|intros _].
  apply returns_guarded_prefetch.
Qed.

Lemma returns_hideLayer layerId : returns (hideLayer layerId).
Proof.
  unfold hideLayer. destruct (String.eqb layerId ""); [apply returns_ret|].
  returns_tac.
Qed.

(** Closing the obligations on [modify]: the flag of [cities], once up,
    stays up; the flag of another layer is not touched by an update of the
    flag of [cities]. *)
Ltac cities_up_leaf :=
  unfold stays_active, is_active; cbn;
  first [ exact id | intros _; apply assoc_get_set_eq ].

Ltac flag_kept_leaf :=
  unfold flag_kept, is_active; cbn;
  first [ reflexivity | apply assoc_get_set_ne; discriminate ].

(** What [showLayer('temperature')] does after it has raised the flag of
    [cities]. *)
Lemma showLayer_tail_cities :
  preserves (stays_active "cities")
    (let* cities := gets (fun st => weatherLayers st !! "cities") in
     match cities with
     | Some r => show_or_hide_record "cities" visible r
     | None => initCityLabels
     end ;;;
     updateCityLabelsVisibility).
Proof. frame_with cities_up_leaf. Qed.

Lemma guarded_prefetch_cities c :
  preserves (stays_active "cities")
    (let* b := gets (fun st => bounds (currentViewport st)) in
     when (bool_decide (is_Some b) && c) queueTilePrefetch).
Proof. frame_with cities_up_leaf. Qed.

Lemma showLayer_temperature_cities :
  ensures (showLayer createForecastLayer "temperature")
    (fun st => is_active "cities" st = true).
Proof.
  unfold showLayer. cbn [String.eqb Ascii.eqb Bool.eqb when].
  apply ensures_bind; intros r. apply ensures_bind; intros _.
  apply ensures_bind; intros _.
  unfold set_active at 1.
  apply (ensures_modify_then_bind (stays_active "cities")).
  - intros st. apply assoc_get_set_eq.
  - intros st st' Hstay. exact Hstay.
  - apply showLayer_tail_cities.
  - intros _. apply guarded_prefetch_cities.
Qed.

Lemma showLayer_temperature_itself :
  ensures (showLayer createForecastLayer "temperature")
    (fun st => is_active "temperature" st = true).
Proof.
  unfold showLayer. cbn [String.eqb Ascii.eqb Bool.eqb when].
  apply ensures_bind; intros r. apply ensures_bind; intros _.
  unfold set_active at 1.
  apply (ensures_modify_then (flag_kept "temperature")).
  - intros st. apply assoc_get_set_eq.
  - intros st st' Hkept Hup. unfold flag_kept in Hkept. congruence.
  - frame_with flag_kept_leaf.
Qed.

(** After [showLayer('temperature')] the flags of [temperature] and of
    [cities] are up. *)
Lemma showLayer_temperature st :
  exists st',
    showLayer createForecastLayer "temperature" st = (Normal tt, st') /\
    is_active "temperature" st' = true /\
    is_active "cities" st' = true.
Proof.
  destruct (returns_showLayer "temperature" st) as ([] & st' & Hrun).
  exists st'. split; [exact Hrun|]. split.
  - exact (showLayer_temperature_itself _ _ _ Hrun).
  - exact (showLayer_temperature_cities _ _ _ Hrun).
Qed.

Lemma hideLayer_temperature_cities :
  ensures (hideLayer "temperature") (fun st => is_active "cities" st = false).
Proof.
  unfold hideLayer. cbn [String.eqb Ascii.eqb Bool.eqb when].
  apply ensures_bind; intros r. apply ensures_bind; intros _.
  apply ensures_bind; intros t. apply ensures_bind; intros _.
  apply ensures_bind; intros _.
  unfold set_active at 1.
  apply (ensures_modify_then (same activeWeatherLayers)).
  - intros st. apply assoc_get_set_eq.
  - intros st st' Hsame Hdown. unfold same in Hsame. unfold is_active in *. congruence.
  - frame_with ltac:(reflexivity).
Qed.

Lemma hideLayer_temperature_itself :
  ensures (hideLayer "temperature") (fun st => is_active "temperature" st = false).
Proof.
  unfold hideLayer. cbn [String.eqb Ascii.eqb Bool.eqb when].
  apply ensures_bind; intros r. apply ensures_bind; intros _.
  apply ensures_bind; intros t. apply ensures_bind; intros _.
  unfold set_active at 1.
  apply (ensures_modify_then (flag_kept "temperature")).
  - intros st. apply assoc_get_set_eq.
  - intros st st' Hkept Hdown. unfold flag_kept in Hkept. congruence.
  - frame_with flag_kept_leaf.
Qed.

(** After [hideLayer('temperature')] both flags are down. *)
Lemma hideLayer_temperature st :
  exists st',
    hideLayer "temperature" st = (Normal tt, st') /\
    is_active "temperature" st' = false /\
    is_active "cities" st' = false.
Proof.
  destruct (returns_hideLayer "temperature" st) as ([] & st' & Hrun).
  exists st'. split; [exact Hrun|]. split.
  - exact (hideLayer_temperature_itself _ _ _ Hrun).
  - exact (hideLayer_temperature_cities _ _ _ Hrun).
Qed.

(** Toggling [cities] itself flips its flag before the guard that was
    meant to keep it alone is reached; nothing else changes but the
    console. *)
Lemma toggleLayer_cities st :
  toggleLayer createForecastLayer "cities" st
  = (Normal tt,
     with_console (fun c => c ++ ["City labels are managed with temperature layer"])
       (with_active (assoc_set "cities" (negb (is_active "cities" st))) st)).
Proof. reflexivity. Qed.

(** C5 fails on the code by a slip: [toggleLayer('cities')] negates the
    flag of [cities] before it reaches the guard that returns for that
    layer, so a direct toggle does change the active state of [cities]. *)
Theorem toggleLayer_cities_changes_flag :
  forall st : State,
    is_active "cities" (snd (toggleLayer createForecastLayer "cities" st))
    = negb (is_active "cities" st).
Proof.
  intros st. rewrite toggleLayer_cities. cbn [snd].
  unfold is_active. cbn. apply assoc_get_set_eq.
Qed.

(** *** Refreshing a layer *)

Hypothesis createForecastLayer_keeps :
  forall layerId zoomCategory k,
    preserves (stays_recorded k) (createForecastLayer layerId zoomCategory).

Ltac recorded_leaf :=
  unfold stays_recorded; cbn;
  first
    [ exact id
    | let Hs := fresh "Hs" in
      intros Hs; apply lookup_insert_is_Some'; right; exact Hs
    | let Hs := fresh "Hs" in
      intros Hs; apply lookup_alter_is_Some; exact Hs ].

(** No builder removes an entry of [weatherLayers]. *)
Lemma fetchLayerData_keeps_records layerId zc k :
  preserves (stays_recorded k) (fetchLayerData createForecastLayer layerId zc).
Proof.
  unfold fetchLayerData.
  destruct (String.eqb layerId ""); [frame_rule preserves_ret|].
  frame_rule preserves_bind; [frame_with recorded_leaf|intros _].
  frame_rule preserves_bind; [frame_with recorded_leaf|intros zoomCategory].
  frame_rule preserves_bind; [|intros _; frame_with recorded_leaf].
  repeat match goal with
         | |- preserves _ (if ?b then _ else _) => destruct b
         end; frame_with recorded_leaf.
Qed.

(** [refreshLayer] on a layer whose flag is down: a message and nothing
    else. *)
Lemma refreshLayer_inactive layerId zc st :
  is_active layerId st = false ->
  refreshLayer createForecastLayer layerId zc st
  = (Normal tt,
     with_console
       (fun c => c ++ ["Layer " ++ layerId ++ " is not active, skipping refresh"]%string)
       st).
Proof.
  intros Hdown. unfold refreshLayer. rewrite bind_gets, Hdown. reflexivity.
Qed.

(** [refreshLayer] on a layer whose flag is up: the builder runs, then
    the timer that restores the visibility read beforehand is started. *)
Lemma refreshLayer_active layerId zc st :
  is_active layerId st = true ->
  exists s1,
    fetchLayerData createForecastLayer layerId zc st = (Normal tt, s1) /\
    refreshLayer createForecastLayer layerId zc st
    = (Normal tt,
       with_timers
         (fun ts =>
            ts ++ [{| due := clock s1 + 100;
                      event :=
                        RestoreVisibility layerId
                          (match weatherLayers st !! layerId with
                           | Some r => visibility r
                           | None => visible
                           end) |}])
         s1).
Proof.
  intros Hup.
  destruct (returns_fetchLayerData layerId zc st) as ([] & s1 & Hs1).
  exists s1. split; [exact Hs1|].
  unfold refreshLayer. rewrite bind_gets, Hup. cbn [negb].
  rewrite bind_gets, (bind_Normal _ _ _ _ _ Hs1). reflexivity.
Qed.

(** Giving every sublayer of a list the visibility [v]. *)
Lemma forEach_setVisible (v : Visibility) (ids : list string) :
  forall st,
    exists st',
      forEach (setVisibleIfPresent v) ids st = (Normal tt, st') /\
      weatherLayers st' = weatherLayers st /\
      (forall id l, map_layers (map st') !! id = Some l ->
                    is_Some (map_layers (map st) !! id)) /\
      (forall id l,
         map_layers (map st') !! id = Some l ->
         In id ids \/
           (exists l0, map_layers (map st) !! id = Some l0 /\ layer_visibility l0 = v) ->
         layer_visibility l = v).
Proof.
  induction ids as [|a ids IH]; intros st.
  - exists st. split; [reflexivity|]. split; [reflexivity|]. split.
    + intros id l Hl. eexists; exact Hl.
    + intros id l Hl [[] | (l0 & Hl0 & Hv)]. congruence.
  - cbn [forEach]. rewrite bind_M, setVisibleIfPresent_eq.
    set (s1 := with_map (with_layers (alter (set_layer_visibility v) a)) st).
    destruct (IH s1) as (st' & Hrun & Hrec & Hsome & Hvis).
    exists st'. split; [exact Hrun|]. split; [exact Hrec|].
    assert (Hs1 : forall id, map_layers (map s1) !! id
                             = if decide (a = id)
                               then set_layer_visibility v <$> map_layers (map st) !! a
                               else map_layers (map st) !! id).
    { intros id. subst s1. cbn. apply lookup_alter. }
    split.
    + intros id l Hl. destruct (Hsome id l Hl) as [x Hx]. rewrite Hs1 in Hx.
      destruct (decide (a = id)) as [<-|Hne]; [|eexists; exact Hx].
      destruct (map_layers (map st) !! a); [eexists; reflexivity | discriminate].
    + intros id l Hl Hcase. apply (Hvis id l Hl).
      destruct (Hsome id l Hl) as [x Hx].
      destruct (decide (a = id)) as [<-|Hne].
      * right. exists x. split; [exact Hx|]. rewrite Hs1 in Hx.
        destruct (decide (a = a)); [|congruence].
        destruct (map_layers (map st) !! a); [|discriminate].
        injection Hx as <-. reflexivity.
      * destruct Hcase as [[Heq | Hin] | (l0 & Hl0 & Hv)]; [congruence | left; exact Hin |].
        right. exists l0. split; [|exact Hv]. rewrite Hs1.
        destruct (decide (a = id)); [congruence | exact Hl0].
Qed.

(** The callback of the timer: the entry and its sublayers get the
    visibility that was read before the builder ran. *)
Lemma restore_visibility_spec layerId v st r :
  weatherLayers st !! layerId = Some r ->
  exists st',
    restore_visibility layerId v st = (Normal tt, st') /\
    weatherLayers st' !! layerId = Some (set_visibility v r) /\
    (forall id l, In id (layers r) -> map_layers (map st') !! id = Some l ->
                  layer_visibility l = v).
Proof.
  intros Hr. unfold restore_visibility. rewrite bind_gets, Hr.
  rewrite bind_M. unfold set_record_visibility, modify.
  set (s1 := with_weatherLayers (alter (set_visibility v) layerId) st).
  destruct (forEach_setVisible v (layers r) s1) as (st' & Hrun & Hrec & _ & Hvis).
  exists st'. split; [exact Hrun|]. split.
  - rewrite Hrec. subst s1. cbn. rewrite lookup_alter_eq, Hr. reflexivity.
  - intros id l Hin Hl. apply (Hvis id l Hl). left. exact Hin.
Qed.

(** *** The temperature builder on a renderer that refuses nothing *)

(** [c], run from a state in [P], completes in a state in [Q]. *)
Definition completes {A : Type} (P : State -> Prop) (c : M State A)
  (Q : A -> State -> Prop) : Prop :=
  forall st, P st -> exists a st', c st = (Normal a, st') /\ Q a st'.

Lemma completes_bind {A B : Type} P (c : M State A) Q (k : A -> M State B) R :
  completes P c Q -> (forall a, completes (Q a) (k a) R) -> completes P (bind c k) R.
Proof.
  intros Hc Hk st HP. destruct (Hc st HP) as (a & s1 & Hrun & HQ).
  rewrite (bind_Normal _ _ _ _ _ Hrun). apply (Hk a). exact HQ.
Qed.

Lemma completes_ret {A : Type} (P : State -> Prop) (a : A) :
  completes P (ret a) (fun x st => x = a /\ P st).
Proof. intros st HP. exists a, st. split; [reflexivity|]. split; [reflexivity | exact HP]. Qed.

Lemma completes_gets {A : Type} (P : State -> Prop) (f : State -> A) :
  completes P (gets f) (fun a st => a = f st /\ P st).
Proof. intros st HP. exists (f st), st. split; [reflexivity|]. split; [reflexivity | exact HP]. Qed.

Lemma completes_modify (P Q : State -> Prop) (f : State -> State) :
  (forall st, P st -> Q (f st)) -> completes P (modify f) (fun _ => Q).
Proof. intros Hf st HP. exists tt, (f st). split; [reflexivity | apply Hf; exact HP]. Qed.

Lemma completes_weaken {A : Type} (P P' : State -> Prop) (c : M State A)
  (Q Q' : A -> State -> Prop) :
  completes P c Q -> (forall st, P' st -> P st) -> (forall a st, Q a st -> Q' a st) ->
  completes P' c Q'.
Proof.
  intros Hc HP HQ st HP'. destruct (Hc st (HP st HP')) as (a & st' & Hrun & Hq).
  exists a, st'. split; [exact Hrun | apply HQ; exact Hq].
Qed.

Lemma completes_try {A : Type} P (body : M State A) (handler : exn -> M State A) Q :
  completes P body Q -> completes P (try_catch body handler) Q.
Proof.
  intros Hb st HP. destruct (Hb st HP) as (a & st' & Hrun & HQ).
  exists a, st'. unfold try_catch. rewrite Hrun. split; [reflexivity | exact HQ].
Qed.

Lemma completes_when (P : State -> Prop) (b : bool) (body : M State unit) :
  completes P body (fun _ => P) -> completes P (when b body) (fun _ => P).
Proof.
  intros Hb. destruct b; [exact Hb|].
  intros st HP. exists tt, st. split; [reflexivity | exact HP].
Qed.

(** While the temperature layer is rebuilt: the entries are [W]; the
    renderer refuses nothing and is at the zoom [zv]; the sublayers of the
    old record [old] that are not among the new ones [new] are not in
    the renderer; and those of [added] are. *)
Definition rebuilding (W : gmap string LayerRecord) (zv : jsnum)
  (old new added : list string) (st : State) : Prop :=
  weatherLayers st = W /\ map_rejected (map st) = ∅ /\ map_zoom (map st) = zv /\
  (forall id, In id old -> ~ In id new -> map_layers (map st) !! id = None) /\
  (forall id, In id added -> is_Some (map_layers (map st) !! id)).

Lemma removeLayerAndSource_eq id st :
  removeLayerAndSource id st
  = (Normal tt,
     with_map (with_sources (fun s => s ∖ {[id]}))
       (with_map (with_layers (delete id)) st)).
Proof.
  unfold removeLayerAndSource. rewrite bind_M.
  change (getLayer id st) with ((Normal (bool_decide (is_Some (map_layers (map st) !! id)))), st).
  cbv iota. rewrite bind_M.
  assert (Hl : when (bool_decide (is_Some (map_layers (map st) !! id))) (removeLayer id) st
               = (Normal tt, with_map (with_layers (delete id)) st)).
  { pose proof (removeLayerIfPresent_eq id st) as Hrm.
    unfold removeLayerIfPresent in Hrm. rewrite bind_M in Hrm. exact Hrm. }
  rewrite Hl. cbv iota.
  pose proof (removeSourceIfPresent_eq id (with_map (with_layers (delete id)) st)) as Hrs.
  unfold removeSourceIfPresent in Hrs. exact Hrs.
Qed.

(** The cleanup removes the sublayers of the old record and nothing
    comes to the renderer. *)
Lemma cleanup_removes W zv (ids : list string) :
  forall st,
    weatherLayers st = W -> map_rejected (map st) = ∅ -> map_zoom (map st) = zv ->
    exists st',
      forEach removeLayerAndSource ids st = (Normal tt, st') /\
      weatherLayers st' = W /\ map_rejected (map st') = ∅ /\ map_zoom (map st') = zv /\
      (forall id, In id ids -> map_layers (map st') !! id = None) /\
      (forall id, map_layers (map st) !! id = None -> map_layers (map st') !! id = None).
Proof.
  induction ids as [|a ids IH]; intros st HW Hrej Hz.
  - exists st. split; [reflexivity|]. repeat split; try assumption.
    + intros id [].
    + intros id Hid. exact Hid.
  - cbn [forEach]. rewrite bind_M, removeLayerAndSource_eq.
    set (s1 := with_map _ _).
    destruct (IH s1) as (st' & Hrun & HW' & Hrej' & Hz' & Hgone & Hkeep);
      [exact HW | exact Hrej | exact Hz |].
    exists st'. split; [exact Hrun|]. repeat split; try assumption.
    + intros id [<- | Hin]; [|apply Hgone; exact Hin].
      apply Hkeep. subst s1. cbn. apply lookup_delete_eq.
    + intros id Hid. apply Hkeep. subst s1. cbn.
      destruct (decide (a = id)) as [->|Hne]; [apply lookup_delete_eq|].
      rewrite lookup_delete_ne by exact Hne. exact Hid.
Qed.

Section Rebuilding.
Variables (W : gmap string LayerRecord) (zv : jsnum) (old new : list string).

Lemma rebuilding_ensureSource added sourceId :
  completes (rebuilding W zv old new added) (ensureSource sourceId)
    (fun _ => rebuilding W zv old new added).
Proof.
  intros st HP. unfold ensureSource. rewrite bind_M.
  change (getSource sourceId st) with (Normal (bool_decide (sourceId ∈ map_sources (map st))), st).
  cbv iota. destruct (bool_decide _); cbn [negb when].
  - exists tt, st. split; [reflexivity | exact HP].
  - rewrite addSource_accepted
      by (destruct HP as (_ & Hrej & _); rewrite Hrej; apply not_elem_of_empty).
    eexists _, _. split; [reflexivity|]. exact HP.
Qed.

Lemma rebuilding_addLayer added id source opacity :
  In id new ->
  completes (rebuilding W zv old new added) (addLayer id source opacity)
    (fun _ => rebuilding W zv old new (added ++ [id])).
Proof.
  intros Hnew st (HW & Hrej & Hz & Hgone & Hadded).
  assert (Hok : id ∉ map_rejected (map st)) by (rewrite Hrej; apply not_elem_of_empty).
  unfold addLayer, getLayer, gets, modify, throw. cbn [bind ret M_Monad].
  rewrite bool_decide_eq_false_2 by exact Hok.
  case_bool_decide as Hthere.
  - exists tt, st. split; [reflexivity|]. repeat split; try assumption.
    intros x Hx. apply in_app_or in Hx as [Hx | [<- | []]]; [apply Hadded; exact Hx | exact Hthere].
  - eexists _, _. split; [reflexivity|]. unfold rebuilding. cbn.
    repeat split; try assumption.
    + intros x Hold Hnot. rewrite lookup_insert_ne by (intros ->; apply Hnot; exact Hnew).
      apply Hgone; assumption.
    + intros x Hx. apply in_app_or in Hx as [Hx | [<- | []]].
      * destruct (decide (id = x)) as [->|Hne];
          [rewrite lookup_insert_eq; eexists; reflexivity|].
        rewrite lookup_insert_ne by exact Hne. apply Hadded. exact Hx.
      * rewrite lookup_insert_eq. eexists; reflexivity.
Qed.

Lemma rebuilding_getSource added sourceId :
  completes (rebuilding W zv old new added) (getSource sourceId)
    (fun _ => rebuilding W zv old new added).
Proof. intros st HP. eexists _, st. split; [reflexivity | exact HP]. Qed.

Lemma rebuilding_when_addSource added (b : bool) sourceId :
  completes (rebuilding W zv old new added) (when b (addSource sourceId))
    (fun _ => rebuilding W zv old new added).
Proof.
  intros st HP. destruct b; cbn [when].
  - rewrite addSource_accepted
      by (destruct HP as (_ & Hrej & _); rewrite Hrej; apply not_elem_of_empty).
    eexists _, _. split; [reflexivity|]. exact HP.
  - exists tt, st. split; [reflexivity | exact HP].
Qed.

Lemma rebuilding_when_addSource_try added (b : bool) sourceId handler :
  completes (rebuilding W zv old new added)
    (when b (try_catch (addSource sourceId) handler))
    (fun _ => rebuilding W zv old new added).
Proof.
  intros st HP. destruct (rebuilding_when_addSource added true sourceId st HP)
    as (a & st' & Hrun & HQ). cbn [when] in Hrun.
  destruct b; cbn [when].
  - unfold try_catch. rewrite Hrun. exists a, st'. split; [reflexivity | exact HQ].
  - exists tt, st. split; [reflexivity | exact HP].
Qed.

Lemma rebuilding_console_log added msg :
  completes (rebuilding W zv old new added) (console_log msg)
    (fun _ => rebuilding W zv old new added).
Proof. apply completes_modify. intros st HP. exact HP. Qed.

End Rebuilding.

(** The sublayers that the temperature builder makes for a category, at
    the zoom [zv] of the renderer. *)
Definition temperature_sublayers (c : ZoomCategory) (zv : jsnum) : list string :=
  match c with
  | GLOBAL => ["temperature-global-layer"; "climate-zones-lines"; "climate-zones-labels"]
  | REGIONAL => ["temperature-regional-layer"]
  | LOCAL =>
      if Num.ge zv (Fin 10)
      then ["temperature-local-layer"; "temperature-points-heat"; "temperature-points-values"]
      else ["temperature-local-layer"]
  end.

Ltac builder_step :=
  first
    [ apply rebuilding_ensureSource
    | apply rebuilding_addLayer; cbn; tauto
    | apply rebuilding_console_log ].

Lemma temperature_sublayers_built W zv old (c : ZoomCategory) :
  completes (rebuilding W zv old (temperature_sublayers c zv) [])
    match c with
    | GLOBAL => createGlobalTemperatureLayer []
    | REGIONAL => createRegionalTemperatureLayer []
    | LOCAL => createLocalTemperatureLayer []
    end
    (fun ids st =>
       ids = temperature_sublayers c zv /\
       rebuilding W zv old (temperature_sublayers c zv) (temperature_sublayers c zv) st).
Proof.
  destruct c; cbn [temperature_sublayers].
  - unfold createGlobalTemperatureLayer, addMajorClimateZones.
    eapply completes_bind; [builder_step|intros ?; cbv beta].
    eapply completes_bind; [builder_step|intros ?; cbv beta].
    eapply completes_bind; [builder_step|intros ?; cbv beta].
    eapply completes_bind; [builder_step|intros ?; cbv beta].
    eapply completes_bind; [builder_step|intros ?; cbv beta].
    eapply completes_weaken; [apply completes_ret | intros ? HP; exact HP |].
    intros ids st [-> HP]. split; [reflexivity | exact HP].
  - unfold createRegionalTemperatureLayer.
    eapply completes_bind; [builder_step|intros ?; cbv beta].
    eapply completes_bind; [builder_step|intros ?; cbv beta].
    eapply completes_bind; [builder_step|intros ?; cbv beta].
    eapply completes_weaken; [apply completes_ret | intros ? HP; exact HP |].
    intros ids st [-> HP]. split; [reflexivity | exact HP].
  - unfold createLocalTemperatureLayer, addLocalTemperaturePoints.
    destruct (Num.ge zv (Fin 10)) eqn:Hzoom.
    + eapply completes_bind; [apply rebuilding_getSource|intros present; cbv beta].
      eapply completes_bind; [apply rebuilding_when_addSource_try|intros ?; cbv beta].
      eapply completes_bind; [builder_step|intros ?; cbv beta].
      eapply completes_bind; [builder_step|intros ?; cbv beta].
      eapply completes_bind; [apply completes_gets|intros z; cbv beta].
      intros st [-> HP]. pose proof HP as (_ & _ & Hz & _). rewrite Hz, Hzoom.
      clear Hz. revert st HP.
      refine (_ : completes (rebuilding W zv old _ _) _ _).
      eapply completes_bind; [apply rebuilding_getSource|intros present'; cbv beta].
      eapply completes_bind; [apply rebuilding_when_addSource|intros ?; cbv beta].
      eapply completes_bind; [builder_step|intros ?; cbv beta].
      eapply completes_bind; [builder_step|intros ?; cbv beta].
      eapply completes_weaken; [apply completes_ret | intros ? HP; exact HP |].
      intros ids st [-> HP]. split; [reflexivity | exact HP].
    + eapply completes_bind; [apply rebuilding_getSource|intros present; cbv beta].
      eapply completes_bind; [apply rebuilding_when_addSource_try|intros ?; cbv beta].
      eapply completes_bind; [builder_step|intros ?; cbv beta].
      eapply completes_bind; [builder_step|intros ?; cbv beta].
      eapply completes_bind; [apply completes_gets|intros z; cbv beta].
      intros st [-> HP]. pose proof HP as (_ & _ & Hz & _). rewrite Hz, Hzoom.
      eexists _, st. split; [reflexivity|].
      split; [reflexivity | exact HP].
Qed.

(** The entries [W] with the entry of [layerId] replaced by [rec], whose
    sublayers are all in the renderer, while those of [old] that are not
    among them are not. *)
Definition replaced (W : gmap string LayerRecord) (layerId : string)
  (rec : LayerRecord) (old : list string) (st : State) : Prop :=
  weatherLayers st = <[layerId := rec]> W /\
  (forall id, In id (layers rec) -> is_Some (map_layers (map st) !! id)) /\
  (forall id, In id old -> ~ In id (layers rec) -> map_layers (map st) !! id = None).

(** The renderer refuses nothing and is at the zoom [zv]; the entries are
    [W]. *)
Definition accepting (W : gmap string LayerRecord) (zv : jsnum) (st : State) : Prop :=
  weatherLayers st = W /\ map_rejected (map st) = ∅ /\ map_zoom (map st) = zv.

Lemma rebuilding_cleanup W zv layerId r new :
  W !! layerId = Some r ->
  completes (accepting W zv) (cleanup layerId)
    (fun _ => rebuilding W zv (layers r) new []).
Proof.
  intros Hr st (HW & Hrej & Hz). unfold cleanup. rewrite bind_gets, HW, Hr.
  destruct (cleanup_removes W zv (layers r) st HW Hrej Hz)
    as (st' & Hrun & HW' & Hrej' & Hz' & Hgone & _).
  exists tt, st'. split; [exact Hrun|]. repeat split; try assumption.
  - intros id Hin _. apply Hgone. exact Hin.
  - intros id [].
Qed.

Lemma rebuilding_set_record W zv old layerId rec :
  completes (rebuilding W zv old (layers rec) (layers rec)) (set_record layerId rec)
    (fun _ => replaced W layerId rec old).
Proof.
  apply completes_modify. intros st (HW & _ & _ & Hgone & Hadded).
  unfold replaced. cbn. rewrite HW. auto.
Qed.

Lemma rebuilding_addSourceTwice W zv old new added sourceId :
  completes (rebuilding W zv old new added) (addSourceTwice sourceId)
    (fun _ => rebuilding W zv old new added).
Proof.
  unfold addSourceTwice.
  eapply completes_bind; [apply rebuilding_getSource|intros present; cbv beta].
  apply rebuilding_when_addSource_try.
Qed.

(** The record that the builder of a tile-backed layer leaves. *)
Definition rebuilt_record (layerId : string) (c : ZoomCategory) (zv : jsnum)
  : LayerRecord :=
  if String.eqb layerId "temperature"
  then {| visibility := visible; type := Some "temperature"; zoomCategory := Some c;
          fallback := false; layers := temperature_sublayers c zv |}
  else {| visibility := visible; type := Some layerId; zoomCategory := None;
          fallback := false; layers := [(layerId ++ "-layer")%string] |}.

(** On a renderer that refuses nothing each builder of a tile-backed layer
    replaces the entry and the sublayers. *)
Lemma createTemperatureLayer_rebuilds W zv c r :
  W !! "temperature" = Some r ->
  completes (accepting W zv) (createTemperatureLayer (Some c))
    (fun _ => replaced W "temperature" (rebuilt_record "temperature" c zv) (layers r)).
Proof.
  intros Hr. unfold createTemperatureLayer. cbn [or_current].
  intros st HP. rewrite bind_M. cbn [ret M_Monad]. revert st HP.
  refine (_ : completes (accepting W zv) _ _).
  apply completes_try.
  eapply completes_bind;
    [apply (rebuilding_cleanup W zv "temperature" r (temperature_sublayers c zv) Hr)
    |intros ?; cbv beta].
  eapply completes_bind; [apply temperature_sublayers_built|intros ids; cbv beta].
  intros st [-> HP]. revert st HP.
  exact (rebuilding_set_record W zv (layers r) "temperature"
           (rebuilt_record "temperature" c zv)).
Qed.

Lemma createPrecipitationLayer_rebuilds W zv c r :
  W !! "precipitation" = Some r ->
  completes (accepting W zv) createPrecipitationLayer
    (fun _ => replaced W "precipitation" (rebuilt_record "precipitation" c zv) (layers r)).
Proof.
  intros Hr. unfold createPrecipitationLayer. apply completes_try.
  eapply completes_bind;
    [apply (rebuilding_cleanup W zv "precipitation" r ["precipitation-layer"] Hr)
    |intros ?; cbv beta].
  eapply completes_bind; [builder_step|intros ?; cbv beta].
  eapply completes_bind; [builder_step|intros ?; cbv beta].
  exact (rebuilding_set_record W zv (layers r) "precipitation"
           (rebuilt_record "precipitation" c zv)).
Qed.

Lemma createWindLayer_rebuilds W zv c r :
  W !! "wind" = Some r ->
  completes (accepting W zv) (createWindLayer (Some c))
    (fun _ => replaced W "wind" (rebuilt_record "wind" c zv) (layers r)).
Proof.
  intros Hr. unfold createWindLayer. apply completes_try.
  eapply completes_bind;
    [apply (rebuilding_cleanup W zv "wind" r ["wind-layer"] Hr)|intros ?; cbv beta].
  eapply completes_bind; [apply rebuilding_addSourceTwice|intros ?; cbv beta].
  eapply completes_bind; [builder_step|intros ?; cbv beta].
  exact (rebuilding_set_record W zv (layers r) "wind" (rebuilt_record "wind" c zv)).
Qed.

Lemma createCloudLayer_rebuilds W zv c r :
  W !! "cloud" = Some r ->
  completes (accepting W zv) (createCloudLayer (Some c))
    (fun _ => replaced W "cloud" (rebuilt_record "cloud" c zv) (layers r)).
Proof.
  intros Hr. unfold createCloudLayer. apply completes_try.
  eapply completes_bind;
    [apply (rebuilding_cleanup W zv "cloud" r ["cloud-layer"] Hr)|intros ?; cbv beta].
  eapply completes_bind; [apply rebuilding_addSourceTwice|intros ?; cbv beta].
  eapply completes_bind; [builder_step|intros ?; cbv beta].
  exact (rebuilding_set_record W zv (layers r) "cloud" (rebuilt_record "cloud" c zv)).
Qed.

Lemma is_tile_layer_cases layerId :
  is_tile_layer layerId = true ->
  layerId = "temperature" \/ layerId = "precipitation" \/ layerId = "wind"
  \/ layerId = "cloud".
Proof.
  unfold is_tile_layer, tile_layers. cbn [existsb]. rewrite !orb_true_iff.
  intros [E | [E | [E | [E | E]]]]; try discriminate E;
    apply String.eqb_eq in E; tauto.
Qed.

(** The category that a builder is run for reads the zoom only. *)
Lemma or_current_reads zc c (st st' : State) :
  currentZoomLevel st' = currentZoomLevel st ->
  map_zoom (map st') = map_zoom (map st) ->
  fst (or_current zc st) = Normal c ->
  or_current zc st' = (Normal c, st').
Proof.
  intros Hl Hz. destruct zc as [c'|]; cbn.
  - intros [= ->]. reflexivity.
  - unfold current_category, gets. cbn. rewrite Hl, Hz. intros [= ->]. reflexivity.
Qed.

(** [fetchLayerData] on a tile-backed layer, on a renderer that refuses
    nothing: the entry and the sublayers are those of the builder. *)
Lemma fetchLayerData_rebuilds layerId zc c (st : State) r :
  is_tile_layer layerId = true ->
  weatherLayers st !! layerId = Some r ->
  map_rejected (map st) = ∅ ->
  fst (or_current zc st) = Normal c ->
  exists s1,
    fetchLayerData createForecastLayer layerId zc st = (Normal tt, s1) /\
    replaced (weatherLayers st) layerId
      (rebuilt_record layerId c (map_zoom (map st))) (layers r) s1.
Proof.
  intros Htile Hr Hrej Hc.
  destruct (returns_fetchLayerData layerId zc st) as ([] & s1 & Hs1).
  exists s1. split; [exact Hs1|].
  set (s0 := with_active (assoc_set layerId true) st).
  assert (Hcat : or_current zc s0 = (Normal c, s0))
    by (apply (or_current_reads zc c st s0); [reflexivity | reflexivity | exact Hc]).
  assert (HP0 : accepting (weatherLayers st) (map_zoom (map st)) s0)
    by (repeat split; assumption).
  assert (Hbuilt : exists s2,
            (if String.eqb layerId "temperature" then createTemperatureLayer (Some c)
             else if String.eqb layerId "precipitation" then createPrecipitationLayer
             else if String.eqb layerId "wind" then createWindLayer (Some c)
             else createCloudLayer (Some c)) s0 = (Normal tt, s2) /\
            replaced (weatherLayers st) layerId
              (rebuilt_record layerId c (map_zoom (map st))) (layers r) s2).
  { destruct (is_tile_layer_cases layerId Htile) as [-> | [-> | [-> | ->]]];
      cbn [String.eqb Ascii.eqb Bool.eqb].
    - destruct (createTemperatureLayer_rebuilds _ _ c r Hr s0 HP0) as ([] & s2 & Hrun & HQ).
      exists s2. split; assumption.
    - destruct (createPrecipitationLayer_rebuilds _ _ c r Hr s0 HP0) as ([] & s2 & Hrun & HQ).
      exists s2. split; assumption.
    - destruct (createWindLayer_rebuilds _ _ c r Hr s0 HP0) as ([] & s2 & Hrun & HQ).
      exists s2. split; assumption.
    - destruct (createCloudLayer_rebuilds _ _ c r Hr s0 HP0) as ([] & s2 & Hrun & HQ).
      exists s2. split; assumption. }
  destruct Hbuilt as (s2 & Hbuild & HW & Hadded & Hgone).
  assert (Hk : preserves (same weatherLayers)
                 (let* b := gets (fun st => bounds (currentViewport st)) in
                  when (bool_decide (is_Some b)) queueTilePrefetch))
    by frame_with ltac:(reflexivity).
  assert (Hm : preserves (same map)
                 (let* b := gets (fun st => bounds (currentViewport st)) in
                  when (bool_decide (is_Some b)) queueTilePrefetch))
    by frame_with ltac:(reflexivity).
  specialize (Hk s2). specialize (Hm s2).
  revert Hs1. unfold fetchLayerData.
  assert (Hne : String.eqb layerId "" = false)
    by (destruct (is_tile_layer_cases layerId Htile) as [-> | [-> | [-> | ->]]];
        reflexivity).
  rewrite Hne, bind_M. unfold set_active at 1, modify at 1. cbv iota. fold s0.
  rewrite bind_M, Hcat. cbv iota. rewrite bind_M.
  assert (Hdispatch :
            (if String.eqb layerId "temperature" then createTemperatureLayer (Some c)
             else if String.eqb layerId "precipitation" then createPrecipitationLayer
             else if String.eqb layerId "wind" then createWindLayer (Some c)
             else if String.eqb layerId "cloud" then createCloudLayer (Some c)
             else if String.eqb layerId "cities" then
               let* cities := gets (fun st => weatherLayers st !! "cities") in
               match cities with
               | Some r => show_or_hide_record "cities" visible r
               | None => initCityLabels
               end
             else if String.eqb layerId "hurricane" then
               modify (with_fetches (fun l => l ++ ["/api/weather/hurricane"]))
             else if String.eqb layerId "wildfire" then
               modify (with_fetches (fun l => l ++ ["/api/weather/wildfire"]))
             else if String.eqb layerId "disaster" then
               modify (with_fetches (fun l => l ++ ["/api/weather/disasters"]))
             else if is_forecast_layer layerId then
               createForecastLayer layerId (Some c)
             else console_log ("Unknown layer type: " ++ layerId)) s0 = (Normal tt, s2)).
  { rewrite <- Hbuild.
    destruct (is_tile_layer_cases layerId Htile) as [-> | [-> | [-> | ->]]]; reflexivity. }
  rewrite Hdispatch. cbv iota. intros Hs1. rewrite Hs1 in Hk, Hm.
  cbn [snd] in Hk, Hm. unfold same in Hk, Hm. unfold replaced. rewrite Hk, Hm.
  split; [exact HW|]. split; [exact Hadded | exact Hgone].
Qed.

(** C8.  Refreshing a layer that has an entry in [weatherLayers] completes;
    the id of the layer is not the name of a property that
    [activeWeatherLayers] inherits from [Object.prototype], where a flag
    never set would read as set, nor [length], which the array
    [weatherLayers] has no entry at.
    If the flag of the layer is down nothing is rebuilt: neither the
    entries nor the renderer change.  If it is up, [fetchLayerData] runs
    the builder of the layer's type and the refresh ends in the state
    that the builder left, with one more timer, which is the one that
    restores the visibility read before the builder ran.  For a tile-backed
    layer, on a renderer that refuses nothing, the entry after the refresh
    is the record [rebuilt_record] of the builder, for the category given
    or else that of the current zoom: it lists the sublayers of that
    builder, all of them in the renderer, while the sublayers of the old
    record that are not among them are gone from the renderer; and it is
    visible, whatever the visibility before the refresh.  When the timer
    fires, whatever else has run in between without touching
    [weatherLayers], the entry is there with the visibility it had before
    the refresh, and every sublayer it lists has that visibility in the
    renderer.  The builder of the forecast layers is a parameter, assumed
    to complete and to delete no entry. *)
Theorem refreshLayer_keeps_visibility :
  forall (layerId : string) (zoomCategory : option ZoomCategory) (st : State)
         (r : LayerRecord),
    WeatherService.inherited layerId = false ->
    layerId <> "length" ->
    weatherLayers st !! layerId = Some r ->
    exists st1,
      refreshLayer createForecastLayer layerId zoomCategory st = (Normal tt, st1) /\
      (is_active layerId st = false ->
         weatherLayers st1 = weatherLayers st /\ map st1 = map st /\
         timers st1 = timers st) /\
      (is_active layerId st = true ->
         (exists built,
            fetchLayerData createForecastLayer layerId zoomCategory st
              = (Normal tt, built) /\
            st1 = with_timers
                    (fun ts =>
                       ts ++ [{| due := clock built + 100;
                                 event := RestoreVisibility layerId (visibility r) |}])
                    built) /\
         (forall c,
            is_tile_layer layerId = true ->
            map_rejected (map st) = ∅ ->
            fst (or_current zoomCategory st) = Normal c ->
            let rebuilt := rebuilt_record layerId c (map_zoom (map st)) in
            weatherLayers st1 !! layerId = Some rebuilt /\
            visibility rebuilt = visible /\
            (forall k, k <> layerId ->
                       weatherLayers st1 !! k = weatherLayers st !! k) /\
            (forall id, In id (layers rebuilt) ->
                        is_Some (map_layers (map st1) !! id)) /\
            (forall id, In id (layers r) -> ~ In id (layers rebuilt) ->
                        map_layers (map st1) !! id = None)) /\
         forall st2,
           weatherLayers st2 = weatherLayers st1 ->
           exists st3 r',
             fire (RestoreVisibility layerId (visibility r)) st2 = (Normal tt, st3) /\
             weatherLayers st3 !! layerId = Some r' /\
             visibility r' = visibility r /\
             layers <$> weatherLayers st1 !! layerId = Some (layers r') /\
             (forall id l, In id (layers r') -> map_layers (map st3) !! id = Some l ->
                           layer_visibility l = visibility r)).
Proof.
  intros layerId zoomCategory st r _ _ Hr.
  destruct (is_active layerId st) eqn:Hflag.
  - destruct (refreshLayer_active layerId zoomCategory st Hflag) as (s1 & Hs1 & Hrun).
    rewrite Hr in Hrun. eexists. split; [exact Hrun|].
    split; [discriminate|]. intros _. split.
    { exists s1. split; [exact Hs1 | reflexivity]. }
    split.
    { intros c Htile Hrej Hc rebuilt. cbn [weatherLayers with_timers map].
      destruct (fetchLayerData_rebuilds layerId zoomCategory c st r Htile Hr Hrej Hc)
        as (s1' & Hs1' & HW & Hadded & Hgone).
      rewrite Hs1 in Hs1'. injection Hs1' as <-.
      split; [rewrite HW; apply lookup_insert_eq|].
      split.
      { subst rebuilt. unfold rebuilt_record.
        destruct (String.eqb layerId "temperature"); reflexivity. }
      split.
      { intros k Hk. rewrite HW. apply lookup_insert_ne. congruence. }
      split; [exact Hadded | exact Hgone]. }
    intros st2 Hsame. cbn [weatherLayers with_timers] in Hsame.
    pose proof (fetchLayerData_keeps_records layerId zoomCategory layerId st) as Hkept.
    rewrite Hs1 in Hkept. cbn [snd] in Hkept.
    destruct (Hkept (ex_intro _ r Hr)) as [r1 Hr1].
    pose proof Hr1 as Hr2. rewrite <- Hsame in Hr2.
    destruct (restore_visibility_spec layerId (visibility r) st2 r1 Hr2)
      as (st3 & Hfire & Hrec3 & Hvis3).
    exists st3, (set_visibility (visibility r) r1).
    split; [exact Hfire|]. split; [exact Hrec3|]. split; [reflexivity|].
    split; [cbn [weatherLayers with_timers]; rewrite Hr1; reflexivity|].
    exact Hvis3.
  - rewrite (refreshLayer_inactive layerId zoomCategory st Hflag).
    eexists. split; [reflexivity|]. split; [|discriminate].
    intros _. repeat split.
Qed.

End Lifecycle.

Section LifecycleExamples.
Import WeatherInterface.





(** On the interface as it is set up, a direct toggle of [cities] raises
    its flag. *)
Example toggleLayer_cities_initial :
  is_active "cities" initial_state = false /\
  is_active "cities"
    (snd (toggleLayer (H := sample_host) no_forecast "cities" initial_state)) = true.
Proof. split; reflexivity. Qed.

Lemma no_forecast_returns layerId zoomCategory :
  returns (no_forecast layerId zoomCategory).
Proof. apply returns_ret. Qed.

Lemma no_forecast_keeps layerId zoomCategory k :
  preserves (stays_recorded k) (no_forecast layerId zoomCategory).
Proof. apply preserves_ret. typeclasses eauto. Qed.

Lemma hidden_state_record :
  weatherLayers hidden_state !! "temperature" = Some hidden_record.
Proof. vm_compute. reflexivity. Qed.

Lemma refreshLayer_keeps_visibility_witness :
  exists st1,
    refreshLayer (H := sample_host) no_forecast "temperature" (Some REGIONAL) hidden_state
    = (Normal tt, st1) /\
    weatherLayers st1 !! "temperature"
    = Some {| visibility := visible; type := Some "temperature";
              zoomCategory := Some REGIONAL; fallback := false;
              layers := ["temperature-regional-layer"] |} /\
    is_Some (map_layers (map st1) !! "temperature-regional-layer") /\
    map_layers (map st1) !! "temperature-global-layer" = None /\
    exists st3 r',
      fire (H := sample_host) (RestoreVisibility "temperature" none) st1
      = (Normal tt, st3) /\
      weatherLayers st3 !! "temperature" = Some r' /\
      visibility r' = none /\ layers r' = ["temperature-regional-layer"].
Proof.
  assert (Hflag : is_active "temperature" hidden_state = true)
    by (vm_compute; reflexivity).
  assert (Hrej : map_rejected (map hidden_state) = ∅) by (vm_compute; reflexivity).
  destruct (refreshLayer_keeps_visibility (H := sample_host) no_forecast
              no_forecast_returns no_forecast_keeps
              "temperature" (Some REGIONAL) hidden_state hidden_record
              eq_refl ltac:(discriminate) hidden_state_record)
    as (st1 & Hrun & _ & Hup).
  destruct (Hup Hflag) as (_ & Hrebuilt & Hfire).
  destruct (Hrebuilt REGIONAL eq_refl Hrej eq_refl)
    as (Hentry & _ & _ & Hadded & Hgone).
  destruct (Hfire st1 eq_refl) as (st3 & r' & Hrun3 & Hr3 & Hvis3 & Hlayers3 & _).
  exists st1. split; [exact Hrun|]. split; [exact Hentry|].
  split; [apply Hadded; left; reflexivity|].
  split.
  { apply Hgone; [left; reflexivity|]. intros [E | []]. discriminate E. }
  exists st3, r'. split; [exact Hrun3|]. split; [exact Hr3|]. split; [exact Hvis3|].
  rewrite Hentry in Hlayers3. injection Hlayers3 as <-. reflexivity.
Defined.

(** The interface with the entry of the temperature layer hidden and no
    flag up. *)
Definition switched_off_state : State :=
  with_active (fun _ => []) hidden_state.

(** A refresh reveals a hidden layer whose flag is up: the temperature
    layer of [hidden_state], whose entry is hidden, is visible after the
    refresh, with its sublayer, and stays so until the timer started by
    the refresh fires.  And a layer whose flag is down is not rebuilt. *)
Lemma refreshLayer_keeps_visibility_counterexample :
  let run := refreshLayer (H := sample_host) no_forecast "temperature"
               (Some REGIONAL) hidden_state in
  is_active "temperature" hidden_state = true /\
  visibility <$> weatherLayers hidden_state !! "temperature" = Some none /\
  fst run = Normal tt /\
  visibility <$> weatherLayers (snd run) !! "temperature" = Some visible /\
  layer_visibility <$> map_layers (map (snd run)) !! "temperature-regional-layer"
  = Some visible /\
  timers (snd run)
  = timers hidden_state
    ++ [{| due := clock (snd run) + 100;
           event := RestoreVisibility "temperature" none |}] /\
  weatherLayers switched_off_state !! "temperature" = Some hidden_record /\
  refreshLayer (H := sample_host) no_forecast "temperature" (Some REGIONAL)
    switched_off_state
  = (Normal tt,
     with_console
       (fun c => c ++ ["Layer temperature is not active, skipping refresh"])
       switched_off_state).
Proof. vm_compute. repeat split. Qed.

(** The refresh of the hidden temperature layer, run through: the entry is
    rebuilt for the new category and shown until the timer fires, then it
    is hidden again, with its sublayer. *)
Example refreshLayer_hidden_layer :
  let st1 := snd (refreshLayer (H := sample_host) no_forecast "temperature"
                    (Some REGIONAL) hidden_state) in
  let st3 := snd (fire (H := sample_host) (RestoreVisibility "temperature" none) st1) in
  is_active "temperature" hidden_state = true /\
  visibility <$> weatherLayers st1 !! "temperature" = Some visible /\
  zoomCategory <$> weatherLayers st1 !! "temperature" = Some (Some REGIONAL) /\
  layers <$> weatherLayers st1 !! "temperature" = Some ["temperature-regional-layer"] /\
  visibility <$> weatherLayers st3 !! "temperature" = Some none /\
  layer_visibility <$> map_layers (map st3) !! "temperature-regional-layer" = Some none.
Proof. vm_compute. repeat split. Qed.

End LifecycleExamples.

(* ===================================================================== *)
(** * Part III.  Further properties of the code                           *)
(* ===================================================================== *)

(** ** Rounding to binary64 *)

Section Rounding.

Lemma nearest_even_cases x :
  Num.nearest_even x = Qfloor x \/ Num.nearest_even x = Qfloor x + 1.
Proof.
  unfold Num.nearest_even. destruct (_ ?= _)%Q; [|left; reflexivity|right; reflexivity].
  destruct (Z.even _); [left | right]; reflexivity.
Qed.

Lemma nearest_even_comp x y : (x == y)%Q -> Num.nearest_even x = Num.nearest_even y.
Proof.
  intros Hxy. unfold Num.nearest_even. rewrite (Qfloor_comp _ _ Hxy).
  assert (E : (x - inject_Z (Qfloor y) == y - inject_Z (Qfloor y))%Q) by (rewrite Hxy; reflexivity).
  rewrite (Qcompare_comp _ _ E _ _ (Qeq_refl _)). reflexivity.
Qed.

Lemma nearest_even_Z n : Num.nearest_even (inject_Z n) = n.
Proof.
  unfold Num.nearest_even. rewrite Qfloor_Z.
  assert (E : (inject_Z n - inject_Z n ?= 1 # 2)%Q = Lt).
  { apply Qlt_alt. setoid_replace (inject_Z n - inject_Z n)%Q with 0%Q using relation Qeq by ring.
    reflexivity. }
  rewrite E. reflexivity.
Qed.

Lemma nearest_even_near x :
  (x - (1 # 2) <= inject_Z (Num.nearest_even x) <= x + (1 # 2))%Q.
Proof.
  pose proof (Qfloor_le x) as Hlo. pose proof (Qlt_floor x) as Hhi.
  rewrite inject_Z_plus in Hhi. change (inject_Z 1) with 1%Q in Hhi.
  unfold Num.nearest_even.
  destruct (Qcompare_spec (x - inject_Z (Qfloor x)) (1 # 2)) as [E|E|E].
  - destruct (Z.even _); [|rewrite inject_Z_plus; change (inject_Z 1) with 1%Q]; lra.
  - lra.
  - rewrite inject_Z_plus. change (inject_Z 1) with 1%Q. lra.
Qed.

Lemma nearest_even_mono x y : (x <= y)%Q -> Num.nearest_even x <= Num.nearest_even y.
Proof.
  intros Hxy. pose proof (Qfloor_resp_le _ _ Hxy) as Hf.
  destruct (Z.eq_dec (Qfloor x) (Qfloor y)) as [Heq|Hne].
  - unfold Num.nearest_even. rewrite <- Heq.
    destruct (Qcompare_spec (x - inject_Z (Qfloor x)) (1 # 2)) as [E|E|E];
      destruct (Qcompare_spec (y - inject_Z (Qfloor x)) (1 # 2)) as [E'|E'|E'];
      try lra; try lia; destruct (Z.even _); lia.
  - destruct (nearest_even_cases x) as [-> | ->];
      destruct (nearest_even_cases y) as [-> | ->]; lia.
Qed.

Lemma two_pos k : (0 < 2 ^ k)%Q.
Proof. apply Qpower_0_lt. reflexivity. Qed.

Lemma two_mono k k' : k <= k' -> (2 ^ k <= 2 ^ k')%Q.
Proof. intros Hk. apply Qpower_le_compat_l; [exact Hk | discriminate]. Qed.

Lemma two_plus a b : (2 ^ (a + b) == 2 ^ a * 2 ^ b)%Q.
Proof. apply Qpower_plus. discriminate. Qed.

Lemma two_Z k : 0 <= k -> (2 ^ k == inject_Z (2 ^ k))%Q.
Proof. intros Hk. rewrite Zpower_Qpower by exact Hk. reflexivity. Qed.

(** The binade of a positive number. *)
Lemma exponent64_min q : -1022 <= Num.exponent64 q.
Proof. unfold Num.exponent64. lia. Qed.

Lemma exponent64_mono q q' : (q <= q')%Q -> Num.exponent64 q <= Num.exponent64 q'.
Proof.
  intros Hq. unfold Num.exponent64.
  assert (Hs : Qfloor (q * inject_Z (2 ^ 1074)) <= Qfloor (q' * inject_Z (2 ^ 1074))).
  { apply Qfloor_resp_le. apply Qmult_le_compat_r; [exact Hq|].
    change 0%Q with (inject_Z 0). rewrite <- Zle_Qle. apply Z.pow_nonneg. lia. }
  pose proof (Z.log2_le_mono _ _ Hs). lia.
Qed.

Lemma exponent64_upper q : (0 < q)%Q -> (q < 2 ^ (Num.exponent64 q + 1))%Q.
Proof.
  intros Hq. unfold Num.exponent64.
  set (s := Qfloor (q * inject_Z (2 ^ 1074))).
  assert (Hs : (q * inject_Z (2 ^ 1074) < inject_Z (s + 1))%Q) by apply Qlt_floor.
  assert (Hle : (inject_Z (s + 1) <= 2 ^ (Z.log2 s + 1))%Q).
  { destruct (Z_lt_le_dec 0 s) as [Hpos|Hnon].
    - pose proof (Z.log2_spec s Hpos) as [_ Hup].
      rewrite two_Z by (pose proof (Z.log2_nonneg s); lia).
      rewrite <- Zle_Qle. unfold Z.succ in Hup. lia.
    - assert (Hs0 : 0 <= s).
      { subst s. change 0 with (Qfloor 0).
        apply Qfloor_resp_le. apply Qmult_le_0_compat; [lra|].
        change 0%Q with (inject_Z 0). rewrite <- Zle_Qle. apply Z.pow_nonneg. lia. }
      assert (Hz : s = 0) by lia. rewrite Hz. vm_compute. discriminate. }
  assert (Hscale : (q < 2 ^ (Z.log2 s + 1) * / inject_Z (2 ^ 1074))%Q).
  { apply Qlt_shift_div_l.
    - change 0%Q with (inject_Z 0). rewrite <- Zlt_Qlt. apply Z.pow_pos_nonneg; lia.
    - lra. }
  apply Qlt_le_trans with (1 := Hscale).
  assert (E : (2 ^ (Z.log2 s + 1) * / inject_Z (2 ^ 1074) == 2 ^ (Z.log2 s - 1074 + 1))%Q).
  { rewrite <- two_Z by lia. rewrite <- Qpower_opp.
    rewrite <- two_plus. apply Qpower_comp; [reflexivity | lia]. }
  rewrite E. apply two_mono. lia.
Qed.

Lemma exponent64_lower q :
  -1022 < Num.exponent64 q -> (2 ^ Num.exponent64 q <= q)%Q.
Proof.
  unfold Num.exponent64. set (s := Qfloor (q * inject_Z (2 ^ 1074))).
  intros Hnormal.
  assert (He : Z.max (Z.log2 s - 1074) (-1022) = Z.log2 s - 1074) by lia.
  rewrite He.
  assert (Hpos : 0 < s).
  { destruct (Z_lt_le_dec 0 s) as [Hpos|Hnon]; [exact Hpos|].
    rewrite (Z.log2_nonpos s Hnon) in He. lia. }
  pose proof (Z.log2_spec s Hpos) as [Hlow _].
  assert (Hs : (inject_Z s <= q * inject_Z (2 ^ 1074))%Q) by apply Qfloor_le.
  assert (Hq : (inject_Z (2 ^ Z.log2 s) * / inject_Z (2 ^ 1074) <= q)%Q).
  { apply Qle_shift_div_r.
    - change 0%Q with (inject_Z 0). rewrite <- Zlt_Qlt. apply Z.pow_pos_nonneg; lia.
    - rewrite Zle_Qle in Hlow. lra. }
  apply Qle_trans with (2 := Hq).
  rewrite <- !two_Z by (pose proof (Z.log2_nonneg s); lia).
  rewrite <- Qpower_opp, <- two_plus. apply Qle_lteq. right.
  apply Qpower_comp; [reflexivity | lia].
Qed.

(** The value that [Num.binary64_pos] rounds to, before the test for
    overflow. *)
Definition rounded (q : Q) : Q :=
  (inject_Z (Num.nearest_even (q / 2 ^ (Num.exponent64 q - 52))) * 2 ^ (Num.exponent64 q - 52))%Q.

Lemma binary64_pos_rounded q :
  Num.binary64_pos q = if Qle_bool (2 ^ 1024) (rounded q) then PosInf else Fin (Qred (rounded q)).
Proof. reflexivity. Qed.

Lemma scaled_le (q : Q) (b e : Z) :
  (q <= 2 ^ b)%Q -> (q / 2 ^ (e - 52) <= 2 ^ (b - e + 52))%Q.
Proof.
  intros Hq. apply Qle_shift_div_r; [apply two_pos|].
  rewrite <- two_plus. apply Qle_trans with (1 := Hq).
  apply Qle_lteq. right. apply Qpower_comp; [reflexivity | lia].
Qed.

Lemma scaled_ge (q : Q) (b e : Z) :
  (2 ^ b <= q)%Q -> (2 ^ (b - e + 52) <= q / 2 ^ (e - 52))%Q.
Proof.
  intros Hq. apply Qle_shift_div_l; [apply two_pos|].
  rewrite <- two_plus. apply Qle_trans with (2 := Hq).
  apply Qle_lteq. right. apply Qpower_comp; [reflexivity | lia].
Qed.

Lemma nearest_even_two k x : 0 <= k -> (2 ^ k <= x)%Q -> (2 ^ k <= inject_Z (Num.nearest_even x))%Q.
Proof.
  intros Hk Hx. rewrite two_Z in * by exact Hk. rewrite <- Zle_Qle.
  rewrite <- (nearest_even_Z (2 ^ k)). apply nearest_even_mono. exact Hx.
Qed.

Lemma nearest_even_below k x : 0 <= k -> (x <= 2 ^ k)%Q -> (inject_Z (Num.nearest_even x) <= 2 ^ k)%Q.
Proof.
  intros Hk Hx. rewrite two_Z in * by exact Hk. rewrite <- Zle_Qle.
  rewrite <- (nearest_even_Z (2 ^ k)). apply nearest_even_mono. exact Hx.
Qed.

Lemma rounded_upper q : (0 < q)%Q -> (rounded q <= 2 ^ (Num.exponent64 q + 1))%Q.
Proof.
  intros Hq. unfold rounded. set (e := Num.exponent64 q).
  assert (Hs : (q / 2 ^ (e - 52) <= 2 ^ 53)%Q).
  { pose proof (exponent64_upper q Hq) as Hup. fold e in Hup.
    apply Qlt_le_weak in Hup. apply (scaled_le _ _ e) in Hup.
    apply Qle_trans with (1 := Hup). apply Qle_lteq. right.
    apply Qpower_comp; [reflexivity | lia]. }
  apply nearest_even_below in Hs; [|lia].
  assert (E : (2 ^ (e + 1) == 2 ^ 53 * 2 ^ (e - 52))%Q).
  { rewrite <- two_plus. apply Qpower_comp; [reflexivity | lia]. }
  rewrite E. apply Qmult_le_compat_r; [exact Hs | apply Qlt_le_weak, two_pos].
Qed.

Lemma rounded_lower q : -1022 < Num.exponent64 q -> (2 ^ Num.exponent64 q <= rounded q)%Q.
Proof.
  intros Hn. unfold rounded. set (e := Num.exponent64 q).
  assert (Hs : (2 ^ 52 <= q / 2 ^ (e - 52))%Q).
  { pose proof (exponent64_lower q Hn) as Hlow. fold e in Hlow.
    apply (scaled_ge _ _ e) in Hlow.
    apply Qle_trans with (2 := Hlow). apply Qle_lteq. right.
    apply Qpower_comp; [reflexivity | lia]. }
  apply nearest_even_two in Hs; [|lia].
  assert (E : (2 ^ e == 2 ^ 52 * 2 ^ (e - 52))%Q).
  { rewrite <- two_plus. apply Qpower_comp; [reflexivity | lia]. }
  rewrite E. apply Qmult_le_compat_r; [exact Hs | apply Qlt_le_weak, two_pos].
Qed.

Lemma rounded_nonneg q : (0 <= q)%Q -> (0 <= rounded q)%Q.
Proof.
  intros Hq. unfold rounded. apply Qmult_le_0_compat; [|apply Qlt_le_weak, two_pos].
  change 0%Q with (inject_Z 0). rewrite <- Zle_Qle.
  rewrite <- (nearest_even_Z 0). apply nearest_even_mono.
  apply Qle_shift_div_l; [apply two_pos|]. rewrite Qmult_0_l. exact Hq.
Qed.

Lemma rounded_mono q q' : (0 < q)%Q -> (q <= q')%Q -> (rounded q <= rounded q')%Q.
Proof.
  intros Hq Hqq'. pose proof (exponent64_mono q q' Hqq') as He.
  destruct (Z.eq_dec (Num.exponent64 q) (Num.exponent64 q')) as [Heq|Hne].
  - unfold rounded. rewrite <- Heq.
    apply Qmult_le_compat_r; [|apply Qlt_le_weak, two_pos].
    rewrite <- Zle_Qle. apply nearest_even_mono.
    apply Qmult_le_compat_r; [exact Hqq'|].
    apply Qlt_le_weak, Qinv_lt_0_compat, two_pos.
  - apply Qle_trans with (2 ^ (Num.exponent64 q + 1))%Q; [apply rounded_upper; exact Hq|].
    apply Qle_trans with (2 ^ Num.exponent64 q')%Q; [apply two_mono; lia|].
    apply rounded_lower. pose proof (exponent64_min q). lia.
Qed.

Lemma rounded_near q :
  (Qabs (rounded q - q) <= 2 ^ (Num.exponent64 q - 53))%Q.
Proof.
  unfold rounded. set (u := (2 ^ (Num.exponent64 q - 52))%Q).
  assert (Hu : (0 < u)%Q) by apply two_pos.
  pose proof (nearest_even_near (q / u)) as [Hlo Hhi].
  assert (Ehalf : (2 ^ (Num.exponent64 q - 53) == u * (1 # 2))%Q).
  { subst u. change (1 # 2)%Q with (2 ^ (-1))%Q. rewrite <- two_plus.
    apply Qpower_comp; [reflexivity | lia]. }
  rewrite Ehalf.
  assert (Eq : (q == q / u * u)%Q) by (field; lra).
  set (n := inject_Z (Num.nearest_even (q / u))) in *.
  set (x := (q / u)%Q) in *.
  apply Qabs_Qle_condition. split.
  - setoid_replace (n * u - q)%Q with ((n - x) * u)%Q using relation Qeq by (rewrite Eq at 1; ring).
    setoid_replace (- (u * (1 # 2)))%Q with ((- (1 # 2)) * u)%Q using relation Qeq by ring.
    apply Qmult_le_compat_r; lra.
  - setoid_replace (n * u - q)%Q with ((n - x) * u)%Q using relation Qeq by (rewrite Eq at 1; ring).
    setoid_replace (u * (1 # 2))%Q with ((1 # 2) * u)%Q using relation Qeq by ring.
    apply Qmult_le_compat_r; lra.
Qed.

(** The order of the numbers, without NaN. *)
Lemma Num_le_Fin (x y : Q) : Num.le (Fin x) (Fin y) = true <-> (x <= y)%Q.
Proof. unfold Num.le, Num.ge. apply Qle_bool_iff. Qed.

Lemma binary64_pos_mono q q' :
  (0 < q)%Q -> (q <= q')%Q -> Num.le (Num.binary64_pos q) (Num.binary64_pos q') = true.
Proof.
  intros Hq Hqq'. pose proof (rounded_mono q q' Hq Hqq') as Hr.
  rewrite !binary64_pos_rounded.
  destruct (Qle_bool (2 ^ 1024) (rounded q)) eqn:E; destruct (Qle_bool (2 ^ 1024) (rounded q')) eqn:E'.
  - reflexivity.
  - apply Qle_bool_iff in E. assert (Hc : (2 ^ 1024 <= rounded q')%Q) by lra.
    apply Qle_bool_iff in Hc. congruence.
  - reflexivity.
  - apply Num_le_Fin. rewrite !Qred_correct. exact Hr.
Qed.

Lemma binary64_pos_nonneg q : (0 <= q)%Q -> Num.le (Fin 0) (Num.binary64_pos q) = true.
Proof.
  intros Hq. rewrite binary64_pos_rounded.
  destruct (Qle_bool _ _); [reflexivity|].
  apply Num_le_Fin. rewrite Qred_correct. apply rounded_nonneg. exact Hq.
Qed.

Lemma Num_le_neg a b : Num.le a b = true -> Num.le (Num.neg b) (Num.neg a) = true.
Proof.
  destruct a as [| |x|], b as [| |y|]; unfold Num.le, Num.ge, Num.neg;
    try discriminate; try reflexivity.
  intros Hxy. apply Qle_bool_iff in Hxy. apply Qle_bool_iff.
  rewrite !Qred_correct. lra.
Qed.

Lemma Num_le_trans a b c : Num.le a b = true -> Num.le b c = true -> Num.le a c = true.
Proof.
  destruct a as [| |x|], b as [| |y|], c as [| |z|]; unfold Num.le, Num.ge;
    try discriminate; try reflexivity.
  intros Hxy Hyz. apply Qle_bool_iff in Hxy, Hyz. apply Qle_bool_iff. lra.
Qed.

(** Rounding keeps the order. *)
Lemma binary64_mono q q' : (q <= q')%Q -> Num.le (Num.binary64 q) (Num.binary64 q') = true.
Proof.
  intros Hqq'. unfold Num.binary64.
  destruct (Qcompare_spec q 0) as [E|E|E]; destruct (Qcompare_spec q' 0) as [E'|E'|E'];
    try lra.
  - reflexivity.
  - apply binary64_pos_nonneg. lra.
  - change (Fin 0) with (Num.neg (Fin 0)). apply Num_le_neg. apply binary64_pos_nonneg. lra.
  - apply Num_le_neg. apply binary64_pos_mono; lra.
  - apply Num_le_trans with (Fin 0).
    + change (Fin 0) with (Num.neg (Fin 0)). apply Num_le_neg. apply binary64_pos_nonneg. lra.
    + apply binary64_pos_nonneg. lra.
  - apply binary64_pos_mono; lra.
Qed.

Lemma exponent64_comp q q' : (q == q')%Q -> Num.exponent64 q = Num.exponent64 q'.
Proof.
  intros E. unfold Num.exponent64.
  rewrite (Qfloor_comp _ _ (Qmult_comp _ _ E _ _ (Qeq_refl _))). reflexivity.
Qed.

Lemma rounded_comp q q' : (q == q')%Q -> (rounded q == rounded q')%Q.
Proof.
  intros E. unfold rounded. rewrite (exponent64_comp _ _ E).
  rewrite (nearest_even_comp (q / _) (q' / 2 ^ (Num.exponent64 q' - 52))) by (rewrite E; reflexivity).
  reflexivity.
Qed.

Lemma binary64_pos_comp q q' : (q == q')%Q -> Num.binary64_pos q = Num.binary64_pos q'.
Proof.
  intros E. rewrite !binary64_pos_rounded. pose proof (rounded_comp _ _ E) as Hr.
  assert (Hb : Qle_bool (2 ^ 1024) (rounded q) = Qle_bool (2 ^ 1024) (rounded q')).
  { destruct (Qle_bool (2 ^ 1024) (rounded q')) eqn:E'.
    - apply Qle_bool_iff. apply Qle_bool_iff in E'. rewrite Hr. exact E'.
    - destruct (Qle_bool (2 ^ 1024) (rounded q)) eqn:E''; [|reflexivity].
      apply Qle_bool_iff in E''. rewrite Hr in E''. apply Qle_bool_iff in E''. congruence. }
  rewrite Hb, (Qred_complete _ _ Hr). reflexivity.
Qed.

Lemma binary64_comp q q' : (q == q')%Q -> Num.binary64 q = Num.binary64 q'.
Proof.
  intros E. unfold Num.binary64. rewrite (Qcompare_comp _ _ E _ _ (Qeq_refl 0)).
  rewrite (binary64_pos_comp _ _ E).
  rewrite (binary64_pos_comp (- q) (- q')) by (rewrite E; reflexivity). reflexivity.
Qed.

Lemma Qred_Z n : Qred (inject_Z n) = inject_Z n.
Proof.
  unfold Qred, inject_Z. cbn [Qnum Qden].
  pose proof (Z.ggcd_gcd n 1) as Hg. pose proof (Z.ggcd_correct_divisors n 1) as Hd.
  destruct (Z.ggcd n 1) as [g [aa bb]]. cbn [fst snd] in *.
  rewrite Z.gcd_1_r in Hg. subst g. destruct Hd as [Ha Hb].
  assert (aa = n) by lia. assert (bb = 1) by lia. subst aa bb. reflexivity.
Qed.

Lemma exponent64_below q b :
  (0 < q)%Q -> -1022 <= b -> (q < 2 ^ (b + 1))%Q -> Num.exponent64 q <= b.
Proof.
  intros Hq Hb Hlt. destruct (Z_le_gt_dec (Num.exponent64 q) b) as [Hle|Hgt]; [exact Hle|].
  exfalso. assert (Hn : -1022 < Num.exponent64 q) by lia.
  pose proof (exponent64_lower q Hn) as Hlow.
  assert (Hpow : (2 ^ (b + 1) <= 2 ^ Num.exponent64 q)%Q) by (apply two_mono; lia).
  lra.
Qed.

(** A number with at most 53 significant bits, at or above the least
    subnormal number and below [2^1024], is its own rounding. *)
Lemma binary64_pos_exact (m j : Z) :
  0 < m < 2 ^ 53 -> -1074 <= j <= 971 ->
  Num.binary64_pos (inject_Z m * 2 ^ j) = Fin (Qred (inject_Z m * 2 ^ j)).
Proof.
  intros Hm Hj. set (q := (inject_Z m * 2 ^ j)%Q).
  assert (Hq : (0 < q)%Q).
  { subst q. apply Qmult_lt_0_compat; [|apply two_pos].
    change 0%Q with (inject_Z 0). rewrite <- Zlt_Qlt. lia. }
  assert (Hup : (q < 2 ^ (j + 52 + 1))%Q).
  { subst q. setoid_replace (2 ^ (j + 52 + 1))%Q with (2 ^ 53 * 2 ^ j)%Q
      using relation Qeq by (rewrite <- two_plus; apply Qpower_comp; [reflexivity | lia]).
    apply Qmult_lt_compat_r; [apply two_pos|].
    rewrite two_Z by lia. rewrite <- Zlt_Qlt. lia. }
  assert (He : Num.exponent64 q - 52 <= j).
  { destruct (Z_le_gt_dec (-1022) (j + 52)) as [Hb|Hb].
    - pose proof (exponent64_below q (j + 52) Hq Hb Hup). lia.
    - assert (Hup' : (q < 2 ^ (-1022 + 1))%Q).
      { apply Qlt_le_trans with (1 := Hup). apply two_mono. lia. }
      pose proof (exponent64_below q (-1022) Hq ltac:(lia) Hup'). lia. }
  assert (Hscaled : (q / 2 ^ (Num.exponent64 q - 52)
                     == inject_Z (m * 2 ^ (j - (Num.exponent64 q - 52))))%Q).
  { rewrite inject_Z_mult, <- two_Z by lia. subst q.
    unfold Qdiv. rewrite <- Qpower_opp, <- Qmult_assoc, <- two_plus.
    apply Qmult_comp; [reflexivity|]. apply Qpower_comp; [reflexivity | lia]. }
  assert (Hr : (rounded q == q)%Q).
  { unfold rounded. rewrite (nearest_even_comp _ _ Hscaled), nearest_even_Z.
    rewrite <- Hscaled. field. pose proof (two_pos (Num.exponent64 q - 52)). lra. }
  rewrite binary64_pos_rounded.
  assert (Hfin : Qle_bool (2 ^ 1024) (rounded q) = false).
  { destruct (Qle_bool (2 ^ 1024) (rounded q)) eqn:E; [|reflexivity].
    apply Qle_bool_iff in E. rewrite Hr in E.
    assert (Hpow : (2 ^ (j + 52 + 1) <= 2 ^ 1024)%Q) by (apply two_mono; lia).
    lra. }
  rewrite Hfin. f_equal. apply Qred_complete. exact Hr.
Qed.

(** The integers up to [2^53] are their own rounding. *)
Lemma binary64_Z (n : Z) : Z.abs n <= 2 ^ 53 -> Num.binary64 (inject_Z n) = Fin (inject_Z n).
Proof.
  assert (Hpos : forall p, 0 < p <= 2 ^ 53 -> Num.binary64_pos (inject_Z p) = Fin (inject_Z p)).
  { intros p Hp. destruct (Z.eq_dec p (2 ^ 53)) as [->|Hne]; [vm_compute; reflexivity|].
    assert (E : (inject_Z p * 2 ^ 0 == inject_Z p)%Q) by (change (2 ^ 0)%Q with 1%Q; ring).
    rewrite <- (binary64_pos_comp _ _ E).
    rewrite (binary64_pos_exact p 0) by lia.
    rewrite (Qred_complete _ _ E), Qred_Z. reflexivity. }
  intros Hn. unfold Num.binary64.
  destruct (Qcompare_spec (inject_Z n) 0) as [E|E|E].
  - f_equal. unfold inject_Z in *. unfold Qeq in E. cbn in E.
    assert (n = 0) by lia. subst n. reflexivity.
  - change 0%Q with (inject_Z 0) in E. rewrite <- Zlt_Qlt in E.
    assert (Hm : (- inject_Z n == inject_Z (- n))%Q) by (rewrite inject_Z_opp; reflexivity).
    rewrite (binary64_pos_comp _ _ Hm), Hpos by lia. unfold Num.neg. f_equal.
    rewrite <- (Qred_Z n). apply Qred_complete. rewrite inject_Z_opp. ring.
  - change 0%Q with (inject_Z 0) in E. rewrite <- Zlt_Qlt in E.
    apply Hpos. lia.
Qed.

(** The powers of two up to the greatest binade are their own rounding. *)
Lemma binary64_two (z : Z) :
  0 <= z <= 1023 -> Num.binary64 (inject_Z (2 ^ z)) = Fin (inject_Z (2 ^ z)).
Proof.
  intros Hz.
  assert (Hq : (0 < inject_Z (2 ^ z))%Q).
  { change 0%Q with (inject_Z 0). rewrite <- Zlt_Qlt. apply Z.pow_pos_nonneg; lia. }
  unfold Num.binary64. apply Qgt_alt in Hq. rewrite Hq.
  destruct (Z_le_gt_dec z 971) as [Hs|Hl].
  - assert (E : (inject_Z 1 * 2 ^ z == inject_Z (2 ^ z))%Q).
    { rewrite two_Z by lia. change (inject_Z 1) with 1%Q. ring. }
    rewrite <- (binary64_pos_comp _ _ E).
    rewrite (binary64_pos_exact 1 z) by lia.
    rewrite (Qred_complete _ _ E), Qred_Z. reflexivity.
  - assert (Hm : 0 < 2 ^ (z - 971) < 2 ^ 53).
    { split; [apply Z.pow_pos_nonneg; lia | apply Z.pow_lt_mono_r; lia]. }
    assert (E : (inject_Z (2 ^ (z - 971)) * 2 ^ 971 == inject_Z (2 ^ z))%Q).
    { rewrite <- !two_Z by lia. rewrite <- two_plus.
      apply Qpower_comp; [reflexivity | lia]. }
    rewrite <- (binary64_pos_comp _ _ E).
    rewrite (binary64_pos_exact (2 ^ (z - 971)) 971) by lia.
    rewrite (Qred_complete _ _ E), Qred_Z. reflexivity.
Qed.

(** The error of a rounding that does not overflow. *)
Lemma binary64_pos_error q :
  (0 < q)%Q -> (q < 2 ^ 1023)%Q ->
  exists v, Num.binary64_pos q = Fin v /\
            (Qabs (v - q) <= q * 2 ^ (-53) + 2 ^ (-1075))%Q.
Proof.
  intros Hq Hlt.
  assert (He : Num.exponent64 q <= 1022).
  { apply exponent64_below; [exact Hq | lia | exact Hlt]. }
  exists (Qred (rounded q)). split.
  - rewrite binary64_pos_rounded.
    assert (Hfin : Qle_bool (2 ^ 1024) (rounded q) = false).
    { destruct (Qle_bool (2 ^ 1024) (rounded q)) eqn:E; [|reflexivity].
      apply Qle_bool_iff in E. pose proof (rounded_upper q Hq) as Hup.
      assert (Hpow : (2 ^ (Num.exponent64 q + 1) <= 2 ^ 1023)%Q) by (apply two_mono; lia).
      assert (Hstrict : (2 ^ 1023 < 2 ^ 1024)%Q) by reflexivity.
      lra. }
    rewrite Hfin. reflexivity.
  - rewrite Qred_correct. apply Qle_trans with (1 := rounded_near q).
    pose proof (two_pos (-1075)) as Htiny.
    destruct (Z_le_gt_dec (Num.exponent64 q) (-1022)) as [Hsub|Hnorm].
    + assert (Hpow : (2 ^ (Num.exponent64 q - 53) <= 2 ^ (-1075))%Q) by (apply two_mono; lia).
      assert (Hpos : (0 <= q * 2 ^ (-53))%Q).
      { apply Qmult_le_0_compat; [lra | apply Qlt_le_weak, two_pos]. }
      lra.
    + pose proof (exponent64_lower q ltac:(lia)) as Hlow.
      assert (E : (2 ^ (Num.exponent64 q - 53) == 2 ^ Num.exponent64 q * 2 ^ (-53))%Q).
      { rewrite <- two_plus. apply Qpower_comp; [reflexivity | lia]. }
      rewrite E.
      assert (Hm : (2 ^ Num.exponent64 q * 2 ^ (-53) <= q * 2 ^ (-53))%Q).
      { apply Qmult_le_compat_r; [exact Hlow | apply Qlt_le_weak, two_pos]. }
      lra.
Qed.

(** A rounding never gives NaN. *)
Lemma binary64_pos_not_NaN q : Num.binary64_pos q <> NaN.
Proof. unfold Num.binary64_pos. destruct (Qle_bool _ _); discriminate. Qed.

Lemma binary64_not_NaN q : Num.binary64 q <> NaN.
Proof.
  unfold Num.binary64. destruct (q ?= 0)%Q; [discriminate | |apply binary64_pos_not_NaN].
  pose proof (binary64_pos_not_NaN (- q)) as Hn.
  destruct (Num.binary64_pos (- q)); [congruence | discriminate ..].
Qed.

Lemma Num_le_NegInf a : a <> NaN -> Num.le NegInf a = true.
Proof. destruct a; [congruence | reflexivity ..]. Qed.

Lemma Num_le_PosInf a : a <> NaN -> Num.le a PosInf = true.
Proof. destruct a; [congruence | reflexivity ..]. Qed.

Lemma to64_not_NaN a : a <> NaN -> Num.to64 a <> NaN.
Proof. destruct a; cbn [Num.to64]; try congruence. intros _. apply binary64_not_NaN. Qed.

(** The order of the numbers is kept by a rounding, by a product with
    and a quotient by a positive number, by a sum with a number, and by
    [Math.floor] and [Math.round]. *)
Lemma to64_mono a b : Num.le a b = true -> Num.le (Num.to64 a) (Num.to64 b) = true.
Proof.
  intros Hab. destruct a as [| |x|], b as [| |y|]; try discriminate Hab;
    cbn [Num.to64]; try reflexivity.
  - apply Num_le_NegInf, binary64_not_NaN.
  - apply binary64_mono, Num_le_Fin, Hab.
  - apply Num_le_PosInf, binary64_not_NaN.
Qed.

Lemma sign_pos_true k : (0 < k)%Q -> Num.sign_pos k = true.
Proof.
  intros Hk. unfold Num.sign_pos. destruct (Qle_bool k 0) eqn:E; [|reflexivity].
  apply Qle_bool_iff in E. lra.
Qed.

Lemma sign_neg_false k : (0 < k)%Q -> Num.sign_neg k = false.
Proof.
  intros Hk. unfold Num.sign_neg.
  assert (E : Qle_bool 0 k = true) by (apply Qle_bool_iff; lra).
  rewrite E. reflexivity.
Qed.

Lemma nonzero_false k : (0 < k)%Q -> Qeq_bool k 0 = false.
Proof.
  intros Hk. destruct (Qeq_bool k 0) eqn:E; [|reflexivity].
  apply Qeq_bool_iff in E. lra.
Qed.

Lemma mul_mono a b k :
  (0 < k)%Q -> Num.le a b = true -> Num.le (Num.mul a (Fin k)) (Num.mul b (Fin k)) = true.
Proof.
  intros Hk Hab.
  destruct a as [| |x|], b as [| |y|]; try discriminate Hab;
    cbn [Num.mul]; rewrite ?(sign_pos_true k Hk); try reflexivity.
  apply Num_le_Fin. rewrite !Qred_correct. apply Num_le_Fin in Hab.
  apply Qmult_le_compat_r; lra.
Qed.

Lemma div_mono a b k :
  (0 < k)%Q -> Num.le a b = true -> Num.le (Num.div a (Fin k)) (Num.div b (Fin k)) = true.
Proof.
  intros Hk Hab.
  destruct a as [| |x|], b as [| |y|]; try discriminate Hab;
    cbn [Num.div]; rewrite ?(sign_neg_false k Hk), ?(nonzero_false k Hk); try reflexivity.
  apply Num_le_Fin. rewrite !Qred_correct. apply Num_le_Fin in Hab.
  unfold Qdiv. apply Qmult_le_compat_r; [exact Hab|].
  apply Qlt_le_weak, Qinv_lt_0_compat, Hk.
Qed.

Lemma add_mono a b k :
  Num.le a b = true -> Num.le (Num.add a (Fin k)) (Num.add b (Fin k)) = true.
Proof.
  intros Hab.
  destruct a as [| |x|], b as [| |y|]; try discriminate Hab;
    cbn [Num.add]; try reflexivity.
  apply Num_le_Fin. rewrite !Qred_correct. apply Num_le_Fin in Hab. lra.
Qed.

Lemma mul64_mono a b k :
  (0 < k)%Q -> Num.le a b = true ->
  Num.le (Num.mul64 a (Fin k)) (Num.mul64 b (Fin k)) = true.
Proof. intros Hk Hab. apply to64_mono, mul_mono; assumption. Qed.

Lemma div64_mono a b k :
  (0 < k)%Q -> Num.le a b = true ->
  Num.le (Num.div64 a (Fin k)) (Num.div64 b (Fin k)) = true.
Proof. intros Hk Hab. apply to64_mono, div_mono; assumption. Qed.

Lemma add64_mono a b k :
  Num.le a b = true -> Num.le (Num.add64 a (Fin k)) (Num.add64 b (Fin k)) = true.
Proof. intros Hab. apply to64_mono, add_mono; assumption. Qed.

Lemma floor_mono a b : Num.le a b = true -> Num.le (Num.floor a) (Num.floor b) = true.
Proof.
  intros Hab. destruct a as [| |x|], b as [| |y|]; try discriminate Hab;
    cbn [Num.floor]; try reflexivity.
  apply Num_le_Fin. rewrite <- Zle_Qle. apply Qfloor_resp_le, Num_le_Fin, Hab.
Qed.

Lemma round_mono a b : Num.le a b = true -> Num.le (Num.round a) (Num.round b) = true.
Proof.
  intros Hab. destruct a as [| |x|], b as [| |y|]; try discriminate Hab;
    cbn [Num.round]; try reflexivity.
  apply Num_le_Fin. rewrite <- Zle_Qle. apply Qfloor_resp_le.
  apply Num_le_Fin in Hab. lra.
Qed.

(** The error of the rounding of a number of magnitude at most [B]. *)
Lemma binary64_error (q B : Q) :
  (Qabs q <= B)%Q -> (B < 2 ^ 1023)%Q ->
  exists v, Num.binary64 q = Fin v /\
            (Qabs (v - q) <= B * 2 ^ (-53) + 2 ^ (-1075))%Q.
Proof.
  intros HB Hlt.
  pose proof (two_pos (-53)) as Heps. pose proof (two_pos (-1075)) as Htiny.
  pose proof (Qabs_nonneg q) as Hnn.
  apply Qabs_Qle_condition in HB. destruct HB as [Hlo Hhi].
  assert (Hscale : forall x : Q, (x <= B)%Q -> (x * 2 ^ (-53) <= B * 2 ^ (-53))%Q).
  { intros x Hx. apply Qmult_le_compat_r; [exact Hx | lra]. }
  unfold Num.binary64. destruct (Qcompare_spec q 0) as [E|E|E].
  - exists 0%Q. split; [reflexivity|]. rewrite E.
    setoid_replace (0 - 0)%Q with 0%Q using relation Qeq by ring. cbn [Qabs Z.abs].
    pose proof (Hscale 0%Q ltac:(lra)) as H0. rewrite Qmult_0_l in H0. lra.
  - destruct (binary64_pos_error (- q) ltac:(lra) ltac:(lra)) as (v & Hv & Herr).
    rewrite Hv. exists (Qred (- v)). split; [reflexivity|].
    rewrite Qred_correct.
    setoid_replace (- v - q)%Q with (- (v - - q))%Q using relation Qeq by ring. rewrite Qabs_opp.
    pose proof (Hscale (- q)%Q ltac:(lra)). lra.
  - destruct (binary64_pos_error q ltac:(lra) ltac:(lra)) as (v & Hv & Herr).
    exists v. split; [exact Hv|]. pose proof (Hscale q Hhi). lra.
Qed.

End Rounding.

(** ** Colours and captions *)

Section Captions.
Import WeatherInterface.

Lemma le_Fin_true (z b : Q) : Num.le (Fin z) (Fin b) = true <-> (z <= b)%Q.
Proof. unfold Num.le. apply ge_Fin_true. Qed.

Lemma le_Fin_false (z b : Q) : Num.le (Fin z) (Fin b) = false <-> (b < z)%Q.
Proof. unfold Num.le. apply ge_Fin_false. Qed.

Lemma lt_Fin_true (z b : Q) : Num.lt (Fin z) (Fin b) = true <-> (z < b)%Q.
Proof.
  unfold Num.lt. simpl. split; intros Hlt.
  - apply Qnot_le_lt. intros Hle. apply Qle_bool_iff in Hle.
    rewrite Hle in Hlt. discriminate.
  - destruct (Qle_bool b z) eqn:E; [|reflexivity].
    apply Qle_bool_iff in E. lra.
Qed.

Lemma lt_Fin_false (z b : Q) : Num.lt (Fin z) (Fin b) = false <-> (b <= z)%Q.
Proof. unfold Num.lt. simpl. rewrite negb_false_iff. apply Qle_bool_iff. Qed.

(** Deciding every comparison of the number [t] that the goal makes. *)
Ltac compare_with t :=
  repeat match goal with
         | |- context [Num.le (Fin t) (Fin ?b)] =>
             let E := fresh "E" in
             destruct (Num.le (Fin t) (Fin b)) eqn:E;
             [apply le_Fin_true in E | apply le_Fin_false in E]
         | |- context [Num.lt (Fin t) (Fin ?b)] =>
             let E := fresh "E" in
             destruct (Num.lt (Fin t) (Fin b)) eqn:E;
             [apply lt_Fin_true in E | apply lt_Fin_false in E]
         end.

(** Two temperatures of one colour have every temperature between them
    in that colour. *)
Lemma getTemperatureColor_convex (lo t hi : Q) :
  (lo <= t)%Q -> (t <= hi)%Q ->
  getTemperatureColor (Fin lo) = getTemperatureColor (Fin hi) ->
  getTemperatureColor (Fin t) = getTemperatureColor (Fin lo).
Proof.
  intros Hlo Hhi. unfold getTemperatureColor.
  compare_with lo; compare_with hi; intros Heq; try discriminate Heq;
    compare_with t; first [reflexivity | lra].
Qed.

(** X1.  The colour of a temperature: eleven bands, each closed at its
    upper end, from [#0022FF] up to -20 degrees to [#FF0000] above 35; the
    bands are intervals; and a temperature that is not a number, as one
    that is missing, is shown in the colour of the hottest band. *)
Theorem getTemperatureColor_bands :
  forall t : Q,
    ((t <= -20)%Q -> getTemperatureColor (Fin t) = "#0022FF") /\
    ((-20 < t)%Q /\ (t <= -10)%Q -> getTemperatureColor (Fin t) = "#0044FF") /\
    ((-10 < t)%Q /\ (t <= 0)%Q -> getTemperatureColor (Fin t) = "#0066FF") /\
    ((0 < t)%Q /\ (t <= 5)%Q -> getTemperatureColor (Fin t) = "#00AAFF") /\
    ((5 < t)%Q /\ (t <= 10)%Q -> getTemperatureColor (Fin t) = "#00FFFF") /\
    ((10 < t)%Q /\ (t <= 15)%Q -> getTemperatureColor (Fin t) = "#00FFAA") /\
    ((15 < t)%Q /\ (t <= 20)%Q -> getTemperatureColor (Fin t) = "#AAFF00") /\
    ((20 < t)%Q /\ (t <= 25)%Q -> getTemperatureColor (Fin t) = "#FFFF00") /\
    ((25 < t)%Q /\ (t <= 30)%Q -> getTemperatureColor (Fin t) = "#FFAA00") /\
    ((30 < t)%Q /\ (t <= 35)%Q -> getTemperatureColor (Fin t) = "#FF6600") /\
    ((35 < t)%Q -> getTemperatureColor (Fin t) = "#FF0000") /\
    (forall lo hi : Q,
       (lo <= t)%Q -> (t <= hi)%Q ->
       getTemperatureColor (Fin lo) = getTemperatureColor (Fin hi) ->
       getTemperatureColor (Fin t) = getTemperatureColor (Fin lo)) /\
    getTemperatureColor NaN = "#FF0000" /\
    getTemperatureColor PosInf = "#FF0000" /\
    getTemperatureColor NegInf = "#0022FF".
Proof.
  intros t.
  repeat match goal with
         | |- (_ -> getTemperatureColor _ = _) /\ _ =>
             split;
             [intros ?; unfold getTemperatureColor; compare_with t;
              first [reflexivity | lra]|]
         end.
  split; [intros lo hi; apply getTemperatureColor_convex|].
  repeat split.
Qed.

Lemma getTemperatureColor_bands_witness :
  (20 < 22)%Q /\ (22 <= 25)%Q /\ getTemperatureColor (Fin 22) = "#FFFF00".
Proof.
  assert (Hlo : (20 < 22)%Q) by reflexivity.
  assert (Hhi : (22 <= 25)%Q) by discriminate.
  split; [exact Hlo | split; [exact Hhi |]].
  exact (proj1 (proj2 (proj2 (proj2 (proj2 (proj2 (proj2 (proj2
           (getTemperatureColor_bands 22)))))))) (conj Hlo Hhi)).
Defined.



(** The exact value in Fahrenheit of a temperature in Celsius. *)
Definition fahrenheit (c : Q) : Q := (c * 9 / 5 + 32)%Q.

(** The temperature 0.27777777777777773, as a binary64 number. *)
Definition near_half_degree : Q := 5003999585967217 # 18014398509481984.

Lemma celsiusToFahrenheit_mono (a b : jsnum) :
  Num.le a b = true ->
  Num.le (celsiusToFahrenheit a) (celsiusToFahrenheit b) = true.
Proof.
  intros Hab. unfold celsiusToFahrenheit.
  apply round_mono, add64_mono, div64_mono; [reflexivity|].
  apply mul64_mono; [reflexivity | exact Hab].
Qed.

Lemma celsiusToFahrenheit_error (c : Q) :
  (Qabs c <= 1000000)%Q ->
  exists f : Z,
    celsiusToFahrenheit (Fin c) = Fin (inject_Z f) /\
    (Qabs (inject_Z f - fahrenheit c) <= (1 # 2) + (1 # 1000000000))%Q.
Proof.
  intros Hc. apply Qabs_Qle_condition in Hc. destruct Hc as [Hclo Hchi].
  assert (Heps : (2 ^ (-53) <= 1 # 9000000000000000)%Q) by (vm_compute; discriminate).
  assert (Htiny : (2 ^ (-1075) <= 1 # 9000000000000000)%Q) by (vm_compute; discriminate).
  pose proof (two_pos (-53)) as Heps0. pose proof (two_pos (-1075)) as Htiny0.
  assert (Hbig : forall B : Q, (B <= 10000000)%Q -> (B < 2 ^ 1023)%Q).
  { intros B HB. apply Qle_lt_trans with (1 := HB). reflexivity. }
  unfold celsiusToFahrenheit, Num.mul64, Num.div64, Num.add64.
  cbn [Num.mul Num.to64].
  destruct (binary64_error (Qred (c * 9)) 9000000) as (v1 & -> & H1).
  { rewrite Qred_correct. apply Qabs_Qle_condition. split; lra. }
  { apply Hbig. lra. }
  rewrite Qred_correct in H1. apply Qabs_Qle_condition in H1. destruct H1 as [H1lo H1hi].
  cbn [Num.div]. change (Qeq_bool 5 0) with false. cbv iota. cbn [Num.to64].
  assert (E5 : (v1 / 5 == v1 * (1 # 5))%Q) by field.
  destruct (binary64_error (Qred (v1 / 5)) 2000000) as (v2 & -> & H2).
  { rewrite Qred_correct, E5. apply Qabs_Qle_condition. split; lra. }
  { apply Hbig. lra. }
  rewrite Qred_correct, E5 in H2. apply Qabs_Qle_condition in H2.
  destruct H2 as [H2lo H2hi].
  cbn [Num.add Num.to64].
  destruct (binary64_error (Qred (v2 + 32)) 3000000) as (v3 & -> & H3).
  { rewrite Qred_correct. apply Qabs_Qle_condition. split; lra. }
  { apply Hbig. lra. }
  rewrite Qred_correct in H3. apply Qabs_Qle_condition in H3. destruct H3 as [H3lo H3hi].
  cbn [Num.round]. exists (Qfloor (v3 + (1 # 2))). split; [reflexivity|].
  pose proof (Qfloor_le (v3 + (1 # 2))) as Hle.
  pose proof (Qlt_floor (v3 + (1 # 2))) as Hlt.
  rewrite inject_Z_plus in Hlt. change (inject_Z 1) with 1%Q in Hlt.
  unfold fahrenheit.
  assert (E : (c * 9 / 5 == c * 9 * (1 # 5))%Q) by field. rewrite E.
  apply Qabs_Qle_condition. split; lra.
Qed.

(** X3.  [celsiusToFahrenheit], with each of its operations rounded to
    binary64 as the code computes them: for a temperature of at most a
    million degrees either way the result is an integer within a half and
    a billionth of the exact value [c * 9 / 5 + 32]; the result never
    decreases when the temperature grows, through the infinities too; -40
    is the same on both scales, 0 is 32 and 100 is 212; a temperature that
    is not a number stays so; and the result is not always the integer
    nearest to the exact value: at 0.27777777777777773 it is 33, while the
    exact value is below 32.5. *)
Theorem celsiusToFahrenheit_nearest :
  (forall c : Q,
     (Qabs c <= 1000000)%Q ->
     exists f : Z,
       celsiusToFahrenheit (Fin c) = Fin (inject_Z f) /\
       (Qabs (inject_Z f - fahrenheit c) <= (1 # 2) + (1 # 1000000000))%Q) /\
  (forall a b : jsnum,
     Num.le a b = true ->
     Num.le (celsiusToFahrenheit a) (celsiusToFahrenheit b) = true) /\
  celsiusToFahrenheit (Fin (-40)) = Fin (-40) /\
  celsiusToFahrenheit (Fin 0) = Fin 32 /\
  celsiusToFahrenheit (Fin 100) = Fin 212 /\
  celsiusToFahrenheit NaN = NaN /\
  celsiusToFahrenheit PosInf = PosInf /\
  celsiusToFahrenheit NegInf = NegInf /\
  JS.parseFloat "0.27777777777777773" = Fin near_half_degree /\
  celsiusToFahrenheit (Fin near_half_degree) = Fin 33 /\
  (fahrenheit near_half_degree < 32 + (1 # 2))%Q.
Proof.
  split; [exact celsiusToFahrenheit_error|].
  split; [exact celsiusToFahrenheit_mono|].
  repeat split; vm_compute; reflexivity.
Qed.

End Captions.

(** ** The fetchers without a fallback *)

Section Fetchers.
Import WeatherService.
Context `{JSHost}.

(** The shape that the four fetchers share: look the key up; on a miss
    ask the upstream, normalize, store and return, and turn whatever is
    thrown on the way into an error of a fixed message. *)
Definition fetch_through_cache (cacheKey : string) (url : State -> string)
  (normalize : jsval -> completion jsval) (message : string)
  (now arrival : Z) (resp : Response) : M State jsval :=
  let* cachedData := cache_get cacheKey now in
  if JS.truthy cachedData then ret cachedData
  else
    try_catch
      (let* u := gets url in
       let* data := axios_get u resp in
       let* normalizedData := lift (normalize data) in
       cache_set cacheKey normalizedData arrival ;;;
       ret normalizedData)
      (fun error => throw (Error message)).

(** A failed upstream call: no answer, a status outside 2xx, or a body
    on which the normalizer throws. *)
Definition fails (normalize : jsval -> completion jsval) (resp : Response) : Prop :=
  match resp with
  | NetworkError => True
  | HttpResponse status data =>
      ~ (200 <= status < 300) \/ exists e, normalize data = Throw e
  end.

Lemma fetch_failure cacheKey url normalize message now arrival resp st :
  cache_miss cacheKey now st ->
  fails normalize resp ->
  fetch_through_cache cacheKey url normalize message now arrival resp st
  = (Throw (Error message),
     add_request (url (after_miss cacheKey now st)) (after_miss cacheKey now st)).
Proof.
  intros Hmiss Hfail.
  destruct (cache_get_miss _ _ _ Hmiss) as (v & Hget & Hv).
  unfold fetch_through_cache. cbn [bind M_Monad]. rewrite Hget, Hv.
  unfold try_catch, gets, axios_get, modify, lift, throw. cbn [bind ret M_Monad].
  destruct resp as [|status data]; [reflexivity|].
  destruct Hfail as [Hstatus | [e He]].
  - destruct ((200 <=? status)%Z && (status <? 300)%Z)%bool eqn:Eok.
    + apply status_ok_dec in Eok. contradiction.
    + reflexivity.
  - destruct ((200 <=? status)%Z && (status <? 300)%Z)%bool; [|reflexivity].
    cbn [ret M_Monad]. rewrite He. reflexivity.
Qed.

Lemma fetch_success cacheKey url normalize message now arrival status data nd st :
  cache_miss cacheKey now st ->
  200 <= status < 300 ->
  normalize data = Normal nd ->
  fetch_through_cache cacheKey url normalize message now arrival
    (HttpResponse status data) st
  = (Normal nd,
     set_cache (<[cacheKey := {| value := nd; expires := arrival + stdTTL * 1000 |}]>)
       (add_request (url (after_miss cacheKey now st)) (after_miss cacheKey now st))).
Proof.
  intros Hmiss Hstatus Hnorm.
  destruct (cache_get_miss _ _ _ Hmiss) as (v & Hget & Hv).
  unfold fetch_through_cache. cbn [bind M_Monad]. rewrite Hget, Hv.
  unfold try_catch, gets, axios_get, modify, lift, throw, cache_set.
  cbn [bind ret M_Monad].
  apply status_ok_dec in Hstatus. rewrite Hstatus.
  cbn [ret M_Monad]. rewrite Hnorm. reflexivity.
Qed.

Lemma fetch_hit cacheKey url normalize message now arrival resp st e :
  weatherCache st !! cacheKey = Some e ->
  now <= expires e ->
  JS.truthy (value e) = true ->
  fetch_through_cache cacheKey url normalize message now arrival resp st
  = (Normal (value e), st).
Proof.
  intros Hlook Hfresh Htruthy.
  unfold fetch_through_cache, cache_get. cbn [bind M_Monad]. rewrite Hlook.
  assert (Hexp : (expires e <? now)%Z = false) by (apply Z.ltb_ge; exact Hfresh).
  rewrite Hexp, Htruthy. reflexivity.
Qed.

(** An entry that has expired is dropped and the upstream is asked. *)
Lemma fetch_expired cacheKey url normalize message now arrival resp st e :
  weatherCache st !! cacheKey = Some e ->
  expires e < now ->
  exists r st',
    fetch_through_cache cacheKey url normalize message now arrival resp st = (r, st') /\
    requests st' = requests st ++ [url (set_cache (delete cacheKey) st)].
Proof.
  intros Hlook Hold.
  unfold fetch_through_cache, cache_get. cbn [bind M_Monad]. rewrite Hlook.
  assert (Hexp : (expires e <? now)%Z = true) by (apply Z.ltb_lt; exact Hold).
  rewrite Hexp. cbn [JS.truthy].
  unfold try_catch, gets, axios_get, modify, lift, throw, cache_set.
  cbn [bind ret M_Monad].
  destruct resp as [|status data]; [eexists _, _; split; reflexivity|].
  destruct ((200 <=? status)%Z && (status <? 300)%Z)%bool;
    [|eexists _, _; split; reflexivity].
  cbn [ret M_Monad].
  destruct (normalize data); eexists _, _; split; reflexivity.
Qed.

(** The four fetchers as instances of the shape. *)
Lemma getWeatherForecast_shape lat lon now arrival resp st :
  getWeatherForecast lat lon now arrival resp st
  = fetch_through_cache (forecast_cacheKey lat lon)
      (fun st => forecast_url (openWeatherMapKey st) lat lon)
      normalizeForecastData "Failed to fetch weather forecast data"
      now arrival resp st.
Proof. reflexivity. Qed.

Lemma getHurricaneData_shape now arrival resp st :
  getHurricaneData now arrival resp st
  = fetch_through_cache "hurricane_data"
      (fun _ => "https://www.nhc.noaa.gov/CurrentStorms.json")
      (normalizeHurricaneData arrival) "Failed to fetch hurricane data"
      now arrival resp st.
Proof. reflexivity. Qed.

Lemma getNaturalDisasterData_shape now arrival resp st :
  getNaturalDisasterData now arrival resp st
  = fetch_through_cache "natural_disaster_data"
      (fun _ => "https://eonet.gsfc.nasa.gov/api/v3/events")
      normalizeDisasterData "Failed to fetch natural disaster data"
      now arrival resp st.
Proof. reflexivity. Qed.

(** The normalizer of the wildfire feed, from the body of the answer. *)
Definition wildfire_records (arrival : Z) (random36 : nat -> string) (data : jsval)
  : completion jsval :=
  let* csvData := csv_text data in
  let* rows := normalizeWildfireData arrival random36 csvData in
  ret (VArr rows).

Definition days_or_default (days : option jsnum) : jsnum :=
  match days with Some d => d | None => Fin 1 end.

Lemma getWildfireData_shape key random36 days now arrival resp st :
  getWildfireData key random36 days now arrival resp st
  = fetch_through_cache (wildfire_cacheKey (days_or_default days))
      (fun _ => wildfire_url key (days_or_default days))
      (wildfire_records arrival random36) "Failed to fetch wildfire data"
      now arrival resp st.
Proof.
  unfold getWildfireData, fetch_through_cache, wildfire_records, days_or_default.
  cbn [bind M_Monad].
  destruct (cache_get _ now st) as [[v|e] st1]; [|reflexivity].
  destruct (JS.truthy v); [reflexivity|].
  unfold try_catch, gets, axios_get, modify, lift, throw, cache_set.
  cbn [bind ret M_Monad completion_Monad].
  destruct resp as [|status data]; [reflexivity|].
  destruct ((200 <=? status)%Z && (status <? 300)%Z)%bool; [|reflexivity].
  cbn [ret M_Monad].
  destruct (csv_text data) as [csv|e]; [|reflexivity].
  destruct (normalizeWildfireData arrival random36 csv); reflexivity.
Qed.

(** What each normalizer returns is an object or an array. *)
Lemma normalizeForecastData_truthy data nd :
  normalizeForecastData data = Normal nd -> JS.truthy nd = true.
Proof.
  unfold normalizeForecastData. cbn [bind ret completion_Monad].
  repeat match goal with
         | |- context [match ?c with Normal _ => _ | Throw _ => _ end] =>
             destruct c; [|discriminate]
         end.
  intros [= <-]. reflexivity.
Qed.

Lemma map_truthy f v nd : JS.map f v = Normal nd -> JS.truthy nd = true.
Proof.
  destruct v; cbn; try discriminate.
  destruct (mapC f elems); cbn; [|discriminate]. intros [= <-]. reflexivity.
Qed.

Lemma normalizeHurricaneData_truthy now data nd :
  normalizeHurricaneData now data = Normal nd -> JS.truthy nd = true.
Proof.
  unfold normalizeHurricaneData. cbn [bind ret completion_Monad].
  destruct (JS.get data "activeStorms") as [v|]; [|discriminate].
  destruct (negb (JS.truthy v) || negb (JS.isArray v))%bool.
  - intros [= <-]. reflexivity.
  - apply map_truthy.
Qed.

Lemma normalizeDisasterData_truthy data nd :
  normalizeDisasterData data = Normal nd -> JS.truthy nd = true.
Proof.
  unfold normalizeDisasterData. cbn [bind ret completion_Monad].
  destruct (JS.get data "events") as [v|]; [|discriminate].
  destruct (negb (JS.truthy v) || negb (JS.isArray v))%bool.
  - intros [= <-]. reflexivity.
  - apply map_truthy.
Qed.

Lemma wildfire_records_truthy arrival random36 data nd :
  wildfire_records arrival random36 data = Normal nd -> JS.truthy nd = true.
Proof.
  unfold wildfire_records. cbn [bind ret completion_Monad].
  destruct (csv_text data); [|discriminate].
  destruct (normalizeWildfireData _ _ _); [|discriminate].
  intros [= <-]. reflexivity.
Qed.

(** A call that misses the cache and whose upstream call fails ends in
    the error of the given message; the upstream was asked once; and the
    cache holds what it held, less the entry of the key if that one had
    expired. *)
Definition rejects_uncached (fetch : Z -> Z -> Response -> M State jsval)
  (cacheKey : string) (normalize : Z -> jsval -> completion jsval)
  (message : string) : Prop :=
  forall (now arrival : Z) (resp : Response) (st : State),
    cache_miss cacheKey now st ->
    fails (normalize arrival) resp ->
    exists (st' : State) (url : string),
      fetch now arrival resp st = (Throw (Error message), st') /\
      requests st' = requests st ++ [url] /\
      (weatherCache st' = weatherCache st \/
       weatherCache st' = delete cacheKey (weatherCache st)) /\
      (forall later, cache_miss cacheKey later st').

Lemma after_miss_cache key now st :
  weatherCache (after_miss key now st) = weatherCache st \/
  weatherCache (after_miss key now st) = delete key (weatherCache st).
Proof.
  unfold after_miss, cache_get.
  destruct (weatherCache st !! key) as [e|]; [|left; reflexivity].
  destruct (expires e <? now)%Z; [right | left]; reflexivity.
Qed.

Lemma after_miss_still key now st later :
  cache_miss key now st -> cache_miss key later (after_miss key now st).
Proof.
  unfold cache_miss, after_miss, cache_get.
  destruct (weatherCache st !! key) as [e|] eqn:E.
  - destruct (expires e <? now)%Z eqn:Hexp; cbn [snd].
    + intros _. cbn [set_cache weatherCache]. rewrite lookup_delete_eq. exact I.
    + rewrite E. intros [Hlt | Hfalsy]; [|right; exact Hfalsy].
      apply Z.ltb_ge in Hexp. lia.
  - cbn [snd]. rewrite E. intros _. exact I.
Qed.

Lemma shape_rejects fetch cacheKey url normalize message :
  (forall now arrival resp st,
     fetch now arrival resp st
     = fetch_through_cache cacheKey url (normalize arrival) message now arrival resp st) ->
  rejects_uncached fetch cacheKey normalize message.
Proof.
  intros Hshape now arrival resp st Hmiss Hfail.
  eexists _, _. rewrite Hshape.
  split; [apply fetch_failure; assumption|].
  cbn [add_request requests weatherCache]. rewrite after_miss_requests.
  split; [reflexivity|]. split; [apply after_miss_cache|].
  intros later. pose proof (after_miss_still cacheKey now st later Hmiss) as Hstill.
  unfold cache_miss in *. cbn [add_request weatherCache]. exact Hstill.
Qed.

(** X4.  The fetchers of the forecast, the hurricanes, the wildfires and
    the natural disasters have no fallback: a call that misses the cache
    and whose upstream call fails (no answer, a status outside 2xx, a body
    on which the normalizer throws) is rejected with the fixed message of
    the fetcher, after one upstream request; it stores nothing, so the
    key is still missing at any later instant. *)
Theorem fetchers_reject_without_fallback :
  forall (lat lon : jsnum) (nasaFirmsApiKey : option string)
         (random36 : nat -> string) (days : option jsnum),
    rejects_uncached (getWeatherForecast lat lon) (forecast_cacheKey lat lon)
      (fun _ => normalizeForecastData) "Failed to fetch weather forecast data" /\
    rejects_uncached getHurricaneData "hurricane_data"
      normalizeHurricaneData "Failed to fetch hurricane data" /\
    rejects_uncached (getWildfireData nasaFirmsApiKey random36 days)
      (wildfire_cacheKey (days_or_default days))
      (fun arrival => wildfire_records arrival random36)
      "Failed to fetch wildfire data" /\
    rejects_uncached getNaturalDisasterData "natural_disaster_data"
      (fun _ => normalizeDisasterData) "Failed to fetch natural disaster data".
Proof.
  intros lat lon key random36 days.
  split; [eapply shape_rejects; intros; apply getWeatherForecast_shape|].
  split; [eapply shape_rejects; intros; apply getHurricaneData_shape|].
  split; [eapply shape_rejects; intros; apply getWildfireData_shape|].
  eapply shape_rejects; intros; apply getNaturalDisasterData_shape.
Qed.

(** A call that misses the cache and is served by the upstream returns
    the normalized answer and stores it; until the entry expires, 1800
    seconds after the answer arrived, every call returns it and leaves the
    service as it is, the upstream not being asked; the first call after
    that asks the upstream again. *)
Definition serves_from_cache (fetch : Z -> Z -> Response -> M State jsval)
  (cacheKey : string) (normalize : Z -> jsval -> completion jsval) : Prop :=
  forall (now arrival status : Z) (data nd : jsval) (st : State),
    cache_miss cacheKey now st ->
    200 <= status < 300 ->
    normalize arrival data = Normal nd ->
    exists (st1 : State) (url : string),
      fetch now arrival (HttpResponse status data) st = (Normal nd, st1) /\
      requests st1 = requests st ++ [url] /\
      weatherCache st1 !! cacheKey
        = Some {| value := nd; expires := arrival + 1800 * 1000 |} /\
      (forall now2 arrival2 resp2,
         now2 <= arrival + 1800 * 1000 ->
         fetch now2 arrival2 resp2 st1 = (Normal nd, st1)) /\
      (forall now2 arrival2 resp2,
         arrival + 1800 * 1000 < now2 ->
         exists r st2 url2,
           fetch now2 arrival2 resp2 st1 = (r, st2) /\
           requests st2 = requests st1 ++ [url2]).

Lemma shape_serves fetch cacheKey url normalize message :
  (forall now arrival resp st,
     fetch now arrival resp st
     = fetch_through_cache cacheKey url (normalize arrival) message now arrival resp st) ->
  (forall arrival data nd, normalize arrival data = Normal nd -> JS.truthy nd = true) ->
  serves_from_cache fetch cacheKey normalize.
Proof.
  intros Hshape Htruthy now arrival status data nd st Hmiss Hstatus Hnorm.
  eexists _, _. rewrite Hshape.
  split; [apply fetch_success; eassumption|].
  cbn [set_cache add_request requests weatherCache]. rewrite after_miss_requests.
  split; [reflexivity|].
  split; [apply lookup_insert_eq|].
  split.
  - intros now2 arrival2 resp2 Hwindow. rewrite Hshape.
    rewrite (fetch_hit cacheKey url (normalize arrival2) message now2 arrival2 resp2 _
               {| value := nd; expires := arrival + stdTTL * 1000 |}).
    + reflexivity.
    + cbn [set_cache weatherCache]. apply lookup_insert_eq.
    + exact Hwindow.
    + cbn [value]. exact (Htruthy _ _ _ Hnorm).
  - intros now2 arrival2 resp2 Hold. rewrite Hshape.
    match goal with
    | |- context [fetch_through_cache _ _ _ _ _ _ _ ?s] =>
        destruct (fetch_expired cacheKey url (normalize arrival2) message now2 arrival2
                    resp2 s {| value := nd; expires := arrival + stdTTL * 1000 |})
          as (r & st2 & Hrun & Hreq)
    end.
    + cbn [set_cache weatherCache]. apply lookup_insert_eq.
    + cbn [expires]. exact Hold.
    + eexists _, _, _. split; [exact Hrun|]. rewrite Hreq.
      cbn [set_cache add_request requests]. rewrite after_miss_requests. reflexivity.
Qed.

(** X5.  The same four fetchers, served by the upstream on a miss, return
    the normalized answer and store it under their key for 1800 seconds
    from the arrival of the answer; every call up to that instant returns
    the stored value and leaves the service as it is, without an upstream
    request; a call after it asks the upstream again. *)
Theorem fetchers_serve_from_cache :
  forall (lat lon : jsnum) (nasaFirmsApiKey : option string)
         (random36 : nat -> string) (days : option jsnum),
    serves_from_cache (getWeatherForecast lat lon) (forecast_cacheKey lat lon)
      (fun _ => normalizeForecastData) /\
    serves_from_cache getHurricaneData "hurricane_data" normalizeHurricaneData /\
    serves_from_cache (getWildfireData nasaFirmsApiKey random36 days)
      (wildfire_cacheKey (days_or_default days))
      (fun arrival => wildfire_records arrival random36) /\
    serves_from_cache getNaturalDisasterData "natural_disaster_data"
      (fun _ => normalizeDisasterData).
Proof.
  intros lat lon key random36 days.
  split.
  { eapply shape_serves; [intros; apply getWeatherForecast_shape|].
    intros _ data nd. apply normalizeForecastData_truthy. }
  split.
  { eapply shape_serves; [intros; apply getHurricaneData_shape|].
    intros arrival data nd. apply normalizeHurricaneData_truthy. }
  split.
  { eapply shape_serves; [intros; apply getWildfireData_shape|].
    intros arrival data nd. apply wildfire_records_truthy. }
  eapply shape_serves; [intros; apply getNaturalDisasterData_shape|].
  intros _ data nd. apply normalizeDisasterData_truthy.
Qed.

End Fetchers.

(** ** The bodies that the normalizers can read *)

Section Readable.
Import WeatherService.
Context `{JSHost}.

(** [undefined] and [null], the two values without properties. *)
Definition nullish (v : jsval) : bool :=
  match v with VUndef | VNull => true | _ => false end.

(** [v.k] and [v[i]] where they can be read. *)
Definition child (v : jsval) (k : string) : jsval :=
  match JS.get v k with Normal x => x | Throw _ => VUndef end.

Definition element (v : jsval) (i : nat) (numeral : string) : jsval :=
  match JS.index v i numeral with Normal x => x | Throw _ => VUndef end.

Lemma get_readable v k : nullish v = false -> JS.get v k = Normal (child v k).
Proof.
  unfold child. destruct v; cbn; try discriminate; try reflexivity;
    destruct (String.eqb k "length"); reflexivity.
Qed.

Lemma index_readable v i numeral :
  nullish v = false -> JS.index v i numeral = Normal (element v i numeral).
Proof. unfold element. destruct v; cbn; try discriminate; reflexivity. Qed.

Lemma get_throws v k e : JS.get v k = Throw e -> exists msg, e = TypeError msg.
Proof.
  destruct v; cbn; try discriminate; try (intros [= <-]; eexists; reflexivity).
  - destruct (String.eqb k "length"); discriminate.
  - destruct (String.eqb k "length"); discriminate.
Qed.

Lemma index_throws v i numeral e :
  JS.index v i numeral = Throw e -> exists msg, e = TypeError msg.
Proof.
  destruct v; cbn; try discriminate; intros [= <-]; eexists; reflexivity.
Qed.

Lemma bind_get {B : Type} v k (f : jsval -> completion B) :
  (let* x := JS.get v k in f x)
  = if nullish v then (let* x := JS.get v k in f x) else f (child v k).
Proof.
  destruct (nullish v) eqn:E; [reflexivity|].
  rewrite (get_readable v k E). reflexivity.
Qed.

Lemma bind_get_Normal {B : Type} v k (f : jsval -> completion B) r :
  (let* x := JS.get v k in f x) = Normal r ->
  nullish v = false /\ f (child v k) = Normal r.
Proof.
  destruct (nullish v) eqn:E.
  - destruct v; try discriminate E; cbn; discriminate.
  - rewrite (get_readable v k E). cbn. intros Hr. split; [reflexivity | exact Hr].
Qed.

Lemma bind_index_Normal {B : Type} v i numeral (f : jsval -> completion B) r :
  (let* x := JS.index v i numeral in f x) = Normal r ->
  nullish v = false /\ f (element v i numeral) = Normal r.
Proof.
  destruct (nullish v) eqn:E.
  - destruct v; try discriminate E; cbn; discriminate.
  - rewrite (index_readable v i numeral E). cbn. intros Hr.
    split; [reflexivity | exact Hr].
Qed.

Lemma bind_get_Throw {B : Type} v k (f : jsval -> completion B) e :
  (let* x := JS.get v k in f x) = Throw e ->
  (exists msg, e = TypeError msg) \/ f (child v k) = Throw e.
Proof.
  destruct (JS.get v k) as [x|e'] eqn:E; cbn.
  - intros He. right. unfold child. rewrite E. exact He.
  - intros [= <-]. left. exact (get_throws _ _ _ E).
Qed.

Lemma bind_index_Throw {B : Type} v i numeral (f : jsval -> completion B) e :
  (let* x := JS.index v i numeral in f x) = Throw e ->
  (exists msg, e = TypeError msg) \/ f (element v i numeral) = Throw e.
Proof.
  destruct (JS.index v i numeral) as [x|e'] eqn:E; cbn.
  - intros He. right. unfold element. rewrite E. exact He.
  - intros [= <-]. left. exact (index_throws _ _ _ _ E).
Qed.

Lemma bind_assoc_c {A B C : Type} (c : completion A) (f : A -> completion B)
  (k : B -> completion C) :
  bind (bind c f) k = bind c (fun x => bind (f x) k).
Proof. destruct c; reflexivity. Qed.

Lemma bind_ret_c {A B : Type} (a : A) (k : A -> completion B) : bind (ret a) k = k a.
Proof. reflexivity. Qed.

Lemma bind_Normal_c {A B : Type} (a : A) (k : A -> completion B) :
  bind (Normal a) k = k a.
Proof. reflexivity. Qed.

(** [a * b] and [new Date(v).getTime()] where the operand can be
    converted to a primitive value. *)
Definition product (a : jsval) (b : jsnum) : jsval :=
  match JS.times a b with Normal x => x | Throw _ => VUndef end.

Lemma toNumber_throws a :
  JS.convertible a = false -> JS.toNumber a = Throw JS.not_convertible.
Proof.
  intros Hc. unfold JS.toNumber. destruct a; try discriminate Hc; rewrite Hc; reflexivity.
Qed.

Lemma toNumber_returns a :
  JS.convertible a = true -> exists n, JS.toNumber a = Normal n.
Proof.
  intros Hc. unfold JS.toNumber.
  destruct a; try rewrite Hc; try destruct b; eexists; reflexivity.
Qed.

Lemma times_readable a b : JS.convertible a = true -> JS.times a b = Normal (product a b).
Proof.
  intros Hc. unfold product, JS.times.
  destruct (toNumber_returns a Hc) as [n ->]. reflexivity.
Qed.

Lemma times_throws a b : JS.convertible a = false -> JS.times a b = Throw JS.not_convertible.
Proof. intros Hc. unfold JS.times. rewrite (toNumber_throws a Hc). reflexivity. Qed.

Lemma getTime_readable v :
  JS.convertible v = true -> JS.getTime v = Normal (VNum (Date_getTime v)).
Proof. intros Hc. unfold JS.getTime. rewrite Hc. reflexivity. Qed.

Lemma bind_times_Normal {B : Type} a b (f : jsval -> completion B) r :
  (let* x := JS.times a b in f x) = Normal r ->
  JS.convertible a = true /\ f (product a b) = Normal r.
Proof.
  destruct (JS.convertible a) eqn:E.
  - rewrite (times_readable a b E). cbn. intros Hr. split; [reflexivity | exact Hr].
  - rewrite (times_throws a b E). discriminate.
Qed.

Lemma bind_getTime_Normal {B : Type} v (f : jsval -> completion B) r :
  (let* x := JS.getTime v in f x) = Normal r ->
  JS.convertible v = true /\ f (VNum (Date_getTime v)) = Normal r.
Proof.
  destruct (JS.convertible v) eqn:E.
  - rewrite (getTime_readable v E). cbn. intros Hr. split; [reflexivity | exact Hr].
  - unfold JS.getTime. rewrite E. discriminate.
Qed.

Lemma bind_times_Throw {B : Type} a b (f : jsval -> completion B) e :
  (let* x := JS.times a b in f x) = Throw e ->
  (exists msg, e = TypeError msg) \/ f (product a b) = Throw e.
Proof.
  destruct (JS.convertible a) eqn:E.
  - rewrite (times_readable a b E). cbn. intros Hr. right. exact Hr.
  - rewrite (times_throws a b E). intros [= <-]. left. eexists. reflexivity.
Qed.

(** Reading through a chain of property reads that completed. *)
Ltac read_all Hrun :=
  repeat first
    [ rewrite bind_assoc_c in Hrun
    | rewrite bind_ret_c in Hrun
    | rewrite bind_Normal_c in Hrun
    | let Hv := fresh "Hv" in apply bind_get_Normal in Hrun as [Hv Hrun]
    | let Hv := fresh "Hv" in apply bind_index_Normal in Hrun as [Hv Hrun]
    | let Hv := fresh "Hv" in apply bind_times_Normal in Hrun as [Hv Hrun]
    | let Hv := fresh "Hv" in apply bind_getTime_Normal in Hrun as [Hv Hrun] ].

Ltac read_on :=
  repeat first
    [ rewrite get_readable by assumption
    | rewrite index_readable by assumption
    | rewrite times_readable by assumption
    | rewrite getTime_readable by assumption
    | progress cbn [bind ret completion_Monad] ].

(** The parts of an answer of the current-weather service that the
    normalizer reads properties of. *)
Definition weather_body (data : jsval) : list jsval :=
  [ data; child data "sys"; child data "coord"; child data "weather";
    element (child data "weather") 0 "0"; child data "main"; child data "wind";
    child data "clouds" ].

(** The three times that the normalizer multiplies by a thousand. *)
Definition weather_times (data : jsval) : list jsval :=
  [ child data "dt"; child (child data "sys") "sunrise";
    child (child data "sys") "sunset" ].

(** X6.  [normalizeOpenWeatherData] returns exactly on the answers in
    which the eight values it reads properties of ([data], [sys], [coord],
    [weather], [weather[0]], [main], [wind], [clouds]) are neither
    [undefined] nor [null] and the three times it multiplies ([dt],
    [sys.sunrise], [sys.sunset]) can be converted to a primitive value,
    which holds of every value of a JSON document but an object with a
    property [toString] of its own and an array that holds one; on every
    other answer it throws, and what it throws is a [TypeError]; and the
    [timestamp] of the record is [dt * 1000], rounded to binary64. *)
Theorem normalizeOpenWeatherData_domain :
  forall data : jsval,
    ((exists nd, normalizeOpenWeatherData data = Normal nd) <->
     Forall (fun part => nullish part = false) (weather_body data) /\
     Forall (fun time => JS.convertible time = true) (weather_times data)) /\
    (forall e, normalizeOpenWeatherData data = Throw e -> exists msg, e = TypeError msg) /\
    (forall nd,
       normalizeOpenWeatherData data = Normal nd ->
       JS.get nd "timestamp" = JS.times (child data "dt") (Fin 1000) /\
       JS.get nd "sunrise" = JS.times (child (child data "sys") "sunrise") (Fin 1000) /\
       JS.get nd "sunset" = JS.times (child (child data "sys") "sunset") (Fin 1000)) /\
    (forall n : Q,
       JS.times (VNum (Fin n)) (Fin 1000) = Normal (VNum (Num.binary64 (n * 1000)))) /\
    (forall props,
       JS.times (VObj (("toString", VNum (Fin 1)) :: props)) (Fin 1000)
       = Throw JS.not_convertible).
Proof.
  intros data. split; [split|split; [|split; [|split]]].
  - intros [nd Hrun]. unfold normalizeOpenWeatherData in Hrun.
    read_all Hrun. unfold weather_body, weather_times.
    split; repeat constructor; assumption.
  - unfold weather_body, weather_times. intros [Hall Htimes].
    repeat match goal with
           | Hall : Forall _ (_ :: _) |- _ => inversion Hall; subst; clear Hall
           end.
    unfold normalizeOpenWeatherData. read_on. eexists. reflexivity.
  - intros e Hrun. unfold normalizeOpenWeatherData in Hrun.
    repeat first
      [ apply bind_get_Throw in Hrun as [Hrun | Hrun]; [exact Hrun|]
      | apply bind_index_Throw in Hrun as [Hrun | Hrun]; [exact Hrun|]
      | apply bind_times_Throw in Hrun as [Hrun | Hrun]; [exact Hrun|] ].
    discriminate Hrun.
  - intros nd Hrun. unfold normalizeOpenWeatherData in Hrun. read_all Hrun.
    cbn [ret completion_Monad] in Hrun. injection Hrun as <-.
    rewrite !times_readable by assumption. repeat split.
  - intros n. unfold JS.times, JS.toNumber. cbn [bind ret completion_Monad].
    unfold Num.mul64. cbn [Num.mul Num.to64].
    do 2 f_equal. apply binary64_comp, Qred_correct.
  - intros props. reflexivity.
Qed.


(** *** Arrays *)

Lemma mapC_Normal {A B : Type} (f : A -> completion B) (l : list A) (ys : list B) :
  mapC f l = Normal ys <-> Forall2 (fun x y => f x = Normal y) l ys.
Proof.
  revert ys. induction l as [|x l IH]; intros ys; cbn [mapC bind ret completion_Monad].
  - split.
    + intros [= <-]. constructor.
    + intros Hall. inversion Hall. reflexivity.
  - destruct (f x) as [y|e] eqn:Hfx.
    + destruct (mapC f l) as [ys'|e] eqn:Hl.
      * split.
        -- intros [= <-]. constructor; [exact Hfx | apply IH; reflexivity].
        -- intros Hall. inversion Hall as [|? y' ? ys'' Hy Hrest]; subst.
           apply IH in Hrest. congruence.
      * split; [discriminate|].
        intros Hall. inversion Hall as [|? y' ? ys'' Hy Hrest]; subst.
        apply IH in Hrest. discriminate.
    + split; [discriminate|].
      intros Hall. inversion Hall as [|? y' ? ys'' Hy Hrest]; subst. congruence.
Qed.

Lemma mapC_all {A B : Type} (f : A -> completion B) (l : list A) :
  Forall (fun x => exists y, f x = Normal y) l <-> exists ys, mapC f l = Normal ys.
Proof.
  induction l as [|x l IH]; cbn [mapC bind ret completion_Monad].
  - split; [intros _; eexists; reflexivity | intros _; constructor].
  - split.
    + intros Hall. inversion Hall as [|? ? [y Hy] Hl]; subst.
      apply IH in Hl as [ys Hys]. rewrite Hy, Hys. eexists; reflexivity.
    + intros [ys Hys].
      destruct (f x) as [y|e] eqn:Hfx; [|discriminate].
      destruct (mapC f l) as [ys'|e] eqn:Hl; [|discriminate].
      constructor; [eexists; exact Hfx | apply IH; eexists; reflexivity].
Qed.

Lemma map_Normal f v out :
  JS.map f v = Normal out <->
  exists l ys, v = VArr l /\ out = VArr ys /\ Forall2 (fun x y => f x = Normal y) l ys.
Proof.
  destruct v; cbn [JS.map bind ret completion_Monad];
    try (split; [discriminate | intros (l & ys & [=] & _)]).
  destruct (mapC f elems) as [ys|e] eqn:E.
  - split.
    + intros [= <-]. exists elems, ys. repeat split. apply mapC_Normal. exact E.
    + intros (l & ys' & [= <-] & -> & Hall). apply mapC_Normal in Hall. congruence.
  - split; [discriminate|].
    intros (l & ys' & [= <-] & -> & Hall). apply mapC_Normal in Hall. congruence.
Qed.

Lemma bind_map_Normal {B : Type} f v (k : jsval -> completion B) r :
  (let* x := JS.map f v in k x) = Normal r ->
  exists l ys, v = VArr l /\ Forall2 (fun x y => f x = Normal y) l ys /\
               k (VArr ys) = Normal r.
Proof.
  destruct (JS.map f v) as [out|e] eqn:E; [|discriminate].
  cbn [bind completion_Monad]. intros Hr.
  apply map_Normal in E as (l & ys & -> & -> & Hall). eauto.
Qed.

Lemma Forall2_Forall_l {A B : Type} (P : A -> B -> Prop) (Q : A -> Prop) l ys :
  Forall2 P l ys -> (forall x y, P x y -> Q x) -> Forall Q l.
Proof. induction 1; intros HPQ; constructor; eauto. Qed.

(** *** The forecast *)

(** The parts of an entry of [list] that the normalizer reads properties
    of. *)
Definition forecast_parts (item : jsval) : list jsval :=
  [ item; child item "main"; child item "weather";
    element (child item "weather") 0 "0"; child item "wind"; child item "clouds" ].

(** An item that the normalizer can make an entry of: it has the parts
    read, and its [dt] can be converted to a primitive value. *)
Definition item_readable (item : jsval) : Prop :=
  Forall (fun part => nullish part = false) (forecast_parts item) /\
  JS.convertible (child item "dt") = true.

Lemma forecast_item_domain item :
  (exists entry, forecast_item item = Normal entry) <-> item_readable item.
Proof.
  unfold item_readable. split.
  - intros [entry Hrun]. unfold forecast_item in Hrun.
    read_all Hrun. unfold forecast_parts. split; [|assumption].
    repeat constructor; assumption.
  - unfold forecast_parts. intros [Hall Hdt].
    repeat match goal with
           | Hall : Forall _ (_ :: _) |- _ => inversion Hall; subst; clear Hall
           end.
    unfold forecast_item. read_on. eexists. reflexivity.
Qed.

Lemma forecast_item_fields item entry :
  forecast_item item = Normal entry ->
  JS.get entry "timestamp" = JS.times (child item "dt") (Fin 1000) /\
  JS.get entry "temperature" = Normal (child (child item "main") "temp") /\
  JS.get entry "pop" = Normal (child item "pop").
Proof.
  intros Hrun. unfold forecast_item in Hrun. read_all Hrun.
  cbn [ret completion_Monad] in Hrun. injection Hrun as <-.
  rewrite times_readable by assumption. repeat split.
Qed.

(** X7.  [normalizeForecastData] returns exactly when [data],
    [data.city] and [data.city.coord] have properties, [data.list] is an
    array and every item of it has the parts that an entry reads and a
    [dt] that can be converted to a primitive value; the forecast then
    has one entry per item, in order, with the timestamp [dt * 1000] as
    binary64 rounds it, [Infinity] where it overflows, the temperature
    [main.temp] and the [pop] of the item. *)
Theorem normalizeForecastData_entries :
  forall data : jsval,
    ((exists out, normalizeForecastData data = Normal out) <->
     nullish data = false /\ nullish (child data "city") = false /\
     nullish (child (child data "city") "coord") = false /\
     exists items,
       child data "list" = VArr items /\ Forall item_readable items) /\
    (forall out,
       normalizeForecastData data = Normal out ->
       exists items entries,
         child data "list" = VArr items /\
         JS.get out "forecast" = Normal (VArr entries) /\
         length entries = length items /\
         Forall2
           (fun item entry =>
              JS.get entry "timestamp" = JS.times (child item "dt") (Fin 1000) /\
              JS.get entry "temperature" = Normal (child (child item "main") "temp") /\
              JS.get entry "pop" = Normal (child item "pop"))
           items entries) /\
    JS.times (VNum (Fin (2 ^ 1020))) (Fin 1000) = Normal (VNum PosInf).
Proof.
  intros data. split; [split|split; [|vm_compute; reflexivity]].
  - intros [out Hrun]. unfold normalizeForecastData in Hrun. read_all Hrun.
    apply bind_map_Normal in Hrun as (items & entries & Hlist & Hall & _).
    repeat (split; [assumption|]). exists items. split; [exact Hlist|].
    eapply Forall2_Forall_l; [exact Hall|]. intros item entry Hitem. cbn beta in Hitem.
    apply forecast_item_domain. eexists; exact Hitem.
  - intros (Hdata & Hcity & Hcoord & items & Hlist & Hall).
    unfold normalizeForecastData. read_on. rewrite Hlist.
    assert (Hmap : exists ys, mapC forecast_item items = Normal ys).
    { apply mapC_all. eapply Forall_impl; [exact Hall|].
      intros item Hitem. apply forecast_item_domain. exact Hitem. }
    destruct Hmap as [ys Hys]. cbn [JS.map bind ret completion_Monad].
    rewrite Hys. eexists. reflexivity.
  - intros out Hrun. unfold normalizeForecastData in Hrun. read_all Hrun.
    apply bind_map_Normal in Hrun as (items & entries & Hlist & Hall & Hout).
    cbn [ret completion_Monad] in Hout. injection Hout as <-.
    exists items, entries. split; [exact Hlist|]. split; [reflexivity|].
    split; [symmetry; exact (Forall2_length _ _ _ Hall)|].
    eapply Forall2_impl; [exact Hall|]. intros item entry Hitem.
    apply forecast_item_fields. exact Hitem.
Qed.


(** *** Storms *)

(** A point that has properties and a [time] that can be converted to a
    primitive value. *)
Definition point_readable (p : jsval) : Prop :=
  nullish p = false /\ JS.convertible (child p "time") = true.

(** An array of such points. *)
Definition points_readable (v : jsval) : Prop :=
  exists points, v = VArr points /\ Forall point_readable points.

(** A storm that the normalizer can read: it has a [movement], and its
    [track] and its [forecast] are arrays of such points. *)
Definition storm_readable (storm : jsval) : Prop :=
  nullish storm = false /\ nullish (child storm "movement") = false /\
  points_readable (child storm "track") /\ points_readable (child storm "forecast").

Lemma track_point_domain with_category point :
  (exists o, track_point with_category point = Normal o) <-> point_readable point.
Proof.
  unfold point_readable. split.
  - intros [o Hrun]. unfold track_point in Hrun. read_all Hrun. split; assumption.
  - intros [Hp Htime]. unfold track_point. read_on.
    destruct with_category; read_on; eexists; reflexivity.
Qed.

Lemma track_point_fields with_category point o :
  track_point with_category point = Normal o ->
  JS.get o "timestamp" = Normal (VNum (Date_getTime (child point "time"))).
Proof.
  intros Hrun. unfold track_point in Hrun. read_all Hrun.
  destruct with_category; read_all Hrun;
    cbn [ret completion_Monad] in Hrun; injection Hrun as <-; reflexivity.
Qed.

Lemma points_map with_category v :
  (exists out, JS.map (track_point with_category) v = Normal out) <-> points_readable v.
Proof.
  split.
  - intros [out Hout]. apply map_Normal in Hout as (l & ys & -> & _ & Hall).
    exists l. split; [reflexivity|].
    eapply Forall2_Forall_l; [exact Hall|]. intros p o Hp. cbn beta in Hp.
    apply (track_point_domain with_category). eexists; exact Hp.
  - intros (points & -> & Hall).
    assert (Hmap : exists ys, mapC (track_point with_category) points = Normal ys).
    { apply mapC_all. eapply Forall_impl; [exact Hall|].
      intros p Hp. apply track_point_domain. exact Hp. }
    destruct Hmap as [ys Hys]. cbn [JS.map bind ret completion_Monad].
    rewrite Hys. eexists; reflexivity.
Qed.

Lemma normalize_storm_domain now storm :
  (exists o, normalize_storm now storm = Normal o) <-> storm_readable storm.
Proof.
  split.
  - intros [o Hrun]. unfold normalize_storm in Hrun. read_all Hrun.
    destruct (JS.map (track_point false) (child storm "track")) as [path|e] eqn:Etrack;
      [|discriminate].
    cbn [bind completion_Monad] in Hrun. read_all Hrun.
    destruct (JS.map (track_point true) (child storm "forecast")) as [fc|e] eqn:Efc;
      [|discriminate].
    repeat split; try assumption.
    + apply (points_map false). eexists; exact Etrack.
    + apply (points_map true). eexists; exact Efc.
  - intros (Hs & Hm & Htrack & Hfc).
    apply (points_map false) in Htrack as [path Hpath].
    apply (points_map true) in Hfc as [fc Hfc].
    unfold normalize_storm. read_on. rewrite Hpath. read_on. rewrite Hfc.
    eexists; reflexivity.
Qed.

Lemma normalize_storm_fields now storm o :
  normalize_storm now storm = Normal o ->
  JS.get o "type" = Normal (VStr "hurricane") /\
  JS.get o "id"
    = Normal (JS.or (child storm "id")
                    (VStr ("hurricane-" ++ Number_toString (Num.of_Z now)))) /\
  JS.get o "category"
    = Normal (JS.or (child storm "classification") (VStr "Unknown")) /\
  exists points path,
    child storm "track" = VArr points /\ JS.get o "path" = Normal (VArr path) /\
    length path = length points /\
    Forall2
      (fun point o =>
         JS.get o "timestamp" = Normal (VNum (Date_getTime (child point "time"))))
      points path.
Proof.
  intros Hrun. unfold normalize_storm in Hrun. read_all Hrun.
  apply bind_map_Normal in Hrun as (points & path & Htrack & Hall & Hrun).
  read_all Hrun.
  apply bind_map_Normal in Hrun as (points' & fc & Hfc & Hall' & Hrun).
  cbn [ret completion_Monad] in Hrun. injection Hrun as <-.
  split; [reflexivity|]. split; [reflexivity|]. split; [reflexivity|].
  exists points, path. split; [exact Htrack|]. split; [reflexivity|].
  split; [symmetry; exact (Forall2_length _ _ _ Hall)|].
  eapply Forall2_impl; [exact Hall|]. intros point o Ho.
  apply (track_point_fields false). exact Ho.
Qed.

(** X8.  With [activeStorms] an array: if every storm has properties, a
    [movement] and, for [track] and [forecast], arrays of points that
    have properties and a [time] that can be converted to a primitive
    value, then [normalizeHurricaneData] returns one record per storm, in
    order, of type hurricane, with the id and the classification of the
    storm or their defaults, and a path of one point per point of the
    track, each with the time that [Date] reads of the point's [time]; if
    some storm is not of that form the normalizer throws; and a point
    whose [time] is an object with a property [toString] is not of that
    form. *)
Theorem normalizeHurricaneData_storms :
  forall (now : Z) (data : jsval) (storms : list jsval),
    JS.get data "activeStorms" = Normal (VArr storms) ->
    (Forall storm_readable storms ->
     exists outs,
       normalizeHurricaneData now data = Normal (VArr outs) /\
       length outs = length storms /\
       Forall2
         (fun storm o =>
            JS.get o "type" = Normal (VStr "hurricane") /\
            JS.get o "id"
              = Normal (JS.or (child storm "id")
                              (VStr ("hurricane-" ++ Number_toString (Num.of_Z now)))) /\
            JS.get o "category"
              = Normal (JS.or (child storm "classification") (VStr "Unknown")) /\
            exists points path,
              child storm "track" = VArr points /\
              JS.get o "path" = Normal (VArr path) /\
              length path = length points /\
              Forall2
                (fun point o =>
                   JS.get o "timestamp"
                   = Normal (VNum (Date_getTime (child point "time"))))
                points path)
         storms outs) /\
    (~ Forall storm_readable storms ->
     exists e, normalizeHurricaneData now data = Throw e) /\
    (forall props rest,
       ~ point_readable
           (VObj (("time", VObj (("toString", VNum (Fin 1)) :: props)) :: rest))).
Proof.
  intros now data storms Hget.
  assert (Hrun : normalizeHurricaneData now data
                 = (let* outs := mapC (normalize_storm now) storms in ret (VArr outs))).
  { unfold normalizeHurricaneData. cbn [bind ret completion_Monad].
    rewrite Hget. reflexivity. }
  rewrite Hrun. split; [|split].
  - intros Hall.
    assert (Hmap : exists outs, mapC (normalize_storm now) storms = Normal outs).
    { apply mapC_all. eapply Forall_impl; [exact Hall|].
      intros storm Hstorm. apply normalize_storm_domain. exact Hstorm. }
    destruct Hmap as [outs Houts]. exists outs. rewrite Houts.
    split; [reflexivity|]. apply mapC_Normal in Houts.
    split; [symmetry; exact (Forall2_length _ _ _ Houts)|].
    eapply Forall2_impl; [exact Houts|]. intros storm o Ho.
    apply (normalize_storm_fields now). exact Ho.
  - intros Hbad.
    destruct (mapC (normalize_storm now) storms) as [outs|e] eqn:Hmap;
      [|eexists; reflexivity].
    exfalso. apply Hbad.
    assert (Hall : Forall (fun x => exists y, normalize_storm now x = Normal y) storms).
    { apply mapC_all. eexists; exact Hmap. }
    eapply Forall_impl; [exact Hall|]. intros storm Hstorm.
    apply normalize_storm_domain in Hstorm. exact Hstorm.
  - intros props rest [_ Htime]. discriminate Htime.
Qed.

(** *** Events *)

(** The [geometry] that [normalize_event] works with, from what
    [event.geometry] holds. *)
Definition first_geometry (g : jsval) : completion jsval :=
  if JS.truthy g then
    let* len := JS.get g "length" in
    bind (JS.greater len (Fin 0))
      (fun nonempty : bool => if nonempty then JS.index g 0 "0" else ret VNull)
  else ret VNull.

Lemma first_geometry_none g :
  JS.truthy g = false \/ g = VArr [] -> first_geometry g = Normal VNull.
Proof.
  unfold first_geometry. intros [Hg | ->]; [rewrite Hg|]; reflexivity.
Qed.

Lemma first_geometry_some g rest : first_geometry (VArr (g :: rest)) = Normal g.
Proof.
  unfold first_geometry. cbn [JS.truthy JS.get String.eqb Ascii.eqb Bool.eqb].
  cbn [bind completion_Monad].
  assert (Hlen : JS.greater (VNum (Num.of_Z (Z.of_nat (length (g :: rest))))) (Fin 0)
                 = Normal true).
  { unfold JS.greater, JS.toNumber, Num.of_Z, Num.gt. cbn [length].
    cbn [bind ret completion_Monad]. reflexivity. }
  rewrite Hlen. reflexivity.
Qed.

Lemma normalize_event_fields event out :
  normalize_event event = Normal out ->
  JS.get out "type" = Normal (VStr "natural_disaster") /\
  JS.get out "description" = Normal (JS.or (child event "description") (VStr "")) /\
  (JS.truthy (child event "geometry") = false \/ child event "geometry" = VArr [] ->
   JS.get out "location" = Normal VNull /\ JS.get out "timestamp" = Normal VNull) /\
  (forall g rest,
     child event "geometry" = VArr (g :: rest) -> JS.truthy g = true ->
     JS.get out "location"
       = Normal (VObj [ ("lat", element (child g "coordinates") 1 "1");
                        ("lon", element (child g "coordinates") 0 "0") ]) /\
     JS.get out "timestamp" = Normal (VNum (Date_getTime (child g "date")))).
Proof.
  intros Hrun. unfold normalize_event in Hrun.
  apply bind_get_Normal in Hrun as [Hevent Hrun].
  match type of Hrun with
  | bind ?c _ = _ => destruct c as [geometry|e] eqn:Egeo; [|discriminate]
  end.
  change (first_geometry (child event "geometry") = Normal geometry) in Egeo.
  read_all Hrun.
  destruct (JS.truthy geometry) eqn:Htruthy.
  - read_all Hrun.
    apply bind_map_Normal in Hrun as (l & ys & Hsources & Hall & Hrun).
    cbn [ret completion_Monad] in Hrun. injection Hrun as <-.
    split; [reflexivity|]. split; [reflexivity|]. split.
    + intros Hnone. rewrite (first_geometry_none _ Hnone) in Egeo.
      injection Egeo as <-. discriminate Htruthy.
    + intros g rest Hsome _. rewrite Hsome, first_geometry_some in Egeo.
      injection Egeo as <-. split; reflexivity.
  - read_all Hrun.
    apply bind_map_Normal in Hrun as (l & ys & Hsources & Hall & Hrun).
    cbn [ret completion_Monad] in Hrun. injection Hrun as <-.
    split; [reflexivity|]. split; [reflexivity|]. split.
    + intros _. split; reflexivity.
    + intros g rest Hsome Hg. rewrite Hsome, first_geometry_some in Egeo.
      injection Egeo as <-. congruence.
Qed.

(** X9.  With [events] an array on which [normalizeDisasterData]
    returns: it returns one record per event, in order, of type
    natural_disaster; the location and the timestamp of a record are
    [null] when the event has no geometry or an empty one, and are read
    off the first geometry (latitude from [coordinates[1]], longitude from
    [coordinates[0]], time from [date]) when that one is truthy. *)
Theorem normalizeDisasterData_events :
  forall (data : jsval) (events : list jsval) (out : jsval),
    JS.get data "events" = Normal (VArr events) ->
    normalizeDisasterData data = Normal out ->
    exists outs,
      out = VArr outs /\ length outs = length events /\
      Forall2
        (fun event o =>
           JS.get o "type" = Normal (VStr "natural_disaster") /\
           JS.get o "description"
             = Normal (JS.or (child event "description") (VStr "")) /\
           (JS.truthy (child event "geometry") = false \/
            child event "geometry" = VArr [] ->
            JS.get o "location" = Normal VNull /\
            JS.get o "timestamp" = Normal VNull) /\
           (forall g rest,
              child event "geometry" = VArr (g :: rest) -> JS.truthy g = true ->
              JS.get o "location"
                = Normal (VObj [ ("lat", element (child g "coordinates") 1 "1");
                                 ("lon", element (child g "coordinates") 0 "0") ]) /\
              JS.get o "timestamp" = Normal (VNum (Date_getTime (child g "date")))))
        events outs.
Proof.
  intros data events out Hget Hrun.
  unfold normalizeDisasterData in Hrun. cbn [bind ret completion_Monad] in Hrun.
  rewrite Hget in Hrun. cbn [JS.truthy JS.isArray negb orb] in Hrun.
  apply map_Normal in Hrun as (l & outs & [= <-] & -> & Hall).
  exists outs. split; [reflexivity|].
  split; [symmetry; exact (Forall2_length _ _ _ Hall)|].
  eapply Forall2_impl; [exact Hall|]. intros event o Ho.
  apply normalize_event_fields. exact Ho.
Qed.

End Readable.

(** ** Tile metadata on the server *)

Section TileMetadata.
Import WeatherService.
Context `{TileHost}.

(** The layer types and the zoom categories that the two tables list. *)
Definition known_layer (layerType : string) : bool :=
  existsb (String.eqb layerType) ["temperature"; "precipitation"; "wind"; "cloud"].

Definition known_zoom (zoomCategory : string) : bool :=
  existsb (String.eqb zoomCategory) ["GLOBAL"; "REGIONAL"; "LOCAL"].

Lemma known_layer_configs key layerType :
  known_layer layerType = true ->
  exists product code,
    layerConfigs key layerType = Some (zoom_configs key product code).
Proof.
  unfold known_layer, layerConfigs. cbn [existsb].
  destruct (String.eqb layerType "temperature"); [eexists _, _; reflexivity|].
  destruct (String.eqb layerType "precipitation"); [eexists _, _; reflexivity|].
  destruct (String.eqb layerType "wind"); [eexists _, _; reflexivity|].
  destruct (String.eqb layerType "cloud"); [eexists _, _; reflexivity|].
  discriminate.
Qed.

Lemma unknown_layer_configs key layerType :
  known_layer layerType = false -> layerConfigs key layerType = None.
Proof.
  unfold known_layer, layerConfigs. cbn [existsb].
  destruct (String.eqb layerType "temperature"); [discriminate|].
  destruct (String.eqb layerType "precipitation"); [discriminate|].
  destruct (String.eqb layerType "wind"); [discriminate|].
  destruct (String.eqb layerType "cloud"); [discriminate|].
  reflexivity.
Qed.

Lemma known_zoom_configs key product code zoomCategory :
  known_zoom zoomCategory = true ->
  exists c r, zoom_configs key product code zoomCategory = Some c /\
              resolutions zoomCategory = Some r.
Proof.
  unfold known_zoom, zoom_configs, resolutions. cbn [existsb].
  destruct (String.eqb zoomCategory "GLOBAL"); [eexists _, _; split; reflexivity|].
  destruct (String.eqb zoomCategory "REGIONAL"); [eexists _, _; split; reflexivity|].
  destruct (String.eqb zoomCategory "LOCAL"); [eexists _, _; split; reflexivity|].
  discriminate.
Qed.

Lemma unknown_zoom_configs key product code zoomCategory :
  known_zoom zoomCategory = false ->
  zoom_configs key product code zoomCategory = None /\ resolutions zoomCategory = None.
Proof.
  unfold known_zoom, zoom_configs, resolutions. cbn [existsb].
  destruct (String.eqb zoomCategory "GLOBAL"); [discriminate|].
  destruct (String.eqb zoomCategory "REGIONAL"); [discriminate|].
  destruct (String.eqb zoomCategory "LOCAL"); [discriminate|].
  split; reflexivity.
Qed.

(** No name of the tables is a property of [Object.prototype]. *)
Lemma known_zoom_own zoomCategory :
  known_zoom zoomCategory = true -> inherited zoomCategory = false.
Proof.
  unfold known_zoom. cbn [existsb]. rewrite !orb_true_iff.
  intros [E | [E | [E | E]]]; try discriminate E;
    apply String.eqb_eq in E; subst; reflexivity.
Qed.

(** Whether the check [!config || !resolution] lets a request through. *)
Definition passes (key layerType zoomCategory : string) : bool :=
  (defined (config_of key layerType zoomCategory)
   && defined (literal_get resolutions zoomCategory))%bool.

(** The requests that pass are those for a layer type and a zoom category
    of the tables and, through the prototype chain, those whose zoom
    category names a property of [Object.prototype] and whose layer type
    is one of the table or names such a property too, both being
    [__proto__] excepted. *)
Lemma passes_iff key layerType zoomCategory :
  passes key layerType zoomCategory = true <->
  (known_layer layerType = true /\ known_zoom zoomCategory = true) \/
  (inherited zoomCategory = true /\
   (known_layer layerType = true \/ inherited layerType = true) /\
   ~ (layerType = "__proto__" /\ zoomCategory = "__proto__")).
Proof.
  unfold passes, config_of, literal_get.
  destruct (known_layer layerType) eqn:Hlayer.
  - destruct (known_layer_configs key layerType Hlayer) as (product & code & ->).
    destruct (known_zoom zoomCategory) eqn:Hzoom.
    + destruct (known_zoom_configs key product code zoomCategory Hzoom)
        as (c & r & -> & ->).
      cbn. split; [intros _; left; split; reflexivity | reflexivity].
    + destruct (unknown_zoom_configs key product code zoomCategory Hzoom) as [-> ->].
      destruct (inherited zoomCategory) eqn:Hin; cbn.
      * split; [intros _|reflexivity]. right. split; [reflexivity|].
        split; [left; reflexivity|]. intros [-> _]. discriminate Hlayer.
      * split; [discriminate|]. intros [[_ E] | [E _]]; discriminate E.
  - rewrite (unknown_layer_configs key layerType Hlayer).
    destruct (inherited layerType) eqn:Hlt; cbn [defined andb].
    + unfold builtin_get.
      destruct (inherited zoomCategory) eqn:Hin.
      * assert (Hres : resolutions zoomCategory = None).
        { destruct (known_zoom zoomCategory) eqn:Hzoom.
          - apply known_zoom_own in Hzoom. congruence.
          - exact (proj2 (unknown_zoom_configs key "" "" zoomCategory Hzoom)). }
        rewrite Hres.
        destruct (String.eqb layerType "__proto__" && String.eqb zoomCategory "__proto__")%bool
          eqn:Hboth; cbn.
        -- apply andb_true_iff in Hboth as [E1 E2].
           apply String.eqb_eq in E1, E2.
           split; [discriminate|].
           intros [[E _] | (_ & _ & Hn)]; [discriminate E | exfalso; apply Hn; split; assumption].
        -- split; [intros _|reflexivity]. right. split; [reflexivity|].
           split; [right; reflexivity|]. intros [E1 E2].
           subst. discriminate Hboth.
      * cbn. split; [discriminate|].
        intros [[E _] | [E _]]; discriminate E.
    + cbn. split; [discriminate|].
      intros [[E _] | (_ & [E | E] & _)]; discriminate E.
Qed.


(** The metadata that a request that passes is answered with. *)
Definition metadata_of (key layerType zoomCategory : string)
  (bounds : option TileBounds) (now : Z) : jsval :=
  let config := config_of key layerType zoomCategory in
  let res := literal_get resolutions zoomCategory in
  VObj
    [ ("url", field (fun c => VStr (url c)) config);
      ("tileSize", field (fun r => VNum (Num.of_Z (tileSize r))) res);
      ("minZoom", field (fun r => VNum (Num.of_Z (minZoom r))) res);
      ("maxZoom", field (fun r => VNum (Num.of_Z (maxZoom r))) res);
      ("resolution", field (fun r => VStr (resolution r)) res);
      ("attribution", field (fun c => VStr (attribution c)) config);
      ("tileCoverage",
        match bounds with
        | Some b =>
            coverage_value
              (calculateTileCoverage b
                 (Num.floor
                    (Num.div (Num.add (number_field minZoom res) (number_field maxZoom res))
                             (Fin 2))))
        | None => VNull
        end);
      ("timestamp", VNum (Num.of_Z now)) ].

Lemma given_Some s : s <> "" -> given (Some s) = true.
Proof.
  intros Hs. cbn. apply negb_true_iff. apply String.eqb_neq. exact Hs.
Qed.

(** A request with both parameters, on a miss of the cache. *)
Lemma getWeatherTileMetadata_miss layerType zoomCategory bounds now st :
  layerType <> "" -> zoomCategory <> "" ->
  cache_miss (tiles_cacheKey layerType zoomCategory bounds) now st ->
  getWeatherTileMetadata (Some layerType) (Some zoomCategory) bounds now st
  = let cacheKey := tiles_cacheKey layerType zoomCategory bounds in
    let st1 := after_miss cacheKey now st in
    if passes (openWeatherMapKey st) layerType zoomCategory
    then
      let metadata :=
        metadata_of (openWeatherMapKey st) layerType zoomCategory bounds now in
      (Normal metadata,
       set_cache (<[cacheKey := {| value := metadata; expires := now + 600 * 1000 |}]>) st1)
    else
      (Throw (Error ("Failed to generate tile metadata for " ++ layerType)), st1).
Proof.
  intros Hl Hz Hmiss.
  destruct (cache_get_miss _ _ _ Hmiss) as (v & Hget & Hv).
  unfold getWeatherTileMetadata. rewrite !given_Some by assumption.
  cbn [negb orb JS.template]. cbn [bind M_Monad]. rewrite Hget, Hv.
  unfold try_catch, gets, cache_set_ttl, modify, throw. cbn [bind ret M_Monad].
  rewrite after_miss_key. unfold passes.
  destruct (defined (config_of (openWeatherMapKey st) layerType zoomCategory));
    [|reflexivity].
  destruct (defined (literal_get resolutions zoomCategory)); reflexivity.
Qed.

(** A request that finds a live entry is answered with it. *)
Lemma getWeatherTileMetadata_hit layerType zoomCategory bounds now st e :
  layerType <> "" -> zoomCategory <> "" ->
  weatherCache st !! tiles_cacheKey layerType zoomCategory bounds = Some e ->
  now <= expires e ->
  JS.truthy (value e) = true ->
  getWeatherTileMetadata (Some layerType) (Some zoomCategory) bounds now st
  = (Normal (value e), st).
Proof.
  intros Hl Hz Hlook Hfresh Htruthy.
  unfold getWeatherTileMetadata. rewrite !given_Some by assumption.
  cbn [negb orb JS.template]. unfold cache_get. cbn [bind M_Monad]. rewrite Hlook.
  assert (Hexp : (expires e <? now)%Z = false) by (apply Z.ltb_ge; exact Hfresh).
  rewrite Hexp, Htruthy. reflexivity.
Qed.

(** The requests that the check lets through. *)
Definition accepted (layerType zoomCategory : string) : Prop :=
  (known_layer layerType = true /\ known_zoom zoomCategory = true) \/
  (inherited zoomCategory = true /\
   (known_layer layerType = true \/ inherited layerType = true) /\
   ~ (layerType = "__proto__" /\ zoomCategory = "__proto__")).

(** X10.  [getWeatherTileMetadata] throws the error of the missing
    parameters, touching nothing, when the layer type or the zoom category
    is absent or empty; and a request that misses the cache and that the
    check on the two tables does not accept is rejected with the message
    [Failed to generate tile metadata for <layer>], without an upstream
    request and without an entry in the cache. *)
Theorem getWeatherTileMetadata_errors :
  forall (layerType zoomCategory : option string) (bounds : option TileBounds)
         (now : Z) (st : State),
    (given layerType = false \/ given zoomCategory = false ->
     getWeatherTileMetadata layerType zoomCategory bounds now st
     = (Throw (Error "Layer type and zoom category are required"), st)) /\
    (forall layer zoom : string,
       layerType = Some layer -> zoomCategory = Some zoom ->
       layer <> "" -> zoom <> "" ->
       cache_miss (tiles_cacheKey layer zoom bounds) now st ->
       ~ accepted layer zoom ->
       exists st',
         getWeatherTileMetadata layerType zoomCategory bounds now st
         = (Throw (Error ("Failed to generate tile metadata for " ++ layer)), st') /\
         requests st' = requests st /\
         forall later, cache_miss (tiles_cacheKey layer zoom bounds) later st').
Proof.
  intros layerType zoomCategory bounds now st. split.
  - intros Hmissing. unfold getWeatherTileMetadata.
    destruct Hmissing as [-> | ->]; [|rewrite orb_true_r]; reflexivity.
  - intros layer zoom -> -> Hl Hz Hmiss Hno.
    rewrite (getWeatherTileMetadata_miss layer zoom bounds now st Hl Hz Hmiss).
    cbn zeta.
    destruct (passes (openWeatherMapKey st) layer zoom) eqn:Hpass.
    + exfalso. apply Hno. apply (passes_iff (openWeatherMapKey st)). exact Hpass.
    + eexists. split; [reflexivity|]. split; [apply after_miss_requests|].
      intros later. apply after_miss_still. exact Hmiss.
Qed.


Lemma known_layer_given layerType : known_layer layerType = true -> layerType <> "".
Proof. intros Hk ->. discriminate Hk. Qed.

Lemma known_zoom_given zoomCategory : known_zoom zoomCategory = true -> zoomCategory <> "".
Proof. intros Hk ->. discriminate Hk. Qed.

Lemma inherited_given k : inherited k = true -> k <> "".
Proof. intros Hk ->. discriminate Hk. Qed.

(** The middle of the range of zoom levels of a category, rounded down. *)
Definition midZoom (r : Resolution) : jsnum :=
  Num.floor (Num.div (Num.add (Num.of_Z (minZoom r)) (Num.of_Z (maxZoom r))) (Fin 2)).

(** X11.  A request for one of the four tile layers at one of the three
    zoom categories that misses the cache is answered from the two tables
    alone: the url and the attribution of the layer at that category, a
    tile size of 256, the range of zoom levels and the resolution of the
    category, the coverage of the bounds at the middle of that range (or
    [null] without bounds) and the instant of the call.  No upstream
    request is made; the answer is stored for 600 seconds, during which
    the same request returns it unchanged, and after which it is
    generated anew. *)
Theorem getWeatherTileMetadata_generated :
  forall (layerType zoomCategory : string) (bounds : option TileBounds)
         (now : Z) (st : State),
    known_layer layerType = true ->
    known_zoom zoomCategory = true ->
    cache_miss (tiles_cacheKey layerType zoomCategory bounds) now st ->
    exists (metadata : jsval) (st1 : State) (c : LayerConfig) (r : Resolution),
      getWeatherTileMetadata (Some layerType) (Some zoomCategory) bounds now st
      = (Normal metadata, st1) /\
      config_of (openWeatherMapKey st) layerType zoomCategory = Own c /\
      resolutions zoomCategory = Some r /\
      metadata
      = VObj [ ("url", VStr (url c));
               ("tileSize", VNum (Fin 256));
               ("minZoom", VNum (Num.of_Z (minZoom r)));
               ("maxZoom", VNum (Num.of_Z (maxZoom r)));
               ("resolution", VStr (resolution r));
               ("attribution", VStr attribution_text);
               ("tileCoverage",
                 match bounds with
                 | Some b => coverage_value (calculateTileCoverage b (midZoom r))
                 | None => VNull
                 end);
               ("timestamp", VNum (Num.of_Z now)) ] /\
      requests st1 = requests st /\
      weatherCache st1 !! tiles_cacheKey layerType zoomCategory bounds
        = Some {| value := metadata; expires := now + 600 * 1000 |} /\
      (forall now2,
         now2 <= now + 600 * 1000 ->
         getWeatherTileMetadata (Some layerType) (Some zoomCategory) bounds now2 st1
         = (Normal metadata, st1)) /\
      (forall now2,
         now + 600 * 1000 < now2 ->
         exists metadata2 st2,
           getWeatherTileMetadata (Some layerType) (Some zoomCategory) bounds now2 st1
           = (Normal metadata2, st2) /\
           JS.get metadata2 "timestamp" = Normal (VNum (Num.of_Z now2)) /\
           requests st2 = requests st).
Proof.
  intros layerType zoomCategory bounds now st Hlayer Hzoom Hmiss.
  pose proof (known_layer_given _ Hlayer) as Hl.
  pose proof (known_zoom_given _ Hzoom) as Hz.
  assert (Hpass : forall key, passes key layerType zoomCategory = true).
  { intros key. apply passes_iff. left. split; assumption. }
  destruct (known_layer_configs (openWeatherMapKey st) layerType Hlayer)
    as (product & code & Hconfigs).
  destruct (known_zoom_configs (openWeatherMapKey st) product code zoomCategory Hzoom)
    as (c & r & Hc & Hr).
  assert (Hconfig : config_of (openWeatherMapKey st) layerType zoomCategory = Own c).
  { unfold config_of, literal_get. rewrite Hconfigs, Hc. reflexivity. }
  assert (Hsize : tileSize r = 256 /\ attribution c = attribution_text).
  { unfold known_zoom, zoom_configs, resolutions in *. cbn [existsb] in Hzoom.
    destruct (String.eqb zoomCategory "GLOBAL");
      [injection Hc as <-; injection Hr as <-; split; reflexivity|].
    destruct (String.eqb zoomCategory "REGIONAL");
      [injection Hc as <-; injection Hr as <-; split; reflexivity|].
    destruct (String.eqb zoomCategory "LOCAL");
      [injection Hc as <-; injection Hr as <-; split; reflexivity|].
    discriminate. }
  destruct Hsize as [Hsize Hattr].
  set (key := tiles_cacheKey layerType zoomCategory bounds) in *.
  set (metadata := metadata_of (openWeatherMapKey st) layerType zoomCategory bounds now).
  set (st1 := set_cache (<[key := {| value := metadata; expires := now + 600 * 1000 |}]>)
                (after_miss key now st)).
  assert (Hstored : weatherCache st1 !! key
                    = Some {| value := metadata; expires := now + 600 * 1000 |}).
  { subst st1. cbn [set_cache weatherCache]. apply lookup_insert_eq. }
  exists metadata, st1, c, r.
  split.
  { rewrite (getWeatherTileMetadata_miss layerType zoomCategory bounds now st Hl Hz Hmiss).
    cbn zeta. rewrite Hpass. reflexivity. }
  split; [exact Hconfig|]. split; [exact Hr|].
  split.
  { subst metadata. unfold metadata_of, literal_get, midZoom. rewrite Hconfig, Hr.
    cbn [field number_field]. rewrite Hsize, Hattr. reflexivity. }
  split; [subst st1; cbn [set_cache requests]; apply after_miss_requests|].
  split; [exact Hstored|].
  split.
  - intros now2 Hwindow.
    rewrite (getWeatherTileMetadata_hit layerType zoomCategory bounds now2 st1 _
               Hl Hz Hstored Hwindow); reflexivity.
  - intros now2 Hold.
    assert (Hmiss2 : cache_miss key now2 st1).
    { unfold cache_miss. rewrite Hstored. left. exact Hold. }
    rewrite (getWeatherTileMetadata_miss layerType zoomCategory bounds now2 st1
               Hl Hz Hmiss2).
    cbn zeta. rewrite Hpass. eexists _, _. split; [reflexivity|].
    split; [reflexivity|].
    cbn [set_cache requests]. rewrite after_miss_requests.
    subst st1. cbn [set_cache requests]. apply after_miss_requests.
Qed.

(** X12.  The check on the two tables reads them through the prototype
    chain: a zoom category that is the name of a property every object
    inherits ([constructor], [toString], ...) passes it, for a layer type
    of the tables or one that is such a name too (both being [__proto__]
    apart).  The metadata returned then has no url, tile size, zoom range,
    resolution or attribution, all [undefined], and is stored in the
    cache like any other. *)
Theorem getWeatherTileMetadata_inherited_names :
  forall (layerType zoomCategory : string) (bounds : option TileBounds)
         (now : Z) (st : State),
    inherited zoomCategory = true ->
    known_layer layerType = true \/ inherited layerType = true ->
    ~ (layerType = "__proto__" /\ zoomCategory = "__proto__") ->
    cache_miss (tiles_cacheKey layerType zoomCategory bounds) now st ->
    exists (metadata : jsval) (st1 : State),
      getWeatherTileMetadata (Some layerType) (Some zoomCategory) bounds now st
      = (Normal metadata, st1) /\
      JS.get metadata "url" = Normal VUndef /\
      JS.get metadata "tileSize" = Normal VUndef /\
      JS.get metadata "minZoom" = Normal VUndef /\
      JS.get metadata "maxZoom" = Normal VUndef /\
      JS.get metadata "resolution" = Normal VUndef /\
      JS.get metadata "attribution" = Normal VUndef /\
      JS.get metadata "timestamp" = Normal (VNum (Num.of_Z now)) /\
      weatherCache st1 !! tiles_cacheKey layerType zoomCategory bounds
        = Some {| value := metadata; expires := now + 600 * 1000 |}.
Proof.
  intros layerType zoomCategory bounds now st Hzoom Hlayer Hnot Hmiss.
  pose proof (inherited_given _ Hzoom) as Hz.
  assert (Hl : layerType <> "").
  { destruct Hlayer as [Hk | Hi];
      [exact (known_layer_given _ Hk) | exact (inherited_given _ Hi)]. }
  assert (Hpass : passes (openWeatherMapKey st) layerType zoomCategory = true).
  { apply passes_iff. right. repeat split; assumption. }
  assert (Hres : literal_get resolutions zoomCategory = Builtin zoomCategory).
  { unfold literal_get.
    destruct (known_zoom zoomCategory) eqn:Hknown.
    - apply known_zoom_own in Hknown. congruence.
    - rewrite (proj2 (unknown_zoom_configs "" "" "" zoomCategory Hknown)), Hzoom.
      reflexivity. }
  assert (Hconfig : exists name,
            config_of (openWeatherMapKey st) layerType zoomCategory = Builtin name).
  { unfold passes in Hpass. apply andb_true_iff in Hpass as [Hdef _].
    unfold config_of, literal_get, builtin_get in *.
    destruct (layerConfigs (openWeatherMapKey st) layerType) as [configs|] eqn:Hconfigs.
    - destruct (known_layer layerType) eqn:Hknown.
      + destruct (known_layer_configs (openWeatherMapKey st) layerType Hknown)
          as (product & code & Heq).
        rewrite Heq in Hconfigs. injection Hconfigs as <-.
        destruct (known_zoom zoomCategory) eqn:Hkz.
        * apply known_zoom_own in Hkz. congruence.
        * rewrite (proj1 (unknown_zoom_configs _ product code zoomCategory Hkz)), Hzoom.
          eexists; reflexivity.
      + rewrite (unknown_layer_configs _ _ Hknown) in Hconfigs. discriminate.
    - destruct (inherited layerType); [|discriminate Hdef].
      rewrite Hzoom in *.
      destruct (String.eqb layerType "__proto__" && String.eqb zoomCategory "__proto__")%bool;
        [discriminate Hdef | eexists; reflexivity]. }
  destruct Hconfig as [name Hconfig].
  eexists _, _.
  rewrite (getWeatherTileMetadata_miss layerType zoomCategory bounds now st Hl Hz Hmiss).
  cbn zeta. rewrite Hpass.
  split; [reflexivity|].
  unfold metadata_of. rewrite Hconfig, Hres. cbn [field].
  repeat (split; [reflexivity|]).
  cbn [set_cache weatherCache]. apply lookup_insert_eq.
Qed.

End TileMetadata.

(** ** The tiles under a viewport *)

Section Coverage.
Import WeatherService.
Context `{TileHost}.

Lemma pow2_integer (z : Z) :
  0 <= z <= 1023 -> pow2 (Fin (inject_Z z)) = Fin (inject_Z (2 ^ z)).
Proof.
  intros Hz. unfold pow2, Num.is_integer. rewrite Qfloor_Z.
  assert (E : Qeq_bool (inject_Z z) (inject_Z z) = true) by (apply Qeq_bool_iff; reflexivity).
  rewrite E. rewrite (binary64_comp _ _ (two_Z z ltac:(lia))).
  apply binary64_two. exact Hz.
Qed.

Lemma power_positive (z : Z) : 0 <= z -> (0 < inject_Z (2 ^ z))%Q.
Proof.
  intros Hz. change 0%Q with (inject_Z 0). rewrite <- Zlt_Qlt.
  apply Z.pow_pos_nonneg; lia.
Qed.

(** The column grows with the longitude. *)
Lemma tile_column_mono (a b : jsnum) (n : Q) :
  (0 < n)%Q -> Num.le a b = true ->
  Num.le (tile_column a (Fin n)) (tile_column b (Fin n)) = true.
Proof.
  intros Hn Hab. unfold tile_column.
  apply floor_mono, mul64_mono; [exact Hn|].
  apply div64_mono; [reflexivity|]. apply add64_mono. exact Hab.
Qed.

(** The columns at the two ends of the world. *)
Lemma tile_column_west (n : Q) : tile_column (Fin (-180)) (Fin n) = Fin 0.
Proof.
  unfold tile_column.
  replace (Num.div64 (Num.add64 (Fin (-180)) (Fin 180)) (Fin 360)) with (Fin 0)
    by (vm_compute; reflexivity).
  unfold Num.mul64. cbn [Num.mul Num.to64].
  assert (E : (Qred (0 * n) == 0)%Q) by (rewrite Qred_correct; ring).
  rewrite (binary64_comp _ _ E). reflexivity.
Qed.

Lemma tile_column_east (z : Z) :
  0 <= z <= 1023 ->
  tile_column (Fin 180) (Fin (inject_Z (2 ^ z))) = Fin (inject_Z (2 ^ z)).
Proof.
  intros Hz. unfold tile_column.
  replace (Num.div64 (Num.add64 (Fin 180) (Fin 180)) (Fin 360)) with (Fin 1)
    by (vm_compute; reflexivity).
  unfold Num.mul64. cbn [Num.mul Num.to64].
  assert (E : (Qred (1 * inject_Z (2 ^ z)) == inject_Z (2 ^ z))%Q)
    by (rewrite Qred_correct; ring).
  rewrite (binary64_comp _ _ E), (binary64_two z Hz). cbn [Num.floor].
  rewrite Qfloor_Z. reflexivity.
Qed.

(** The longitude 179.99999999999997, the binary64 number before 180. *)
Definition before_180 : Q := 6333186975989759 # 35184372088832.

(** X13.  The columns of [calculateTileCoverage] at an integer zoom
    level [z] from 0 to 1023, each operation rounded to binary64 as the
    code computes it: [minX] and [maxX] are [tile_column] of the west and
    of the east out of [2^z]; the column never decreases when the
    longitude grows; it is not negative from -180 on, where it is 0; it
    is at most [2^z] up to 180, where it is exactly [2^z], one past the
    last column; so the whole world is counted as [2^z + 1] columns, up
    to the zoom level 52; and [2^z] is reached below 180 too: at the zoom
    level 3 the longitude 179.99999999999997 is in the column 8. *)
Theorem calculateTileCoverage_columns :
  forall (bounds : TileBounds) (z : Z) (w e : Q),
    0 <= z <= 1023 ->
    west bounds = Fin w ->
    east bounds = Fin e ->
    let n := Fin (inject_Z (2 ^ z)) in
    let coverage := calculateTileCoverage bounds (Fin (inject_Z z)) in
    minX coverage = tile_column (Fin w) n /\
    maxX coverage = tile_column (Fin e) n /\
    ((w <= e)%Q -> Num.le (minX coverage) (maxX coverage) = true) /\
    ((-180 <= w)%Q -> Num.le (Fin 0) (minX coverage) = true) /\
    ((w == -180)%Q -> minX coverage = Fin 0) /\
    ((e <= 180)%Q -> Num.le (maxX coverage) n = true) /\
    ((e == 180)%Q -> maxX coverage = n) /\
    ((w == -180)%Q -> (e == 180)%Q -> z <= 52 ->
     Num.add64 (Num.sub64 (maxX coverage) (minX coverage)) (Fin 1)
     = Fin (inject_Z (2 ^ z + 1))) /\
    JS.parseFloat "179.99999999999997" = Fin before_180 /\
    (before_180 < 180)%Q /\
    tile_column (Fin before_180) (Fin (inject_Z (2 ^ 3))) = Fin 8.
Proof.
  intros bounds z w e Hz Hw He n coverage.
  pose proof (power_positive z ltac:(lia)) as Hn.
  assert (Hmin : minX coverage = tile_column (Fin w) n).
  { subst coverage. unfold calculateTileCoverage. cbn [minX].
    rewrite Hw, (pow2_integer z Hz). reflexivity. }
  assert (Hmax : maxX coverage = tile_column (Fin e) n).
  { subst coverage. unfold calculateTileCoverage. cbn [maxX].
    rewrite He, (pow2_integer z Hz). reflexivity. }
  assert (Eq_column : forall x y : Q, (x == y)%Q -> tile_column (Fin x) n = tile_column (Fin y) n).
  { intros x y E. unfold tile_column, Num.add64. cbn [Num.add Num.to64].
    assert (E' : (Qred (x + 180) == Qred (y + 180))%Q)
      by (rewrite !Qred_correct, E; reflexivity).
    rewrite (binary64_comp _ _ E'). reflexivity. }
  rewrite Hmin, Hmax.
  split; [reflexivity|]. split; [reflexivity|].
  split.
  { intros Hle. apply tile_column_mono; [exact Hn|]. apply Num_le_Fin. exact Hle. }
  split.
  { intros Hlo. rewrite <- (tile_column_west (inject_Z (2 ^ z))).
    apply tile_column_mono; [exact Hn|]. apply Num_le_Fin. exact Hlo. }
  split.
  { intros Hwest. rewrite (Eq_column _ _ Hwest). apply tile_column_west. }
  split.
  { intros Hhi. subst n. rewrite <- (tile_column_east z Hz) at 2.
    apply tile_column_mono; [exact Hn|]. apply Num_le_Fin. exact Hhi. }
  split.
  { intros Heast. rewrite (Eq_column _ _ Heast). apply tile_column_east. exact Hz. }
  split.
  { intros Hwest Heast Hzoom.
    rewrite (Eq_column _ _ Hwest), (Eq_column _ _ Heast).
    subst n. rewrite tile_column_west, (tile_column_east z Hz).
    assert (Hpow : 0 < 2 ^ z <= 2 ^ 52).
    { split; [apply Z.pow_pos_nonneg; lia | apply Z.pow_le_mono_r; lia]. }
    unfold Num.sub64, Num.sub. cbn [Num.neg Num.add Num.to64].
    assert (E1 : (Qred (inject_Z (2 ^ z) + Qred (- 0)) == inject_Z (2 ^ z))%Q)
      by (rewrite !Qred_correct; ring).
    rewrite (binary64_comp _ _ E1), (binary64_two z Hz).
    unfold Num.add64. cbn [Num.add Num.to64].
    assert (E2 : (Qred (inject_Z (2 ^ z) + 1) == inject_Z (2 ^ z + 1))%Q)
      by (rewrite Qred_correct, inject_Z_plus; reflexivity).
    rewrite (binary64_comp _ _ E2). apply binary64_Z.
    change (2 ^ 53) with (2 * 2 ^ 52). lia. }
  repeat split; vm_compute; reflexivity.
Qed.

End Coverage.

(** ** Tile metadata on the client *)

Section ClientMetadata.
Import WeatherInterface.

(** The cache has nothing to answer a request with: no entry under the
    key, or one that is falsy. *)
Definition uncached (layerId cacheKey : string) (s : TileStore) : Prop :=
  match store s !! layerId ≫= (fun entries => entries !! cacheKey) with
  | Some c => JS.truthy (cache_value c) = false
  | None => True
  end.

(** The ways in which asking the server fails: no answer, an answer that
    is not [ok], a body that is not JSON. *)
Definition unanswered (resp : FetchResult) : Prop :=
  match resp with
  | FetchError _ => True
  | FetchResponse ok _ body => ok = false \/ exists e, body = Throw e
  end.

Definition logged (msgs : list string) (s : TileStore) : TileStore :=
  {| store := store s; requested := requested s; messages := messages s ++ msgs |}.

Lemma getTileMetadata_unanswered layerId zoomCategory bounds now resp s :
  uncached layerId (metadata_cacheKey layerId zoomCategory bounds) s ->
  unanswered resp ->
  exists s',
    getTileMetadata layerId zoomCategory bounds now resp s
    = (Normal (fallback_metadata layerId zoomCategory now), s') /\
    store s' = store s /\
    requested s' = requested s ++ [(layerId, zoomCategory, bounds)].
Proof.
  intros Hmiss Hfail. unfold uncached in Hmiss.
  unfold getTileMetadata, try_catch, store_log, modify, gets.
  cbn [bind ret M_Monad store].
  destruct (store s !! layerId ≫= _) as [c|] eqn:Hc.
  - rewrite Hmiss.
    unfold fetch_metadata, store_fetch, store_set, store_log, modify, throw, lift.
    cbn [bind ret M_Monad].
    destruct resp as [e | ok status body]; [eexists; repeat split|].
    destruct Hfail as [-> | [e ->]]; [eexists; repeat split|].
    destruct ok; eexists; repeat split.
  - unfold fetch_metadata, store_fetch, store_set, store_log, modify, throw, lift.
    cbn [bind ret M_Monad].
    destruct resp as [e | ok status body]; [eexists; repeat split|].
    destruct Hfail as [-> | [e ->]]; [eexists; repeat split|].
    destruct ok; eexists; repeat split.
Qed.

Lemma getTileMetadata_answered layerId zoomCategory bounds now status metadata s :
  uncached layerId (metadata_cacheKey layerId zoomCategory bounds) s ->
  exists s',
    getTileMetadata layerId zoomCategory bounds now
      (FetchResponse true status (Normal metadata)) s
    = (Normal metadata, s') /\
    store s' !! layerId ≫= (fun entries =>
      entries !! metadata_cacheKey layerId zoomCategory bounds)
    = Some (Metadata metadata) /\
    requested s' = requested s ++ [(layerId, zoomCategory, bounds)].
Proof.
  intros Hmiss. unfold uncached in Hmiss.
  unfold getTileMetadata, try_catch, store_log, modify, gets.
  cbn [bind ret M_Monad store].
  destruct (store s !! layerId ≫= _) as [c|] eqn:Hc; [rewrite Hmiss|];
    unfold fetch_metadata, store_fetch, store_set, store_log, modify, throw, lift;
    cbn [bind ret M_Monad negb store requested];
    (eexists; split; [reflexivity|]; split; [|reflexivity]);
    cbn [store]; rewrite lookup_insert_eq; cbn; apply lookup_insert_eq.
Qed.

Lemma getTileMetadata_cached layerId zoomCategory bounds now resp s c :
  store s !! layerId ≫= (fun entries =>
    entries !! metadata_cacheKey layerId zoomCategory bounds) = Some c ->
  JS.truthy (cache_value c) = true ->
  exists s',
    getTileMetadata layerId zoomCategory bounds now resp s = (Normal (cache_value c), s') /\
    store s' = store s /\ requested s' = requested s.
Proof.
  intros Hc Htruthy.
  unfold getTileMetadata, try_catch, store_log, modify, gets.
  cbn [bind ret M_Monad store]. rewrite Hc, Htruthy.
  cbn [bind ret M_Monad]. eexists. repeat split.
Qed.

(** X14.  The client's [getTileMetadata], for a layer id that is not the
    name of an inherited property: it always returns; when the cache has
    nothing for the key and the server does not answer, answers with a
    status that is not ok, or with a body that is not JSON, it returns
    the fallback metadata and stores nothing; when the server answers, it
    returns the metadata received, and if that is truthy every later call
    for the same key returns it without asking the server. *)
Theorem getTileMetadata_never_rejects :
  forall (layerId : string) (zoomCategory : ZoomCategory) (bounds : option string)
         (now : Z) (resp : FetchResult) (s : TileStore),
    WeatherService.inherited layerId = false ->
    let cacheKey := metadata_cacheKey layerId zoomCategory bounds in
    (exists v s', getTileMetadata layerId zoomCategory bounds now resp s = (Normal v, s')) /\
    (uncached layerId cacheKey s -> unanswered resp ->
     exists s',
       getTileMetadata layerId zoomCategory bounds now resp s
       = (Normal (fallback_metadata layerId zoomCategory now), s') /\
       store s' = store s /\
       requested s' = requested s ++ [(layerId, zoomCategory, bounds)]) /\
    (forall status metadata,
       uncached layerId cacheKey s ->
       resp = FetchResponse true status (Normal metadata) ->
       exists s',
         getTileMetadata layerId zoomCategory bounds now resp s = (Normal metadata, s') /\
         requested s' = requested s ++ [(layerId, zoomCategory, bounds)] /\
         (JS.truthy metadata = true ->
          forall now2 resp2,
            exists s2,
              getTileMetadata layerId zoomCategory bounds now2 resp2 s'
              = (Normal metadata, s2) /\
              store s2 = store s' /\ requested s2 = requested s')).
Proof.
  intros layerId zoomCategory bounds now resp s _ cacheKey.
  split; [|split].
  - unfold getTileMetadata, try_catch.
    match goal with
    | |- context [match ?c s with _ => _ end] => destruct (c s) as [[v|e] s1]
    end; eexists _, _; reflexivity.
  - apply getTileMetadata_unanswered.
  - intros status metadata Hmiss ->.
    destruct (getTileMetadata_answered layerId zoomCategory bounds now status metadata s
                Hmiss) as (s' & Hrun & Hstored & Hreq).
    exists s'. split; [exact Hrun|]. split; [exact Hreq|].
    intros Htruthy now2 resp2.
    apply (getTileMetadata_cached layerId zoomCategory bounds now2 resp2 s'
             (Metadata metadata) Hstored Htruthy).
Qed.

End ClientMetadata.

(** ** The client's tables against the server's *)

Section Agreement.
Import WeatherInterface.
Context `{WeatherService.TileHost}.

Lemma known_layer_tile layerId :
  is_tile_layer layerId = true -> known_layer layerId = true.
Proof.
  intros Ht. destruct (is_tile_layer_cases layerId Ht) as [-> | [-> | [-> | ->]]];
    reflexivity.
Qed.

Lemma known_zoom_category c : known_zoom (category_name c) = true.
Proof. destruct c; reflexivity. Qed.

(** X15.  For the four tile layers and the three zoom categories the
    fallback metadata of the client is what the server generates for a
    request without bounds at the same instant, when the server holds the
    key that the client has in its code; its url is the one that
    [getSourceUrlForLayer] gives, and its zoom range is the band of the
    category in [zoomLevels]. *)
Theorem fallback_metadata_agrees :
  forall (layerId : string) (c : ZoomCategory) (now : Z) (st : WeatherService.State),
    is_tile_layer layerId = true ->
    WeatherService.openWeatherMapKey st = apiKey ->
    cache_miss (WeatherService.tiles_cacheKey layerId (category_name c) None) now st ->
    (exists st',
       WeatherService.getWeatherTileMetadata (Some layerId) (Some (category_name c))
         None now st
       = (Normal (fallback_metadata layerId c now), st')) /\
    (exists u,
       getSourceUrlForLayer layerId (Some c) = Some u /\
       JS.get (fallback_metadata layerId c now) "url" = Normal (VStr u)) /\
    JS.get (fallback_metadata layerId c now) "minZoom"
      = Normal (VNum (Fin (band_min (zoomLevels c)))) /\
    JS.get (fallback_metadata layerId c now) "maxZoom"
      = Normal (VNum (Fin (band_max (zoomLevels c)))).
Proof.
  intros layerId c now st Htile Hkey Hmiss.
  split.
  - eexists.
    rewrite (getWeatherTileMetadata_miss layerId (category_name c) None now st).
    + cbn zeta. rewrite Hkey.
      assert (Hpass : passes apiKey layerId (category_name c) = true).
      { apply passes_iff. left.
        split; [apply known_layer_tile; exact Htile | apply known_zoom_category]. }
      rewrite Hpass. f_equal. f_equal.
      destruct (is_tile_layer_cases layerId Htile) as [-> | [-> | [-> | ->]]];
        destruct c; reflexivity.
    + apply known_layer_given, known_layer_tile. exact Htile.
    + apply known_zoom_given, known_zoom_category.
    + exact Hmiss.
  - split.
    + destruct (is_tile_layer_cases layerId Htile) as [-> | [-> | [-> | ->]]];
        destruct c; eexists; split; reflexivity.
    + split; destruct c; reflexivity.
Qed.

End Agreement.

(** ** The viewport and the prefetch queue *)

Section ViewportMoves.
Import WeatherInterface.
Context `{JSHost}.

(** The viewport that [updateViewport] reads off the renderer. *)
Definition camera (st : State) : Viewport :=
  {| bounds := Some (map_bounds (map st));
     center := Some (map_center (map st));
     zoom := map_zoom (map st) |}.

Definition at_camera (st : State) : State := with_viewport (fun _ => camera st) st.

(** A viewport whose centre and zoom are finite numbers. *)
Definition viewport_at (v : Viewport) (x y z : Q) : Prop :=
  is_Some (bounds v) /\
  center v = Some {| lng := Fin x; lat := Fin y |} /\ zoom v = Fin z.

(** The two tests of [shouldPrefetchNewTiles], on finite numbers. *)
Definition zoom_changed (z0 z1 : Q) : bool :=
  Num.gt (Num.abs (Num.sub64 (Fin z1) (Fin z0))) (Fin (1 # 2)).

Definition centre_moved (x0 y0 x1 y1 : Q) : bool :=
  let dx := Num.sub64 (Fin x0) (Fin x1) in
  let dy := Num.sub64 (Fin y0) (Fin y1) in
  Num.sqrt64_gt (Num.add64 (Num.mul64 dx dx) (Num.mul64 dy dy)) fifth.

(** What [updateViewport] comes to, from where the viewport was and where
    the camera is. *)
Lemma updateViewport_moved st x0 y0 z0 x1 y1 z1 :
  viewport_at (currentViewport st) x0 y0 z0 ->
  viewport_at (camera st) x1 y1 z1 ->
  updateViewport st
  = if (zoom_changed z0 z1 || centre_moved x0 y0 x1 y1)%bool
    then queueTilePrefetch (at_camera st)
    else (Normal tt, at_camera st).
Proof.
  intros ([b Hb] & Hc & Hz) (_ & Hc1 & Hz1).
  unfold updateViewport. rewrite bind_gets. rewrite bind_M. unfold modify at 1.
  fold (camera st). fold (at_camera st).
  unfold shouldPrefetchNewTiles. rewrite Hb. rewrite !bind_M. unfold gets at 1.
  cbn [at_camera with_viewport currentViewport]. rewrite Hz, Hz1, Hc, Hc1.
  fold (zoom_changed z0 z1). destruct (zoom_changed z0 z1); [reflexivity|].
  cbn [orb lng lat ret M_Monad]. fold (centre_moved x0 y0 x1 y1).
  destruct (centre_moved x0 y0 x1 y1); reflexivity.
Qed.

Lemma sub64_Fin (a b : Q) : Num.sub64 (Fin a) (Fin b) = Num.binary64 (a - b).
Proof.
  unfold Num.sub64, Num.sub. cbn [Num.neg Num.add Num.to64].
  apply binary64_comp. rewrite !Qred_correct. reflexivity.
Qed.

(** The zoom has changed for the code when it has changed by a half and
    one unit in the last place, and not when it has changed by a half at
    most. *)
Lemma zoom_changed_far (z0 z1 : Q) :
  ((1 # 2) + 2 ^ (-53) <= Qabs (z1 - z0))%Q -> zoom_changed z0 z1 = true.
Proof.
  intros Hfar. unfold zoom_changed. rewrite sub64_Fin.
  set (q := (z1 - z0)%Q) in *.
  set (c := (4503599627370497 # 9007199254740992)%Q).
  assert (Ec : ((1 # 2) + 2 ^ (-53) == c)%Q) by reflexivity.
  rewrite Ec in Hfar.
  assert (Hc : Num.binary64 c = Fin c) by (vm_compute; reflexivity).
  assert (Hc' : Num.binary64 (- c) = Fin (- c)) by (vm_compute; reflexivity).
  assert (Hgt : (1 # 2 < c)%Q) by reflexivity.
  destruct (Qlt_le_dec q 0) as [Hneg | Hpos].
  - rewrite Qabs_neg in Hfar by lra.
    pose proof (binary64_mono q (- c) ltac:(lra)) as Hle.
    rewrite Hc' in Hle.
    destruct (Num.binary64 q) as [| |v|]; try discriminate Hle; [reflexivity|].
    apply Num_le_Fin in Hle. unfold Num.abs, Num.gt. rewrite negb_true_iff.
    destruct (Qle_bool _ _) eqn:E; [|reflexivity].
    apply Qle_bool_iff in E. rewrite Qred_correct in E.
    rewrite Qabs_neg in E by lra. lra.
  - rewrite Qabs_pos in Hfar by lra.
    pose proof (binary64_mono c q Hfar) as Hle.
    rewrite Hc in Hle.
    destruct (Num.binary64 q) as [| |v|]; try discriminate Hle; [|reflexivity].
    apply Num_le_Fin in Hle. unfold Num.abs, Num.gt. rewrite negb_true_iff.
    destruct (Qle_bool _ _) eqn:E; [|reflexivity].
    apply Qle_bool_iff in E. rewrite Qred_correct in E.
    rewrite Qabs_pos in E by lra. lra.
Qed.

Lemma zoom_changed_near (z0 z1 : Q) :
  (Qabs (z1 - z0) <= 1 # 2)%Q -> zoom_changed z0 z1 = false.
Proof.
  intros Hnear. unfold zoom_changed. rewrite sub64_Fin.
  set (q := (z1 - z0)%Q) in *.
  apply Qabs_Qle_condition in Hnear. destruct Hnear as [Hlo Hhi].
  pose proof (binary64_mono q (1 # 2) Hhi) as Hle.
  pose proof (binary64_mono (- (1 # 2)) q Hlo) as Hge.
  change (Num.binary64 (1 # 2)) with (Fin (1 # 2)) in Hle.
  change (Num.binary64 (- (1 # 2))) with (Fin (- (1 # 2))) in Hge.
  destruct (Num.binary64 q) as [| |v|]; try discriminate Hle; try discriminate Hge.
  apply Num_le_Fin in Hle, Hge. unfold Num.abs, Num.gt. rewrite negb_false_iff.
  apply Qle_bool_iff. rewrite Qred_correct. apply Qabs_Qle_condition. split; lra.
Qed.

(** The error of a square. *)
Lemma square_near (a b e M : Q) :
  (Qabs (a - b) <= e)%Q -> (Qabs b <= M)%Q ->
  (Qabs (a * a - b * b) <= e * (2 * M + e))%Q.
Proof.
  intros Hab Hb.
  apply Qabs_Qle_condition in Hab. destruct Hab as [Hlo Hhi].
  apply Qabs_Qle_condition in Hb. destruct Hb as [Hblo Hbhi].
  apply Qabs_Qle_condition. split; nra.
Qed.

(** The sum of the squares that the code compares, within [10^-8] of the
    exact one, for centres within a thousand degrees of the origin. *)
Lemma squares_near (x0 y0 x1 y1 : Q) :
  (Qabs x0 <= 1000)%Q -> (Qabs y0 <= 1000)%Q ->
  (Qabs x1 <= 1000)%Q -> (Qabs y1 <= 1000)%Q ->
  let dx := Num.sub64 (Fin x0) (Fin x1) in
  let dy := Num.sub64 (Fin y0) (Fin y1) in
  exists S : Q,
    Num.add64 (Num.mul64 dx dx) (Num.mul64 dy dy) = Fin S /\
    (Qabs (S - ((x0 - x1) * (x0 - x1) + (y0 - y1) * (y0 - y1))) <= 1 # 100000000)%Q.
Proof.
  intros Hx0 Hy0 Hx1 Hy1 dx dy. subst dx dy. rewrite !sub64_Fin.
  apply Qabs_Qle_condition in Hx0, Hy0, Hx1, Hy1.
  destruct Hx0 as [Hx0lo Hx0hi], Hy0 as [Hy0lo Hy0hi],
           Hx1 as [Hx1lo Hx1hi], Hy1 as [Hy1lo Hy1hi].
  assert (Heps : (2 ^ (-53) <= 1 # 9000000000000000)%Q) by (vm_compute; discriminate).
  assert (Htiny : (2 ^ (-1075) <= 1 # 9000000000000000)%Q) by (vm_compute; discriminate).
  pose proof (two_pos (-53)) as Heps0. pose proof (two_pos (-1075)) as Htiny0.
  assert (Hbig : forall B : Q, (B <= 100000000)%Q -> (B < 2 ^ 1023)%Q).
  { intros B HB. apply Qle_lt_trans with (1 := HB). reflexivity. }
  set (a := (x0 - x1)%Q). set (b := (y0 - y1)%Q).
  assert (Ha : (Qabs a <= 2000)%Q) by (subst a; apply Qabs_Qle_condition; split; lra).
  assert (Hb : (Qabs b <= 2000)%Q) by (subst b; apply Qabs_Qle_condition; split; lra).
  destruct (binary64_error a 2000 Ha ltac:(apply Hbig; lra)) as (u & -> & Hu).
  destruct (binary64_error b 2000 Hb ltac:(apply Hbig; lra)) as (w & -> & Hw).
  assert (Hu' : (Qabs (u - a) <= 1 # 4000000000000)%Q).
  { apply Qle_trans with (1 := Hu). lra. }
  assert (Hw' : (Qabs (w - b) <= 1 # 4000000000000)%Q).
  { apply Qle_trans with (1 := Hw). lra. }
  pose proof (square_near u a _ _ Hu' Ha) as Hsu.
  pose proof (square_near w b _ _ Hw' Hb) as Hsw.
  assert (Hsquare : forall q : Q, (Qabs q <= 2000)%Q -> (0 <= q * q <= 4000000)%Q).
  { intros q Hq. apply Qabs_Qle_condition in Hq. destruct Hq. split; nra. }
  pose proof (Hsquare a Ha) as Haa. pose proof (Hsquare b Hb) as Hbb.
  apply Qabs_Qle_condition in Hsu, Hsw.
  unfold Num.mul64. cbn [Num.mul Num.to64].
  destruct (binary64_error (Qred (u * u)) 5000000) as (s & -> & Hs).
  { rewrite Qred_correct. apply Qabs_Qle_condition. split; lra. }
  { apply Hbig. lra. }
  destruct (binary64_error (Qred (w * w)) 5000000) as (t & -> & Ht).
  { rewrite Qred_correct. apply Qabs_Qle_condition. split; lra. }
  { apply Hbig. lra. }
  rewrite Qred_correct in Hs, Ht. apply Qabs_Qle_condition in Hs, Ht.
  unfold Num.add64. cbn [Num.add Num.to64].
  destruct (binary64_error (Qred (s + t)) 20000000) as (S & -> & HS).
  { rewrite Qred_correct. apply Qabs_Qle_condition. split; lra. }
  { apply Hbig. lra. }
  rewrite Qred_correct in HS. apply Qabs_Qle_condition in HS.
  exists S. split; [reflexivity|]. apply Qabs_Qle_condition. split; lra.
Qed.

(** The midpoint between the binary64 number 0.2 and the one after it,
    squared. *)
Definition threshold : Q :=
  Eval vm_compute in Qred ((fifth + 2 ^ (Num.exponent64 fifth - 53))
                           * (fifth + 2 ^ (Num.exponent64 fifth - 53))).

Lemma Qle_bool_comp_r (x m m' : Q) : (m == m')%Q -> Qle_bool x m = Qle_bool x m'.
Proof.
  intros E. destruct (Qle_bool x m) eqn:E1, (Qle_bool x m') eqn:E2; try reflexivity.
  - apply Qle_bool_iff in E1. rewrite E in E1. apply Qle_bool_iff in E1. congruence.
  - apply Qle_bool_iff in E2. rewrite <- E in E2. apply Qle_bool_iff in E2. congruence.
Qed.

Lemma sqrt64_gt_fifth (S : Q) :
  Num.sqrt64_gt (Fin S) fifth = (Qle_bool 0 S && negb (Qle_bool S threshold))%bool.
Proof.
  unfold Num.sqrt64_gt.
  rewrite (Qle_bool_comp_r S _ threshold) by (vm_compute; reflexivity).
  reflexivity.
Qed.

Lemma centre_moved_far (x0 y0 x1 y1 : Q) :
  (Qabs x0 <= 1000)%Q -> (Qabs y0 <= 1000)%Q ->
  (Qabs x1 <= 1000)%Q -> (Qabs y1 <= 1000)%Q ->
  ((1 # 25) + (2 # 100000000)
   <= (x0 - x1) * (x0 - x1) + (y0 - y1) * (y0 - y1))%Q ->
  centre_moved x0 y0 x1 y1 = true.
Proof.
  intros Hx0 Hy0 Hx1 Hy1 Hfar.
  destruct (squares_near x0 y0 x1 y1 Hx0 Hy0 Hx1 Hy1) as (S & HS & Herr).
  unfold centre_moved. rewrite HS, sqrt64_gt_fifth.
  apply Qabs_Qle_condition in Herr. destruct Herr as [Hlo Hhi].
  assert (Ht : (threshold < (1 # 25) + (1 # 100000000))%Q) by (vm_compute; reflexivity).
  apply andb_true_iff. split; [apply Qle_bool_iff; lra|].
  rewrite negb_true_iff. destruct (Qle_bool S threshold) eqn:E; [|reflexivity].
  apply Qle_bool_iff in E. lra.
Qed.

Lemma centre_moved_near (x0 y0 x1 y1 : Q) :
  (Qabs x0 <= 1000)%Q -> (Qabs y0 <= 1000)%Q ->
  (Qabs x1 <= 1000)%Q -> (Qabs y1 <= 1000)%Q ->
  ((x0 - x1) * (x0 - x1) + (y0 - y1) * (y0 - y1)
   <= (1 # 25) - (1 # 100000000))%Q ->
  centre_moved x0 y0 x1 y1 = false.
Proof.
  intros Hx0 Hy0 Hx1 Hy1 Hnear.
  destruct (squares_near x0 y0 x1 y1 Hx0 Hy0 Hx1 Hy1) as (S & HS & Herr).
  unfold centre_moved. rewrite HS, sqrt64_gt_fifth.
  apply Qabs_Qle_condition in Herr. destruct Herr as [Hlo Hhi].
  assert (Ht : ((1 # 25) <= threshold)%Q) by (vm_compute; discriminate).
  apply andb_false_iff. right. rewrite negb_false_iff. apply Qle_bool_iff. lra.
Qed.

(** A move of the binary64 number 0.2 along the parallel is not a move
    for the code, which asks for more. *)
Lemma centre_moved_fifth (x0 y0 x1 y1 : Q) :
  (x0 - x1 == fifth)%Q -> (y0 == y1)%Q -> centre_moved x0 y0 x1 y1 = false.
Proof.
  intros Hx Hy. unfold centre_moved. rewrite !sub64_Fin.
  assert (Hy' : (y0 - y1 == 0)%Q) by (rewrite Hy; ring).
  rewrite (binary64_comp _ _ Hx), (binary64_comp _ _ Hy').
  vm_compute. reflexivity.
Qed.

(** X16.  [updateViewport] takes the viewport from the renderer and then
    rebuilds the prefetch queue for the new bounds when there was no
    viewport before, and otherwise when one of the two tests of
    [shouldPrefetchNewTiles], computed in binary64 as the code computes
    them, holds; else it only records the viewport.  The queue is rebuilt
    when the zoom has changed by 0.5 and one unit in the last place or
    more, or when, the centres being within a thousand degrees of the
    origin, the square of the distance between them is [0.04 + 2 * 10^-8]
    or more; the viewport is only recorded when the zoom has changed by
    0.5 at most and the square of the distance is [0.04 - 10^-8] at most,
    and also when, the zoom being as it was, the centre has moved along
    the parallel by the binary64 number 0.2 exactly. *)
Theorem updateViewport_prefetches :
  forall st : State,
    let requeued :=
      (if prefetchInProgress st then ret tt else processPrefetchQueue)
        (with_queue (fun _ => batch (at_camera st) (map_bounds (map st))) (at_camera st)) in
    (bounds (currentViewport st) = None -> updateViewport st = requeued) /\
    (forall x0 y0 z0 x1 y1 z1 : Q,
       viewport_at (currentViewport st) x0 y0 z0 ->
       viewport_at (camera st) x1 y1 z1 ->
       let distance2 := ((x0 - x1) * (x0 - x1) + (y0 - y1) * (y0 - y1))%Q in
       let within := ((Qabs x0 <= 1000)%Q /\ (Qabs y0 <= 1000)%Q /\
                      (Qabs x1 <= 1000)%Q /\ (Qabs y1 <= 1000)%Q) in
       updateViewport st
       = (if (zoom_changed z0 z1 || centre_moved x0 y0 x1 y1)%bool
          then requeued else (Normal tt, at_camera st)) /\
       (((1 # 2) + 2 ^ (-53) <= Qabs (z1 - z0))%Q -> updateViewport st = requeued) /\
       (within -> ((1 # 25) + (2 # 100000000) <= distance2)%Q ->
        updateViewport st = requeued) /\
       (within -> (Qabs (z1 - z0) <= 1 # 2)%Q ->
        (distance2 <= (1 # 25) - (1 # 100000000))%Q ->
        updateViewport st = (Normal tt, at_camera st)) /\
       ((z1 == z0)%Q -> (x0 - x1 == fifth)%Q -> (y0 == y1)%Q ->
        updateViewport st = (Normal tt, at_camera st))).
Proof.
  intros st requeued.
  assert (Hq : queueTilePrefetch (at_camera st) = requeued).
  { subst requeued.
    rewrite (queueTilePrefetch_eq (at_camera st) (map_bounds (map st)) eq_refl).
    reflexivity. }
  split.
  - intros Hnone. rewrite <- Hq.
    unfold updateViewport. rewrite bind_gets. rewrite bind_M. unfold modify at 1.
    fold (camera st). fold (at_camera st).
    unfold shouldPrefetchNewTiles. rewrite Hnone. reflexivity.
  - intros x0 y0 z0 x1 y1 z1 Hprev Hcam distance2 within.
    rewrite (updateViewport_moved st x0 y0 z0 x1 y1 z1 Hprev Hcam), Hq.
    split; [reflexivity|]. split; [|split; [|split]].
    + intros Hz. rewrite (zoom_changed_far z0 z1 Hz). reflexivity.
    + intros (Hx0 & Hy0 & Hx1 & Hy1) Hfar.
      rewrite (centre_moved_far x0 y0 x1 y1 Hx0 Hy0 Hx1 Hy1 Hfar), orb_true_r.
      reflexivity.
    + intros (Hx0 & Hy0 & Hx1 & Hy1) Hz Hnear.
      rewrite (zoom_changed_near z0 z1 Hz),
        (centre_moved_near x0 y0 x1 y1 Hx0 Hy0 Hx1 Hy1 Hnear).
      reflexivity.
    + intros Hz Hx Hy.
      rewrite (zoom_changed_near z0 z1), (centre_moved_fifth x0 y0 x1 y1 Hx Hy).
      * reflexivity.
      * assert (E : (z1 - z0 == 0)%Q) by (rewrite Hz; ring).
        rewrite E. discriminate.
Qed.

End ViewportMoves.

(** ** Invariants of the layer lifecycle *)

Section Invariants.
Import WeatherInterface.

(** A property of the state that, once it holds, goes on holding. *)
Definition invariant (P : State -> Prop) : relation State :=
  fun st st' => P st -> P st'.

(** The entries of [weatherLayers] are as they were, but for the entry of
    [layerId], which may have been replaced by a visible record of that
    type. *)
Definition rebuilt (layerId : string) : relation State :=
  fun st st' =>
    weatherLayers st' = weatherLayers st \/
    exists r, weatherLayers st' = <[layerId := r]> (weatherLayers st) /\
              visibility r = visible /\ type r = Some layerId.

(** What the tile cache holds for a layer and a key. *)
Definition cached (layerId cacheKey : string) (st : State) : option TileCacheEntry :=
  tileCache st !! layerId ≫= (fun entries => entries !! cacheKey).

(** No entry of the tile cache has gone. *)
Definition cache_grows : relation State :=
  fun st st' =>
    forall layerId cacheKey,
      is_Some (cached layerId cacheKey st) -> is_Some (cached layerId cacheKey st').

(** The flags of the layers [ks] all have the value [b]. *)
Definition flags_are (ks : list string) (b : bool) (st : State) : Prop :=
  Forall (fun k => is_active k st = b) ks.

(** The sublayers [ids] that the renderer has all have the visibility
    [v]. *)
Definition sublayers_are (ids : list string) (v : Visibility) (st : State) : Prop :=
  forall id l, In id ids -> map_layers (map st) !! id = Some l -> layer_visibility l = v.

(** The flag of a layer, once down, stays down. *)
Definition stays_down (layerId : string) : relation State :=
  fun st st' => is_active layerId st = false -> is_active layerId st' = false.

Lemma assoc_set_stays k k' b l :
  assoc_get k l = b -> assoc_get k (assoc_set k' b l) = b.
Proof.
  intros Hb. destruct (String.eqb k k') eqn:E.
  - apply String.eqb_eq in E. subst k'. apply assoc_get_set_eq.
  - apply String.eqb_neq in E. rewrite assoc_get_set_ne by exact E. exact Hb.
Qed.

End Invariants.

#[global] Instance invariant_PreOrder (P : WeatherInterface.State -> Prop) :
  PreOrder (invariant P).
Proof. split; [intros st; exact id | intros a b c Hab Hbc Ha; auto]. Qed.

#[global] Instance rebuilt_PreOrder layerId : PreOrder (rebuilt layerId).
Proof.
  split; [intros st; left; reflexivity|].
  intros a b c [Hab | (r & Hab & Hr)] [Hbc | (r' & Hbc & Hr')]; unfold rebuilt.
  - left. congruence.
  - right. exists r'. rewrite Hbc, Hab. split; [reflexivity | exact Hr'].
  - right. exists r. rewrite Hbc, Hab. split; [reflexivity | exact Hr].
  - right. exists r'. rewrite Hbc, Hab, insert_insert_eq. split; [reflexivity | exact Hr'].
Qed.

#[global] Instance stays_down_PreOrder layerId : PreOrder (stays_down layerId).
Proof. split; [intros st; exact id | intros a b c Hab Hbc Ha; auto]. Qed.

#[global] Instance cache_grows_PreOrder : PreOrder cache_grows.
Proof. split; [intros st ? ?; exact id | intros a b c Hab Hbc ? ? Ha; auto]. Qed.

(** ** The builders *)

Section Builders.
Import WeatherInterface.

(** Closing the obligations on [modify] for [rebuilt]. *)
Ltac rebuilt_leaf :=
  unfold rebuilt; cbn;
  first [ left; reflexivity
        | right; eexists; split; [reflexivity | split; reflexivity] ].

(** What a builder does to [weatherLayers], and that it does not throw. *)
Definition rebuilds (builder : M State unit) (layerId : string) : Prop :=
  forall st, exists st', builder st = (Normal tt, st') /\ rebuilt layerId st st'.

Lemma rebuilds_intro builder layerId :
  returns builder -> preserves (rebuilt layerId) builder -> rebuilds builder layerId.
Proof.
  intros Hret Hkeep st. destruct (Hret st) as ([] & st' & Hrun).
  exists st'. split; [exact Hrun|]. specialize (Hkeep st). rewrite Hrun in Hkeep.
  exact Hkeep.
Qed.

(** X17.  The builders of the temperature, precipitation, wind and cloud
    layers never throw, whatever the renderer refuses, and leave
    [weatherLayers] as it was but for the entry of their own layer, which
    is either untouched or replaced by a visible record of that type. *)
Theorem builders_rebuild_their_entry :
  forall zoomCategory : option ZoomCategory,
    rebuilds (createTemperatureLayer zoomCategory) "temperature" /\
    rebuilds createPrecipitationLayer "precipitation" /\
    rebuilds (createWindLayer zoomCategory) "wind" /\
    rebuilds (createCloudLayer zoomCategory) "cloud".
Proof.
  intros zoomCategory.
  split; [apply rebuilds_intro; [returns_tac | frame_with rebuilt_leaf]|].
  split; [apply rebuilds_intro; [returns_tac | frame_with rebuilt_leaf]|].
  split; apply rebuilds_intro; [returns_tac | frame_with rebuilt_leaf
                               | returns_tac | frame_with rebuilt_leaf].
Qed.

End Builders.

(** [frame_with], through conditionals too; what is known of an
    operation is used where the operation is met. *)
Ltac frame_all leaf :=
  repeat first
    [ solve [auto]
    | match goal with
      | |- preserves _ (ret _) => frame_rule preserves_ret
      | |- preserves _ (gets _) => frame_rule preserves_gets
      | |- preserves _ (throw _) => frame_rule preserves_throw
      | |- preserves _ (forEach _ _) => frame_rule preserves_forEach; intros ?
      | |- preserves _ (when _ _) => frame_rule preserves_when
      | |- preserves _ (try_catch _ _) => frame_rule preserves_try_catch; [|intros ?]
      | |- preserves _ (bind _ _) => frame_rule preserves_bind; [|intros ?]
      | |- preserves _ (modify _) => frame_rule preserves_modify; intros ?; leaf
      | |- preserves _ (if ?b then _ else _) => destruct b
      | |- preserves _ (match ?x with _ => _ end) => destruct x
      end
    | progress autounfold with weather_ops ].

Ltac stays_down_leaf :=
  unfold stays_down, WeatherInterface.is_active; cbn;
  first [ exact id | apply assoc_set_stays ].

Ltac stays_up_leaf :=
  unfold stays_active, WeatherInterface.is_active; cbn;
  first [ exact id | apply assoc_set_stays ].

(** ** The tile cache *)

(** What can happen to the interface: a click on a toggle, a layer shown,
    hidden or refreshed, the end of a move of the camera, a timer that
    fires. *)
Inductive Action : Type :=
| Toggle (layerId : string)
| Show (layerId : string)
| Hide (layerId : string)
| Refresh (layerId : string) (zoomCategory : option WeatherInterface.ZoomCategory)
| MoveEnd
| TimerFires.

Section TileCache.
Import WeatherInterface.
Context `{JSHost}.

Variable createForecastLayer : string -> option ZoomCategory -> M State unit.

(** The state after an action, whether it completed or threw. *)
Definition perform (a : Action) (st : State) : State :=
  match a with
  | Toggle layerId => snd (toggleLayer createForecastLayer layerId st)
  | Show layerId => snd (showLayer createForecastLayer layerId st)
  | Hide layerId => snd (hideLayer layerId st)
  | Refresh layerId zoomCategory =>
      snd (refreshLayer createForecastLayer layerId zoomCategory st)
  | MoveEnd => snd (updateViewport st)
  | TimerFires =>
      match turn st with
      | Some (_, st') => st'
      | None => st
      end
  end.

Definition perform_all (actions : list Action) (st : State) : State :=
  fold_left (fun st a => perform a st) actions st.

Hypothesis createForecastLayer_cache :
  forall layerId zoomCategory,
    preserves cache_grows (createForecastLayer layerId zoomCategory).

Ltac cache_leaf := unfold cache_grows, cached; cbn; intros ? ?; exact id.

Lemma prefetch_loaded_grows layerId cacheKey :
  preserves cache_grows (prefetch_loaded layerId cacheKey).
Proof.
  intros st. unfold prefetch_loaded. rewrite bind_gets.
  destruct (tileCache st !! layerId) as [entries|] eqn:Hentries;
    [|intros ? ?; exact id].
  destruct (prefetch_loaded_ok st layerId cacheKey entries Hentries)
    as (st' & Hrun & _ & _ & _ & Hcache & _).
  unfold prefetch_loaded in Hrun. rewrite bind_gets, Hentries in Hrun.
  rewrite Hrun. cbn [snd].
  intros layer key. unfold cached. rewrite Hcache.
  destruct (decide (layer = layerId)) as [->|Hne].
  - rewrite lookup_insert_eq, Hentries. cbn.
    destruct (decide (key = cacheKey)) as [->|Hk].
    + intros _. rewrite lookup_insert_eq. eexists; reflexivity.
    + rewrite lookup_insert_ne by congruence. exact id.
  - rewrite lookup_insert_ne by congruence. exact id.
Qed.

Lemma fire_grows ev : preserves cache_grows (fire ev).
Proof.
  destruct ev as [|layerId cacheKey zoomCategory|layerId v]; cbn [fire].
  - frame_all cache_leaf.
  - apply prefetch_loaded_grows.
  - frame_all cache_leaf.
Qed.

Lemma fetchLayerData_grows layerId zoomCategory :
  preserves cache_grows (fetchLayerData createForecastLayer layerId zoomCategory).
Proof. unfold fetchLayerData. frame_all cache_leaf. Qed.

Lemma showLayer_grows layerId :
  preserves cache_grows (showLayer createForecastLayer layerId).
Proof.
  pose proof fetchLayerData_grows. unfold showLayer. frame_all cache_leaf.
Qed.

Lemma hideLayer_grows layerId : preserves cache_grows (hideLayer layerId).
Proof. unfold hideLayer. frame_all cache_leaf. Qed.

Lemma perform_grows a st : cache_grows st (perform a st).
Proof.
  pose proof fetchLayerData_grows. pose proof showLayer_grows.
  pose proof hideLayer_grows.
  destruct a as [layerId|layerId|layerId|layerId zoomCategory| |]; cbn [perform].
  - assert (Hk : preserves cache_grows (toggleLayer createForecastLayer layerId))
      by (unfold toggleLayer; frame_all cache_leaf).
    apply Hk.
  - apply showLayer_grows.
  - apply hideLayer_grows.
  - assert (Hk : preserves cache_grows
                   (refreshLayer createForecastLayer layerId zoomCategory))
      by (unfold refreshLayer; frame_all cache_leaf).
    apply Hk.
  - assert (Hk : preserves cache_grows updateViewport)
      by (unfold updateViewport, shouldPrefetchNewTiles; frame_all cache_leaf).
    apply Hk.
  - unfold turn. destruct (next_timer (timers st)) as [[t rest]|]; [|reflexivity].
    pose proof (fire_grows (event t)
                  (with_clock (Z.max (clock st) (due t))
                     (with_timers (fun _ => rest) st))) as Hfire.
    destruct (fire (event t) _) as [c st']. exact Hfire.
Qed.

(** X18.  Nothing evicts the tile cache: whatever toggles, shows, hides,
    refreshes, moves of the camera and timers follow one another, an
    entry that the cache holds for a layer and a key is still held
    afterwards.  The builder of the forecast layers is a parameter,
    assumed to remove no entry. *)
Theorem tileCache_never_shrinks :
  forall (actions : list Action) (st : State) (layerId cacheKey : string),
    is_Some (cached layerId cacheKey st) ->
    is_Some (cached layerId cacheKey (perform_all actions st)).
Proof.
  induction actions as [|a actions IH]; intros st layerId cacheKey Hin; [exact Hin|].
  cbn [perform_all fold_left]. apply IH. apply (perform_grows a st). exact Hin.
Qed.

End TileCache.

(** ** Toggling a layer *)

Section Toggle.
Import WeatherInterface.
Context `{JSHost}.

Variable createForecastLayer : string -> option ZoomCategory -> M State unit.

(** The builder of the forecast layers leaves the flags alone. *)
Hypothesis createForecastLayer_flags :
  forall layerId zoomCategory,
    preserves (same activeWeatherLayers) (createForecastLayer layerId zoomCategory).

Lemma set_flag_keeps ks b k st :
  flags_are ks b st -> flags_are ks b (with_active (assoc_set k b) st).
Proof.
  unfold flags_are. rewrite !Forall_forall. intros HP x Hx.
  unfold is_active. cbn. apply assoc_set_stays. apply HP. exact Hx.
Qed.

Ltac flags_leaf :=
  unfold invariant;
  first [ apply set_flag_keeps
        | unfold flags_are, is_active; cbn; exact id ].

Lemma createForecastLayer_keeps_flags ks b layerId zoomCategory :
  preserves (invariant (flags_are ks b)) (createForecastLayer layerId zoomCategory).
Proof.
  intros st. pose proof (createForecastLayer_flags layerId zoomCategory st) as Hsame.
  unfold same in Hsame. unfold invariant, flags_are, is_active. rewrite Hsame. exact id.
Qed.

Lemma fetchLayerData_keeps_up ks layerId zoomCategory :
  preserves (invariant (flags_are ks true))
    (fetchLayerData createForecastLayer layerId zoomCategory).
Proof.
  pose proof (createForecastLayer_keeps_flags ks true).
  unfold fetchLayerData. frame_all flags_leaf.
Qed.

Lemma showLayer_keeps_up ks layerId :
  preserves (invariant (flags_are ks true)) (showLayer createForecastLayer layerId).
Proof.
  pose proof (fetchLayerData_keeps_up ks).
  unfold showLayer. frame_all flags_leaf.
Qed.

Lemma hideLayer_keeps_down ks layerId :
  preserves (invariant (flags_are ks false)) (hideLayer layerId).
Proof. unfold hideLayer. frame_all flags_leaf. Qed.

(** A branch on the flag of a layer whose flag is known. *)
Lemma preserves_flag_branch {A : Type} ks b k (onTrue onFalse : M State A) :
  k ∈ ks ->
  (b = true -> preserves (invariant (flags_are ks b)) onTrue) ->
  (b = false -> preserves (invariant (flags_are ks b)) onFalse) ->
  preserves (invariant (flags_are ks b))
    (let* on := gets (is_active k) in if on then onTrue else onFalse).
Proof.
  intros Hin HT HF st HP. rewrite bind_gets.
  assert (Hk : is_active k st = b).
  { unfold flags_are in HP. rewrite Forall_forall in HP. apply HP. exact Hin. }
  rewrite Hk. destruct b; [apply HT | apply HF]; auto.
Qed.

Lemma preserves_flag_branch_then {A B : Type} ks b k (onTrue onFalse : M State A)
  (next : M State B) :
  k ∈ ks ->
  (b = true -> preserves (invariant (flags_are ks b)) onTrue) ->
  (b = false -> preserves (invariant (flags_are ks b)) onFalse) ->
  preserves (invariant (flags_are ks b)) next ->
  preserves (invariant (flags_are ks b))
    (let* on := gets (is_active k) in (if on then onTrue else onFalse) ;;; next).
Proof.
  intros Hin HT HF HN st HP. rewrite bind_gets.
  assert (Hk : is_active k st = b).
  { unfold flags_are in HP. rewrite Forall_forall in HP. apply HP. exact Hin. }
  rewrite Hk.
  assert (Hb : preserves (invariant (flags_are ks b))
                 ((if b then onTrue else onFalse) ;;; next)).
  { frame_rule preserves_bind; [destruct b; auto | intros _; exact HN]. }
  apply Hb. exact HP.
Qed.

(** Showing or hiding by the flag, with the flag at [b]. *)
Lemma show_or_hide_keeps ks b k layerId :
  k ∈ ks ->
  preserves (invariant (flags_are ks b))
    (let* on := gets (is_active k) in
     if on then showLayer createForecastLayer layerId else hideLayer layerId).
Proof.
  intros Hin. apply preserves_flag_branch; [exact Hin | |]; intros ->.
  - apply showLayer_keeps_up.
  - apply hideLayer_keeps_down.
Qed.

Lemma toggle_tail_keeps ks b layerId :
  layerId ∈ ks ->
  preserves (invariant (flags_are ks b))
    (if String.eqb layerId "cities" then
       console_log "City labels are managed with temperature layer"
     else
       let* on := gets (is_active layerId) in
       (if on then showLayer createForecastLayer layerId else hideLayer layerId) ;;;
       console_log "Active weather layers:").
Proof.
  intros Hin. destruct (String.eqb layerId "cities"); [frame_all flags_leaf|].
  apply preserves_flag_branch_then; [exact Hin | | |].
  - intros ->. apply showLayer_keeps_up.
  - intros ->. apply hideLayer_keeps_down.
  - frame_all flags_leaf.
Qed.

(** A run ends in a state with the property its final state has. *)
Lemma ends_with {A : Type} (c : M State A) (st : State) (P : State -> Prop) :
  P (snd (c st)) -> exists r st', c st = (r, st') /\ P st'.
Proof. destruct (c st) as [r st']. intros HP. exists r, st'. split; [reflexivity | exact HP]. Qed.

(** The layers that the panel has a toggle for. *)
Definition panel_layers : list string :=
  [ "temperature"; "precipitation"; "wind"; "cloud";
    "hurricane"; "wildfire"; "disaster";
    "forecastTemp"; "forecastPrecip"; "forecastWind" ].

(** X19.  For a layer of the panel, and for [cities]: [toggleLayer] never
    throws; it always ends with the flag of the layer negated, whatever
    happens while the layer is shown or hidden; and after a toggle of
    [temperature] the flag of [cities] is equal to that of [temperature].
    None of these ids is the name of a property that [activeWeatherLayers]
    inherits from [Object.prototype], so that a flag that was never set
    reads as false.  The builder of the forecast layers is a parameter, assumed
    to leave the flags alone. *)
Theorem toggleLayer_flips_flag :
  forall (layerId : string) (st : State),
    In layerId ("cities" :: panel_layers) ->
    exists st',
      toggleLayer createForecastLayer layerId st = (Normal tt, st') /\
      is_active layerId st' = negb (is_active layerId st) /\
      (layerId = "temperature" -> is_active "cities" st' = is_active "temperature" st') /\
      WeatherService.inherited layerId = false.
Proof.
  intros layerId st Hpanel.
  assert (Hown : WeatherService.inherited layerId = false).
  { cbn in Hpanel.
    repeat (destruct Hpanel as [<- | Hpanel]; [reflexivity|]). destruct Hpanel. }
  clear Hpanel.
  set (b := negb (is_active layerId st)).
  set (s1 := with_active (assoc_set layerId b) st).
  assert (Hs1 : is_active layerId s1 = b).
  { subst s1. unfold is_active. cbn. apply assoc_get_set_eq. }
  (* the state in which the body of the [try] ends *)
  assert (Hbody :
    exists c st2,
      (let* was := gets (is_active layerId) in
       set_active layerId (negb was) ;;;
       when (String.eqb layerId "temperature")
         (let* temperature := gets (is_active "temperature") in
          set_active "cities" temperature ;;;
          let* on := gets (is_active layerId) in
          if on then showLayer createForecastLayer "cities" else hideLayer "cities") ;;;
       if String.eqb layerId "cities" then
         console_log "City labels are managed with temperature layer"
       else
         let* on := gets (is_active layerId) in
         (if on then showLayer createForecastLayer layerId else hideLayer layerId) ;;;
         console_log "Active weather layers:") st = (c, st2) /\
      is_active layerId st2 = b /\
      (layerId = "temperature" -> is_active "cities" st2 = b)).
  { rewrite bind_gets. rewrite bind_M. unfold set_active at 1, modify at 1.
    fold b. fold s1.
    destruct (String.eqb layerId "temperature") eqn:Etemp.
    - apply String.eqb_eq in Etemp. subst layerId. cbn [when].
      rewrite bind_M. rewrite bind_gets. rewrite Hs1.
      rewrite bind_M. unfold set_active at 1, modify at 1.
      set (s2 := with_active (assoc_set "cities" b) s1).
      assert (Hs2 : flags_are ["temperature"; "cities"] b s2).
      { subst s2. unfold flags_are, is_active. cbn. repeat constructor.
        - rewrite assoc_get_set_ne by discriminate. exact Hs1.
        - apply assoc_get_set_eq. }
      pose proof (show_or_hide_keeps ["temperature"; "cities"] b "temperature" "cities"
                    ltac:(set_solver) s2 Hs2) as Hcascade.
      destruct ((let* on := gets (is_active "temperature") in
                 if on then showLayer createForecastLayer "cities" else hideLayer "cities")
                  s2) as [[[]|e] s3] eqn:Ecascade; cbn [snd] in Hcascade.
      + apply (ends_with _ s3 (fun st2 =>
                 is_active "temperature" st2 = b /\
                 ("temperature" = "temperature" -> is_active "cities" st2 = b))).
        pose proof (toggle_tail_keeps ["temperature"; "cities"] b "temperature"
                      ltac:(set_solver) s3 Hcascade) as Htail.
        unfold flags_are in Htail. rewrite Forall_forall in Htail.
        split; [apply Htail; set_solver|].
        intros _. apply Htail. set_solver.
      + exists (Throw e), s3. split; [reflexivity|].
        unfold flags_are in Hcascade. rewrite Forall_forall in Hcascade.
        split; [apply Hcascade; set_solver|].
        intros _. apply Hcascade. set_solver.
    - cbn [when]. rewrite bind_M. cbn [ret M_Monad].
      assert (Hflag : flags_are [layerId] b s1) by (repeat constructor; exact Hs1).
      apply (ends_with _ s1 (fun st2 =>
               is_active layerId st2 = b /\
               (layerId = "temperature" -> is_active "cities" st2 = b))).
      pose proof (toggle_tail_keeps [layerId] b layerId ltac:(set_solver) s1 Hflag)
        as Htail.
      unfold flags_are in Htail. rewrite Forall_forall in Htail.
      split; [apply Htail; set_solver|].
      intros ->. discriminate Etemp. }
  destruct Hbody as (c & st2 & Hrun & Hflag & Hcities).
  unfold toggleLayer, try_catch. rewrite Hrun.
  destruct c as [[]|e].
  - exists st2. split; [reflexivity|]. split; [exact Hflag|]. split; [|exact Hown].
    intros Ht. rewrite (Hcities Ht). subst layerId. symmetry. exact Hflag.
  - eexists. split; [reflexivity|]. unfold console_log, modify, is_active. cbn.
    split; [exact Hflag|]. split; [|exact Hown].
    intros Ht. subst layerId. unfold is_active in *. rewrite (Hcities eq_refl).
    symmetry. exact Hflag.
Qed.

End Toggle.

(** ** Hiding a layer and showing it again *)

Section RoundTrip.
Import WeatherInterface.
Context `{JSHost}.

Variable createForecastLayer : string -> option ZoomCategory -> M State unit.

(** The entry of [layerId] is the record [r] with the visibility [v], and
    the sublayers it lists that the renderer has all have that
    visibility. *)
Definition settled (layerId : string) (r : LayerRecord) (v : Visibility) (st : State)
  : Prop :=
  weatherLayers st !! layerId = Some (set_visibility v r) /\
  sublayers_are (layers r) v st.

Lemma settled_layout layerId r v id st :
  settled layerId r v st ->
  settled layerId r v (with_map (with_layers (alter (set_layer_visibility v) id)) st).
Proof.
  intros [Hr Hsub]. split; [exact Hr|].
  intros x l Hin. cbn. rewrite lookup_alter.
  destruct (decide (id = x)) as [->|Hne]; [|apply Hsub; exact Hin].
  destruct (map_layers (map st) !! x); cbn; [|discriminate].
  intros [= <-]. reflexivity.
Qed.

Lemma settled_record layerId r v k st :
  settled layerId r v st ->
  settled layerId r v (with_weatherLayers (alter (set_visibility v) k) st).
Proof.
  intros [Hr Hsub]. split; [|exact Hsub].
  cbn. rewrite lookup_alter.
  destruct (decide (k = layerId)) as [->|Hne]; [|exact Hr].
  rewrite Hr. reflexivity.
Qed.

Lemma settled_delete layerId r v id st :
  settled layerId r v st ->
  settled layerId r v (with_map (with_layers (delete id)) st).
Proof.
  intros [Hr Hsub]. split; [exact Hr|].
  intros x l Hin. cbn. intros Hl. apply lookup_delete_Some in Hl as [_ Hl].
  exact (Hsub x l Hin Hl).
Qed.

Lemma settled_insert layerId r id source opacity st :
  settled layerId r visible st ->
  settled layerId r visible
    (with_map (with_layers
       (<[id := {| layer_source := source; layer_visibility := visible;
                   raster_opacity := opacity |}]>)) st).
Proof.
  intros [Hr Hsub]. split; [exact Hr|].
  intros x l Hin. cbn. destruct (decide (id = x)) as [->|Hne].
  - rewrite lookup_insert_eq. intros [= <-]. reflexivity.
  - rewrite lookup_insert_ne by exact Hne. apply Hsub. exact Hin.
Qed.

Lemma settled_other layerId r v k r' st :
  k <> layerId ->
  settled layerId r v st ->
  settled layerId r v (with_weatherLayers (<[k := r']>) st).
Proof.
  intros Hne [Hr Hsub]. split; [|exact Hsub].
  cbn. rewrite lookup_insert_ne by exact Hne. exact Hr.
Qed.

Ltac settled_leaf :=
  unfold invariant;
  first [ apply settled_layout
        | apply settled_record
        | apply settled_delete
        | apply settled_insert
        | apply settled_other; discriminate
        | unfold settled, sublayers_are; cbn; exact id ].

(** The sublayers and the entry of a record that is there get the
    visibility [v]; nothing is asked of the server. *)
Lemma show_or_hide_record_settles layerId r r0 v st :
  weatherLayers st !! layerId = Some r0 ->
  layers r0 = layers r ->
  set_visibility v r0 = set_visibility v r ->
  exists st',
    show_or_hide_record layerId v r0 st = (Normal tt, st') /\
    settled layerId r v st'.
Proof.
  intros Hr Hlayers Hset. unfold show_or_hide_record.
  destruct (forEach_setVisible v (layers r0) st) as (s1 & Hrun & Hrec & _ & Hvis).
  rewrite (bind_Normal _ _ _ _ _ Hrun).
  eexists. split; [reflexivity|]. split.
  - cbn. rewrite lookup_alter_eq, Hrec, Hr. cbn. rewrite Hset. reflexivity.
  - intros id l Hin Hl. cbn in Hl. apply (Hvis id l Hl). left.
    rewrite Hlayers. exact Hin.
Qed.

(** What [hideLayer] does after the record and its sublayers. *)
Definition hide_rest (layerId : string) : M State unit :=
  let* transitions := gets (fun st => weatherLayers st !! "transitions") in
  match transitions with
  | Some t =>
      forEach
        (fun id => when (is_transition_of layerId id) (setVisibleIfPresent none id))
        (layers t)
  | None => ret tt
  end ;;;
  set_active layerId false ;;;
  when (String.eqb layerId "temperature")
    (set_active "cities" false ;;;
     let* cities := gets (fun st => weatherLayers st !! "cities") in
     match cities with
     | Some r => show_or_hide_record "cities" none r
     | None => ret tt
     end).

(** What [showLayer] does after the record and its sublayers. *)
Definition show_rest (layerId : string) : M State unit :=
  set_active layerId true ;;;
  when (String.eqb layerId "temperature")
    (set_active "cities" true ;;;
     let* cities := gets (fun st => weatherLayers st !! "cities") in
     match cities with
     | Some r => show_or_hide_record "cities" visible r
     | None => initCityLabels
     end ;;;
     updateCityLabelsVisibility) ;;;
  let* b := gets (fun st => bounds (currentViewport st)) in
  when (bool_decide (is_Some b) && is_tile_layer layerId) queueTilePrefetch.

Lemma hideLayer_recorded layerId r st :
  layerId <> "" ->
  weatherLayers st !! layerId = Some r ->
  hideLayer layerId st = (show_or_hide_record layerId none r ;;; hide_rest layerId) st.
Proof.
  intros Hne Hr. unfold hideLayer.
  apply String.eqb_neq in Hne. rewrite Hne.
  rewrite bind_gets, Hr. reflexivity.
Qed.

Lemma showLayer_recorded layerId r st :
  layerId <> "" ->
  weatherLayers st !! layerId = Some r ->
  layers r <> [] ->
  showLayer createForecastLayer layerId st
  = (show_or_hide_record layerId visible r ;;; show_rest layerId) st.
Proof.
  intros Hne Hr Hlayers. unfold showLayer.
  apply String.eqb_neq in Hne. rewrite Hne.
  rewrite bind_gets, Hr.
  destruct (layers r) as [|x l] eqn:El; [congruence|]. reflexivity.
Qed.

Lemma returns_hide_rest layerId : returns (hide_rest layerId).
Proof. unfold hide_rest. returns_tac. Qed.

Lemma returns_show_rest layerId : returns (show_rest layerId).
Proof.
  unfold show_rest.
  apply returns_bind; [returns_tac|intros _].
  apply returns_bind; [returns_tac|intros _].
  apply returns_guarded_prefetch.
Qed.

Lemma hide_rest_settled layerId r :
  preserves (invariant (settled layerId r none)) (hide_rest layerId).
Proof. unfold hide_rest. frame_all settled_leaf. Qed.

Lemma show_rest_settled layerId r :
  preserves (invariant (settled layerId r visible)) (show_rest layerId).
Proof.
  unfold show_rest. destruct (String.eqb layerId "temperature") eqn:Etemp.
  - apply String.eqb_eq in Etemp. subst layerId. frame_all settled_leaf.
  - cbn [when]. frame_all settled_leaf.
Qed.

Lemma hide_rest_lowers layerId :
  ensures (hide_rest layerId) (fun st => is_active layerId st = false).
Proof.
  unfold hide_rest.
  apply ensures_bind; intros t. apply ensures_bind; intros _.
  unfold set_active at 1.
  apply (ensures_modify_then (stays_down layerId)).
  - intros st. apply assoc_get_set_eq.
  - intros st st' Hkept. exact Hkept.
  - frame_all stays_down_leaf.
Qed.

Lemma show_rest_raises layerId :
  ensures (show_rest layerId) (fun st => is_active layerId st = true).
Proof.
  unfold show_rest, set_active at 1.
  apply (ensures_modify_then (stays_active layerId)).
  - intros st. apply assoc_get_set_eq.
  - intros st st' Hkept. exact Hkept.
  - frame_all stays_up_leaf.
Qed.

Ltac same_leaf := unfold same; cbn; reflexivity.

Lemma hideLayer_fetches layerId : preserves (same fetches) (hideLayer layerId).
Proof. unfold hideLayer. frame_all same_leaf. Qed.

Lemma show_recorded_fetches layerId r :
  preserves (same fetches) (show_or_hide_record layerId visible r ;;; show_rest layerId).
Proof. unfold show_rest. frame_all same_leaf. Qed.

(** A step that settles the layer, followed by code that keeps it so. *)
Lemma settle_then {A : Type} (first : M State unit) (rest : M State A)
  (P Q : State -> Prop) (st : State) :
  (exists s1, first st = (Normal tt, s1) /\ P s1) ->
  returns rest ->
  preserves (invariant P) rest ->
  ensures rest Q ->
  exists a st', (first ;;; rest) st = (Normal a, st') /\ P st' /\ Q st'.
Proof.
  intros (s1 & Hfirst & HP) Hret Hkeep HQ.
  rewrite (bind_Normal _ _ _ _ _ Hfirst).
  destruct (Hret s1) as (a & st' & Hrun). exists a, st'.
  split; [exact Hrun|]. split.
  - specialize (Hkeep s1). rewrite Hrun in Hkeep. apply Hkeep. exact HP.
  - exact (HQ _ _ _ Hrun).
Qed.

(** X20.  Hiding a layer that has an entry with sublayers and showing it
    again: both calls complete; after the first the flag is down, the
    entry is the same record with the visibility [none] and every
    sublayer it lists that the renderer has is hidden; after the second
    the flag is up, the entry is the same record with the visibility
    [visible] and those sublayers are visible; the layer is not built
    again and no data is requested. *)
Theorem hide_then_show_restores :
  forall (layerId : string) (r : LayerRecord) (st : State),
    layerId <> "" ->
    weatherLayers st !! layerId = Some r ->
    layers r <> [] ->
    exists hidden shown,
      hideLayer layerId st = (Normal tt, hidden) /\
      showLayer createForecastLayer layerId hidden = (Normal tt, shown) /\
      (is_active layerId hidden = false /\ settled layerId r none hidden) /\
      (is_active layerId shown = true /\ settled layerId r visible shown) /\
      fetches shown = fetches st.
Proof.
  intros layerId r st Hne Hr Hlayers.
  destruct (settle_then (show_or_hide_record layerId none r) (hide_rest layerId)
              (settled layerId r none) (fun s => is_active layerId s = false) st)
    as ([] & hidden & Hhide & Hnone & Hdown).
  { apply (show_or_hide_record_settles layerId r r none st Hr); reflexivity. }
  { apply returns_hide_rest. }
  { apply hide_rest_settled. }
  { apply hide_rest_lowers. }
  rewrite <- (hideLayer_recorded layerId r st Hne Hr) in Hhide.
  pose proof Hnone as [Hentry _].
  destruct (settle_then (show_or_hide_record layerId visible (set_visibility none r))
              (show_rest layerId)
              (settled layerId r visible) (fun s => is_active layerId s = true) hidden)
    as ([] & shown & Hshow & Hvisible & Hup).
  { apply (show_or_hide_record_settles layerId r _ visible hidden Hentry); reflexivity. }
  { apply returns_show_rest. }
  { apply show_rest_settled. }
  { apply show_rest_raises. }
  pose proof (show_recorded_fetches layerId (set_visibility none r) hidden) as Hf2.
  rewrite Hshow in Hf2. cbn [snd] in Hf2.
  rewrite <- (showLayer_recorded layerId _ hidden Hne Hentry Hlayers) in Hshow.
  pose proof (hideLayer_fetches layerId st) as Hf1.
  rewrite Hhide in Hf1. cbn [snd] in Hf1.
  exists hidden, shown.
  split; [exact Hhide|]. split; [exact Hshow|].
  split; [split; [exact Hdown | exact Hnone]|].
  split; [split; [exact Hup | exact Hvisible]|].
  unfold same in Hf1, Hf2. congruence.
Qed.

End RoundTrip.

(** ** Instances of the properties above *)

(** A host of the tile service whose transcendental functions are left
    undetermined; the columns and the metadata without bounds do not call
    them. *)
Definition sample_tiles : WeatherService.TileHost :=
  {| WeatherService.JSON_stringify := fun _ => "{}";
     WeatherService.Math_PI := Fin (355 # 113);
     WeatherService.Math_log := fun _ => NaN;
     WeatherService.Math_tan := fun _ => NaN;
     WeatherService.Math_cos := fun _ => NaN;
     WeatherService.Math_pow2 := fun _ => NaN |}.

(** A service that holds the key that the client has in its code. *)
Definition keyed_service : WeatherService.State :=
  {| WeatherService.openWeatherMapKey := WeatherInterface.apiKey;
     WeatherService.weatherCache := ∅;
     WeatherService.requests := [] |}.

(** A viewport over western Europe. *)
Definition europe : WeatherService.TileBounds :=
  {| WeatherService.north := Fin 50; WeatherService.south := Fin 40;
     WeatherService.east := Fin 10; WeatherService.west := Fin (-10) |}.

(** A storm with a track of two points, and an event with one geometry. *)
Definition sample_storms : jsval :=
  VObj [ ("activeStorms",
          VArr [ VObj [ ("id", VStr "AL012024"); ("name", VStr "Alberto");
                        ("movement", VObj [ ("speed", VNum (Fin 12)) ]);
                        ("track", VArr [ VObj [ ("lat", VNum (Fin 20));
                                                ("time", VStr "2024-01-01 13:45") ];
                                         VObj [ ("lat", VNum (Fin 21)) ] ]);
                        ("forecast", VArr []) ] ]) ].

Definition sample_events : jsval :=
  VObj [ ("events",
          VArr [ VObj [ ("id", VStr "EONET_1"); ("title", VStr "Wildfire");
                        ("categories", VArr [ VObj [ ("title", VStr "Wildfires") ] ]);
                        ("sources", VArr [ VObj [ ("id", VStr "InciWeb");
                                                  ("url", VStr "inciweb") ] ]);
                        ("geometry",
                          VArr [ VObj [ ("date", VStr "2024-01-01 13:45");
                                        ("coordinates",
                                          VArr [ VNum (Fin 20); VNum (Fin 10) ]) ] ]) ] ]) ].

Definition sample_events_normalized : jsval := Eval vm_compute in
    match WeatherService.normalizeDisasterData (H := sample_host) sample_events with
    | Normal out => out
    | Throw _ => VUndef
    end.

(** A client cache that is empty. *)
Definition empty_store : WeatherInterface.TileStore :=
  {| WeatherInterface.store := ∅; WeatherInterface.requested := [];
     WeatherInterface.messages := [] |}.

(** The interface with one tile of the temperature layer in its cache. *)
Definition cached_state : WeatherInterface.State :=
  WeatherInterface.with_tileCache
    (<["temperature" :=
         {[ "temperature_GLOBAL" :=
              {| WeatherInterface.timestamp := 0; WeatherInterface.loaded := true |} ]}]>)
    initial_state.

Section FurtherExamples.
Import WeatherService WeatherInterface.

Lemma fresh_service_miss key now : cache_miss key now fresh_service.
Proof. unfold cache_miss, fresh_service. cbn [weatherCache]. rewrite lookup_empty. exact I. Qed.

Lemma keyed_service_miss key now : cache_miss key now keyed_service.
Proof. unfold cache_miss, keyed_service. cbn [weatherCache]. rewrite lookup_empty. exact I. Qed.

Lemma fetchers_reject_without_fallback_witness :
  exists st',
    getHurricaneData (H := sample_host) 1000 1200 NetworkError fresh_service
    = (Throw (Error "Failed to fetch hurricane data"), st').
Proof.
  destruct (proj1 (proj2 (fetchers_reject_without_fallback (H := sample_host)
                            (Fin 10) (Fin 20) None (fun _ => "") None))
              1000 1200 NetworkError fresh_service)
    as (st' & url & Hrun & _).
  - apply fresh_service_miss.
  - exact I.
  - exists st'. exact Hrun.
Defined.

Lemma fetchers_serve_from_cache_witness :
  exists st1,
    getNaturalDisasterData (H := sample_host) 1000 1200
      (HttpResponse 200 sample_events) fresh_service
    = (Normal sample_events_normalized, st1) /\
    getNaturalDisasterData (H := sample_host) 5000 5200 NetworkError st1
    = (Normal sample_events_normalized, st1).
Proof.
  destruct (proj2 (proj2 (proj2 (fetchers_serve_from_cache (H := sample_host)
                                   (Fin 10) (Fin 20) None (fun _ => "") None)))
              1000 1200 200 sample_events sample_events_normalized fresh_service)
    as (st1 & url & Hrun & _ & _ & Hhit & _).
  - apply fresh_service_miss.
  - lia.
  - vm_compute. reflexivity.
  - exists st1. split; [exact Hrun|]. apply Hhit. lia.
Defined.

Lemma normalizeHurricaneData_storms_witness :
  exists outs,
    normalizeHurricaneData (H := sample_host) 1000 sample_storms = Normal (VArr outs) /\
    length outs = 1%nat /\
    Forall
      (fun o =>
         exists point rest,
           JS.get o "path" = Normal (VArr (point :: rest)) /\
           JS.get point "timestamp" = Normal (VNum (Fin 1704116700000)))
      outs.
Proof.
  destruct (proj1 (normalizeHurricaneData_storms (H := sample_host) 1000 sample_storms _
                     eq_refl))
    as (outs & Hrun & Hlen & Hall).
  - repeat constructor; eexists; (split; [reflexivity|]); repeat constructor.
  - exists outs. split; [exact Hrun|]. split; [exact Hlen|].
    vm_compute in Hrun. injection Hrun as <-. repeat constructor.
    eexists _, _. split; reflexivity.
Defined.

Lemma normalizeDisasterData_events_witness :
  exists outs, sample_events_normalized = VArr outs /\ length outs = 1%nat.
Proof.
  destruct (normalizeDisasterData_events (H := sample_host) sample_events _
              sample_events_normalized eq_refl)
    as (outs & Hout & Hlen & _).
  - vm_compute. reflexivity.
  - exists outs. split; [exact Hout | exact Hlen].
Defined.

Lemma getWeatherTileMetadata_generated_witness :
  exists metadata st1,
    getWeatherTileMetadata (H := sample_tiles) (Some "temperature") (Some "REGIONAL")
      None 1000 fresh_service = (Normal metadata, st1) /\
    requests st1 = requests fresh_service.
Proof.
  destruct (getWeatherTileMetadata_generated (H := sample_tiles)
              "temperature" "REGIONAL" None 1000 fresh_service)
    as (metadata & st1 & c & r & Hrun & _ & _ & _ & Hreq & _).
  - reflexivity.
  - reflexivity.
  - apply fresh_service_miss.
  - exists metadata, st1. split; [exact Hrun | exact Hreq].
Defined.

Lemma getWeatherTileMetadata_inherited_names_witness :
  exists metadata st1,
    getWeatherTileMetadata (H := sample_tiles) (Some "temperature") (Some "constructor")
      None 1000 fresh_service = (Normal metadata, st1) /\
    JS.get metadata "url" = Normal VUndef.
Proof.
  destruct (getWeatherTileMetadata_inherited_names (H := sample_tiles)
              "temperature" "constructor" None 1000 fresh_service)
    as (metadata & st1 & Hrun & Hurl & _).
  - reflexivity.
  - left. reflexivity.
  - intros [Hl _]. discriminate Hl.
  - apply fresh_service_miss.
  - exists metadata, st1. split; [exact Hrun | exact Hurl].
Defined.

Lemma calculateTileCoverage_columns_witness :
  let coverage := calculateTileCoverage (H := sample_tiles) europe (Fin 3) in
  minX coverage = Fin 3 /\ maxX coverage = Fin 4 /\
  Num.le (minX coverage) (maxX coverage) = true /\
  Num.le (maxX coverage) (Fin 8) = true.
Proof.
  destruct (calculateTileCoverage_columns (H := sample_tiles) europe 3 (-10) 10)
    as (Hmin & Hmax & Hmono & _ & _ & Hlast & _).
  - lia.
  - reflexivity.
  - reflexivity.
  - assert (Ewest : tile_column (Fin (-10)) (Fin (inject_Z (2 ^ 3))) = Fin 3)
      by (vm_compute; reflexivity).
    assert (Eeast : tile_column (Fin 10) (Fin (inject_Z (2 ^ 3))) = Fin 4)
      by (vm_compute; reflexivity).
    split; [exact (eq_trans Hmin Ewest)|].
    split; [exact (eq_trans Hmax Eeast)|].
    split; [apply Hmono; discriminate | apply Hlast; discriminate].
Defined.

Lemma getTileMetadata_never_rejects_witness :
  exists s',
    getTileMetadata "temperature" REGIONAL None 1000 (FetchError (Error "offline"))
      empty_store
    = (Normal (fallback_metadata "temperature" REGIONAL 1000), s').
Proof.
  destruct (proj1 (proj2 (getTileMetadata_never_rejects "temperature" REGIONAL None 1000
                            (FetchError (Error "offline")) empty_store eq_refl)))
    as (s' & Hrun & _).
  - unfold uncached, empty_store. cbn [store]. rewrite lookup_empty. exact I.
  - exact I.
  - exists s'. exact Hrun.
Defined.

Lemma fallback_metadata_agrees_witness :
  exists st',
    getWeatherTileMetadata (H := sample_tiles) (Some "wind") (Some "LOCAL") None 1000
      keyed_service
    = (Normal (fallback_metadata "wind" LOCAL 1000), st').
Proof.
  destruct (fallback_metadata_agrees (H := sample_tiles) "wind" LOCAL 1000 keyed_service)
    as (Hrun & _).
  - reflexivity.
  - reflexivity.
  - apply keyed_service_miss.
  - exact Hrun.
Defined.

Lemma no_forecast_cache layerId zoomCategory :
  preserves cache_grows (no_forecast layerId zoomCategory).
Proof. apply preserves_ret. typeclasses eauto. Qed.

Lemma no_forecast_flags layerId zoomCategory :
  preserves (same activeWeatherLayers) (no_forecast layerId zoomCategory).
Proof. apply preserves_ret. typeclasses eauto. Qed.

Lemma tileCache_never_shrinks_witness :
  is_Some (cached "temperature" "temperature_GLOBAL"
             (perform_all (H := sample_host) no_forecast
                [Toggle "temperature"; MoveEnd; TimerFires; Hide "temperature";
                 Refresh "wind" None]
                cached_state)).
Proof.
  apply (tileCache_never_shrinks (H := sample_host) no_forecast no_forecast_cache).
  eexists. vm_compute. reflexivity.
Defined.

Lemma toggleLayer_flips_flag_witness :
  exists st',
    toggleLayer (H := sample_host) no_forecast "temperature" initial_state
    = (Normal tt, st') /\
    is_active "temperature" st' = true /\
    is_active "cities" st' = true.
Proof.
  destruct (toggleLayer_flips_flag (H := sample_host) no_forecast no_forecast_flags
              "temperature" initial_state)
    as (st' & Hrun & Hflag & Hcities & _).
  - right. left. reflexivity.
  - exists st'. split; [exact Hrun|]. split; [exact Hflag|].
    rewrite (Hcities eq_refl). exact Hflag.
Defined.

Lemma hide_then_show_restores_witness :
  exists hidden shown,
    hideLayer "temperature" shown_state = (Normal tt, hidden) /\
    showLayer (H := sample_host) no_forecast "temperature" hidden = (Normal tt, shown) /\
    is_active "temperature" hidden = false /\
    is_active "temperature" shown = true /\
    fetches shown = fetches shown_state.
Proof.
  destruct (hide_then_show_restores (H := sample_host) no_forecast "temperature"
              {| visibility := visible; type := Some "temperature";
                 zoomCategory := Some GLOBAL; fallback := false;
                 layers := ["temperature-global-layer"; "climate-zones-lines";
                            "climate-zones-labels"] |}
              shown_state)
    as (hidden & shown & Hhide & Hshow & [Hdown _] & [Hup _] & Hfetches).
  - discriminate.
  - vm_compute. reflexivity.
  - discriminate.
  - exists hidden, shown. repeat split; assumption.
Defined.

End FurtherExamples.
